(* ===== verification/_CoqProject ===== *)
-Q . S2P
Prelude.v
GoStrings.v
LocalPaths.v
DaemonProtocol.v
StateSchema.v
StateQueries.v
StateTx.v
StateReport.v
StateProcess.v
StateAction.v
StateInvariant.v
StatePreserve.v
StateEffects.v
StateTrace.v
StateEvidence.v
StateSpec.v
StateRefine.v
StateAudit.v
StateSnapshot.v
StateOutbox.v
StateDelivery.v
StateScenario.v
StateHistory.v
StateGuards.v
StateProperties.v
Compaction.v
CompactionProofs.v
Authz.v
ModelRetry.v
ModelContext.v
ModelBudget.v
Sha256.v
LocalStore.v
OutputFile.v
OutputProofs.v
OutputCapture.v
OutputProperties.v
PublicID.v
ToolPermission.v
ProcessCmd.v
DaemonMessages.v
RunnerEnv.v
ClientWorld.v
Reconciliation.v
Launch.v
ReconFrame.v
ReconObjects.v
ReconOrder.v
ReconFences.v
ReconScan.v
LaunchFrame.v
ReconProperties.v
LaunchProperties.v
SocketWorld.v
Socket.v
SocketLogic.v
SocketDiscipline.v
SocketFrame.v
SocketAcks.v
SocketStop.v
SocketHistory.v
SocketQueues.v
SocketStarts.v
SocketScenario.v
SocketProperties.v
SupervisorWorld.v
ProcessGroup.v
Supervisor.v
SupervisorLogic.v
SupervisorCalm.v
SupervisorRespects.v
SupervisorJobs.v
SupervisorInvariant.v
SupervisorSteps.v
SupervisorProgress.v
SupervisorScenario.v
SupervisorProperties.v
