(* ===== verification/Prelude.v ===== *)
(** * Verification of the Omnara daemon and control-plane core

    Omnara runs agents on machines: a control plane (HTTP API, worker, PostgreSQL)
    decides what an agent does, calls language models, and sends actions to a daemon
    on each machine, which runs processes under supervisors and reports what
    happened.  This library models the parts of the Go code ([src/internal]) that
    carry this logic and proves what the rest of the system relies on.  A definition
    keeps the name of the function it translates where Rocq allows it.

    ** The parts and the files

    _Shared_.
    - Prelude.v: notations ([==?], [<>?]), tactics ([bsimpl], [bcases]), 64-bit
      wraparound ([wrap64]), tables as finite maps.
    - GoStrings.v: what the code uses of [unicode/utf8] and [strings].
    - Sha256.v: [crypto/sha256] and big-endian integers, with test vectors.

    _Machine state database_ ([machinedaemon/statedb]): an SQLite file in which the
    daemon and the supervisors of a machine record processes, actions and reports.
    - DaemonProtocol.v, DaemonMessages.v: the vocabulary shared with the server and the
      messages of its socket ([daemonprotocol/protocol.go], [processaction]).
    - StateSchema.v, StateQueries.v: the tables with every CHECK, key, index and
      foreign key, and one definition per generated statement ([dbsqlc/*.sql.go]).
    - StateTx.v: transactions ([store.go]); a fault schedule says which statement
      fails and how, and an error rolls back.
    - StateProcess.v, StateAction.v, StateReport.v: the operations of [process.go],
      [action.go] and [report.go].
    - StateAudit.v: [open], [verifyPragmas], [Audit], [SnapshotForReconciliation].
    - StateInvariant.v, StatePreserve.v, StateEffects.v, StateTrace.v,
      StateEvidence.v, StateHistory.v, StateGuards.v: the invariant [db_ok], its
      preservation, the effect of every call ([run_cmd]) and of histories ([runs]).
    - StateSpec.v: the reference answer of [ApplyOnce]; StateRefine.v: a bank of
      single-slot sequencers the database refines; StateSnapshot.v: the snapshot.
    - StateOutbox.v, StateDelivery.v: [report_outbox.go], one round of selecting,
      sending and settling reports, against an arbitrary server and store.
    - StateScenario.v: a concrete history the witnesses use; StateProperties.v: the
      properties.

    _Captured process output_ ([machinedaemon/output_file.go] over
    [machinedaemon/localstore]).
    - LocalStore.v: a file system (inodes with the number of synced bytes, a current
      and a durable directory) whose calls each consume an entry of a fault schedule;
      atomic replacement, private files and directories.
    - OutputFile.v: the record [processOutput] and all its operations, the header,
      opening, reading, compaction, syncing by size and by timer.
    - OutputProofs.v, OutputCapture.v: what each step does; the invariant [captured].
    - OutputProperties.v: histories, crashes and the properties.

    _Daemon client_ ([machinedaemon/reconciliation.go], [client.go], [client_http.go],
    [runner_ipc_client.go], [local_identity.go], [runner_subprocess.go]).
    - LocalPaths.v: the layout of the home directory ([localstore/store.go]) and what
      it uses of [path/filepath].
    - ClientWorld.v: what the client's functions share: the database, the table of
      processes, sessions with supervisors, lifetime locks, a log, and a stream of
      replies that says how each call ends and what others write in between.
    - Reconciliation.v: the registration snapshot behind fences, registration with
      retries, every directive, recovery of stopped processes, clean-up, the check of
      the supervisors ([verifyProcessSupervisors]).
    - RunnerEnv.v: the environments of supervisors and of the commands they run.
      Launch.v: [Prepare], from the reservation of a process to its running supervisor,
      with every rollback.
    - ReconFrame.v, ReconObjects.v, ReconOrder.v, ReconFences.v, ReconScan.v,
      LaunchFrame.v: what each function leaves alone, opens and releases, in which order
      it acts, and what it holds; ReconProperties.v, LaunchProperties.v: the properties.

    _The daemon's connection_ ([machinedaemon/client_socket.go],
    [storage_exhaustion.go], [report_outbox.go]).
    - SocketWorld.v: programs as interaction trees over atomic steps (a critical
      section, a channel operation, a database call, a call that leaves the
      connection), and the system of all goroutines ([move], [execute]).
    - Socket.v: the loop of a connection, one definition per handler and worker.
    - SocketLogic.v: protocols the goroutines keep, step-indexed since loops need not
      end, and their adequacy; SocketDiscipline.v, SocketFrame.v: the interface
      ([Discipline], [Framing]) through which every protocol gets the handlers it does
      not speak about.
    - SocketAcks.v, SocketStop.v, SocketHistory.v, SocketQueues.v, SocketStarts.v: the
      protocols of report acknowledgements, of the end of a connection, of the database,
      of the action queues and of the starts of processes.
    - SocketScenario.v: a concrete connection; SocketProperties.v: the properties.

    _Process supervisor_ ([machinedaemon/runner_server.go],
    [process_control_unix.go], [runtime_types.go], [runner_protocol.go],
    [runner_exit.go]).
    - ProcessCmd.v: shell commands and action payloads ([processcmd], [processaction]).
    - SupervisorWorld.v: programs as trees of atomic effects, one type of effect per
      lock, memory, channel, database or system call; the system of all goroutines and
      its moves ([move], [execute]).
    - ProcessGroup.v: the process group and the child process.  Supervisor.v: one
      definition per handler and goroutine; [supervise] runs them.
    - SupervisorLogic.v: a program logic: what a thread must hold to perform an effect
      ([pre]) and what it holds afterwards.  SupervisorCalm.v, SupervisorRespects.v,
      SupervisorJobs.v: every function respects it ([body_respects]).
    - SupervisorInvariant.v, SupervisorSteps.v: the invariant of the running system,
      kept by every move; SupervisorProgress.v: exclusion and progress.
    - SupervisorScenario.v: a concrete life of a process; SupervisorProperties.v: the
      properties.

    _Model calls_ (control plane).
    - ModelRetry.v: error classification, stored evidence, retry decision, delays
      ([modelretry], [model/provider_errors.go], [dbsafe]).
    - ModelContext.v, ModelBudget.v: window arithmetic, the media-aware estimate of a
      request and [PrepareForSend] ([modelcontext/budget.go], [model/model.go]).
    - Compaction.v, CompactionProofs.v: the planner of context checkpoints
      ([compaction/planner.go], [compaction/progressive.go]).

    _Access_.
    - Authz.v: roles and actions ([authz/authz.go]).
    - PublicID.v: typed public identifiers ([publicid]).
    - ToolPermission.v: interaction forms and permission decisions
      ([interactionform], [toolpermission], [jsoncanonical]).

    Client, outbox and supervisors reach the state database only through the calls of
    [run_cmd], so that what holds of all histories ([runs]) holds of their runs; the
    client talks to supervisors through the requests Supervisor.v handles, and fences
    them by a session that holds [reconciliationMu]; a connection runs after the
    registration of Reconciliation.v and starts from the state it leaves ([w_startup]),
    and what it asks of the rest of the client is answered by the environment, whatever
    the answer; [PrepareForSend] uses the estimate
    of ModelContext.v and the errors of ModelRetry.v; permission requests use the
    forms.  State is passed explicitly: [Op] and [Tx] for the database, the monad [M]
    for the file system, [IO] for the client; the supervisor and the connection are
    transition systems of goroutines.

    ** What the theorems show

    - C1 to C10, the state database and the outbox: the invariant after any history
      with any faults; actions admitted in order and none twice; atomic failures;
      immutable evidence; the reference answer of [ApplyOnce]; refinement of the
      sequencers; reports are neither lost nor sent out of order; rows that only move
      forward; an exact audit.
    - C11 to C18, the supervisor under every interleaving: nobody writes behind an open
      session; the command starts at most once; actions take effect in order and once;
      no deadlock; no signal to a group whose leader was reaped; effects belong to the
      current action, containment is recorded empty only after reaping, the lifetime
      lock removed only after the recorded closure; no data race on guarded memory;
      runs are histories of the database about the own process.
    - C19 to C24, a connection under every interleaving and every behaviour of the
      server: a process starts once, after its acceptance was recorded; the actions of
      a process run one at a time in the order of their grants; reports are settled by
      what the server said of them; an ending connection is never stuck and outlives
      its workers; runs are histories of the database.
    - C25, messages: what is encoded is decoded to the same message.
    - C26 to C32, the client under interference and failing calls: its runs are
      histories; artefacts go before rows, acceptance before execution; locks and
      sessions are given back; claims are sent behind fences; a preparation hands its
      lock over to the supervisor or accounts for its failure; nothing of the control
      plane but OMNARA_HOME reaches the environment of a command; a recovered process is
      settled.
    - C33 to C35, captured output: the file is always the exact tail of the accepted
      stream, within its bounds; a crash loses less than the sync threshold; a timer
      is pending whenever bytes are unsynced.
    - C36, C37, compaction: no atomic group is split, progress is bounded.
    - C38, model calls: requests fit the window.
    - C39, identifiers: encoding and decoding are inverse, kinds are disjoint.
    - C40, permissions: only an explicit Allow allows.

    Theorems without a number (the snapshot, the acknowledgement, the exclusive
    identity of a database, the guard of deletion, directives that answer the claims,
    roles that do not escalate, the closure of the implication table, private process
    paths, bounded retry delays, storable evidence, the projection of media, error
    classes over the control connection and others) are proved in the same files.

    ** Bounds, fuel and environment

    - [int] and [int64] are integers with the wraparound written out ([wrap64]);
      [time.Duration] and [uint64] generations likewise.
    - [implication_fuel] is 4, one more than the longest chain of the table; Authz.v
      shows that more fuel changes nothing.  [replaceInlineMediaFields] runs on the
      depth of the document; [media_projection_is_exact] shows it is enough.  [write_full] and [copy_n] run on one more
      than the bytes to move, since every iteration moves one or stops.
    - A COMMIT that fails has not committed.  A sync that returns makes the bytes
      written before durable; a crash keeps those and any prefix of the rest, and of a
      name either its last synced or its current file.  A schedule in which every call
      fails from some point on is a crash at that point, so the crash theorem covers
      the inside of operations.
    - Loops that end when a context ends (retries, polls, sessions) run on a number the
      environment draws; theorems hold for every number.  The client's retries take
      theirs from the stream of replies.
    - A connection's calls of the rest of the client ([Prepare], the closing of a
      rejected preparation, the check of the supervisors, the clean-up round, the
      synchronisation of skills) are single steps with an arbitrary answer, and others
      write the database between any two steps: every behaviour of the modelled
      functions is among those, and more.
    - The supervisor's steps are its locks, accesses, calls; the order of the other
      instructions of one goroutine is not observable.  A critical section of one line
      under a private mutex is one step.  A writer of an [RWMutex] announces itself and
      keeps new readers out.  [s.assignment], which the code reads without [mu], is
      read so here ([PeekAssignment]) and is not part of C17.
    - Parameters, each with a concrete instance in a witness where a theorem has
      hypotheses: [ReportCodec], [ClientCodec], [LaunchCodec], [SupervisorCodec],
      [MessageCodec], [SocketCodec], [PayloadCodec], [JsonPackage], [JsonCodec],
      [JsonText] ([encoding/json], texts of errors, the daemon's environment and the
      schema library), [Unicode] (the case mapping of package [unicode]), [Engine] (what SQLite and the operating system answer at open),
      [Client] (a model provider), [unmarshal_parts] (the JSON part count of an event).

    ** Not modelled

    [Client.Run], sleeping and waking of the daemon and the bodies of its HTTP requests;
    the installation of skills; the start-up of a supervisor before its socket listens,
    the framing of its messages and the Windows build; exit observers and PTYs (system
    calls of the model); the parsing of [Retry-After], provider adapters and streaming,
    the PostgreSQL store and the HTTP API (their logic is SQL and glue), the agent
    configuration compiler, MCP, cron schedules.  Next: [Client.Run] over the connection
    and the registration, the start-up of supervisors, the stream accumulators. *)
From stdpp Require Export base gmap strings list sorting fin_maps.
From stdpp Require Import options.
From Stdlib Require Export ZArith Lia.

(** ** Notations: Go's comparison operators as booleans *)

Declare Scope go_scope.
Delimit Scope go_scope with go.
Notation "x ==? y" := (bool_decide (x = y)) (at level 70, no associativity) : go_scope.
Notation "x <>? y" := (negb (bool_decide (x = y))) (at level 70, no associativity) : go_scope.
Global Open Scope go_scope.

(** ** Tactics *)

(** Turn boolean guards of the code into propositions, everywhere. *)
Ltac bsimpl :=
  repeat match goal with
  | H : andb _ _ = true |- _ => apply andb_true_iff in H as [? ?]
  | H : orb _ _ = false |- _ => apply orb_false_iff in H as [? ?]
  | H : orb _ _ = true |- _ => apply orb_true_iff in H
  | H : andb _ _ = false |- _ => apply andb_false_iff in H
  | H : negb _ = true |- _ => apply negb_true_iff in H
  | H : negb _ = false |- _ => apply negb_false_iff in H
  | H : bool_decide _ = true |- _ => apply bool_decide_eq_true in H
  | H : bool_decide _ = false |- _ => apply bool_decide_eq_false in H
  | H : Is_true _ |- _ => apply Is_true_eq_true in H
  | H : (_ <? _)%Z = true |- _ => apply Z.ltb_lt in H
  | H : (_ <? _)%Z = false |- _ => apply Z.ltb_ge in H
  | H : (_ <=? _)%Z = true |- _ => apply Z.leb_le in H
  | H : (_ <=? _)%Z = false |- _ => apply Z.leb_gt in H
  | H : (_ =? _)%Z = true |- _ => apply Z.eqb_eq in H
  | H : (_ =? _)%Z = false |- _ => apply Z.eqb_neq in H
  end.

(** [bsimpl], with the disjunctions of the guards split as well. *)
Ltac bcases :=
  bsimpl; repeat (match goal with H : _ \/ _ |- _ => destruct H end; bsimpl).

(** Split every [if]/[match] of a hypothesis that is an equation between
    results, keeping the scrutinee's equation. *)
Ltac split_match_in H :=
  repeat match type of H with
  | context [if ?b then _ else _] =>
      lazymatch b with context [if _ then _ else _] => fail | _ => destruct b eqn:? end
  end.

(** Guards of the shape [b AND NOT c] that must not hold. *)
Lemma andb_negb_false b c : b && negb c = false <-> (b = true -> c = true).
Proof. destruct b, c; simpl; naive_solver. Qed.

Lemma andb_false_imp b c : b && c = false <-> (b = true -> c = false).
Proof. destruct b, c; simpl; naive_solver. Qed.

(** ** 64-bit signed integers *)

Section Int64.
Local Open Scope Z_scope.

Definition int64_max : Z := 2 ^ 63 - 1.
Definition int64_min : Z := - 2 ^ 63.
Definition is_int64 (z : Z) : Prop := int64_min <= z <= int64_max.

(** Two's complement wrap-around of Go's [int64] and (64-bit) [int]. *)
Definition wrap64 (z : Z) : Z := (z + 2 ^ 63) mod 2 ^ 64 - 2 ^ 63.

Global Instance is_int64_dec z : Decision (is_int64 z).
Proof. unfold is_int64. apply _. Defined.

Lemma wrap64_id z : is_int64 z -> wrap64 z = z.
Proof.
  unfold is_int64, wrap64, int64_min, int64_max. intros H.
  rewrite Z.mod_small; lia.
Qed.

Lemma wrap64_range z : is_int64 (wrap64 z).
Proof.
  unfold is_int64, wrap64, int64_min, int64_max.
  pose proof (Z.mod_pos_bound (z + 2 ^ 63) (2 ^ 64)). lia.
Qed.

(** [n == r + 1] in Go, for [n > r], is the mathematical successor: the
    wrap-around of the maximal value lands below [r]. *)
Lemma wrap64_succ_eq r n : is_int64 r -> r < n -> n = wrap64 (r + 1) -> n = r + 1.
Proof.
  unfold is_int64. intros Hr Hlt ->.
  destruct (decide (r = int64_max)) as [->|Hne].
  - vm_compute in Hlt. congruence.
  - apply wrap64_id. unfold is_int64, int64_min, int64_max in *. lia.
Qed.

Lemma wrap64_succ r n : is_int64 r -> is_int64 n -> r < n -> wrap64 (r + 1) = r + 1.
Proof. intros Hr Hn Hlt. apply wrap64_id. unfold is_int64 in *. lia. Qed.

Lemma wrap64_pred n : 0 < n -> is_int64 n -> wrap64 (n - 1) = n - 1.
Proof.
  intros H0 Hn. apply wrap64_id. unfold is_int64, int64_min in *. lia.
Qed.
End Int64.

Lemma sum3_zero (x y z : Z) :
  (0 <= x -> 0 <= y -> 0 <= z -> (x + y + z = 0 <-> x = 0 /\ y = 0 /\ z = 0))%Z.
Proof. lia. Qed.

(** ** Tables: finite maps from a primary key to a row *)

Section Tables.
Context {R : Type}.
Implicit Types (t : gmap string R) (P Q : R -> bool).

(** The rows of a table, and the rows a [WHERE] clause keeps. *)
Definition rows (t : gmap string R) : list R := (map_to_list t).*2.
Definition select (P : R -> bool) (t : gmap string R) : list R := List.filter P (rows t).

(** A [:one] query: the first row, [None] for [sql.ErrNoRows]. *)
Definition select_one (P : R -> bool) (t : gmap string R) : option R := head (select P t).

(** [SELECT count] and [EXISTS]. *)
Definition count (P : R -> bool) (t : gmap string R) : Z := Z.of_nat (length (select P t)).
Definition exists_row (P : R -> bool) (t : gmap string R) : bool := existsb P (rows t).

(** Removing the rows a [DELETE] (or a cascade) hits. *)
Definition delete_where (P : R -> bool) (t : gmap string R) : gmap string R :=
  filter (fun kr => P kr.2 = false) t.

Lemma elem_of_rows t r : r ∈ rows t <-> exists k, t !! k = Some r.
Proof.
  unfold rows. rewrite list_elem_of_fmap. split.
  - intros ([k r'] & -> & H%elem_of_map_to_list). eauto.
  - intros [k H]. exists (k, r). by rewrite elem_of_map_to_list.
Qed.

Lemma elem_of_select P t r : r ∈ select P t <-> P r = true /\ exists k, t !! k = Some r.
Proof.
  unfold select. rewrite list_elem_of_In, filter_In, <- list_elem_of_In, elem_of_rows.
  tauto.
Qed.

Lemma select_one_Some P t r :
  select_one P t = Some r -> P r = true /\ exists k, t !! k = Some r.
Proof.
  unfold select_one. intros H. apply elem_of_select.
  destruct (select P t); simplify_eq/=. left.
Qed.

Lemma select_one_None P t :
  select_one P t = None <-> forall k r, t !! k = Some r -> P r = false.
Proof.
  unfold select_one. split.
  - intros H k r Hk. destruct (P r) eqn:HP; [|done].
    assert (r ∈ select P t) as Hin by (apply elem_of_select; eauto).
    destruct (select P t); simplify_eq/=. by apply not_elem_of_nil in Hin.
  - intros H. destruct (select P t) as [|r l] eqn:E; [done|].
    assert (r ∈ select P t) as Hin by (rewrite E; left).
    apply elem_of_select in Hin as [HP [k Hk]]. apply H in Hk. congruence.
Qed.

Lemma select_one_is_Some P t k r : t !! k = Some r -> P r = true -> is_Some (select_one P t).
Proof.
  intros Hk HP. destruct (select_one P t) eqn:E; [eauto|].
  by rewrite (proj1 (select_one_None P t) E k r Hk) in HP.
Qed.

Lemma count_zero P t : count P t = 0%Z <-> forall k r, t !! k = Some r -> P r = false.
Proof.
  rewrite <- select_one_None. unfold count, select_one.
  destruct (select P t); simpl; split; intros; try done; lia.
Qed.

Lemma count_nonneg P t : (0 <= count P t)%Z.
Proof. unfold count. lia. Qed.

Lemma exists_row_true P t :
  exists_row P t = true <-> exists k r, t !! k = Some r /\ P r = true.
Proof.
  unfold exists_row. rewrite existsb_exists. setoid_rewrite <- list_elem_of_In.
  setoid_rewrite elem_of_rows. naive_solver.
Qed.

Lemma exists_row_false P t :
  exists_row P t = false <-> forall k r, t !! k = Some r -> P r = false.
Proof.
  destruct (exists_row P t) eqn:E; split; intros H; try done.
  - apply exists_row_true in E as (k & r & Hk & HP). apply H in Hk. congruence.
  - intros k r Hk. destruct (P r) eqn:HP; [|done].
    rewrite <- E. symmetry. apply exists_row_true. eauto.
Qed.

Lemma lookup_delete_where P t k r :
  delete_where P t !! k = Some r <-> t !! k = Some r /\ P r = false.
Proof. unfold delete_where. by rewrite map_lookup_filter_Some. Qed.

Lemma delete_where_None P t k : t !! k = None -> delete_where P t !! k = None.
Proof. intros H. unfold delete_where. rewrite map_lookup_filter, H. done. Qed.

(** When each row carries its key, the rows are distinct. *)
Lemma rows_keys (key : R -> string) t :
  (forall k r, t !! k = Some r -> key r = k) -> key <$> rows t = (map_to_list t).*1.
Proof.
  intros H. unfold rows. rewrite <- list_fmap_compose. apply list_fmap_ext.
  intros i [k r] Hi. simpl. apply H. apply elem_of_map_to_list. by eapply list_elem_of_lookup_2.
Qed.

Lemma rows_NoDup_keys (key : R -> string) t :
  (forall k r, t !! k = Some r -> key r = k) -> NoDup (key <$> rows t).
Proof. intros H. rewrite (rows_keys _ _ H). apply NoDup_fst_map_to_list. Qed.

Lemma rows_NoDup (key : R -> string) t :
  (forall k r, t !! k = Some r -> key r = k) -> NoDup (rows t).
Proof. intros H. eapply NoDup_fmap_1, rows_NoDup_keys, H. Qed.
End Tables.

(** A duplicate-free list whose only element is [a]. *)
Lemma NoDup_singleton {A} (l : list A) a :
  NoDup l -> a ∈ l -> (forall x, x ∈ l -> x = a) -> l = [a].
Proof.
  intros Hnd Ha Hall. destruct l as [|x l]; [by apply not_elem_of_nil in Ha|].
  rewrite (Hall x) in Hnd |- * by left. destruct l as [|y l]; [done|].
  apply NoDup_cons in Hnd as [Hn _]. exfalso. apply Hn.
  rewrite (Hall y); [left|]. right. left.
Qed.

Lemma elem_of_nil_inv {A} (l : list A) : (forall x, x ∉ l) -> l = [].
Proof. intros H. destruct l as [|x l]; [done|]. exfalso. eapply H. left. Qed.

Lemma elem_of_filter_bool {A} (P : A -> bool) l x : x ∈ List.filter P l <-> P x = true /\ x ∈ l.
Proof. rewrite !list_elem_of_In, filter_In. tauto. Qed.

Lemma NoDup_filter_bool {A} (P : A -> bool) l : NoDup l -> NoDup (List.filter P l).
Proof. intros H. apply NoDup_ListNoDup, List.NoDup_filter. by apply NoDup_ListNoDup. Qed.

Create Rewrite HintDb tables.
#[export] Hint Rewrite @lookup_delete_where @exists_row_false @select_one_None @count_zero
  : tables.
