(* ===== verification/GoStrings.v ===== *)
(** * Go strings: UTF-8, trimming, case folding

    What the modelled packages use of Go's [unicode/utf8] and [strings]: a Go
    string is a sequence of bytes, valid UTF-8 or not.  [ValidString],
    [ToValidUTF8], [TrimSpace] and the comparison [EqualFold] with an ASCII word
    are executable byte scanners; the predicate [utf8] says what a valid string is,
    rune by rune, and the lemmas show that the scanners respect it. *)
From S2P Require Import Prelude.
From Stdlib Require Import Ascii.
From stdpp Require Import options.
Local Open Scope Z_scope.

(** ** Bytes and runes *)

Definition byte (c : ascii) : Z := Z.of_N (N_of_ascii c).
Definition between (lo hi : Z) (c : ascii) : bool := (lo <=? byte c) && (byte c <=? hi).

(** A continuation byte: not the start of a rune. *)
Definition continues (c : ascii) : bool := between 128 191 c.

(** The well-formed encodings of one, two, three and four bytes (no overlong
    forms, no surrogates, nothing above U+10FFFF). *)
Definition rune1 (a : ascii) : bool := byte a <? 128.
Definition rune2 (a b : ascii) : bool := between 194 223 a && continues b.
Definition rune3 (a b c : ascii) : bool :=
  (((byte a =? 224) && between 160 191 b)
   || ((between 225 236 a || between 238 239 a) && continues b)
   || ((byte a =? 237) && between 128 159 b))
  && continues c.
Definition rune4 (a b c d : ascii) : bool :=
  (((byte a =? 240) && between 144 191 b)
   || (between 241 243 a && continues b)
   || ((byte a =? 244) && between 128 143 b))
  && continues c && continues d.

(** [utf8.ValidString] *)
Fixpoint ValidString (s : string) : bool :=
  match s with
  | "" => true
  | String a s1 =>
      if rune1 a then ValidString s1
      else
        match s1 with
        | "" => false
        | String b s2 =>
            if rune2 a b then ValidString s2
            else
              match s2 with
              | "" => false
              | String c s3 =>
                  if rune3 a b c then ValidString s3
                  else
                    match s3 with
                    | "" => false
                    | String d s4 => if rune4 a b c d then ValidString s4 else false
                    end
              end
        end
  end.

(** [strings.ToValidUTF8]: each run of bytes that decode to no rune becomes one
    replacement; [invalid] tells whether the previous byte was of such a run. *)
Fixpoint to_valid (replacement : string) (invalid : bool) (s : string) : string :=
  match s with
  | "" => ""
  | String a s1 =>
      if rune1 a then String a (to_valid replacement false s1)
      else
        match s1 with
        | "" => (if invalid then "" else replacement) +:+ to_valid replacement true s1
        | String b s2 =>
            if rune2 a b then String a (String b (to_valid replacement false s2))
            else
              match s2 with
              | "" => (if invalid then "" else replacement) +:+ to_valid replacement true s1
              | String c s3 =>
                  if rune3 a b c then String a (String b (String c (to_valid replacement false s3)))
                  else
                    match s3 with
                    | "" => (if invalid then "" else replacement) +:+ to_valid replacement true s1
                    | String d s4 =>
                        if rune4 a b c d
                        then String a (String b (String c (String d
                               (to_valid replacement false s4))))
                        else (if invalid then "" else replacement)
                             +:+ to_valid replacement true s1
                    end
              end
        end
  end.
Definition ToValidUTF8 (s replacement : string) : string := to_valid replacement false s.

(** [strings.ReplaceAll(s, c, "")] for a single byte [c]. *)
Fixpoint remove_byte (c : ascii) (s : string) : string :=
  match s with
  | "" => ""
  | String a s' => if a ==? c then remove_byte c s' else String a (remove_byte c s')
  end.

(** ** [strings.TrimSpace] *)

(** The encodings of the runes of [unicode.IsSpace]: the six ASCII ones, U+0085 and
    U+00A0, then U+1680, U+2000 to U+200A, U+2028, U+2029, U+202F, U+205F, U+3000. *)
Definition space1 (a : ascii) : bool := between 9 13 a || (byte a =? 32).
Definition space2 (a b : ascii) : bool := (byte a =? 194) && ((byte b =? 133) || (byte b =? 160)).
Definition space3 (a b c : ascii) : bool :=
  ((byte a =? 225) && (byte b =? 154) && (byte c =? 128))
  || ((byte a =? 226) && (byte b =? 128)
      && (between 128 138 c || between 168 169 c || (byte c =? 175)))
  || ((byte a =? 226) && (byte b =? 129) && (byte c =? 159))
  || ((byte a =? 227) && (byte b =? 128) && (byte c =? 128)).

Fixpoint trim_left (s : string) : string :=
  match s with
  | "" => ""
  | String a s1 =>
      if space1 a then trim_left s1
      else
        match s1 with
        | "" => s
        | String b s2 =>
            if space2 a b then trim_left s2
            else
              match s2 with
              | "" => s
              | String c s3 => if space3 a b c then trim_left s3 else s
              end
        end
  end.

(** The same scan on the reversed string: encodings are met last byte first. *)
Fixpoint trim_reversed (s : string) : string :=
  match s with
  | "" => ""
  | String a s1 =>
      if space1 a then trim_reversed s1
      else
        match s1 with
        | "" => s
        | String b s2 =>
            if space2 b a then trim_reversed s2
            else
              match s2 with
              | "" => s
              | String c s3 => if space3 c b a then trim_reversed s3 else s
              end
        end
  end.

Fixpoint reverse (s : string) : string :=
  match s with "" => "" | String a s' => reverse s' +:+ String a "" end.

Definition TrimSpace (s : string) : string := reverse (trim_reversed (reverse (trim_left s))).

(** ** [strings.EqualFold] with an ASCII word *)

Definition lower (c : ascii) : ascii :=
  if between 65 90 c then ascii_of_nat (nat_of_ascii c + 32) else c.

(** Besides the two cases of a letter, U+017F folds to [s] and U+212A to [k]. *)
Fixpoint EqualFold (s word : string) : bool :=
  match word with
  | "" => s ==? ""
  | String w word' =>
      match s with
      | "" => false
      | String a s1 =>
          if rune1 a then (lower a ==? lower w) && EqualFold s1 word'
          else
            match s1 with
            | "" => false
            | String b s2 =>
                if (byte a =? 197) && (byte b =? 191) then (lower w ==? "s"%char) && EqualFold s2 word'
                else
                  match s2 with
                  | "" => false
                  | String c s3 =>
                      (byte a =? 226) && (byte b =? 132) && (byte c =? 170)
                      && (lower w ==? "k"%char) && EqualFold s3 word'
                  end
            end
      end
  end.

(** ** Valid strings, rune by rune *)

Inductive utf8 : string -> Prop :=
  | utf8_nil : utf8 ""
  | utf8_1 a s : rune1 a = true -> utf8 s -> utf8 (String a s)
  | utf8_2 a b s : rune2 a b = true -> utf8 s -> utf8 (String a (String b s))
  | utf8_3 a b c s : rune3 a b c = true -> utf8 s -> utf8 (String a (String b (String c s)))
  | utf8_4 a b c d s :
      rune4 a b c d = true -> utf8 s -> utf8 (String a (String b (String c (String d s)))).

Create HintDb utf8.
Create Rewrite HintDb utf8.
#[export] Hint Constructors utf8 : utf8.

(** Decides a contradiction between byte ranges. *)
Ltac byte_ranges :=
  unfold space1, space2, space3, rune1, rune2, rune3, rune4, continues, between in *; bcases; lia.

(** The first byte determines the length of a rune. *)
Lemma rune2_first a b : rune2 a b = true -> rune1 a = false /\ continues a = false.
Proof. intros H. split; apply not_true_is_false; intros ?; byte_ranges. Qed.
Lemma rune3_first a b c : rune3 a b c = true ->
  rune1 a = false /\ continues a = false /\ (forall b', rune2 a b' = false).
Proof. intros H. split_and!; [..|intros b']; apply not_true_is_false; intros ?; byte_ranges. Qed.
Lemma rune4_first a b c d : rune4 a b c d = true ->
  rune1 a = false /\ continues a = false /\ (forall b', rune2 a b' = false)
  /\ (forall b' c', rune3 a b' c' = false).
Proof. intros H. split_and!; [..|intros b'|intros b' c']; apply not_true_is_false; intros ?; byte_ranges. Qed.
Lemma rune1_first a : rune1 a = true -> continues a = false.
Proof. intros H. apply not_true_is_false. intros ?. byte_ranges. Qed.
#[export] Hint Resolve rune1_first : utf8.

Lemma rune2_tail a b : rune2 a b = true -> continues b = true.
Proof. unfold rune2. intros H. bsimpl. done. Qed.
Lemma rune3_tail a b c : rune3 a b c = true -> continues b = true /\ continues c = true.
Proof. intros H. split; [|unfold rune3 in H; by bsimpl]. apply not_false_is_true. intros ?. byte_ranges. Qed.
Lemma rune4_tail a b c d : rune4 a b c d = true ->
  continues b = true /\ continues c = true /\ continues d = true.
Proof.
  intros H. split_and!; [|unfold rune4 in H; by bsimpl..].
  apply not_false_is_true. intros ?. byte_ranges.
Qed.

Lemma string_wf_ind (P : string -> Prop) :
  P "" ->
  (forall a s, (forall t, (String.length t <= String.length s)%nat -> P t) -> P (String a s)) ->
  forall s, P s.
Proof.
  intros H0 HS. assert (forall n s, (String.length s <= n)%nat -> P s) as H; [|eauto].
  induction n as [|n IH]; intros [|a s] Hs; simpl in *; try done; try lia.
  apply HS. intros t Ht. apply IH. lia.
Qed.

(** The rune at the head of a string, if it starts with a well-formed one. *)
Ltac head_rune :=
  match goal with
  | |- context [if ?b then _ else _] => destruct b eqn:?
  | |- context [match ?s with "" => _ | String _ _ => _ end] => is_var s; destruct s; simpl in *
  | H : context [if ?b then _ else _] |- _ => destruct b eqn:?
  | H : context [match ?s with "" => _ | String _ _ => _ end] |- _ => is_var s; destruct s; simpl in *
  end.

Lemma ValidString_utf8 s : ValidString s = true -> utf8 s.
Proof.
  induction s as [|a s IH] using string_wf_ind; [auto with utf8|]. simpl. intros H.
  repeat head_rune; try done; constructor; try done; apply IH; simpl; try lia; done.
Qed.

(** Rewrites the guards that the head rune decides. *)
Ltac known_rune :=
  match goal with
  | H : rune1 ?a = true |- context [rune1 ?a] => rewrite H
  | H : rune2 ?a ?b = true |- _ => destruct (rune2_first _ _ H) as [-> _]; rewrite ?H
  | H : rune3 ?a ?b ?c = true |- _ =>
      destruct (rune3_first _ _ _ H) as (-> & _ & E2); rewrite ?E2, ?H
  | H : rune4 ?a ?b ?c ?d = true |- _ =>
      destruct (rune4_first _ _ _ _ H) as (-> & _ & E2 & E3); rewrite ?E2, ?E3, ?H
  end.

Lemma utf8_ValidString s : utf8 s -> ValidString s = true.
Proof. induction 1; simpl; try known_rune; done. Qed.

Lemma ValidString_iff s : ValidString s = true <-> utf8 s.
Proof. split; [apply ValidString_utf8|apply utf8_ValidString]. Qed.

Lemma app_nil_l t : "" +:+ t = t.
Proof. done. Qed.
Lemma app_cons a s t : String a s +:+ t = String a (s +:+ t).
Proof. done. Qed.
#[export] Hint Rewrite app_nil_l app_cons : utf8.

Lemma utf8_app s t : utf8 s -> utf8 t -> utf8 (s +:+ t).
Proof. intros Hs Ht. induction Hs; autorewrite with utf8; auto with utf8. Qed.
#[export] Hint Resolve utf8_app : utf8.

(** One step of [ToValidUTF8]: a rune is kept, any other byte starts or continues a
    run that becomes one replacement. *)
Inductive rune : string -> Prop :=
  | rune_1 a : rune1 a = true -> rune (String a "")
  | rune_2 a b : rune2 a b = true -> rune (String a (String b ""))
  | rune_3 a b c : rune3 a b c = true -> rune (String a (String b (String c "")))
  | rune_4 a b c d : rune4 a b c d = true -> rune (String a (String b (String c (String d "")))).
#[export] Hint Constructors rune : utf8.

Lemma rune_utf8 p : rune p -> utf8 p.
Proof. destruct 1; auto with utf8. Qed.
#[export] Hint Resolve rune_utf8 : utf8.

Lemma to_valid_step r invalid a s :
  (exists p t, rune p /\ String a s = p +:+ t
     /\ to_valid r invalid (String a s) = p +:+ to_valid r false t)
  \/ to_valid r invalid (String a s) = (if invalid then "" else r) +:+ to_valid r true s.
Proof.
  remember (to_valid r true s) as rest eqn:Erest. cbn [to_valid].
  destruct (rune1 a) eqn:E1.
  { left. exists (String a ""), s. auto with utf8. }
  destruct s as [|b s]; [right; by subst|]. destruct (rune2 a b) eqn:E2.
  { left. exists (String a (String b "")), s. auto with utf8. }
  destruct s as [|c s]; [right; by subst|]. destruct (rune3 a b c) eqn:E3.
  { left. exists (String a (String b (String c ""))), s. auto with utf8. }
  destruct s as [|d s]; [right; by subst|]. destruct (rune4 a b c d) eqn:E4.
  { left. exists (String a (String b (String c (String d "")))), s. auto with utf8. }
  right. by subst.
Qed.

Lemma length_app s t : String.length (s +:+ t) = (String.length s + String.length t)%nat.
Proof. induction s as [|a s IH]; [done|]. rewrite app_cons. simpl. lia. Qed.

Lemma rune_length p : rune p -> (1 <= String.length p <= 4)%nat.
Proof. destruct 1; simpl; lia. Qed.

(** [ToValidUTF8] with a valid replacement makes valid ... *)
Lemma to_valid_utf8 r invalid s : utf8 r -> utf8 (to_valid r invalid s).
Proof.
  intros Hr. revert invalid. induction s as [|a s IH] using string_wf_ind; intros invalid; [constructor|].
  destruct (to_valid_step r invalid a s) as [(p & t & Hp & Hs & ->)| ->].
  - apply utf8_app; [auto with utf8|]. apply IH.
    apply (f_equal String.length) in Hs. rewrite length_app in Hs. simpl in Hs.
    apply rune_length in Hp. lia.
  - apply utf8_app; [destruct invalid; auto with utf8|]. by apply IH.
Qed.

(** ... and leaves a valid string as it is. *)
Lemma to_valid_id r s : utf8 s -> to_valid r false s = s.
Proof. induction 1; simpl; try known_rune; congruence. Qed.

Lemma app_nil_r s : s +:+ "" = s.
Proof. induction s as [|a s IH]; [done|]. by rewrite app_cons, IH. Qed.
Lemma app_assoc s t u : (s +:+ t) +:+ u = s +:+ (t +:+ u).
Proof. induction s as [|a s IH]; [done|]. by rewrite !app_cons, IH. Qed.

Lemma reverse_app s t : reverse (s +:+ t) = reverse t +:+ reverse s.
Proof.
  induction s as [|a s IH].
  - by rewrite app_nil_l, app_nil_r.
  - rewrite app_cons. cbn [reverse]. by rewrite IH, app_assoc.
Qed.

Lemma reverse_reverse s : reverse (reverse s) = s.
Proof. induction s as [|a s IH]; [done|]. cbn [reverse]. by rewrite reverse_app, IH. Qed.

Lemma length_reverse s : String.length (reverse s) = String.length s.
Proof. induction s as [|a s IH]; [done|]. cbn [reverse]. rewrite length_app. simpl. lia. Qed.

(** A valid string splits at any byte that starts a rune. *)
Definition starts (s : string) : Prop :=
  match s with "" => True | String a _ => continues a = false end.

Lemma utf8_app_inv s t : utf8 (s +:+ t) -> starts t -> utf8 s /\ utf8 t.
Proof.
  intros H Ht. remember (s +:+ t) as u eqn:E. revert s E.
  induction H; intros v E.
  all: repeat (match type of E with
    | _ = ?v +:+ _ => destruct v; [rewrite app_nil_l in E|rewrite app_cons in E; injection E as <- E]
    end).
  all: try (match goal with IH : forall _, _ -> _ |- _ =>
              destruct (IH _ E); split; auto with utf8 end; fail).
  all: try (subst t; cbn [starts] in Ht; first
    [ split; auto with utf8; fail
    | match goal with
      | H : rune2 _ _ = true |- _ => apply rune2_tail in H
      | H : rune3 _ _ _ = true |- _ => apply rune3_tail in H as (? & ?)
      | H : rune4 _ _ _ _ = true |- _ => apply rune4_tail in H as (? & ? & ?)
      end; congruence ]).
  destruct v; [|done]. rewrite app_nil_l in E. subst t. auto with utf8.
Qed.

(** ** What the scanners keep *)

(** No byte of a longer rune is an ASCII byte. *)
Lemma continues_not_ascii b : continues b = true -> rune1 b = false.
Proof. intros H. apply not_true_is_false. intros ?. byte_ranges. Qed.

Ltac not_ascii :=
  match goal with
  | H : rune2 _ _ = true |- _ =>
      pose proof (rune2_first _ _ H) as (? & _); pose proof (rune2_tail _ _ H)
  | H : rune3 _ _ _ = true |- _ =>
      pose proof (rune3_first _ _ _ H) as (? & _); pose proof (rune3_tail _ _ _ H) as (? & ?)
  | H : rune4 _ _ _ _ = true |- _ =>
      pose proof (rune4_first _ _ _ _ H) as (? & _); pose proof (rune4_tail _ _ _ _ H) as (? & ? & ?)
  end;
  repeat match goal with H : continues _ = true |- _ => apply continues_not_ascii in H end;
  congruence.

Lemma remove_byte_utf8 c s : rune1 c = true -> utf8 s -> utf8 (remove_byte c s).
Proof.
  intros Hc Hs. induction Hs; simpl; [constructor|case_bool_decide; auto with utf8|..].
  all: rewrite !bool_decide_eq_false_2; [auto with utf8|..]; intros <-; not_ascii.
Qed.

Definition free_of (c : ascii) (s : string) : Prop := remove_byte c s = s.

Lemma remove_byte_idem c s : free_of c (remove_byte c s).
Proof.
  unfold free_of. induction s as [|a s IH]; simpl; [done|].
  case_bool_decide as E; [done|]. simpl. rewrite bool_decide_eq_false_2 by done. by rewrite IH.
Qed.

Lemma remove_byte_app c s t : remove_byte c (s +:+ t) = remove_byte c s +:+ remove_byte c t.
Proof.
  induction s as [|a s IH]; [done|]. rewrite app_cons. cbn [remove_byte].
  rewrite IH. by case_bool_decide.
Qed.

Lemma length_remove_byte c s : (String.length (remove_byte c s) <= String.length s)%nat.
Proof. induction s as [|a s IH]; simpl; [lia|]. case_bool_decide; simpl; lia. Qed.

(** Pieces of a string without [c] have no [c]. *)
Lemma free_of_app c s t : free_of c (s +:+ t) <-> free_of c s /\ free_of c t.
Proof.
  unfold free_of. rewrite remove_byte_app. split; [|by intros [-> ->]].
  intros H. assert (remove_byte c s = s) as Hs.
  { revert t H. induction s as [|a s IH]; [done|]. intros t H. cbn [remove_byte] in *.
    case_bool_decide.
    - apply (f_equal String.length) in H. rewrite !length_app in H. simpl in H.
      pose proof (length_remove_byte c s). pose proof (length_remove_byte c t). lia.
    - rewrite !app_cons in H. injection H as H. f_equal. by eapply IH. }
  split; [done|]. rewrite Hs in H. clear Hs. induction s as [|a s IH]; [done|].
  rewrite !app_cons in H. injection H as H. auto.
Qed.

(** [TrimSpace] cuts a prefix and a suffix made of whole runes. *)
Lemma trim_left_spec s : exists p, s = p +:+ trim_left s /\ (utf8 s -> utf8 (trim_left s)).
Proof.
  induction s as [|a s IH] using string_wf_ind; [by exists ""|]. cbn [trim_left].
  assert (exists p, String a s = p +:+ String a s /\ (utf8 (String a s) -> utf8 (String a s))) as Hstay
    by (by exists "").
  destruct (space1 a) eqn:E1.
  { destruct (IH s) as (p & Hp & Hu); [lia|]. exists (String a p). rewrite app_cons, <- Hp.
    split; [done|]. intros H. apply Hu. inversion H; subst; [done|..]; exfalso; byte_ranges. }
  destruct s as [|b s]; [done|]. destruct (space2 a b) eqn:E2.
  { destruct (IH s) as (p & Hp & Hu); [simpl; lia|]. exists (String a (String b p)).
    rewrite !app_cons, <- Hp. split; [done|].
    intros H. apply Hu. inversion H; subst; [..|done| |]; exfalso; byte_ranges. }
  destruct s as [|c s]; [done|]. destruct (space3 a b c) eqn:E3; [|done].
  destruct (IH s) as (p & Hp & Hu); [simpl; lia|]. exists (String a (String b (String c p))).
  rewrite !app_cons, <- Hp. split; [done|].
  intros H. apply Hu. inversion H; subst; [..|done|]; exfalso; byte_ranges.
Qed.

Lemma trim_reversed_spec s :
  exists p, s = p +:+ trim_reversed s /\ (utf8 (reverse s) -> utf8 (reverse (trim_reversed s))).
Proof.
  induction s as [|a s IH] using string_wf_ind; [by exists ""|]. cbn [trim_reversed].
  assert (exists p, String a s = p +:+ String a s
            /\ (utf8 (reverse (String a s)) -> utf8 (reverse (String a s)))) as Hstay by (by exists "").
  destruct (space1 a) eqn:E1.
  { destruct (IH s) as (p & Hp & Hu); [lia|]. exists (String a p). rewrite app_cons, <- Hp.
    split; [done|]. cbn [reverse]. intros H. apply utf8_app_inv in H as [H _]; [auto|].
    simpl. apply not_true_is_false. intros ?. byte_ranges. }
  destruct s as [|b s]; [done|]. destruct (space2 b a) eqn:E2.
  { destruct (IH s) as (p & Hp & Hu); [simpl; lia|]. exists (String a (String b p)).
    rewrite !app_cons, <- Hp. split; [done|]. cbn [reverse]. rewrite app_assoc, app_cons, app_nil_l.
    intros H. apply utf8_app_inv in H as [H _]; [auto|].
    simpl. apply not_true_is_false. intros ?. byte_ranges. }
  destruct s as [|c s]; [done|]. destruct (space3 c b a) eqn:E3; [|done].
  destruct (IH s) as (p & Hp & Hu); [simpl; lia|]. exists (String a (String b (String c p))).
  rewrite !app_cons, <- Hp. split; [done|]. cbn [reverse]. rewrite !app_assoc, !app_cons, !app_nil_l.
  intros H. apply utf8_app_inv in H as [H _]; [auto|].
    simpl. apply not_true_is_false. intros ?. byte_ranges.
Qed.

Lemma TrimSpace_spec s : exists p q, s = p +:+ TrimSpace s +:+ q /\ (utf8 s -> utf8 (TrimSpace s)).
Proof.
  unfold TrimSpace. destruct (trim_left_spec s) as (p & Hp & Hu).
  destruct (trim_reversed_spec (reverse (trim_left s))) as (q & Hq & Hv).
  exists p, (reverse q). rewrite reverse_reverse in Hv. split; [|auto].
  apply (f_equal reverse) in Hq. rewrite reverse_reverse, reverse_app in Hq. by rewrite Hp at 1; rewrite Hq at 1.
Qed.

(** Trimming twice is trimming once. *)
Lemma trim_left_stable s : trim_left (trim_left s) = trim_left s.
Proof.
  induction s as [|a s IH] using string_wf_ind; [done|]. cbn [trim_left].
  destruct (space1 a) eqn:E1; [apply IH; lia|].
  destruct s as [|b s]; [cbn [trim_left]; by rewrite E1|].
  destruct (space2 a b) eqn:E2; [apply IH; simpl; lia|].
  destruct s as [|c s]; [cbn [trim_left]; by rewrite E1, E2|].
  destruct (space3 a b c) eqn:E3; [apply IH; simpl; lia|]. cbn [trim_left]. by rewrite E1, E2, E3.
Qed.

Lemma trim_reversed_stable s : trim_reversed (trim_reversed s) = trim_reversed s.
Proof.
  induction s as [|a s IH] using string_wf_ind; [done|]. cbn [trim_reversed].
  destruct (space1 a) eqn:E1; [apply IH; lia|].
  destruct s as [|b s]; [cbn [trim_reversed]; by rewrite E1|].
  destruct (space2 b a) eqn:E2; [apply IH; simpl; lia|].
  destruct s as [|c s]; [cbn [trim_reversed]; by rewrite E1, E2|].
  destruct (space3 c b a) eqn:E3; [apply IH; simpl; lia|]. cbn [trim_reversed]. by rewrite E1, E2, E3.
Qed.

(** A string that starts with no space keeps its start when its end is cut. *)
Lemma trim_left_prefix s t : trim_left (s +:+ t) = s +:+ t -> trim_left s = s.
Proof.
  assert (forall u a, String.length (trim_left u) <> S (String.length u + a)) as Hlen.
  { intros u n. destruct (trim_left_spec u) as (p & Hp & _). rewrite Hp at 2. rewrite length_app. lia. }
  destruct s as [|a s]; [done|]. rewrite app_cons. cbn [trim_left].
  destruct (space1 a) eqn:E1.
  { intros H%(f_equal String.length). simpl in H. exfalso. apply (Hlen (s +:+ t) 0%nat). lia. }
  destruct s as [|b s]; [done|]. rewrite app_cons. destruct (space2 a b) eqn:E2.
  { intros H%(f_equal String.length). simpl in H. exfalso. apply (Hlen (s +:+ t) 1%nat). lia. }
  destruct s as [|c s]; [done|]. rewrite app_cons. destruct (space3 a b c) eqn:E3; [|done].
  intros H%(f_equal String.length). simpl in H. exfalso. apply (Hlen (s +:+ t) 2%nat). lia.
Qed.

Lemma TrimSpace_stable s : TrimSpace (TrimSpace s) = TrimSpace s.
Proof.
  unfold TrimSpace at 1. set (u := trim_left s). assert (trim_left (TrimSpace s) = TrimSpace s) as ->.
  { destruct (trim_reversed_spec (reverse u)) as (q & Hq & _).
    apply (trim_left_prefix _ (reverse q)). unfold TrimSpace. fold u.
    rewrite <- reverse_app, <- Hq, reverse_reverse. apply trim_left_stable. }
  unfold TrimSpace. rewrite reverse_reverse. by rewrite trim_reversed_stable.
Qed.

Lemma free_of_TrimSpace c s : free_of c s -> free_of c (TrimSpace s).
Proof.
  destruct (TrimSpace_spec s) as (p & q & Hs & _). rewrite Hs at 1. rewrite !free_of_app. tauto.
Qed.

(** ** Cutting at a rune boundary *)

(** [s[:n]] *)
Definition take (n : nat) (s : string) : string := String.substring 0 n s.

(** [for end > 0 && !utf8.ValidString(value[:end]) { end-- }] *)
Fixpoint valid_prefix (n : nat) (s : string) : string :=
  match n with
  | O => take 0 s
  | S n' => if ValidString (take n s) then take n s else valid_prefix n' s
  end.

Lemma take_0 s : take 0 s = "".
Proof. by destruct s. Qed.

Lemma take_S n a s : take (S n) (String a s) = String a (take n s).
Proof. done. Qed.

Lemma take_app n s : (n <= String.length s)%nat -> exists t, s = take n s +:+ t /\ String.length (take n s) = n.
Proof.
  revert n. induction s as [|a s IH]; intros [|n] Hn; simpl in Hn; try lia.
  - by exists "".
  - by exists (String a s).
  - destruct (IH n) as (t & Hs & Hl); [lia|]. exists t. rewrite take_S, app_cons, <- Hs. simpl. auto.
Qed.

(** At most three bytes before any position of a valid string a rune ends. *)
Lemma utf8_boundary s n : utf8 s -> (n <= String.length s)%nat ->
  exists m, (n - 3 <= m <= n)%nat /\ utf8 (take m s).
Proof.
  intros Hs. revert n. induction Hs; simpl; intros n Hn.
  { exists 0%nat. split; [lia|constructor]. }
  all: destruct n as [|[|[|[|n]]]]; try (exists 0%nat; split; [lia|]; rewrite take_0; constructor).
  all: match goal with
       | |- exists m, (?n - 3 <= m <= ?n)%nat /\ utf8 (take m (String _ (String _ (String _ (String _ ?s))))) =>
           destruct (IHHs (n - 4)%nat) as (m & Hm & Hu); [lia|]; exists (4 + m)%nat
       | |- exists m, (?n - 3 <= m <= ?n)%nat /\ utf8 (take m (String _ (String _ (String _ ?s)))) =>
           destruct (IHHs (n - 3)%nat) as (m & Hm & Hu); [lia|]; exists (3 + m)%nat
       | |- exists m, (?n - 3 <= m <= ?n)%nat /\ utf8 (take m (String _ (String _ ?s))) =>
           destruct (IHHs (n - 2)%nat) as (m & Hm & Hu); [lia|]; exists (2 + m)%nat
       | |- exists m, (?n - 3 <= m <= ?n)%nat /\ utf8 (take m (String _ ?s)) =>
           destruct (IHHs (n - 1)%nat) as (m & Hm & Hu); [lia|]; exists (1 + m)%nat
       end.
  all: split; [lia|]; cbn [Nat.add]; rewrite ?take_S; auto with utf8.
Qed.

Lemma valid_prefix_spec n s : (n <= String.length s)%nat ->
  exists m t, (m <= n)%nat /\ valid_prefix n s = take m s /\ s = take m s +:+ t
    /\ String.length (take m s) = m /\ utf8 (take m s)
    /\ forall k, (k <= n)%nat -> utf8 (take k s) -> (k <= m)%nat.
Proof.
  induction n as [|n IH]; intros Hn; cbn [valid_prefix].
  { exists 0%nat, s. rewrite take_0. split_and!; try done; try constructor. }
  destruct (ValidString (take (S n) s)) eqn:E.
  - destruct (take_app (S n) s Hn) as (t & Ht & Hl). exists (S n), t.
    split_and!; try done. by apply ValidString_iff.
  - destruct IH as (m & t & Hm & Heq & Ht & Hl & Hu & Hmax); [lia|]. exists m, t.
    split_and!; try done; [lia|]. intros k Hk Hku.
    destruct (decide (k = S n)) as [->|]; [|apply Hmax; [lia|done]].
    apply ValidString_iff in Hku. congruence.
Qed.

(** Cutting a valid string loses at most three bytes more than asked. *)
Lemma valid_prefix_length n s : utf8 s -> (n <= String.length s)%nat ->
  (n - 3 <= String.length (valid_prefix n s) <= n)%nat.
Proof.
  intros Hs Hn. destruct (valid_prefix_spec n s Hn) as (m & t & Hm & -> & _ & Hl & _ & Hmax).
  destruct (utf8_boundary s n Hs Hn) as (k & Hk & Hku). apply Hmax in Hku; lia.
Qed.
