(* ===== verification/LocalPaths.v ===== *)
(** * The layout of the daemon's home directory

    Models the path half of [internal/machinedaemon/localstore/store.go]: the home
    directory ([normalizeHome], [resolveHome]), the validation of identifiers that
    become path segments ([validatePathID]) and the paths of a machine and of its
    processes, on Unix.  [filepath.Clean], [Join] and [Dir] are written out on the
    segments between slashes.

    The daemon removes directories and locks files by these paths, so what matters
    is that cleaning never lets an identifier climb out of its directory and that
    two processes never share a path. *)
From S2P Require Import Prelude GoStrings.
From Stdlib Require Import Ascii.
From stdpp Require Import options.

(** ** path/filepath on Unix *)

Definition slash : ascii := "/"%char.
Definition backslash : ascii := ascii_of_nat 92.

(** [strings.Split(s, "/")] *)
Fixpoint split_slash (s : string) : list string :=
  match s with
  | EmptyString => [""]
  | String a s' =>
      if a ==? slash then "" :: split_slash s'
      else match split_slash s' with
           | seg :: rest => String a seg :: rest
           | [] => [String a ""]
           end
  end.

Definition join_slash (l : list string) : string := String.concat "/" l.

Definition IsAbs (path : string) : bool :=
  match path with String a _ => a ==? slash | EmptyString => false end.

(** One segment of [Clean]; [out] is the cleaned prefix, last segment first. *)
Definition clean_step (rooted : bool) (out : list string) (seg : string) : list string :=
  if (seg ==? "") || (seg ==? ".") then out
  else if seg ==? ".." then
    match out with
    | [] => if rooted then [] else [".."]
    | top :: rest => if top ==? ".." then ".." :: out else rest
    end
  else seg :: out.

Definition clean_segments (rooted : bool) (segs : list string) : list string :=
  rev (fold_left (clean_step rooted) segs []).

Definition Clean (path : string) : string :=
  let out := clean_segments (IsAbs path) (split_slash path) in
  if IsAbs path then "/" +:+ join_slash out
  else match out with [] => "." | _ => join_slash out end.

Fixpoint Join (elem : list string) : string :=
  match elem with
  | [] => ""
  | e :: rest => if e ==? "" then Join rest else Clean (join_slash (e :: rest))
  end.

(** [Dir]: everything up to the last slash, cleaned. *)
Definition Dir (path : string) : string :=
  match rev (split_slash path) with
  | _ :: [] | [] => Clean ""
  | _ :: init => Clean (join_slash (rev ("" :: init)))
  end.

Fixpoint ContainsAny (s : string) (chars : list ascii) : bool :=
  match s with
  | EmptyString => false
  | String a s' => bool_decide (a ∈ chars) || ContainsAny s' chars
  end.

(** ** store.go *)

Definition InstallationsDirName : string := "installations".
Definition MachinesDirName : string := "machines".
Definition RunDirName : string := "run".
Definition ProcessesDirName : string := "processes".
Definition StateDBFileName : string := "state.sqlite".
Definition LifetimeLockFileName : string := "lifetime.lock".
Definition OutputBufferFileName : string := "output.buf".
Definition SkillsDirName : string := "skills".
Definition SkillRevisionsDirName : string := "revisions".
Definition DefaultDirName : string := ".omnarad".

Definition validatePathID (name value : string) : option string :=
  if value ==? "" then Some (name +:+ " is required")
  else if IsAbs value || ContainsAny value [slash; backslash]
  then Some (name +:+ " must be a single path segment")
  else if (value ==? ".") || (value ==? "..") || (Clean value <>? value)
  then Some (name +:+ " must be a clean path segment")
  else None.

Definition normalizeHome (home : string) : string + string :=
  if home ==? "" then inl "omnara home is required"
  else if negb (IsAbs home) then inl "omnara home must be absolute"
  else
    let home := Clean home in
    if Dir home ==? home then inl "omnara home cannot be a filesystem root"
    else inr home.

(** [resolveHome]: [override] is the variable OMNARA_HOME, [userHome] what
    [os.UserHomeDir] returned, [None] for an error. *)
Definition resolveHome (override : string) (userHome : option string) : string + string :=
  if override <>? "" then
    if (TrimSpace override <>? override) || negb (IsAbs override) || (Clean override <>? override)
    then inl "OMNARA_HOME must be an absolute clean path"
    else inr override
  else
    match userHome with
    | None => inl "user home directory is required"
    | Some home =>
        if home ==? "" then inl "user home directory is required"
        else if (TrimSpace home <>? home) || negb (IsAbs home)
        then inl "user home directory must be absolute"
        else inr (Join [home; DefaultDirName])
    end.

Definition ResolveHome (override : string) (userHome : option string) : string + string :=
  match resolveHome override userHome with
  | inl e => inl e
  | inr home => normalizeHome home
  end.

Record MachineStore : Type := mkMachineStore {
  ms_home : string;
  ms_installationID : string;
  ms_machineID : string
}.

(** [New] followed by [Store.Machine]. *)
Definition Store_Machine (home installationID machineID : string) : string + MachineStore :=
  match validatePathID "installation_id" installationID with
  | Some e => inl e
  | None =>
      match validatePathID "machine_id" machineID with
      | Some e => inl e
      | None => inr (mkMachineStore home installationID machineID)
      end
  end.

Definition Machine (home installationID machineID : string) : string + MachineStore :=
  match normalizeHome home with
  | inl e => inl e
  | inr home => Store_Machine home installationID machineID
  end.

Definition MachineDir (m : MachineStore) : string :=
  Join [ms_home m; InstallationsDirName; ms_installationID m; MachinesDirName; ms_machineID m].
Definition RunDir (m : MachineStore) : string := Join [MachineDir m; RunDirName].
Definition ProcessesDir (m : MachineStore) : string := Join [MachineDir m; ProcessesDirName].
Definition SkillsDir (m : MachineStore) : string := Join [MachineDir m; SkillsDirName].
Definition StateDBPath (m : MachineStore) : string := Join [MachineDir m; StateDBFileName].

Definition SkillDir (m : MachineStore) (skillID revisionID : string) : string + string :=
  match validatePathID "skill_id" skillID with
  | Some e => inl e
  | None =>
      match validatePathID "skill_revision_id" revisionID with
      | Some e => inl e
      | None => inr (Join [SkillsDir m; skillID; SkillRevisionsDirName; revisionID])
      end
  end.

Definition ProcessDir (m : MachineStore) (processID : string) : string + string :=
  match validatePathID "process_id" processID with
  | Some e => inl e
  | None => inr (Join [ProcessesDir m; processID])
  end.

Definition LifetimeLockPath (m : MachineStore) (processID : string) : string + string :=
  match validatePathID "process_id" processID with
  | Some e => inl e
  | None => inr (Join [ProcessesDir m; processID +:+ "." +:+ LifetimeLockFileName])
  end.

Definition processPath (m : MachineStore) (processID name : string) : string + string :=
  match ProcessDir m processID with
  | inl e => inl e
  | inr dir => inr (Join [dir; name])
  end.

Definition OutputBufferPath (m : MachineStore) (processID : string) : string + string :=
  processPath m processID OutputBufferFileName.

Definition ControlEndpointPath (m : MachineStore) (processID : string) : string + string :=
  match validatePathID "process_id" processID with
  | Some e => inl e
  | None => inr (Join [RunDir m; processID +:+ ".sock"])
  end.

(** ** Segments *)

Definition no_slash (s : string) : Prop := ContainsAny s [slash] = false.

(** A segment that [Clean] keeps. *)
Definition plain (s : string) : Prop := s <> "" /\ s <> "." /\ s <> ".." /\ no_slash s.

Lemma no_slash_cons a s : no_slash (String a s) <-> a <> slash /\ no_slash s.
Proof.
  unfold no_slash. simpl. rewrite orb_false_iff, bool_decide_eq_false, list_elem_of_singleton. done.
Qed.

Lemma no_slash_app s t : no_slash (s +:+ t) <-> no_slash s /\ no_slash t.
Proof.
  induction s as [|a s IH]; [rewrite app_nil_l; unfold no_slash; naive_solver|].
  rewrite app_cons, !no_slash_cons, IH. tauto.
Qed.

Lemma split_nonempty s : split_slash s <> [].
Proof. destruct s as [|a s]; simpl; [done|]. case_bool_decide; [done|]. by destruct (split_slash s). Qed.

Lemma split_no_slash s : no_slash s -> split_slash s = [s].
Proof.
  induction s as [|a s IH]; [done|]. intros [Ha Hs]%no_slash_cons. simpl.
  rewrite bool_decide_eq_false_2 by done. by rewrite IH.
Qed.

Lemma split_cons_slash s t : no_slash s -> split_slash (s +:+ String slash t) = s :: split_slash t.
Proof.
  induction s as [|a s IH].
  - intros _. by rewrite app_nil_l.
  - intros [Ha Hs]%no_slash_cons. rewrite app_cons. simpl.
    rewrite bool_decide_eq_false_2 by done. by rewrite IH.
Qed.

Lemma join_cons s t l : join_slash (s :: t :: l) = s +:+ String slash (join_slash (t :: l)).
Proof. done. Qed.

Lemma split_join l : l <> [] -> Forall no_slash l -> split_slash (join_slash l) = l.
Proof.
  intros Hl H. induction H as [|s l Hs H IH]; [done|]. destruct l as [|t l].
  - by apply split_no_slash.
  - rewrite join_cons, split_cons_slash by done. by rewrite IH.
Qed.

Lemma split_segments s : Forall no_slash (split_slash s).
Proof.
  induction s as [|a s IH]; simpl.
  - by constructor.
  - case_bool_decide; [by constructor|]. destruct (split_slash s) as [|seg rest].
    + constructor; [|done]. by apply no_slash_cons.
    + inversion IH; subst. constructor; [|done]. by apply no_slash_cons.
Qed.

Lemma split_app_slash s t : split_slash (s +:+ String slash t) = split_slash s ++ split_slash t.
Proof.
  induction s as [|a s IH].
  - by rewrite app_nil_l.
  - rewrite app_cons. simpl. case_bool_decide; [by rewrite IH|]. rewrite IH.
    pose proof (split_nonempty s). by destruct (split_slash s).
Qed.

(** ** Cleaning *)

Lemma clean_plain rooted segs out :
  Forall plain segs -> fold_left (clean_step rooted) segs out = rev segs ++ out.
Proof.
  intros H. revert out. induction H as [|s l (Hs & Hd & Hdd & _) H IH]; intros out; [done|].
  simpl. rewrite IH. unfold clean_step.
  rewrite !bool_decide_eq_false_2 by done. simpl. by rewrite <- List.app_assoc.
Qed.

Lemma clean_rooted_plain segs out :
  Forall no_slash segs -> Forall plain out -> Forall plain (fold_left (clean_step true) segs out).
Proof.
  intros H. revert out. induction H as [|s l Hs H IH]; intros out Hout; [done|].
  simpl. apply IH. unfold clean_step. destruct ((s ==? "") || (s ==? ".")) eqn:E; [done|].
  bsimpl. case_bool_decide.
  - destruct Hout as [|top rest Htop Hrest]; [by constructor|].
    rewrite bool_decide_eq_false_2 by apply Htop. done.
  - constructor; [|done]. by repeat split.
Qed.

(** A cleaned absolute path is a list of plain segments. *)
Definition absolute (segs : list string) : string := "/" +:+ join_slash segs.

Lemma Clean_absolute home :
  IsAbs home = true -> exists segs, Clean home = absolute segs /\ Forall plain segs.
Proof.
  intros H. unfold Clean. rewrite H. eexists. split; [done|].
  unfold clean_segments. apply Forall_rev, clean_rooted_plain; [apply split_segments|done].
Qed.

Lemma IsAbs_absolute segs t : IsAbs (absolute segs +:+ t) = true.
Proof. done. Qed.

(** Joining plain segments to an absolute path appends them. *)
Lemma Clean_join segs l :
  Forall plain segs -> Forall plain l -> l <> [] ->
  Clean (join_slash (absolute segs :: l)) = absolute (segs ++ l).
Proof.
  intros Hs Hl Hne. destruct l as [|t l]; [done|]. rewrite join_cons.
  unfold Clean. rewrite IsAbs_absolute. unfold absolute. f_equal. unfold clean_segments.
  rewrite split_app_slash, fold_left_app.
  assert (fold_left (clean_step true) (split_slash ("/" +:+ join_slash segs)) [] = rev segs)
    as ->.
  { change (split_slash ("/" +:+ join_slash segs)) with ("" :: split_slash (join_slash segs)).
    destruct segs as [|s segs]; [done|].
    rewrite split_join; [|done|eapply Forall_impl; [done|]; by intros ? (?&?&?&?)].
    change (fold_left (clean_step true) ("" :: s :: segs) [])
      with (fold_left (clean_step true) (s :: segs) []).
    rewrite clean_plain by done. by rewrite List.app_nil_r. }
  rewrite split_join; [|done|eapply Forall_impl; [done|]; by intros ? (?&?&?&?)].
  rewrite clean_plain by done. rewrite rev_app_distr, !rev_involutive. done.
Qed.

Lemma Join_absolute segs l :
  Forall plain segs -> Forall plain l -> l <> [] ->
  Join (absolute segs :: l) = absolute (segs ++ l).
Proof. intros. simpl. by apply Clean_join. Qed.

Lemma app_inv_l s t u : s +:+ t = s +:+ u -> t = u.
Proof.
  induction s as [|a s IH]; [by rewrite !app_nil_l|]. rewrite !app_cons. intros [= H]. by apply IH.
Qed.

Lemma absolute_inj segs segs' :
  segs <> [] -> segs' <> [] -> Forall plain segs -> Forall plain segs' ->
  absolute segs = absolute segs' -> segs = segs'.
Proof.
  unfold absolute. intros ?? H1 H2 E. apply app_inv_l in E.
  rewrite <- (split_join segs), <- (split_join segs'), E; try done;
    eapply Forall_impl; try done; by intros ? (?&?&?&?).
Qed.

Lemma ContainsAny_split s :
  ContainsAny s [slash; backslash] = false -> no_slash s.
Proof.
  unfold no_slash. induction s as [|a s IH]; [done|]. simpl. rewrite !orb_false_iff.
  intros [Ha Hs]. split; [|by apply IH]. apply bool_decide_eq_false in Ha.
  apply bool_decide_eq_false. set_solver.
Qed.

Lemma validatePathID_plain name value : validatePathID name value = None -> plain value.
Proof.
  unfold validatePathID, plain. repeat case_match; intros; try done. bsimpl.
  split_and!; try done. by apply ContainsAny_split.
Qed.

Lemma plain_suffix s t : plain s -> no_slash t -> (2 < String.length (s +:+ t))%nat -> plain (s +:+ t).
Proof.
  intros (Hs & _ & _ & Hn) Ht Hlen. unfold plain.
  split_and!; [..|by apply no_slash_app]; intros E; rewrite E in Hlen; simpl in Hlen; lia.
Qed.

Lemma string_app_inj_r s s' t : s +:+ t = s' +:+ t -> s = s'.
Proof.
  intros E. apply (f_equal reverse) in E. rewrite !reverse_app in E. apply app_inv_l in E.
  rewrite <- (reverse_reverse s), <- (reverse_reverse s'). by f_equal.
Qed.

(** ** The paths of a machine *)

Lemma absolute_snoc segs x :
  segs <> [] -> absolute (segs ++ [x]) = absolute segs +:+ "/" +:+ x.
Proof.
  intros Hne. unfold absolute. rewrite app_assoc. f_equal.
  induction segs as [|s [|t segs] IH]; [done|done|]. simpl app in *.
  rewrite !join_cons, IH by done. by rewrite app_assoc.
Qed.

Lemma Machine_home home i m store :
  Machine home i m = inr store ->
  exists segs, ms_home store = absolute segs /\ Forall plain segs
    /\ plain (ms_installationID store) /\ plain (ms_machineID store).
Proof.
  unfold Machine, normalizeHome, Store_Machine.
  repeat case_match; intros; simplify_eq/=. bsimpl.
  destruct (Clean_absolute home) as (segs & -> & Hs); [done|].
  exists segs. split_and!; eauto using validatePathID_plain.
Qed.

(** Lists of plain segments, some of them literals. *)
Ltac plain_list :=
  repeat first [ apply List.Forall_nil | apply Forall_app; split | apply List.Forall_cons ];
  try assumption; try (by repeat split).

Definition good_store (m : MachineStore) : Prop :=
  exists base, MachineDir m = absolute base /\ base <> [] /\ Forall plain base.

Lemma Machine_good home i m store : Machine home i m = inr store -> good_store store.
Proof.
  intros (segs & Hh & Hs & Hi & Hm)%Machine_home. unfold good_store, MachineDir. rewrite Hh.
  eexists. split_and!.
  - apply Join_absolute; [done|plain_list|done].
  - intros E. apply (f_equal length) in E. rewrite List.length_app in E. simpl in E. lia.
  - plain_list.
Qed.

(** A plain name under a directory of the machine. *)
Lemma Join_child m name x :
  good_store m -> plain name -> plain x ->
  Join [Join [MachineDir m; name]; x] = MachineDir m +:+ "/" +:+ name +:+ "/" +:+ x.
Proof.
  intros (base & -> & Hne & Hb) Hn Hx.
  rewrite Join_absolute by (done || plain_list).
  rewrite Join_absolute by (done || plain_list).
  rewrite absolute_snoc by (intros E; apply (f_equal length) in E; rewrite List.length_app in E;
    simpl in E; lia).
  rewrite absolute_snoc by done. by rewrite !app_assoc.
Qed.

Section Paths.
Context (m : MachineStore) (Hm : good_store m).

Lemma ProcessDir_eq pid d :
  ProcessDir m pid = inr d -> plain pid /\ d = MachineDir m +:+ "/processes/" +:+ pid.
Proof using Hm.
  unfold ProcessDir. case_match; intros; simplify_eq.
  assert (plain pid) by (by eapply validatePathID_plain). split; [done|].
  unfold ProcessesDir. by rewrite Join_child by (done || plain_list).
Qed.

Lemma LifetimeLockPath_eq pid p :
  LifetimeLockPath m pid = inr p ->
  plain pid /\ p = MachineDir m +:+ "/processes/" +:+ pid +:+ ".lifetime.lock".
Proof using Hm.
  unfold LifetimeLockPath. case_match; intros; simplify_eq.
  assert (plain pid) as Hp by (by eapply validatePathID_plain). split; [done|].
  unfold ProcessesDir. rewrite Join_child; [done|done|plain_list|].
  apply plain_suffix; [done|done|]. rewrite length_app. simpl. lia.
Qed.

Lemma ControlEndpointPath_eq pid p :
  ControlEndpointPath m pid = inr p ->
  plain pid /\ p = MachineDir m +:+ "/run/" +:+ pid +:+ ".sock".
Proof using Hm.
  unfold ControlEndpointPath. case_match; intros; simplify_eq.
  assert (plain pid) as Hp by (by eapply validatePathID_plain). split; [done|].
  unfold RunDir. rewrite Join_child; [done|done|plain_list|].
  apply plain_suffix; [done|done|]. rewrite length_app. simpl. lia.
Qed.

(** Different processes have different lifetime locks. *)
Lemma LifetimeLockPath_inj pid pid' p :
  LifetimeLockPath m pid = inr p -> LifetimeLockPath m pid' = inr p -> pid = pid'.
Proof using Hm.
  intros [_ ->]%LifetimeLockPath_eq [_ E]%LifetimeLockPath_eq. apply app_inv_l, app_inv_l in E.
  by apply string_app_inj_r in E.
Qed.

Lemma ProcessDir_inj pid pid' d : ProcessDir m pid = inr d -> ProcessDir m pid' = inr d -> pid = pid'.
Proof using Hm. intros [_ ->]%ProcessDir_eq [_ E]%ProcessDir_eq. by do 2 apply app_inv_l in E. Qed.

Lemma ControlEndpointPath_inj pid pid' p :
  ControlEndpointPath m pid = inr p -> ControlEndpointPath m pid' = inr p -> pid = pid'.
Proof using Hm.
  intros [_ ->]%ControlEndpointPath_eq [_ E]%ControlEndpointPath_eq.
  apply app_inv_l, app_inv_l in E. by apply string_app_inj_r in E.
Qed.
End Paths.

(** Whatever the home directory and the identifiers, the directory, the
    lifetime lock and the control endpoint of a process that the store accepts lie
    directly in the machine's [processes] and [run] directories (cleaning the path
    never climbs out of them), and two processes share none of them. *)
Theorem process_paths_are_private home installationID machineID m pid pid' d l e d' l' e' :
  Machine home installationID machineID = inr m ->
  ProcessDir m pid = inr d -> LifetimeLockPath m pid = inr l -> ControlEndpointPath m pid = inr e ->
  ProcessDir m pid' = inr d' -> LifetimeLockPath m pid' = inr l' ->
  ControlEndpointPath m pid' = inr e' ->
  d = MachineDir m +:+ "/processes/" +:+ pid
  /\ l = MachineDir m +:+ "/processes/" +:+ pid +:+ ".lifetime.lock"
  /\ e = MachineDir m +:+ "/run/" +:+ pid +:+ ".sock"
  /\ (d = d' \/ l = l' \/ e = e' -> pid = pid').
Proof.
  intros Hm%Machine_good Hd Hl He Hd' Hl' He'. split_and!.
  - by apply ProcessDir_eq in Hd as [_ ->].
  - by apply LifetimeLockPath_eq in Hl as [_ ->].
  - by apply ControlEndpointPath_eq in He as [_ ->].
  - intros [-> | [-> | ->]];
      eauto using ProcessDir_inj, LifetimeLockPath_inj, ControlEndpointPath_inj.
Qed.

Definition example_store : MachineStore := mkMachineStore "/home/me/.omnarad" "ins_1" "mch_1".

Lemma process_paths_are_private_witness :
  ProcessDir example_store "prc_1"
    = inr "/home/me/.omnarad/installations/ins_1/machines/mch_1/processes/prc_1"
  /\ exists d l e d' l' e' : string,
       Machine "/home//me/x/../.omnarad/" "ins_1" "mch_1" = inr example_store
       /\ (d = d' \/ l = l' \/ e = e' -> "prc_1" = "prc_2")
       /\ l = MachineDir example_store +:+ "/processes/" +:+ "prc_1" +:+ ".lifetime.lock".
Proof.
  split; [reflexivity|]. do 6 eexists. split; [reflexivity|].
  edestruct (process_paths_are_private "/home//me/x/../.omnarad/" "ins_1" "mch_1" example_store
    "prc_1" "prc_2") as (_ & Hl & _ & H); [reflexivity..|]. split; [exact H|exact Hl].
Defined.
