(* ===== verification/DaemonProtocol.v ===== *)
(** * The daemon protocol's shared vocabulary

    Models the enumerations, constants and pure predicates of
    [internal/daemonprotocol/protocol.go] and
    [internal/processaction/processaction.go] that the state database, the
    report outbox and the wire messages are written with.

    Go's string enumerations become inductive types; where a caller can hand in
    a string outside the enumeration the type has an [...Other] constructor that
    carries it.  A [time.Time] is its instant in nanoseconds counted from Go's
    zero time, so that [IsZero] is [= 0] and [After] is [>]. *)
From S2P Require Import Prelude.
From stdpp Require Import options.
Local Open Scope Z_scope.

(** ** processaction *)

Definition MaxWaitMilliseconds : Z := 10 * 1000.
Definition MaxObservationBytes : Z := 64 * 1024.
Definition DefaultObservationBytes : Z := 8 * 1024.
Definition MaxWriteBytes : Z := 128 * 1024.

Inductive Kind : Type :=
  | KindWrite
  | KindRead
  | KindInterrupt
  | KindTerminate
  | KindOther (s : string).

Global Instance Kind_eq_dec : EqDecision Kind.
Proof. solve_decision. Defined.

Definition Kind_Valid (kind : Kind) : bool :=
  match kind with
  | KindWrite | KindRead | KindInterrupt | KindTerminate => true
  | KindOther _ => false
  end.

Definition Kind_Mutating (kind : Kind) : bool :=
  match kind with
  | KindWrite | KindInterrupt | KindTerminate => true
  | KindRead | KindOther _ => false
  end.

(** ** daemonprotocol *)

Definition MaxMessageBytes : Z := 1048576.

Inductive ProcessPhase : Type :=
  | ProcessPreparing
  | ProcessPrepared
  | ProcessAccepted
  | ProcessTerminal.

Global Instance ProcessPhase_eq_dec : EqDecision ProcessPhase.
Proof. solve_decision. Defined.

Inductive ProcessState : Type :=
  | ProcessStateQueued
  | ProcessStateStarting
  | ProcessStateRunning
  | ProcessStateExited
  | ProcessStateFailed
  | ProcessStateKilled
  | ProcessStateUnknown
  | ProcessStateOther (s : string).

Global Instance ProcessState_eq_dec : EqDecision ProcessState.
Proof. solve_decision. Defined.

Inductive ReportedEventType : Type :=
  | EventProcessStarted
  | EventProcessFinished
  | EventProcessActionApplied
  | EventProcessActionFailed
  | EventProcessActionUnknown
  | EventOther (s : string).

Global Instance ReportedEventType_eq_dec : EqDecision ReportedEventType.
Proof. solve_decision. Defined.

(** [time.Time] *)
Abbreviation Time := Z (only parsing).
Definition Time_IsZero (t : Time) : bool := t =? 0.
Definition Time_After (t u : Time) : bool := u <? t.

Record ReportedEvent : Type := mkReportedEvent {
  e_Type : ReportedEventType;
  e_ProcessID : string;
  e_ProcessActionID : string;
  e_State : ProcessState;
  e_ExitCode : option Z;
  e_ExitSignal : string;
  e_StateReasonCode : string;
  e_StateReasonMessage : string;
  e_Result : string;
  e_StartedAt : Time;
  e_EndedAt : Time;
  e_ObservedAt : Time
}.

Definition ValidProcessTerminalSourceTimes
    (state : ProcessState) (startedAt endedAt : Time) : bool :=
  if negb (Time_IsZero startedAt) && negb (Time_IsZero endedAt) && Time_After startedAt endedAt
  then false
  else
    match state with
    | ProcessStateExited | ProcessStateKilled => negb (Time_IsZero endedAt)
    | ProcessStateFailed => Time_IsZero startedAt || negb (Time_IsZero endedAt)
    | ProcessStateUnknown => true
    | _ => false
    end.

Inductive AckStatus : Type :=
  | AckStatusCommitted
  | AckStatusCleanupOnly
  | AckStatusPermanentReject
  | AckStatusTransientError
  | AckStatusOther (s : string).

Global Instance AckStatus_eq_dec : EqDecision AckStatus.
Proof. solve_decision. Defined.

Definition ErrorCodeValidationFailed : string := "validation_failed".
