(* ===== verification/StateSchema.v ===== *)
(** * The daemon's local state database: tables, constraints and statements

    Models the SQLite schema of [internal/machinedaemon/statedb/migrations] and
    every statement of [internal/machinedaemon/statedb/queries] in the form the
    generated package [statedb/internal/dbsqlc] executes it.

    A table is a finite map from its primary key to its rows.  The 0/1 columns
    of the schema are booleans.  A statement that writes returns the SQLite
    extended result code of the first constraint it violates, exactly as the
    database refuses the write. *)
From S2P Require Import Prelude DaemonProtocol.
From stdpp Require Import options.
Local Open Scope Z_scope.

(** ** Enumerations and structs of [statedb/store.go] *)

Inductive ReportState : Type :=
  | ReportStateUnset            (**r the empty string of a report not yet frozen *)
  | ReportPending
  | ReportAcknowledged
  | ReportRejected.

Inductive ReportKind : Type :=
  | ReportProcessStarted
  | ReportProcessTerminal
  | ReportActionTerminal
  | ReportKindOther (s : string).

Global Instance ReportState_eq_dec : EqDecision ReportState.
Proof. solve_decision. Defined.
Global Instance ReportKind_eq_dec : EqDecision ReportKind.
Proof. solve_decision. Defined.

Record Process : Type := mkProcess {
  p_ProcessID : string;
  p_SupervisorInstanceID : string;
  p_SupervisorToken : string;
  p_Phase : ProcessPhase;
  p_ResolvedActionSeq : Z;
  p_ExecCommitted : bool;
  p_ContainmentKind : string;
  p_ContainmentID : string;
  p_ContainmentEmpty : bool;
  p_ActionAdmissionClosed : bool;
  p_LocalClosed : bool;
  p_ServerReleased : bool
}.

Record Action : Type := mkAction {
  a_ID : string;
  a_ProcessID : string;
  a_Kind : Kind;
  a_Seq : Z;
  a_EffectCommitted : bool
}.

(** The [Report] struct of the API: [r_ActionID = ""] for a process report. *)
Record Report : Type := mkReport {
  r_ID : string;
  r_ProcessID : string;
  r_ActionID : string;
  r_Kind : ReportKind;
  r_Body : string;
  r_State : ReportState;
  r_ErrorCode : string;
  r_Error : string
}.

(** The [frozen_reports] row: [f_action_id = None] is SQL's [NULL]. *)
Record FrozenReport : Type := mkFrozenReport {
  f_report_id : string;
  f_process_id : string;
  f_action_id : option string;
  f_report_kind : ReportKind;
  f_body : string;
  f_state : ReportState;
  f_error_code : string;
  f_error : string
}.

Global Instance Process_eq_dec : EqDecision Process.
Proof. solve_decision. Defined.
Global Instance Action_eq_dec : EqDecision Action.
Proof. solve_decision. Defined.
Global Instance Report_eq_dec : EqDecision Report.
Proof. solve_decision. Defined.
Global Instance FrozenReport_eq_dec : EqDecision FrozenReport.
Proof. solve_decision. Defined.

Record DB : Type := mkDB {
  db_identity : option (string * string);     (**r [machine_identity], its single row *)
  db_processes : gmap string Process;         (**r [processes] by [process_id] *)
  db_actions : gmap string Action;            (**r [process_actions] by [action_id] *)
  db_reports : gmap string FrozenReport       (**r [frozen_reports] by [report_id] *)
}.

Definition empty_db : DB := mkDB None ∅ ∅ ∅.

Definition with_processes (db : DB) (t : gmap string Process) : DB :=
  mkDB (db_identity db) t (db_actions db) (db_reports db).
Definition with_actions (db : DB) (t : gmap string Action) : DB :=
  mkDB (db_identity db) (db_processes db) t (db_reports db).
Definition with_reports (db : DB) (t : gmap string FrozenReport) : DB :=
  mkDB (db_identity db) (db_processes db) (db_actions db) t.

(** Column updates of a [processes] row. *)
Definition set_Phase (v : ProcessPhase) (p : Process) : Process :=
  mkProcess (p_ProcessID p) (p_SupervisorInstanceID p) (p_SupervisorToken p) v
    (p_ResolvedActionSeq p) (p_ExecCommitted p) (p_ContainmentKind p) (p_ContainmentID p)
    (p_ContainmentEmpty p) (p_ActionAdmissionClosed p) (p_LocalClosed p) (p_ServerReleased p).
Definition set_ResolvedActionSeq (v : Z) (p : Process) : Process :=
  mkProcess (p_ProcessID p) (p_SupervisorInstanceID p) (p_SupervisorToken p) (p_Phase p)
    v (p_ExecCommitted p) (p_ContainmentKind p) (p_ContainmentID p)
    (p_ContainmentEmpty p) (p_ActionAdmissionClosed p) (p_LocalClosed p) (p_ServerReleased p).
Definition set_ExecCommitted (v : bool) (p : Process) : Process :=
  mkProcess (p_ProcessID p) (p_SupervisorInstanceID p) (p_SupervisorToken p) (p_Phase p)
    (p_ResolvedActionSeq p) v (p_ContainmentKind p) (p_ContainmentID p)
    (p_ContainmentEmpty p) (p_ActionAdmissionClosed p) (p_LocalClosed p) (p_ServerReleased p).
Definition set_Containment (kind id : string) (p : Process) : Process :=
  mkProcess (p_ProcessID p) (p_SupervisorInstanceID p) (p_SupervisorToken p) (p_Phase p)
    (p_ResolvedActionSeq p) (p_ExecCommitted p) kind id
    (p_ContainmentEmpty p) (p_ActionAdmissionClosed p) (p_LocalClosed p) (p_ServerReleased p).
Definition set_ContainmentEmpty (v : bool) (p : Process) : Process :=
  mkProcess (p_ProcessID p) (p_SupervisorInstanceID p) (p_SupervisorToken p) (p_Phase p)
    (p_ResolvedActionSeq p) (p_ExecCommitted p) (p_ContainmentKind p) (p_ContainmentID p)
    v (p_ActionAdmissionClosed p) (p_LocalClosed p) (p_ServerReleased p).
Definition set_ActionAdmissionClosed (v : bool) (p : Process) : Process :=
  mkProcess (p_ProcessID p) (p_SupervisorInstanceID p) (p_SupervisorToken p) (p_Phase p)
    (p_ResolvedActionSeq p) (p_ExecCommitted p) (p_ContainmentKind p) (p_ContainmentID p)
    (p_ContainmentEmpty p) v (p_LocalClosed p) (p_ServerReleased p).
Definition set_LocalClosed (v : bool) (p : Process) : Process :=
  mkProcess (p_ProcessID p) (p_SupervisorInstanceID p) (p_SupervisorToken p) (p_Phase p)
    (p_ResolvedActionSeq p) (p_ExecCommitted p) (p_ContainmentKind p) (p_ContainmentID p)
    (p_ContainmentEmpty p) (p_ActionAdmissionClosed p) v (p_ServerReleased p).
Definition set_ServerReleased (v : bool) (p : Process) : Process :=
  mkProcess (p_ProcessID p) (p_SupervisorInstanceID p) (p_SupervisorToken p) (p_Phase p)
    (p_ResolvedActionSeq p) (p_ExecCommitted p) (p_ContainmentKind p) (p_ContainmentID p)
    (p_ContainmentEmpty p) (p_ActionAdmissionClosed p) (p_LocalClosed p) v.

(** State columns of a [frozen_reports] row. *)
Definition set_report_state (st : ReportState) (code err : string) (f : FrozenReport) : FrozenReport :=
  mkFrozenReport (f_report_id f) (f_process_id f) (f_action_id f) (f_report_kind f)
    (f_body f) st code err.

Definition reportFromSQLC (row : FrozenReport) : Report :=
  mkReport (f_report_id row) (f_process_id row)
    (match f_action_id row with Some a => a | None => "" end)
    (f_report_kind row) (f_body row) (f_state row) (f_error_code row) (f_error row).

(** ** Constraints of the schema *)

(** SQLite's extended result codes (their low byte is [SQLITE_CONSTRAINT]). *)
Definition SQLITE_CONSTRAINT_CHECK : Z := 275.
Definition SQLITE_CONSTRAINT_FOREIGNKEY : Z := 787.
Definition SQLITE_CONSTRAINT_PRIMARYKEY : Z := 1555.
Definition SQLITE_CONSTRAINT_UNIQUE : Z := 2067.

Definition is_accepted_or_terminal (ph : ProcessPhase) : bool :=
  (ph ==? ProcessAccepted) || (ph ==? ProcessTerminal).

Definition processes_check (p : Process) : bool :=
  (p_ProcessID p <>? "") && (p_SupervisorInstanceID p <>? "") && (p_SupervisorToken p <>? "")
  && (0 <=? p_ResolvedActionSeq p)
  && (((p_ContainmentKind p ==? "") && (p_ContainmentID p ==? ""))
      || ((p_ContainmentKind p <>? "") && (p_ContainmentID p <>? "")))
  && ((p_ContainmentKind p ==? "") || p_ExecCommitted p)
  && (is_accepted_or_terminal (p_Phase p) || negb (p_ExecCommitted p))
  && ((p_Phase p <>? ProcessTerminal) || p_ActionAdmissionClosed p)
  && (negb (p_LocalClosed p)
      || (p_ActionAdmissionClosed p && p_ContainmentEmpty p
          && (negb (p_ExecCommitted p) || (p_Phase p ==? ProcessTerminal)))).

Definition process_actions_check (a : Action) : bool :=
  (a_ID a <>? "")
  && ((a_Kind a ==? KindWrite) || (a_Kind a ==? KindInterrupt) || (a_Kind a ==? KindTerminate))
  && (0 <? a_Seq a).

Definition frozen_reports_check (f : FrozenReport) : bool :=
  (f_report_id f <>? "") && (f_process_id f <>? "")
  && ((f_report_kind f ==? ReportProcessStarted) || (f_report_kind f ==? ReportProcessTerminal)
      || (f_report_kind f ==? ReportActionTerminal))
  && ((f_state f ==? ReportPending) || (f_state f ==? ReportAcknowledged)
      || (f_state f ==? ReportRejected))
  && (f_body f <>? "")
  && (((f_report_kind f ==? ReportActionTerminal) && (f_action_id f <>? None))
      || ((f_report_kind f <>? ReportActionTerminal) && (f_action_id f ==? None)))
  && ((f_state f <>? ReportAcknowledged) || (f_action_id f ==? None))
  && (((f_state f ==? ReportRejected) && (f_error_code f <>? ""))
      || ((f_state f <>? ReportRejected) && (f_error_code f ==? "") && (f_error f ==? ""))).

(** The outcome of a write statement: a constraint violation, or the number of
    rows it affected and the database after it. *)
Definition WriteResult : Type := sum Z (Z * DB).

(** [UPDATE processes SET .. WHERE process_id = pid AND guard]. *)
Definition update_process (pid : string) (guard : Process -> bool) (f : Process -> Process)
    (db : DB) : WriteResult :=
  match db_processes db !! pid with
  | Some p =>
      if guard p then
        if processes_check (f p)
        then inr (1, with_processes db (<[pid := f p]> (db_processes db)))
        else inl SQLITE_CONSTRAINT_CHECK
      else inr (0, db)
  | None => inr (0, db)
  end.

(** [UPDATE frozen_reports SET .. WHERE report_id = rid AND guard]. *)
Definition update_report (rid : string) (guard : FrozenReport -> bool)
    (g : FrozenReport -> FrozenReport) (db : DB) : WriteResult :=
  match db_reports db !! rid with
  | Some f =>
      if guard f then
        if frozen_reports_check (g f)
        then inr (1, with_reports db (<[rid := g f]> (db_reports db)))
        else inl SQLITE_CONSTRAINT_CHECK
      else inr (0, db)
  | None => inr (0, db)
  end.
