(* ===== verification/StateQueries.v ===== *)
(** * The statements of the state database

    One definition per query of [statedb/internal/dbsqlc]: writes return a
    [WriteResult], reads are functions of the database. *)
From S2P Require Import Prelude DaemonProtocol StateSchema.
From stdpp Require Import options.
Local Open Scope Z_scope.

(** ** identity.sql *)

Definition GetMachineIdentity (db : DB) : option (string * string) := db_identity db.

Definition BindMachineIdentity (installation_id machine_id : string) (db : DB) : WriteResult :=
  if bool_decide (is_Some (db_identity db)) then inl SQLITE_CONSTRAINT_PRIMARYKEY
  else if (installation_id <>? "") && (machine_id <>? "")
  then inr (1, mkDB (Some (installation_id, machine_id))
                 (db_processes db) (db_actions db) (db_reports db))
  else inl SQLITE_CONSTRAINT_CHECK.

(** ** process.sql *)

Definition GetProcess (pid : string) (db : DB) : option Process := db_processes db !! pid.

Definition GetProcessSupervisorIdentity (pid : string) (db : DB) : option (string * string) :=
  match db_processes db !! pid with
  | Some p => Some (p_SupervisorInstanceID p, p_SupervisorToken p)
  | None => None
  end.

(** The row [INSERT INTO processes] builds, defaults of the schema included. *)
Definition new_process_row (pid instance token : string) : Process :=
  mkProcess pid instance token ProcessPreparing 0 false "" "" false false false false.

Definition InsertProcess (pid instance token : string) (db : DB) : WriteResult :=
  let p := new_process_row pid instance token in
  if negb (processes_check p) then inl SQLITE_CONSTRAINT_CHECK
  else if bool_decide (is_Some (db_processes db !! pid)) then inl SQLITE_CONSTRAINT_PRIMARYKEY
  else inr (1, with_processes db (<[pid := p]> (db_processes db))).

Definition MarkProcessPrepared (pid instance : string) : DB -> WriteResult :=
  update_process pid
    (fun p => (p_SupervisorInstanceID p ==? instance)
       && ((p_Phase p ==? ProcessPreparing) || (p_Phase p ==? ProcessPrepared))
       && negb (p_LocalClosed p))
    (set_Phase ProcessPrepared).

Definition MarkProcessAccepted (pid instance : string) : DB -> WriteResult :=
  update_process pid
    (fun p => (p_SupervisorInstanceID p ==? instance)
       && ((p_Phase p ==? ProcessPrepared) || (p_Phase p ==? ProcessAccepted))
       && negb (p_LocalClosed p) && negb (p_ServerReleased p))
    (set_Phase ProcessAccepted).

(** [ON DELETE CASCADE]: the process's actions and reports go with its row. *)
Definition cascade_process (pid : string) (db : DB) : DB :=
  mkDB (db_identity db) (delete pid (db_processes db))
    (delete_where (fun a => a_ProcessID a ==? pid) (db_actions db))
    (delete_where (fun f => f_process_id f ==? pid) (db_reports db)).

Definition DeleteProcess (pid instance : string) (db : DB) : WriteResult :=
  match db_processes db !! pid with
  | Some p =>
      if p_SupervisorInstanceID p ==? instance
      then inr (1, cascade_process pid db)
      else inr (0, db)
  | None => inr (0, db)
  end.

Definition AuthorizeProcessSpawn (pid instance : string) : DB -> WriteResult :=
  update_process pid
    (fun p => (p_SupervisorInstanceID p ==? instance)
       && (p_Phase p ==? ProcessAccepted)
       && negb (p_ExecCommitted p) && negb (p_LocalClosed p))
    (set_ExecCommitted true).

Definition RecordProcessSpawned (kind id pid instance : string) : DB -> WriteResult :=
  update_process pid
    (fun p => (p_SupervisorInstanceID p ==? instance)
       && is_accepted_or_terminal (p_Phase p)
       && p_ExecCommitted p && negb (p_LocalClosed p)
       && ((p_ContainmentKind p ==? "") || (p_ContainmentKind p ==? kind))
       && ((p_ContainmentID p ==? "") || (p_ContainmentID p ==? id)))
    (set_Containment kind id).

Definition CloseProcessActionAdmission (pid instance : string) : DB -> WriteResult :=
  update_process pid
    (fun p => (p_SupervisorInstanceID p ==? instance) && is_accepted_or_terminal (p_Phase p))
    (set_ActionAdmissionClosed true).

Definition MarkProcessContainmentEmpty (pid instance : string) : DB -> WriteResult :=
  update_process pid
    (fun p => (p_SupervisorInstanceID p ==? instance) && is_accepted_or_terminal (p_Phase p))
    (set_ContainmentEmpty true).

Definition MarkProcessLocalClosed (pid instance : string) : DB -> WriteResult :=
  update_process pid (fun p => p_SupervisorInstanceID p ==? instance) (set_LocalClosed true).

Definition MarkProcessServerReleased (pid instance : string) : DB -> WriteResult :=
  update_process pid (fun p => p_SupervisorInstanceID p ==? instance) (set_ServerReleased true).

Definition MarkTerminalProcessServerReleased (pid : string) : DB -> WriteResult :=
  update_process pid (fun _ => true) (set_ServerReleased true).

Definition SetProcessTerminal (pid instance : string) : DB -> WriteResult :=
  update_process pid (fun p => p_SupervisorInstanceID p ==? instance)
    (fun p => set_ActionAdmissionClosed true (set_Phase ProcessTerminal p)).

Definition AdvanceResolvedActionSequence (seq : Z) (pid : string) : DB -> WriteResult :=
  update_process pid (fun _ => true) (set_ResolvedActionSeq seq).

Definition AdvanceReleasedActionSequence (seq : Z) (pid instance : string) : DB -> WriteResult :=
  update_process pid (fun p => p_SupervisorInstanceID p ==? instance) (set_ResolvedActionSeq seq).

Definition CompactMissingActionPrefix (next : Z) (pid instance : string) (previous : Z)
    : DB -> WriteResult :=
  update_process pid
    (fun p => (p_SupervisorInstanceID p ==? instance) && (p_ResolvedActionSeq p =? previous))
    (set_ResolvedActionSeq next).

Definition process_id_le (p q : Process) : Prop := String.le (p_ProcessID p) (p_ProcessID q).
Global Instance process_id_le_dec : RelDecision process_id_le.
Proof. unfold process_id_le, RelDecision. apply _. Defined.

Definition ListProcesses (db : DB) : list Process := merge_sort process_id_le (rows (db_processes db)).

Definition CountTerminalProcessReports (pid : string) (db : DB) : Z :=
  count (fun f => (f_process_id f ==? pid) && (f_action_id f ==? None)
                  && (f_report_kind f ==? ReportProcessTerminal)) (db_reports db).

(** [EXISTS (SELECT 1 FROM frozen_reports WHERE action_id = aid)] *)
Definition action_has_report (aid : string) (db : DB) : bool :=
  exists_row (fun f => f_action_id f ==? Some aid) (db_reports db).

Definition CountUnresolvedProcessActions (pid : string) (db : DB) : Z :=
  count (fun a => (a_ProcessID a ==? pid) && negb (action_has_report (a_ID a) db)) (db_actions db).

Definition CountProcessActions (pid : string) (db : DB) : Z :=
  count (fun a => a_ProcessID a ==? pid) (db_actions db).

Definition CountUnsettledProcessReports (pid : string) (db : DB) : Z :=
  count (fun f => (f_process_id f ==? pid) && (f_state f <>? ReportAcknowledged)) (db_reports db).

(** ** action.sql *)

Definition InsertProcessAction (a : Action) (db : DB) : WriteResult :=
  if negb (process_actions_check a) then inl SQLITE_CONSTRAINT_CHECK
  else if bool_decide (is_Some (db_actions db !! a_ID a)) then inl SQLITE_CONSTRAINT_PRIMARYKEY
  else if exists_row (fun b => (a_ProcessID b ==? a_ProcessID a) && (a_Seq b =? a_Seq a))
            (db_actions db)
  then inl SQLITE_CONSTRAINT_UNIQUE
  else if bool_decide (is_Some (db_processes db !! a_ProcessID a))
  then inr (1, with_actions db (<[a_ID a := a]> (db_actions db)))
  else inl SQLITE_CONSTRAINT_FOREIGNKEY.

Definition GetProcessAction (aid : string) (db : DB) : option Action := db_actions db !! aid.

Definition action_seq_le (a b : Action) : Prop := a_Seq a <= a_Seq b.
Global Instance action_seq_le_dec : RelDecision action_seq_le.
Proof. unfold action_seq_le, RelDecision. apply _. Defined.

Definition ListProcessActions (pid : string) (db : DB) : list Action :=
  merge_sort action_seq_le (select (fun a => a_ProcessID a ==? pid) (db_actions db)).

Definition GetProcessActionIDBySequence (pid : string) (seq : Z) (db : DB) : option string :=
  a_ID <$> select_one (fun a => (a_ProcessID a ==? pid) && (a_Seq a =? seq)) (db_actions db).

Definition CountProcessActionsBetween (pid : string) (after before : Z) (db : DB) : Z :=
  count (fun a => (a_ProcessID a ==? pid) && (after <? a_Seq a) && (a_Seq a <? before))
    (db_actions db).

Definition DeleteProcessAction (aid pid : string) (db : DB) : WriteResult :=
  match db_actions db !! aid with
  | Some a =>
      if a_ProcessID a ==? pid
      then inr (1, mkDB (db_identity db) (db_processes db) (delete aid (db_actions db))
                     (delete_where (fun f => (f_action_id f ==? Some aid) && (f_process_id f ==? pid))
                        (db_reports db)))
      else inr (0, db)
  | None => inr (0, db)
  end.

(** ** report.sql *)

(** The unique indexes [frozen_process_report_slot_idx] and
    [frozen_action_report_slot_idx]. *)
Definition same_slot (f g : FrozenReport) : bool :=
  match f_action_id f, f_action_id g with
  | None, None => (f_process_id f ==? f_process_id g) && (f_report_kind f ==? f_report_kind g)
  | Some a, Some b => a ==? b
  | _, _ => false
  end.

(** Both foreign keys of [frozen_reports]. *)
Definition report_fk (f : FrozenReport) (db : DB) : bool :=
  bool_decide (is_Some (db_processes db !! f_process_id f))
  && match f_action_id f with
     | None => true
     | Some aid =>
         match db_actions db !! aid with
         | Some a => a_ProcessID a ==? f_process_id f
         | None => false
         end
     end.

Definition InsertFrozenReport (rid pid : string) (aid : option string) (kind : ReportKind)
    (body : string) (db : DB) : WriteResult :=
  let f := mkFrozenReport rid pid aid kind body ReportPending "" "" in
  if negb (frozen_reports_check f) then inl SQLITE_CONSTRAINT_CHECK
  else if bool_decide (is_Some (db_reports db !! rid)) then inl SQLITE_CONSTRAINT_PRIMARYKEY
  else if exists_row (same_slot f) (db_reports db) then inl SQLITE_CONSTRAINT_UNIQUE
  else if report_fk f db
  then inr (1, with_reports db (<[rid := f]> (db_reports db)))
  else inl SQLITE_CONSTRAINT_FOREIGNKEY.

Definition GetFrozenProcessReportBySlot (pid : string) (kind : ReportKind) (db : DB)
    : option FrozenReport :=
  select_one (fun f => (f_process_id f ==? pid) && (f_action_id f ==? None)
                       && (f_report_kind f ==? kind)) (db_reports db).

Definition GetFrozenActionReportBySlot (pid aid : string) (kind : ReportKind) (db : DB)
    : option FrozenReport :=
  select_one (fun f => (f_process_id f ==? pid) && (f_action_id f ==? Some aid)
                       && (f_report_kind f ==? kind)) (db_reports db).

Definition GetFrozenReportByAction (aid : string) (db : DB) : option FrozenReport :=
  select_one (fun f => f_action_id f ==? Some aid) (db_reports db).

Definition GetFrozenReportByID (rid : string) (db : DB) : option FrozenReport :=
  db_reports db !! rid.

(** [ORDER BY process_id, CASE report_kind .., coalesce(action.seq, 0), report_id],
    the sort key of the delivery queries. *)
Definition report_kind_rank (k : ReportKind) : Z :=
  match k with ReportProcessStarted => 0 | ReportActionTerminal => 1 | _ => 2 end.

Definition report_action_seq (db : DB) (f : FrozenReport) : Z :=
  match f_action_id f with
  | Some aid => match db_actions db !! aid with Some a => a_Seq a | None => 0 end
  | None => 0
  end.

Definition delivery_key (db : DB) (f : FrozenReport) : string * (Z * (Z * string)) :=
  (f_process_id f, (report_kind_rank (f_report_kind f), (report_action_seq db f, f_report_id f))).

Definition key_le (k1 k2 : string * (Z * (Z * string))) : Prop :=
  let '(p1, (r1, (s1, i1))) := k1 in
  let '(p2, (r2, (s2, i2))) := k2 in
  (String.le p1 p2 /\ p1 <> p2)
  \/ (p1 = p2 /\ (r1 < r2 \/ (r1 = r2 /\ (s1 < s2 \/ (s1 = s2 /\ String.le i1 i2))))).
Global Instance key_le_dec : RelDecision key_le.
Proof. intros [p1 [r1 [s1 i1]]] [p2 [r2 [s2 i2]]]. unfold key_le. apply _. Defined.

Definition delivery_le (db : DB) (f g : FrozenReport) : Prop :=
  key_le (delivery_key db f) (delivery_key db g).
Global Instance delivery_le_dec db : RelDecision (delivery_le db).
Proof. intros f g. unfold delivery_le. apply _. Defined.

(** The [WHERE] clause of [ListFrozenReportDeliveryCandidates]. *)
Definition action_rejected (db : DB) (aid : string) : bool :=
  exists_row (fun f => (f_action_id f ==? Some aid) && (f_report_kind f ==? ReportActionTerminal)
                       && (f_state f ==? ReportRejected)) (db_reports db).

Definition deliverable (db : DB) (f : FrozenReport) : bool :=
  ((f_state f ==? ReportPending) || (f_state f ==? ReportRejected))
  && ((f_report_kind f <>? ReportProcessTerminal)
      || negb (exists_row (fun a => (a_ProcessID a ==? f_process_id f)
                                    && negb (action_rejected db (a_ID a))) (db_actions db))).

Definition ListFrozenReportDeliveryCandidates (db : DB) : list FrozenReport :=
  merge_sort (delivery_le db) (select (deliverable db) (db_reports db)).

Definition ListFrozenReportsForProcess (pid : string) (db : DB) : list FrozenReport :=
  merge_sort (delivery_le db) (select (fun f => f_process_id f ==? pid) (db_reports db)).

Definition ListFrozenReports (db : DB) : list FrozenReport := rows (db_reports db).

Definition AcknowledgeProcessReport (rid : string) : DB -> WriteResult :=
  update_report rid (fun f => (f_state f ==? ReportPending) || (f_state f ==? ReportRejected))
    (set_report_state ReportAcknowledged "" "").

Definition RejectFrozenReport (code err rid : string) : DB -> WriteResult :=
  update_report rid (fun f => f_state f ==? ReportPending)
    (set_report_state ReportRejected code err).

(** ** snapshot.sql *)

Record ActionSnapshotRow : Type := mkActionSnapshotRow {
  s_action : Action;
  s_reported : bool;
  s_report_id : string;
  s_report_state : ReportState
}.

(** [ORDER BY action.process_id, action.seq] *)
Definition action_process_seq_le (a b : Action) : Prop :=
  (String.le (a_ProcessID a) (a_ProcessID b) /\ a_ProcessID a <> a_ProcessID b)
  \/ (a_ProcessID a = a_ProcessID b /\ a_Seq a <= a_Seq b).
Global Instance action_process_seq_le_dec : RelDecision action_process_seq_le.
Proof. unfold action_process_seq_le, RelDecision. apply _. Defined.

(** The [LEFT JOIN] with [frozen_reports], at most one report per action. *)
Definition ListProcessActionSnapshots (db : DB) : list ActionSnapshotRow :=
  (fun a => match GetFrozenReportByAction (a_ID a) db with
            | Some f => mkActionSnapshotRow a true (f_report_id f) (f_state f)
            | None => mkActionSnapshotRow a false "" ReportStateUnset
            end) <$> merge_sort action_process_seq_le (rows (db_actions db)).

Definition report_process_id_le (f g : FrozenReport) : Prop :=
  (String.le (f_process_id f) (f_process_id g) /\ f_process_id f <> f_process_id g)
  \/ (f_process_id f = f_process_id g /\ String.le (f_report_id f) (f_report_id g)).
Global Instance report_process_id_le_dec : RelDecision report_process_id_le.
Proof. unfold report_process_id_le, RelDecision. apply _. Defined.

Definition ListRejectedProcessReportIDs (db : DB) : list (string * string) :=
  (fun f => (f_process_id f, f_report_id f)) <$>
  merge_sort report_process_id_le
    (select (fun f => (f_action_id f ==? None) && (f_state f ==? ReportRejected)) (db_reports db)).

(** ** audit.sql *)

Record GetInvariantViolationsRow : Type := mkViolations {
  TerminalProcessMissingReport : bool;
  TerminalReportOnNonterminalProcess : bool;
  LocallyClosedProcessNotTerminal : bool;
  LocallyClosedProcessActionMissingReport : bool;
  NoEffectActionMissingReport : bool;
  ActionBehindResolvedFrontier : bool
}.

(** [join_process db pid P]: the process row with key [pid] exists and satisfies [P]. *)
Definition join_process (db : DB) (pid : string) (P : Process -> bool) : bool :=
  match db_processes db !! pid with Some p => P p | None => false end.

Definition GetInvariantViolations (db : DB) : GetInvariantViolationsRow :=
  mkViolations
    (exists_row (fun p => (p_Phase p ==? ProcessTerminal)
       && negb (exists_row (fun f => (f_process_id f ==? p_ProcessID p) && (f_action_id f ==? None)
                                     && (f_report_kind f ==? ReportProcessTerminal))
                  (db_reports db))) (db_processes db))
    (exists_row (fun f => (f_report_kind f ==? ReportProcessTerminal)
       && join_process db (f_process_id f) (fun p => p_Phase p <>? ProcessTerminal)) (db_reports db))
    (exists_row (fun p => p_LocalClosed p && (p_Phase p <>? ProcessTerminal)) (db_processes db))
    (exists_row (fun a => join_process db (a_ProcessID a) p_LocalClosed
       && negb (action_has_report (a_ID a) db)) (db_actions db))
    (exists_row (fun a => negb (a_EffectCommitted a) && negb (action_has_report (a_ID a) db))
       (db_actions db))
    (exists_row (fun a => join_process db (a_ProcessID a)
       (fun p => a_Seq a <=? p_ResolvedActionSeq p)) (db_actions db)).
