(* ===== verification/StateTx.v ===== *)
(** * Write transactions of the state database

    Models [beginWrite], [commitWrite], [dbError] and the deferred [Rollback] of
    [internal/machinedaemon/statedb/store.go].  A transaction body is a program
    of the state-and-error monad [Tx]: its state is the transaction's view of the
    database together with a schedule of storage faults, one entry per statement,
    that the environment chooses.  [None] lets the statement through, [Some e]
    makes it fail with the SQLite (or other) error [e]; the empty schedule is a
    healthy database.  [write_tx] runs a body between [BEGIN] and [COMMIT]: when
    any statement fails, or the body returns an error, the database is the one
    the transaction started from. *)
From S2P Require Import Prelude DaemonProtocol StateSchema StateQueries.
From stdpp Require Import options.
Local Open Scope Z_scope.

(** ** Errors *)

(** The sentinel errors of the package; [ErrInvalid] are the [errors.New] and
    [fmt.Errorf] values without a sentinel, with the (unformatted) message;
    [ErrDB] is a database error that [dbError] wraps without a sentinel. *)
Inductive Err : Type :=
  | ErrBusy
  | ErrFull
  | ErrProcessExists
  | ErrSupervisorIdentityMismatch
  | ErrStateConflict
  | ErrActionBlocked
  | ErrClosureBlocked
  | ErrInvalid (message : string)
  | ErrDB.

Global Instance Err_eq_dec : EqDecision Err.
Proof. solve_decision. Defined.

(** A driver error: a [*sqlite3.Error] with its extended code, or another error
    (a cancelled context, a closed database). *)
Inductive DbErr : Type :=
  | SqliteError (code : Z)
  | OtherDbError.

Definition SQLITE_BUSY : Z := 5.
Definition SQLITE_LOCKED : Z := 6.
Definition SQLITE_FULL : Z := 13.

Definition dbError (err : DbErr) : Err :=
  match err with
  | SqliteError c =>
      let code := Z.land c 255 in
      if code =? SQLITE_FULL then ErrFull
      else if (code =? SQLITE_BUSY) || (code =? SQLITE_LOCKED) then ErrBusy
      else ErrDB
  | OtherDbError => ErrDB
  end.

(** ** The transaction monad *)

Abbreviation Faults := (list (option DbErr)).

Record TxState : Type := mkTxState { tx_db : DB; tx_faults : Faults }.

Definition Tx (A : Type) : Type := TxState -> (Err + A) * TxState.

Global Instance Tx_ret : MRet Tx := fun A a s => (inr a, s).
Global Instance Tx_bind : MBind Tx := fun A B f m s =>
  match m s with
  | (inl e, s') => (inl e, s')
  | (inr a, s') => f a s'
  end.

Definition throw {A} (e : Err) : Tx A := fun s => (inl e, s).

(** The next entry of the fault schedule. *)
Definition next_fault (s : TxState) : option DbErr * TxState :=
  match tx_faults s with
  | [] => (None, s)
  | f :: fs => (f, mkTxState (tx_db s) fs)
  end.

(** A read, and a write with the number of rows it affected. *)
Definition query {A} (f : DB -> A) : Tx A := fun s =>
  match next_fault s with
  | (Some e, s') => (inl (dbError e), s')
  | (None, s') => (inr (f (tx_db s')), s')
  end.

Definition exec (w : DB -> WriteResult) : Tx Z := fun s =>
  match next_fault s with
  | (Some e, s') => (inl (dbError e), s')
  | (None, s') =>
      match w (tx_db s') with
      | inl code => (inl (dbError (SqliteError code)), s')
      | inr (n, db) => (inr n, mkTxState db (tx_faults s'))
      end
  end.

Definition beginWrite : Tx unit := query (fun _ => tt).
Definition commitWrite : Tx unit := query (fun _ => tt).

(** An operation of the store: its outcome and the committed database. *)
Definition Op (A : Type) : Type := Faults -> DB -> (Err + A) * DB.

Definition write_tx {A} (body : Tx A) : Op A := fun faults db =>
  match (beginWrite ≫= fun _ => body ≫= fun a => commitWrite ≫= fun _ => mret a)
          (mkTxState db faults) with
  | (inr a, s) => (inr a, tx_db s)
  | (inl e, _) => (inl e, db)
  end.

(** A read outside a transaction. *)
Definition read_op {A} (f : DB -> A) : Op A := fun faults db =>
  (fst (query f (mkTxState db faults)), db).

(** An operation that refuses its arguments before it opens a transaction. *)
Definition fail_op {A} (e : Err) : Op A := fun _ db => (inl e, db).

(** ** Inversion of successful programs *)

Section Inversion.
Context {A B : Type}.
Implicit Types (s : TxState).

Lemma bind_inv (m : Tx A) (f : A -> Tx B) s b s' :
  (m ≫= f) s = (inr b, s') ->
  exists a s1, m s = (inr a, s1) /\ f a s1 = (inr b, s').
Proof.
  unfold mbind, Tx_bind. destruct (m s) as [[e|a] s1]; [done|]. eauto.
Qed.

Lemma ret_inv (a b : A) s s' : (mret a : Tx A) s = (inr b, s') -> b = a /\ s' = s.
Proof. unfold mret, Tx_ret. intros. by simplify_eq. Qed.

Lemma throw_inv e s (b : A) s' : throw e s = (inr b, s') -> False.
Proof. unfold throw. congruence. Qed.

Lemma next_fault_db s f s' : next_fault s = (f, s') -> tx_db s' = tx_db s.
Proof. unfold next_fault. destruct (tx_faults s); intros; by simplify_eq. Qed.

Lemma query_inv (f : DB -> A) s a s' :
  query f s = (inr a, s') -> a = f (tx_db s) /\ tx_db s' = tx_db s.
Proof.
  unfold query. destruct (next_fault s) as [[e|] s1] eqn:E; [done|].
  apply next_fault_db in E. intros; simplify_eq. by rewrite E.
Qed.

(** The value of a read outside a transaction. *)
Lemma query_fst (f : DB -> A) s a : fst (query f s) = inr a -> a = f (tx_db s).
Proof.
  destruct (query f s) as [r s'] eqn:E. simpl. intros ->. by apply query_inv in E as [-> _].
Qed.

Lemma exec_inv w s n s' :
  exec w s = (inr n, s') -> w (tx_db s) = inr (n, tx_db s').
Proof.
  unfold exec. destruct (next_fault s) as [[e|] s1] eqn:E; [done|].
  apply next_fault_db in E. rewrite E.
  destruct (w (tx_db s)) as [c|[m db]] eqn:Ew; [done|].
  intros; by simplify_eq.
Qed.

Lemma bind_err (m : Tx A) (f : A -> Tx B) s e s' :
  (m ≫= f) s = (inl e, s') ->
  m s = (inl e, s') \/ exists a s1, m s = (inr a, s1) /\ f a s1 = (inl e, s').
Proof.
  unfold mbind, Tx_bind. destruct (m s) as [[e'|a] s1]; intros; simplify_eq; eauto.
Qed.

(** A statement that fails leaves the transaction's database as it was. *)
Lemma query_err (f : DB -> A) s e s' : query f s = (inl e, s') -> tx_db s' = tx_db s.
Proof.
  unfold query. destruct (next_fault s) as [[d|] s1] eqn:E; [|done].
  apply next_fault_db in E. intros; by simplify_eq.
Qed.

Lemma exec_err w s e s' : exec w s = (inl e, s') -> tx_db s' = tx_db s.
Proof.
  unfold exec. destruct (next_fault s) as [[d|] s1] eqn:E; apply next_fault_db in E.
  - intros; by simplify_eq.
  - destruct (w (tx_db s1)) as [c|[m db]]; [|done]. intros; by simplify_eq.
Qed.
End Inversion.

Lemma write_tx_success {A} (body : Tx A) faults db a db' :
  write_tx body faults db = (inr a, db') ->
  exists s s', tx_db s = db /\ body s = (inr a, s') /\ tx_db s' = db'.
Proof.
  unfold write_tx. intros H.
  destruct ((beginWrite ≫= _) _) as [[e|a'] s'] eqn:E; simplify_eq.
  apply bind_inv in E as ([] & s1 & Hb & E). apply query_inv in Hb as [_ Hb].
  apply bind_inv in E as (x & s2 & Hbody & E).
  apply bind_inv in E as ([] & s3 & Hc & E). apply query_inv in Hc as [_ Hc].
  apply ret_inv in E as [-> ->]. exists s1, s2. rewrite Hb, Hc. done.
Qed.

(** An operation that reports an error has not changed the database. *)
Lemma write_tx_error {A} (body : Tx A) faults db e db' :
  write_tx body faults db = (inl e, db') -> db' = db.
Proof.
  unfold write_tx. destruct ((beginWrite ≫= _) _) as [[?|?] ?]; intros; by simplify_eq.
Qed.

(** Destructs a successful transaction program into the statements it ran. *)
Ltac tx_inv_step :=
  match goal with
  | H : (_ ≫= _) _ = (inr _, _) |- _ =>
      apply bind_inv in H as (? & ? & ? & ?)
  | H : mret _ _ = (inr _, _) |- _ => apply ret_inv in H as [? ?]
  | H : throw _ _ = (inr _, _) |- _ => by apply throw_inv in H
  | H : query _ _ = (inr _, _) |- _ => apply query_inv in H as [? ?]
  | H : exec _ _ = (inr _, _) |- _ => apply exec_inv in H
  | H : write_tx _ _ _ = (inr _, _) |- _ =>
      apply write_tx_success in H as (? & ? & ? & ? & ?)
  | H : fail_op _ _ _ = (inr _, _) |- _ => by inversion H
  end.
(** A read leaves the transaction's database as it was. *)
Ltac tx_norm :=
  repeat match goal with
  | H : tx_db ?a = tx_db ?a |- _ => clear H
  | H : tx_db ?a = tx_db ?b |- _ => rewrite H in *; clear H
  end.
Ltac tx_inv := repeat (tx_inv_step; simplify_eq/=); tx_norm.
