(* ===== verification/StateReport.v ===== *)
(** * Frozen reports: validation and freezing

    Models the report half of [internal/machinedaemon/statedb/report.go]:
    [validateReport], [validateReportWireEnvelope], [freezeReportTx] and the
    slot lookups, as transaction programs.

    The JSON text of a report is opaque to the store apart from three calls of
    [encoding/json]; they are the operations of the class [ReportCodec], and
    every definition and theorem below holds for any codec.  [newReportID] draws
    a random UUID: the drawn UUID is an argument of the operations. *)
From S2P Require Import Prelude DaemonProtocol StateSchema StateQueries StateTx.
From Stdlib Require Import Ascii.
From stdpp Require Import options.
Local Open Scope Z_scope.

Record frozenObservation : Type := mkFrozenObservation {
  o_Output : option string;
  o_NextCursor : option Z
}.

Class ReportCodec : Type := {
  (** [json.Unmarshal(body, &event)] *)
  unmarshal_event : string -> option ReportedEvent;
  (** [json.Unmarshal(event.Result, &observation)] *)
  unmarshal_observation : string -> option frozenObservation;
  (** [json.Marshal(Message{Type: MessageReport, ReportID: id, Event: &event})] *)
  marshal_report_message : string -> ReportedEvent -> option string
}.

(** [len] of a Go string or byte slice. *)
Definition len (s : string) : Z := Z.of_nat (String.length s).

Definition maxFrozenReportBytes : Z := MaxMessageBytes.

(** [newReportID]: the UUID text with its dashes removed. *)
Fixpoint remove_dashes (s : string) : string :=
  match s with
  | EmptyString => EmptyString
  | String c s' =>
      if bool_decide (c = "-"%char) then remove_dashes s' else String c (remove_dashes s')
  end.
Definition newReportID (uuid : string) : string := "rpt_" +:+ remove_dashes uuid.

Definition validTerminalActionEvent (eventType : ReportedEventType) : bool :=
  match eventType with
  | EventProcessActionApplied | EventProcessActionFailed | EventProcessActionUnknown => true
  | _ => false
  end.

Definition sameReportContent (left right : Report) : bool :=
  (r_ProcessID left ==? r_ProcessID right) && (r_ActionID left ==? r_ActionID right)
  && (r_Kind left ==? r_Kind right) && (r_Body left ==? r_Body right).

Section Reports.
Context {RC : ReportCodec}.

(** The kind-specific part of [validateReport]. *)
Definition validateReportEvent (kind : ReportKind) (event : ReportedEvent) : option Err :=
  match kind with
  | ReportProcessStarted =>
      if (e_Type event <>? EventProcessStarted) || Time_IsZero (e_StartedAt event)
         || Time_IsZero (e_ObservedAt event)
         || Time_After (e_StartedAt event) (e_ObservedAt event)
      then Some (ErrInvalid "process-started report requires ordered started_at and observed_at")
      else None
  | ReportProcessTerminal =>
      if (e_Type event <>? EventProcessFinished) || negb (Time_IsZero (e_ObservedAt event))
         || negb (ValidProcessTerminalSourceTimes (e_State event) (e_StartedAt event)
                    (e_EndedAt event))
      then Some (ErrInvalid "process-terminal report has invalid terminal source evidence")
      else if ((e_State event ==? ProcessStateFailed) || (e_State event ==? ProcessStateUnknown))
              && (e_StateReasonCode event ==? "")
      then Some (ErrInvalid "failed or unknown process report requires a reason")
      else None
  | ReportActionTerminal =>
      if negb (validTerminalActionEvent (e_Type event)) || negb (Time_IsZero (e_ObservedAt event))
      then Some (ErrInvalid "action-terminal report requires a terminal event")
      else if (e_Type event <>? EventProcessActionApplied) && (e_StateReasonCode event ==? "")
      then Some (ErrInvalid "non-applied action report requires a reason")
      else None
  | ReportKindOther _ => Some (ErrInvalid "unsupported frozen report kind")
  end.

(** The check of the event's result that ends [validateReport]. *)
Definition validateReportResult (event : ReportedEvent) : option Err :=
  if (len (e_Result event) =? 0) || (e_Result event ==? "null") then None
  else
    match unmarshal_observation (e_Result event) with
    | None => Some (ErrInvalid "decode frozen report result")
    | Some observation =>
        match o_Output observation with
        | Some output =>
            if MaxObservationBytes <? len output
            then Some (ErrInvalid "frozen process output exceeds the maximum")
            else None
        | None => None
        end
    end.

Definition validateReport (report : Report) : option Err :=
  if (r_ProcessID report ==? "") || (r_Kind report ==? ReportKindOther "")
     || (len (r_Body report) =? 0)
  then Some (ErrInvalid "report process, kind, and body are required")
  else if maxFrozenReportBytes <? len (r_Body report)
  then Some (ErrInvalid "frozen report exceeds the maximum")
  else if (r_Kind report ==? ReportActionTerminal) && (r_ActionID report ==? "")
  then Some (ErrInvalid "action-terminal report requires an action")
  else if (r_Kind report <>? ReportActionTerminal) && (r_ActionID report <>? "")
  then Some (ErrInvalid "process report cannot name an action")
  else
    match unmarshal_event (r_Body report) with
    | None => Some (ErrInvalid "decode frozen report body")
    | Some event =>
        if (e_ProcessID event <>? r_ProcessID report)
           || (e_ProcessActionID event <>? r_ActionID report)
        then Some (ErrInvalid "frozen report body identity does not match its slot")
        else
          match validateReportEvent (r_Kind report) event with
          | Some e => Some e
          | None => validateReportResult event
          end
    end.

Definition validateReportWireEnvelope (report : Report) : option Err :=
  match unmarshal_event (r_Body report) with
  | None => Some (ErrInvalid "decode frozen report for wire validation")
  | Some event =>
      match marshal_report_message (r_ID report) event with
      | None => Some (ErrInvalid "encode frozen report for wire validation")
      | Some body =>
          if MaxMessageBytes <? len body
          then Some (ErrInvalid "frozen report envelope exceeds the maximum")
          else None
      end
  end.

(** [err != nil -> return err] *)
Definition check (err : option Err) : Tx unit :=
  match err with Some e => throw e | None => mret tt end.

Definition reportBySlotTx (kind : ReportKind) (processID actionID : string) : Tx (option Report) :=
  if actionID ==? "" then
    row ← query (GetFrozenProcessReportBySlot processID kind);
    mret (reportFromSQLC <$> row)
  else
    row ← query (GetFrozenActionReportBySlot processID actionID kind);
    mret (reportFromSQLC <$> row).

Definition reportByActionTx (actionID : string) : Tx (option Report) :=
  row ← query (GetFrozenReportByAction actionID);
  mret (reportFromSQLC <$> row).

(** [ReportBySlot]: the same two lookups outside a transaction. *)
Definition ReportBySlot (kind : ReportKind) (processID actionID : string) : Op (option Report) :=
  if actionID ==? ""
  then read_op (fun db => reportFromSQLC <$> GetFrozenProcessReportBySlot processID kind db)
  else read_op (fun db => reportFromSQLC <$> GetFrozenActionReportBySlot processID actionID kind db).

Definition freezeReportTx (uuid : string) (report : Report) : Tx Report :=
  check (validateReport report);;
  found ← reportBySlotTx (r_Kind report) (r_ProcessID report) (r_ActionID report);
  match found with
  | Some existing =>
      if sameReportContent existing report then mret existing else throw ErrStateConflict
  | None =>
      if (r_ID report <>? "") || (r_State report <>? ReportStateUnset)
         || (r_ErrorCode report <>? "") || (r_Error report <>? "")
      then throw (ErrInvalid "a new frozen report cannot supply local persistence state")
      else
        let report' := mkReport (newReportID uuid) (r_ProcessID report) (r_ActionID report)
                         (r_Kind report) (r_Body report) ReportPending "" "" in
        match validateReportWireEnvelope report' with
        | Some _ => throw ErrStateConflict
        | None =>
            let actionID := if r_ActionID report' <>? "" then Some (r_ActionID report') else None in
            exec (InsertFrozenReport (r_ID report') (r_ProcessID report') actionID
                    (r_Kind report') (r_Body report'));;
            mret report'
        end
  end.
End Reports.
