(* ===== verification/StateProcess.v ===== *)
(** * Process operations of the state database

    Models [internal/machinedaemon/statedb/process.go] and the identity binding
    of [store.go]: every exported operation is an [Op],
    one write transaction each. *)
From S2P Require Import Prelude DaemonProtocol StateSchema StateQueries StateTx.
From stdpp Require Import options.
Local Open Scope Z_scope.

(** The handle [OpenSupervisor] returns. *)
Record Supervisor : Type := mkSupervisor {
  sv_processID : string;
  sv_supervisorInstanceID : string
}.

Definition processTx (processID : string) : Tx (option Process) := query (GetProcess processID).

Definition updateProcess (operation : string) (processID supervisorInstanceID : string)
    (update : DB -> WriteResult) : Op unit :=
  if operation ==? ""
  then fail_op (ErrInvalid "process state update requires an operation label")
  else write_tx (
    n ← exec update;
    if negb (n =? 1) then throw ErrStateConflict else mret tt).

Definition ReserveProcess (process : Process) : Op unit :=
  if (p_ProcessID process ==? "") || (p_SupervisorInstanceID process ==? "")
     || (p_SupervisorToken process ==? "")
  then fail_op (ErrInvalid "process, supervisor instance ID, and supervisor token are required")
  else write_tx (
    identity ← query (GetProcessSupervisorIdentity (p_ProcessID process));
    match identity with
    | Some (instance, token) =>
        if (instance ==? p_SupervisorInstanceID process) && (token ==? p_SupervisorToken process)
        then mret tt
        else throw ErrProcessExists
    | None =>
        exec (InsertProcess (p_ProcessID process) (p_SupervisorInstanceID process)
                (p_SupervisorToken process));;
        mret tt
    end).

Definition MarkPrepared (processID supervisorInstanceID : string) : Op unit :=
  updateProcess "mark process prepared" processID supervisorInstanceID
    (MarkProcessPrepared processID supervisorInstanceID).

Definition MarkAccepted (processID supervisorInstanceID : string) : Op unit :=
  updateProcess "mark process accepted" processID supervisorInstanceID
    (MarkProcessAccepted processID supervisorInstanceID).

Definition deleteProcessAfterArtifacts (processID supervisorInstanceID : string) (accepted : bool)
    : Op unit :=
  write_tx (
    found ← processTx processID;
    match found with
    | None => mret tt
    | Some process =>
        if p_SupervisorInstanceID process <>? supervisorInstanceID
        then throw ErrSupervisorIdentityMismatch
        else
          let validPhase :=
            if accepted
            then (p_Phase process ==? ProcessAccepted) || (p_Phase process ==? ProcessTerminal)
            else (p_Phase process ==? ProcessPreparing) || (p_Phase process ==? ProcessPrepared) in
          if negb validPhase then throw ErrStateConflict
          else if negb accepted && p_ExecCommitted process then throw ErrStateConflict
          else
            exec (DeleteProcess processID supervisorInstanceID);;
            mret tt
    end).

Definition DeleteRejectedPreparationAfterArtifacts (processID supervisorInstanceID : string)
    : Op unit := deleteProcessAfterArtifacts processID supervisorInstanceID false.

Definition DeleteStorageExhaustedAfterArtifacts (processID supervisorInstanceID : string)
    : Op unit := deleteProcessAfterArtifacts processID supervisorInstanceID true.

Definition AuthorizeSpawnOnce (s : Supervisor) : Op bool :=
  write_tx (
    n ← exec (AuthorizeProcessSpawn (sv_processID s) (sv_supervisorInstanceID s));
    if n =? 1 then mret true
    else
      found ← processTx (sv_processID s);
      match found with
      | None => throw ErrSupervisorIdentityMismatch
      | Some process =>
          if p_SupervisorInstanceID process <>? sv_supervisorInstanceID s
          then throw ErrSupervisorIdentityMismatch
          else if p_ExecCommitted process
                  && ((p_Phase process ==? ProcessAccepted) || (p_Phase process ==? ProcessTerminal))
          then mret false
          else throw ErrStateConflict
      end).

Definition RecordSpawned (s : Supervisor) (containmentKind containmentID : string) : Op unit :=
  if (containmentKind ==? "") || (containmentID ==? "")
  then fail_op (ErrInvalid "spawned process containment identity is required")
  else updateProcess "record spawned process" (sv_processID s) (sv_supervisorInstanceID s)
         (RecordProcessSpawned containmentKind containmentID (sv_processID s)
            (sv_supervisorInstanceID s)).

Definition closeActionAdmission (processID supervisorInstanceID : string) : Op unit :=
  updateProcess "close process action admission" processID supervisorInstanceID
    (CloseProcessActionAdmission processID supervisorInstanceID).

Definition markContainmentEmpty (processID supervisorInstanceID : string) : Op unit :=
  updateProcess "mark process containment empty" processID supervisorInstanceID
    (MarkProcessContainmentEmpty processID supervisorInstanceID).

Definition markLocalClosed (processID supervisorInstanceID : string) : Op unit :=
  write_tx (
    found ← processTx processID;
    match found with
    | None => throw ErrSupervisorIdentityMismatch
    | Some process =>
        if p_SupervisorInstanceID process <>? supervisorInstanceID
        then throw ErrSupervisorIdentityMismatch
        else if p_LocalClosed process then mret tt
        else if (p_Phase process <>? ProcessTerminal) || negb (p_ActionAdmissionClosed process)
                || negb (p_ContainmentEmpty process)
        then throw ErrClosureBlocked
        else
          terminalReports ← query (CountTerminalProcessReports processID);
          if negb (terminalReports =? 1) then throw ErrClosureBlocked
          else
            unresolvedActions ← query (CountUnresolvedProcessActions processID);
            if negb (unresolvedActions =? 0) then throw ErrClosureBlocked
            else
              exec (MarkProcessLocalClosed processID supervisorInstanceID);;
              mret tt
    end).

Definition MarkServerReleased (processID supervisorInstanceID : string) : Op unit :=
  updateProcess "mark process server released" processID supervisorInstanceID
    (MarkProcessServerReleased processID supervisorInstanceID).

Definition DeleteClosedAfterArtifacts (processID supervisorInstanceID : string) : Op unit :=
  write_tx (
    found ← processTx processID;
    match found with
    | None => mret tt
    | Some process =>
        if p_SupervisorInstanceID process <>? supervisorInstanceID
        then throw ErrSupervisorIdentityMismatch
        else if negb (p_LocalClosed process) || negb (p_ServerReleased process)
        then throw ErrClosureBlocked
        else
          actions ← query (CountProcessActions processID);
          if negb (actions =? 0) then throw ErrClosureBlocked
          else
            unsettledReports ← query (CountUnsettledProcessReports processID);
            if negb (unsettledReports =? 0) then throw ErrClosureBlocked
            else
              exec (DeleteProcess processID supervisorInstanceID);;
              mret tt
    end).

(** [Store.Process] and [Store.Processes]. *)
Definition Store_Process (processID : string) : Op (option Process) :=
  read_op (GetProcess processID).
Definition Store_Processes : Op (list Process) := read_op ListProcesses.

(** [Supervisor.Process]: the row, checked against the handle. *)
Definition Supervisor_Process (s : Supervisor) : Op Process := fun faults db =>
  match Store_Process (sv_processID s) faults db with
  | (inl e, db') => (inl e, db')
  | (inr None, db') => (inl ErrSupervisorIdentityMismatch, db')
  | (inr (Some process), db') =>
      if p_SupervisorInstanceID process <>? sv_supervisorInstanceID s
      then (inl ErrSupervisorIdentityMismatch, db')
      else (inr process, db')
  end.

(** ** store.go: identity binding *)

Definition verifyIdentityValues (storedInstallation storedMachine installationID machineID : string)
    : option Err :=
  if (storedInstallation ==? installationID) && (storedMachine ==? machineID) then None
  else Some (ErrInvalid "state database identity mismatch").

Definition bindOrVerifyIdentity (installationID machineID : string) : Op unit :=
  write_tx (
    stored ← query GetMachineIdentity;
    match stored with
    | None => exec (BindMachineIdentity installationID machineID);; mret tt
    | Some (storedInstallation, storedMachine) =>
        match verifyIdentityValues storedInstallation storedMachine installationID machineID with
        | Some e => throw e
        | None => mret tt
        end
    end).

Definition verifyIdentity (installationID machineID : string) : Op unit := fun faults db =>
  match read_op GetMachineIdentity faults db with
  | (inl e, db') => (inl e, db')
  | (inr None, db') => (inl (ErrInvalid "state database has no identity binding"), db')
  | (inr (Some (storedInstallation, storedMachine)), db') =>
      match verifyIdentityValues storedInstallation storedMachine installationID machineID with
      | Some e => (inl e, db')
      | None => (inr tt, db')
      end
  end.
