(* ===== verification/StateAction.v ===== *)
(** * Action and report operations of the state database

    Models [internal/machinedaemon/statedb/action.go] and the operations of
    [report.go]: admission of process actions at the resolved frontier, freezing
    of their terminal evidence, acknowledgement, release and rejection. *)
From S2P Require Import Prelude DaemonProtocol StateSchema StateQueries StateTx StateReport.
From S2P Require Import StateProcess.
From stdpp Require Import options.
Local Open Scope Z_scope.

Inductive ApplyDecision : Type :=
  | ApplyExecute
  | ApplyAlreadyReported
  | ApplyOutcomeUnknown
  | ApplyAlreadyResolved
  | ApplyBlocked
  | ApplyAdmissionClosed.

Inductive NoEffectDecision : Type :=
  | NoEffectRecorded
  | NoEffectAlreadyReported
  | NoEffectLostToApply
  | NoEffectAlreadyResolved
  | NoEffectBlocked
  | NoEffectAdmissionClosed.

Global Instance ApplyDecision_eq_dec : EqDecision ApplyDecision.
Proof. solve_decision. Defined.
Global Instance NoEffectDecision_eq_dec : EqDecision NoEffectDecision.
Proof. solve_decision. Defined.

(** Go's zero [Report{}]. *)
Definition Report_zero : Report := mkReport "" "" "" (ReportKindOther "") "" ReportStateUnset "" "".

Definition actionTx (actionID : string) : Tx (option Action) := query (GetProcessAction actionID).

Definition validateAction (action : Action) (processID : string) : option Err :=
  if (a_ID action ==? "") || (a_ProcessID action <>? processID) || (a_Seq action <=? 0)
  then Some (ErrInvalid "complete action identity is required")
  else
    match a_Kind action with
    | KindWrite | KindInterrupt | KindTerminate => None
    | KindRead | KindOther _ => Some (ErrInvalid "unsupported process action kind")
    end.

Definition validateActionReportInput (report : Report) (processID actionID : string) : option Err :=
  if (r_ProcessID report <>? processID) || (r_ActionID report <>? actionID)
     || (r_Kind report <>? ReportActionTerminal)
  then Some (ErrInvalid "invalid action-terminal report")
  else None.

Definition sameActionIdentity (left right : Action) : bool :=
  (a_ID left ==? a_ID right) && (a_ProcessID left ==? a_ProcessID right)
  && (a_Kind left ==? a_Kind right) && (a_Seq left =? a_Seq right).

Definition loadActionTransitionTx (processID supervisorInstanceID : string) (action : Action)
    : Tx (Process * option Action) :=
  found ← processTx processID;
  match found with
  | None => throw ErrSupervisorIdentityMismatch
  | Some process =>
      if p_SupervisorInstanceID process <>? supervisorInstanceID
      then throw ErrSupervisorIdentityMismatch
      else
        existing ← actionTx (a_ID action);
        match existing with
        | Some e =>
            if negb (sameActionIdentity e action) then throw ErrStateConflict
            else mret (process, Some e)
        | None => mret (process, None)
        end
  end.

Definition ensureActionSequenceUnused (action : Action) : Tx unit :=
  existingID ← query (GetProcessActionIDBySequence (a_ProcessID action) (a_Seq action));
  match existingID with
  | None => mret tt
  | Some _ => throw ErrStateConflict
  end.

(** Returns the process record with the frontier the caller's pointer now has. *)
Definition compactMissingActionPrefixTx (process : Process) (nextSeq : Z) : Tx Process :=
  if nextSeq <=? wrap64 (p_ResolvedActionSeq process + 1) then mret process
  else
    localRows ← query (CountProcessActionsBetween (p_ProcessID process)
                         (p_ResolvedActionSeq process) nextSeq);
    if negb (localRows =? 0) then throw ErrActionBlocked
    else
      exec (CompactMissingActionPrefix (wrap64 (nextSeq - 1)) (p_ProcessID process)
              (p_SupervisorInstanceID process) (p_ResolvedActionSeq process));;
      mret (set_ResolvedActionSeq (wrap64 (nextSeq - 1)) process).

(** [errors.Is(err, ErrActionBlocked)]: [None] when the program was blocked; any
    other error is returned.  The statements run before the error stay in the
    transaction. *)
Definition catchActionBlocked {A} (m : Tx A) : Tx (option A) := fun s =>
  match m s with
  | (inr a, s') => (inr (Some a), s')
  | (inl e, s') => if e ==? ErrActionBlocked then (inr None, s') else (inl e, s')
  end.

Section ActionOps.
Context {RC : ReportCodec}.

Definition ApplyOnce (s : Supervisor) (action : Action) : Op (ApplyDecision * Report) :=
  match validateAction action (sv_processID s) with
  | Some e => fail_op e
  | None => write_tx (
      loaded ← loadActionTransitionTx (sv_processID s) (sv_supervisorInstanceID s) action;
      match loaded with
      | (process, Some existing) =>
          reported ← reportByActionTx (a_ID action);
          match reported with
          | Some report => mret (ApplyAlreadyReported, report)
          | None =>
              if a_EffectCommitted existing then mret (ApplyOutcomeUnknown, Report_zero)
              else throw ErrStateConflict
          end
      | (process, None) =>
          if a_Seq action <=? p_ResolvedActionSeq process
          then mret (ApplyAlreadyResolved, Report_zero)
          else
            compacted ← catchActionBlocked (compactMissingActionPrefixTx process (a_Seq action));
            match compacted with
            | None => mret (ApplyBlocked, Report_zero)
            | Some process' =>
                if negb (a_Seq action =? wrap64 (p_ResolvedActionSeq process' + 1))
                then mret (ApplyBlocked, Report_zero)
                else if p_LocalClosed process' || p_ActionAdmissionClosed process'
                        || (p_Phase process' <>? ProcessAccepted)
                        || negb (p_ExecCommitted process') || (p_ContainmentKind process' ==? "")
                then mret (ApplyAdmissionClosed, Report_zero)
                else
                  ensureActionSequenceUnused action;;
                  exec (InsertProcessAction (mkAction (a_ID action) (a_ProcessID action)
                                               (a_Kind action) (a_Seq action) true));;
                  mret (ApplyExecute, Report_zero)
            end
      end)
  end.

Definition RecordActionWithoutEffect (s : Supervisor) (uuid : string) (action : Action)
    (report : Report) : Op (NoEffectDecision * Report) :=
  match validateAction action (sv_processID s) with
  | Some e => fail_op e
  | None =>
  match validateActionReportInput report (sv_processID s) (a_ID action) with
  | Some e => fail_op e
  | None => write_tx (
      loaded ← loadActionTransitionTx (sv_processID s) (sv_supervisorInstanceID s) action;
      match loaded with
      | (process, Some existing) =>
          reported ← reportByActionTx (a_ID action);
          match reported with
          | Some existingReport => mret (NoEffectAlreadyReported, existingReport)
          | None =>
              if a_EffectCommitted existing then mret (NoEffectLostToApply, Report_zero)
              else throw ErrStateConflict
          end
      | (process, None) =>
          if a_Seq action <=? p_ResolvedActionSeq process
          then mret (NoEffectAlreadyResolved, Report_zero)
          else
            compacted ← catchActionBlocked (compactMissingActionPrefixTx process (a_Seq action));
            match compacted with
            | None => mret (NoEffectBlocked, Report_zero)
            | Some process' =>
                if negb (a_Seq action =? wrap64 (p_ResolvedActionSeq process' + 1))
                then mret (NoEffectBlocked, Report_zero)
                else if p_LocalClosed process'
                        || ((p_Phase process' <>? ProcessAccepted)
                            && (p_Phase process' <>? ProcessTerminal))
                then mret (NoEffectAdmissionClosed, Report_zero)
                else
                  ensureActionSequenceUnused action;;
                  exec (InsertProcessAction (mkAction (a_ID action) (a_ProcessID action)
                                               (a_Kind action) (a_Seq action) false));;
                  frozen ← freezeReportTx uuid report;
                  mret (NoEffectRecorded, frozen)
            end
      end)
  end
  end.

Definition freezeActionReport (processID supervisorInstanceID : string) (uuid actionID : string)
    (report : Report) : Op Report :=
  match validateActionReportInput report processID actionID with
  | Some e => fail_op e
  | None => write_tx (
      found ← processTx processID;
      match found with
      | None => throw ErrSupervisorIdentityMismatch
      | Some process =>
          if p_SupervisorInstanceID process <>? supervisorInstanceID
          then throw ErrSupervisorIdentityMismatch
          else
            action ← actionTx actionID;
            match action with
            | None => throw ErrSupervisorIdentityMismatch
            | Some a =>
                if a_ProcessID a <>? processID then throw ErrSupervisorIdentityMismatch
                else if negb (a_EffectCommitted a) then
                  existing ← reportByActionTx actionID;
                  match existing with
                  | Some r => if sameReportContent r report then mret r else throw ErrStateConflict
                  | None => throw ErrStateConflict
                  end
                else freezeReportTx uuid report
            end
      end)
  end.

Definition Store_Action (actionID : string) : Op (option Action) :=
  read_op (GetProcessAction actionID).
Definition Store_Actions (processID : string) : Op (list Action) :=
  read_op (ListProcessActions processID).

(** ** report.go *)

Definition FreezeStartedReport (s : Supervisor) (uuid : string) (report : Report) : Op Report :=
  if (r_Kind report <>? ReportProcessStarted) || (r_ProcessID report <>? sv_processID s)
     || (r_ActionID report <>? "")
  then fail_op (ErrInvalid "invalid process-started report")
  else write_tx (
    found ← processTx (sv_processID s);
    match found with
    | None => throw ErrSupervisorIdentityMismatch
    | Some process =>
        if p_SupervisorInstanceID process <>? sv_supervisorInstanceID s
        then throw ErrSupervisorIdentityMismatch
        else if ((p_Phase process <>? ProcessAccepted) && (p_Phase process <>? ProcessTerminal))
                || negb (p_ExecCommitted process) || (p_ContainmentKind process ==? "")
        then throw ErrStateConflict
        else freezeReportTx uuid report
    end).

Definition freezeTerminalReport (processID supervisorInstanceID : string) (uuid : string)
    (report : Report) : Op Report :=
  if (r_Kind report <>? ReportProcessTerminal) || (r_ProcessID report <>? processID)
     || (r_ActionID report <>? "")
  then fail_op (ErrInvalid "invalid process-terminal report")
  else write_tx (
    found ← processTx processID;
    match found with
    | None => throw ErrSupervisorIdentityMismatch
    | Some process =>
        if p_SupervisorInstanceID process <>? supervisorInstanceID
        then throw ErrSupervisorIdentityMismatch
        else if (p_Phase process <>? ProcessAccepted) && (p_Phase process <>? ProcessTerminal)
        then throw ErrStateConflict
        else
          frozen ← freezeReportTx uuid report;
          exec (SetProcessTerminal processID supervisorInstanceID);;
          mret frozen
    end).

Definition DeliveryCandidates : Op (list Report) :=
  read_op (fun db => reportFromSQLC <$> ListFrozenReportDeliveryCandidates db).

Definition ReportsForProcess (processID : string) : Op (list Report) :=
  read_op (fun db => reportFromSQLC <$> ListFrozenReportsForProcess processID db).

Definition AcknowledgeReport (reportID : string) : Op unit :=
  write_tx (
    row ← query (GetFrozenReportByID reportID);
    match row with
    | None => throw ErrStateConflict
    | Some row =>
        let report := reportFromSQLC row in
        match r_Kind report with
        | ReportActionTerminal =>
            if (r_State report <>? ReportPending) && (r_State report <>? ReportRejected)
            then throw ErrStateConflict
            else
              found ← actionTx (r_ActionID report);
              match found with
              | None => throw ErrStateConflict
              | Some action =>
                  if a_ProcessID action <>? r_ProcessID report then throw ErrStateConflict
                  else
                    process ← processTx (r_ProcessID report);
                    match process with
                    | None => throw ErrStateConflict
                    | Some process =>
                        if negb (a_Seq action =? wrap64 (p_ResolvedActionSeq process + 1))
                        then throw ErrActionBlocked
                        else
                          exec (AdvanceResolvedActionSequence (a_Seq action) (a_ProcessID action));;
                          exec (DeleteProcessAction (a_ID action) (a_ProcessID action));;
                          mret tt
                    end
              end
        | ReportProcessStarted | ReportProcessTerminal =>
            (if (r_State report ==? ReportPending) || (r_State report ==? ReportRejected)
             then exec (AcknowledgeProcessReport reportID);; mret tt
             else if r_State report <>? ReportAcknowledged then throw ErrStateConflict
             else mret tt);;
            (if r_Kind report ==? ReportProcessTerminal
             then exec (MarkTerminalProcessServerReleased (r_ProcessID report));; mret tt
             else mret tt)
        | ReportKindOther _ => throw (ErrInvalid "unsupported report kind")
        end
    end).

Definition releaseAction (processID supervisorInstanceID actionID : string) (seq : Z)
    (requireAbsent : bool) : Op unit :=
  if (processID ==? "") || (supervisorInstanceID ==? "") || (actionID ==? "") || (seq <=? 0)
  then fail_op (ErrInvalid "complete process action release identity is required")
  else write_tx (
    found ← processTx processID;
    match found with
    | None => throw ErrSupervisorIdentityMismatch
    | Some process =>
        if p_SupervisorInstanceID process <>? supervisorInstanceID
        then throw ErrSupervisorIdentityMismatch
        else
          action ← actionTx actionID;
          let actionFound := bool_decide (is_Some action) in
          if match action with
             | Some a => (a_ProcessID a <>? processID) || negb (a_Seq a =? seq)
             | None => false
             end
          then throw ErrStateConflict
          else if requireAbsent && actionFound then throw ErrStateConflict
          else
            (if negb actionFound
             then ensureActionSequenceUnused (mkAction actionID processID (KindOther "") seq false)
             else mret tt);;
            if seq <=? p_ResolvedActionSeq process then
              if actionFound then throw ErrStateConflict else mret tt
            else
              compacted ←
                (if wrap64 (p_ResolvedActionSeq process + 1) <? seq then
                   compacted ← catchActionBlocked (compactMissingActionPrefixTx process seq);
                   match compacted with
                   | Some process' => mret (Some process')
                   | None => if negb actionFound then mret None else throw ErrActionBlocked
                   end
                 else mret (Some process));
              match compacted with
              | None => mret tt
              | Some process' =>
                  if negb (seq =? wrap64 (p_ResolvedActionSeq process' + 1))
                  then throw ErrActionBlocked
                  else
                    (if actionFound then
                       reported ← reportByActionTx actionID;
                       match reported with
                       | Some _ => throw ErrStateConflict
                       | None => exec (DeleteProcessAction actionID processID);; mret tt
                       end
                     else mret tt);;
                    exec (AdvanceReleasedActionSequence seq processID supervisorInstanceID);;
                    mret tt
              end
    end).

Definition ReleaseAction (processID supervisorInstanceID actionID : string) (seq : Z) : Op unit :=
  releaseAction processID supervisorInstanceID actionID seq false.

Definition ResolveAbsentAction (processID supervisorInstanceID actionID : string) (seq : Z)
    : Op unit :=
  releaseAction processID supervisorInstanceID actionID seq true.

Definition RejectReport (reportID code message : string) : Op unit :=
  if (reportID ==? "") || (code ==? "")
  then fail_op (ErrInvalid "report and rejection code are required")
  else write_tx (
    row ← query (GetFrozenReportByID reportID);
    match row with
    | None => throw ErrStateConflict
    | Some row =>
        let report := reportFromSQLC row in
        if r_State report ==? ReportRejected then
          if (r_ErrorCode report ==? code) && (r_Error report ==? message)
          then mret tt else throw ErrStateConflict
        else if r_State report <>? ReportPending then throw ErrStateConflict
        else exec (RejectFrozenReport code message reportID);; mret tt
    end).
End ActionOps.
