(* ===== verification/StateInvariant.v ===== *)
(** * Invariant of the state database and the effects operations have on it

    [db_ok] collects what the schema declares (keys, CHECK constraints, unique
    indexes, foreign keys), what [Store.Audit] checks when the daemon starts, and
    the stronger fact the audit does not check: a process has at most one local
    action row and that row is the one right after the resolved frontier.

    [prim] is the vocabulary of changes a committed operation makes, the deletion
    of a process row (with its cascade) apart.  The files that follow show that
    every operation is a sequence of [prim] steps or one such deletion, so each
    invariant is proved once, over [prim]. *)
From S2P Require Import Prelude DaemonProtocol StateSchema StateQueries StateTx StateReport.
From stdpp Require Import options.
Local Open Scope Z_scope.

Definition reported (db : DB) (aid : string) : Prop :=
  exists k f, db_reports db !! k = Some f /\ f_action_id f = Some aid.

Definition has_terminal_report (db : DB) (pid : string) : Prop :=
  exists k f, db_reports db !! k = Some f /\ f_process_id f = pid
              /\ f_report_kind f = ReportProcessTerminal.

Definition no_action (db : DB) (pid : string) : Prop :=
  forall k a, db_actions db !! k = Some a -> a_ProcessID a <> pid.

Section Invariant.
Context {RC : ReportCodec}.

Record db_ok (db : DB) : Prop := mk_db_ok {
  ok_pkey : forall k p, db_processes db !! k = Some p -> p_ProcessID p = k;
  ok_akey : forall k a, db_actions db !! k = Some a -> a_ID a = k;
  ok_rkey : forall k f, db_reports db !! k = Some f -> f_report_id f = k;
  ok_pcheck : forall k p, db_processes db !! k = Some p -> processes_check p = true;
  ok_acheck : forall k a, db_actions db !! k = Some a -> process_actions_check a = true;
  ok_rcheck : forall k f, db_reports db !! k = Some f -> frozen_reports_check f = true;
  ok_seq64 : forall k p, db_processes db !! k = Some p -> is_int64 (p_ResolvedActionSeq p);
  ok_frontier : forall k a, db_actions db !! k = Some a ->
    exists p, db_processes db !! a_ProcessID a = Some p
              /\ a_Seq a = p_ResolvedActionSeq p + 1 /\ is_int64 (a_Seq a);
  ok_single : forall k1 k2 a1 a2,
    db_actions db !! k1 = Some a1 -> db_actions db !! k2 = Some a2 ->
    a_ProcessID a1 = a_ProcessID a2 -> k1 = k2;
  ok_rfk : forall k f, db_reports db !! k = Some f -> report_fk f db = true;
  ok_slot : forall k1 k2 f1 f2,
    db_reports db !! k1 = Some f1 -> db_reports db !! k2 = Some f2 ->
    same_slot f1 f2 = true -> k1 = k2;
  ok_valid : forall k f, db_reports db !! k = Some f -> validateReport (reportFromSQLC f) = None;
  ok_terminal : forall k p, db_processes db !! k = Some p ->
    (p_Phase p = ProcessTerminal <-> has_terminal_report db k);
  ok_closed : forall k p, db_processes db !! k = Some p -> p_LocalClosed p = true ->
    p_Phase p = ProcessTerminal;
  ok_closed_reported : forall k p k' a, db_processes db !! k = Some p -> p_LocalClosed p = true ->
    db_actions db !! k' = Some a -> a_ProcessID a = k -> reported db (a_ID a);
  ok_noeffect : forall k a, db_actions db !! k = Some a -> a_EffectCommitted a = false ->
    reported db (a_ID a)
}.

Lemma empty_db_ok : db_ok empty_db.
Proof. split; simpl; intros *; rewrite ?lookup_empty; done. Qed.
End Invariant.

(** ** How a process row may change *)

Definition phase_rank (ph : ProcessPhase) : Z :=
  match ph with
  | ProcessPreparing => 0
  | ProcessPrepared => 1
  | ProcessAccepted => 2
  | ProcessTerminal => 3
  end.

(** Identity is fixed, the phase and the frontier only advance, commitments are
    never withdrawn, and a recorded containment never changes. *)
Record process_le (p p' : Process) : Prop := mk_process_le {
  ple_id : p_ProcessID p' = p_ProcessID p;
  ple_instance : p_SupervisorInstanceID p' = p_SupervisorInstanceID p;
  ple_token : p_SupervisorToken p' = p_SupervisorToken p;
  ple_phase : phase_rank (p_Phase p) <= phase_rank (p_Phase p');
  ple_resolved : p_ResolvedActionSeq p <= p_ResolvedActionSeq p';
  ple_exec : p_ExecCommitted p = true -> p_ExecCommitted p' = true;
  ple_containment : p_ContainmentKind p <> "" ->
    p_ContainmentKind p' = p_ContainmentKind p /\ p_ContainmentID p' = p_ContainmentID p;
  ple_empty : p_ContainmentEmpty p = true -> p_ContainmentEmpty p' = true;
  ple_admission : p_ActionAdmissionClosed p = true -> p_ActionAdmissionClosed p' = true;
  ple_closed : p_LocalClosed p = true -> p_LocalClosed p' = true;
  ple_released : p_ServerReleased p = true -> p_ServerReleased p' = true
}.

Global Instance process_le_refl : Reflexive process_le.
Proof. intros p. split; intros; try done; lia. Qed.

Global Instance process_le_trans : Transitive process_le.
Proof.
  intros p q r Hpq Hqr. destruct Hpq, Hqr. split; try lia; try (etrans; eassumption); eauto.
  intros H. destruct (ple_containment0 H) as [E1 E2]. rewrite <- E1 in H.
  destruct (ple_containment1 H) as [E3 E4]. split; congruence.
Qed.

Section Effects.
Context {RC : ReportCodec}.

(** A fresh [frozen_reports] row that the schema accepts. *)
Definition fresh_report (db : DB) (f : FrozenReport) : Prop :=
  db_reports db !! f_report_id f = None
  /\ frozen_reports_check f = true
  /\ (forall k g, db_reports db !! k = Some g -> same_slot f g = false)
  /\ validateReport (reportFromSQLC f) = None
  /\ f_state f = ReportPending.

Inductive prim (db : DB) : DB -> Prop :=
  | prim_identity installation_id machine_id :
      db_identity db = None ->
      prim db (mkDB (Some (installation_id, machine_id))
                 (db_processes db) (db_actions db) (db_reports db))
  | prim_reserve pid instance token :
      processes_check (new_process_row pid instance token) = true ->
      db_processes db !! pid = None ->
      prim db (with_processes db (<[pid := new_process_row pid instance token]> (db_processes db)))
  | prim_process pid p p' :
      db_processes db !! pid = Some p ->
      process_le p p' ->
      p_ResolvedActionSeq p' = p_ResolvedActionSeq p ->
      processes_check p' = true ->
      (p_Phase p' = ProcessTerminal <-> p_Phase p = ProcessTerminal) ->
      (p_LocalClosed p' = true -> p_LocalClosed p = true
         \/ (p_Phase p = ProcessTerminal
             /\ forall k a, db_actions db !! k = Some a -> a_ProcessID a = pid ->
                            reported db (a_ID a))) ->
      prim db (with_processes db (<[pid := p']> (db_processes db)))
  | prim_advance pid p n :
      db_processes db !! pid = Some p ->
      p_ResolvedActionSeq p <= n -> is_int64 n -> no_action db pid ->
      prim db (with_processes db (<[pid := set_ResolvedActionSeq n p]> (db_processes db)))
  | prim_admit p a :
      db_processes db !! a_ProcessID a = Some p ->
      a_Seq a = p_ResolvedActionSeq p + 1 -> is_int64 (a_Seq a) ->
      no_action db (a_ProcessID a) -> db_actions db !! a_ID a = None ->
      process_actions_check a = true -> a_EffectCommitted a = true ->
      p_LocalClosed p = false -> p_ActionAdmissionClosed p = false ->
      p_Phase p = ProcessAccepted -> p_ExecCommitted p = true ->
      prim db (with_actions db (<[a_ID a := a]> (db_actions db)))
  | prim_admit_noeffect p a f :
      db_processes db !! a_ProcessID a = Some p ->
      a_Seq a = p_ResolvedActionSeq p + 1 -> is_int64 (a_Seq a) ->
      no_action db (a_ProcessID a) -> db_actions db !! a_ID a = None ->
      process_actions_check a = true -> a_EffectCommitted a = false ->
      p_LocalClosed p = false ->
      fresh_report db f -> f_process_id f = a_ProcessID a -> f_action_id f = Some (a_ID a) ->
      prim db (with_reports (with_actions db (<[a_ID a := a]> (db_actions db)))
                 (<[f_report_id f := f]> (db_reports db)))
  | prim_report f :
      fresh_report db f -> report_fk f db = true ->
      f_report_kind f <> ReportProcessTerminal ->
      prim db (with_reports db (<[f_report_id f := f]> (db_reports db)))
  | prim_terminal p p' f :
      db_processes db !! f_process_id f = Some p ->
      process_le p p' -> p_ResolvedActionSeq p' = p_ResolvedActionSeq p ->
      processes_check p' = true -> p_Phase p' = ProcessTerminal ->
      p_LocalClosed p' = p_LocalClosed p ->
      fresh_report db f -> f_report_kind f = ReportProcessTerminal ->
      prim db (with_processes (with_reports db (<[f_report_id f := f]> (db_reports db)))
                 (<[f_process_id f := p']> (db_processes db)))
  | prim_settle rid f f' :
      db_reports db !! rid = Some f ->
      frozen_reports_check f' = true ->
      (exists st code err, f' = set_report_state st code err f) ->
      f_state f <> ReportAcknowledged ->
      prim db (with_reports db (<[rid := f']> (db_reports db)))
  | prim_resolve a p :
      db_actions db !! a_ID a = Some a ->
      db_processes db !! a_ProcessID a = Some p ->
      prim db (mkDB (db_identity db)
                 (<[a_ProcessID a := set_ResolvedActionSeq (a_Seq a) p]> (db_processes db))
                 (delete (a_ID a) (db_actions db))
                 (delete_where (fun f => (f_action_id f ==? Some (a_ID a))
                                         && (f_process_id f ==? a_ProcessID a)) (db_reports db))).
End Effects.
