(* ===== verification/StatePreserve.v ===== *)
(** * Every effect preserves the invariant of the state database *)
From S2P Require Import Prelude DaemonProtocol StateSchema StateQueries StateTx StateReport.
From S2P Require Import StateInvariant.
From stdpp Require Import options.
Local Open Scope Z_scope.

(** Case analysis on the lookups of updated tables. *)
Ltac table_cases :=
  repeat match goal with
  | H : <[_:=_]> _ !! _ = Some _ |- _ => apply lookup_insert_Some in H as [[<- <-]|[? H]]
  | H : delete _ _ !! _ = Some _ |- _ => apply lookup_delete_Some in H as [? H]
  | H : delete_where _ _ !! _ = Some _ |- _ => apply lookup_delete_where in H as [H ?]
  | |- context [delete _ _ !! _ = Some _] => rewrite lookup_delete_Some
  end; simplify_eq/=.

Section Preserve.
Context {RC : ReportCodec}.
Implicit Types (db : DB).

Lemma report_fk_spec f db :
  report_fk f db = true <->
  is_Some (db_processes db !! f_process_id f)
  /\ (forall aid, f_action_id f = Some aid ->
        exists a, db_actions db !! aid = Some a /\ a_ProcessID a = f_process_id f).
Proof.
  unfold report_fk. rewrite andb_true_iff, bool_decide_eq_true.
  destruct (f_action_id f) as [aid|]; [|naive_solver].
  destruct (db_actions db !! aid) as [a|] eqn:E; rewrite ?bool_decide_eq_true; naive_solver.
Qed.

Lemma process_terminal_report_no_action f :
  frozen_reports_check f = true -> f_report_kind f <> ReportActionTerminal ->
  f_action_id f = None.
Proof. unfold frozen_reports_check. intros H ?. bcases; congruence. Qed.

Lemma action_report_kind f aid :
  frozen_reports_check f = true -> f_action_id f = Some aid ->
  f_report_kind f = ReportActionTerminal.
Proof.
  unfold frozen_reports_check. intros H E. bcases; congruence.
Qed.

(** Rewriting one process row, the rest of the database unchanged. *)
Lemma update_row_ok db pid p p' :
  db_ok db -> db_processes db !! pid = Some p ->
  p_ProcessID p' = p_ProcessID p -> processes_check p' = true ->
  is_int64 (p_ResolvedActionSeq p') ->
  (p_ResolvedActionSeq p' = p_ResolvedActionSeq p \/ no_action db pid) ->
  (p_Phase p' = ProcessTerminal <-> p_Phase p = ProcessTerminal) ->
  (p_LocalClosed p' = true -> p_LocalClosed p = true
     \/ (p_Phase p = ProcessTerminal
         /\ forall k a, db_actions db !! k = Some a -> a_ProcessID a = pid ->
                        reported db (a_ID a))) ->
  db_ok (with_processes db (<[pid := p']> (db_processes db))).
Proof.
  intros Hok Hp Hid Hck H64 Hseq Hterm Hcl. destruct Hok.
  assert (forall k, is_Some (db_processes db !! k) ->
                    is_Some (<[pid := p']> (db_processes db) !! k)) as Hdom.
  { intros k Hk. destruct (decide (pid = k)) as [->|];
      [rewrite lookup_insert_eq|rewrite lookup_insert_ne by done]; eauto. }
  split; simpl; try assumption; intros; table_cases; eauto.
  - erewrite <- ok_pkey by eassumption. done.
  - destruct (ok_frontier _ _ H) as (q & Hq & Heq & H64a).
    destruct (decide (pid = a_ProcessID a)) as [->|Hne].
    + destruct Hseq as [Hs|Hno]; [|by destruct (Hno _ _ H)].
      exists p'. rewrite lookup_insert_eq. split_and!; [done| |done].
      replace q with p in * by congruence. lia.
    + exists q. by rewrite lookup_insert_ne by done.
  - apply ok_rfk, report_fk_spec in H as [Hs Ha]. apply report_fk_spec. simpl. eauto.
  - specialize (ok_terminal _ _ Hp). unfold has_terminal_report in *. simpl. tauto.
  - apply Hterm. destruct (Hcl H0) as [?|[? _]]; eauto.
  - destruct (Hcl H0) as [?|[_ Hr]]; unfold reported in *; simpl; eauto.
Qed.

Lemma reserve_ok db pid instance token :
  db_ok db -> processes_check (new_process_row pid instance token) = true ->
  db_processes db !! pid = None ->
  db_ok (with_processes db (<[pid := new_process_row pid instance token]> (db_processes db))).
Proof.
  intros [] Hck Hnone.
  split; simpl; try assumption; intros; table_cases; eauto.
  - unfold is_int64, int64_min, int64_max. lia.
  - destruct (ok_frontier _ _ H) as (q & Hq & ?). exists q.
    rewrite lookup_insert_ne by congruence. done.
  - apply ok_rfk, report_fk_spec in H as [[q Hs] Ha]. apply report_fk_spec. simpl.
    split; [|done]. rewrite lookup_insert_ne by congruence. eauto.
  - split; [done|]. intros (k' & f & Hf & Hpid & _). simpl in *.
    apply ok_rfk, report_fk_spec in Hf as [[q Hs] _]. congruence.
Qed.

(** Adding an action row at the frontier, before its report if it needs one. *)
Lemma admit_ok db p a :
  db_ok db -> db_processes db !! a_ProcessID a = Some p ->
  a_Seq a = p_ResolvedActionSeq p + 1 -> is_int64 (a_Seq a) ->
  no_action db (a_ProcessID a) -> db_actions db !! a_ID a = None ->
  process_actions_check a = true -> a_EffectCommitted a = true -> p_LocalClosed p = false ->
  db_ok (with_actions db (<[a_ID a := a]> (db_actions db))).
Proof.
  intros [] Hp Hseq H64 Hno Hnone Hck Heff Hcl.
  split; simpl; try assumption; intros; table_cases; eauto.
  - exfalso. eapply Hno; eauto.
  - exfalso. eapply Hno; eauto.
  - apply ok_rfk, report_fk_spec in H as [Hs Ha]. apply report_fk_spec. simpl.
    split; [done|]. intros aid Haid. destruct (Ha aid Haid) as (b & Hb & ?).
    exists b. by rewrite lookup_insert_ne by congruence.
  - congruence.
  - congruence.
Qed.

(** Facts about reports that survive adding a fresh one. *)
Lemma reported_insert db f db' aid :
  db_reports db' = <[f_report_id f := f]> (db_reports db) ->
  db_reports db !! f_report_id f = None -> reported db aid -> reported db' aid.
Proof.
  intros E Hnone (k & g & Hg & Ha). exists k, g. rewrite E.
  rewrite lookup_insert_ne by congruence. done.
Qed.

Lemma has_terminal_insert db f db' pid :
  db_reports db' = <[f_report_id f := f]> (db_reports db) ->
  db_reports db !! f_report_id f = None ->
  f_report_kind f <> ReportProcessTerminal \/ f_process_id f <> pid ->
  (has_terminal_report db' pid <-> has_terminal_report db pid).
Proof.
  intros E Hnone Hother. unfold has_terminal_report. rewrite E. split.
  - intros (k & g & Hg & ? & ?). table_cases; [naive_solver|eauto].
  - intros (k & g & Hg & ? & ?). exists k, g. by rewrite lookup_insert_ne by congruence.
Qed.

Lemma same_slot_sym f g : same_slot f g = same_slot g f.
Proof.
  unfold same_slot. destruct (f_action_id f), (f_action_id g); try done.
  - apply bool_decide_ext. naive_solver.
  - f_equal; apply bool_decide_ext; naive_solver.
Qed.

Lemma slot_insert db f k1 k2 f1 f2 :
  db_ok db -> fresh_report db f ->
  <[f_report_id f := f]> (db_reports db) !! k1 = Some f1 ->
  <[f_report_id f := f]> (db_reports db) !! k2 = Some f2 ->
  same_slot f1 f2 = true -> k1 = k2.
Proof.
  intros Hok (_ & _ & Hslot & _) H1 H2 Hs. table_cases.
  - done.
  - rewrite same_slot_sym in Hs. apply Hslot in H1. congruence.
  - apply Hslot in H2. congruence.
  - by eapply ok_slot.
Qed.

(** Adding a fresh report to a database that refers to it correctly; the
    terminal report is added together with the phase change below. *)
Lemma report_ok db f :
  db_ok db -> fresh_report db f -> report_fk f db = true ->
  f_report_kind f <> ReportProcessTerminal ->
  db_ok (with_reports db (<[f_report_id f := f]> (db_reports db))).
Proof.
  intros Hok Hfresh Hfk Hkind.
  pose proof Hok as []. pose proof Hfresh as (Hnone & Hck & Hslot & Hval & _).
  split; simpl; try assumption; try (intros; by eapply slot_insert; eauto);
    intros; table_cases; eauto using reported_insert.
  - rewrite has_terminal_insert by (reflexivity || eauto). eauto.
Qed.

Lemma admit_noeffect_ok db p a f :
  db_ok db -> db_processes db !! a_ProcessID a = Some p ->
  a_Seq a = p_ResolvedActionSeq p + 1 -> is_int64 (a_Seq a) ->
  no_action db (a_ProcessID a) -> db_actions db !! a_ID a = None ->
  process_actions_check a = true -> p_LocalClosed p = false ->
  fresh_report db f -> f_process_id f = a_ProcessID a -> f_action_id f = Some (a_ID a) ->
  db_ok (with_reports (with_actions db (<[a_ID a := a]> (db_actions db)))
           (<[f_report_id f := f]> (db_reports db))).
Proof.
  intros Hok Hp Hseq H64 Hno Hfree Hack Hcl Hfresh Hpid Haid.
  pose proof Hok as []. pose proof Hfresh as (Hnone & Hck & Hslot & Hval & _).
  assert (f_report_kind f <> ReportProcessTerminal) as Hkind
    by (rewrite (action_report_kind f (a_ID a)); done).
  split; simpl; try assumption; try (intros; by eapply slot_insert; eauto);
    intros; table_cases; eauto using reported_insert.
  - exfalso. eapply Hno; eauto.
  - exfalso. eapply Hno; eauto.
  - apply report_fk_spec. simpl. rewrite Hpid, Haid. split; [eauto|].
    intros aid [= <-]. exists a. by rewrite lookup_insert_eq.
  - apply ok_rfk, report_fk_spec in H as [Hs Ha]. apply report_fk_spec. simpl.
    split; [done|]. intros aid Hx. destruct (Ha aid Hx) as (b & Hb & ?).
    exists b. by rewrite lookup_insert_ne by congruence.
  - rewrite has_terminal_insert by (reflexivity || eauto). eauto.
  - congruence.
  - exists (f_report_id f), f. simpl. by rewrite lookup_insert_eq.
Qed.

Lemma terminal_ok db p p' f :
  db_ok db -> db_processes db !! f_process_id f = Some p ->
  process_le p p' -> p_ResolvedActionSeq p' = p_ResolvedActionSeq p ->
  processes_check p' = true -> p_Phase p' = ProcessTerminal ->
  p_LocalClosed p' = p_LocalClosed p ->
  fresh_report db f -> f_report_kind f = ReportProcessTerminal ->
  db_ok (with_processes (with_reports db (<[f_report_id f := f]> (db_reports db)))
           (<[f_process_id f := p']> (db_processes db))).
Proof.
  intros Hok Hp Hle Hres Hpck Hph Hcl Hfresh Hkind.
  pose proof Hok as []. pose proof Hfresh as (Hnone & Hck & Hslot & Hval & _).
  assert (f_action_id f = None) as Haid
    by (apply process_terminal_report_no_action; congruence).
  assert (forall k, is_Some (db_processes db !! k) ->
                    is_Some (<[f_process_id f := p']> (db_processes db) !! k)) as Hdom.
  { intros k Hk. rewrite lookup_insert. case_decide; eauto. }
  split; simpl; try assumption; try (intros; by eapply slot_insert; eauto);
    intros; table_cases; eauto using reported_insert.
  - rewrite (ple_id _ _ Hle). eauto.
  - rewrite Hres. eauto.
  - destruct (ok_frontier _ _ H) as (q & Hq & Heq & ?). rewrite lookup_insert. case_decide; [|eauto].
    exists p'. split_and!; try done. simplify_eq. rewrite Hres. congruence.
  - apply report_fk_spec. simpl. split; [eauto|]. congruence.
  - apply ok_rfk, report_fk_spec in H as [Hs Ha]. apply report_fk_spec. simpl. eauto.
  - split; [|done]. intros _. exists (f_report_id f), f. simpl. by rewrite lookup_insert_eq.
  - rewrite has_terminal_insert by (reflexivity || eauto). eauto.
Qed.

(** Settling a report changes its delivery state only: every predicate that
    does not read that state finds the same reports. *)
Lemma settle_exists db rid f f' (P : FrozenReport -> Prop) :
  db_reports db !! rid = Some f -> (P f' <-> P f) ->
  ((exists k g, <[rid := f']> (db_reports db) !! k = Some g /\ P g)
   <-> (exists k g, db_reports db !! k = Some g /\ P g)).
Proof.
  intros Hf HP. split; intros (k & g & Hg & Hgp).
  - table_cases; [|eauto]. exists rid, f. split; [done|]. by apply HP.
  - destruct (decide (rid = k)) as [<-|?].
    + exists rid, f'. rewrite lookup_insert_eq. split; [done|]. apply HP. congruence.
    + exists k, g. by rewrite lookup_insert_ne.
Qed.

Lemma settle_ok db rid f st code err :
  db_ok db -> db_reports db !! rid = Some f ->
  frozen_reports_check (set_report_state st code err f) = true ->
  db_ok (with_reports db (<[rid := set_report_state st code err f]> (db_reports db))).
Proof.
  intros [] Hf Hck.
  assert (forall aid, reported db aid -> reported
    (with_reports db (<[rid := set_report_state st code err f]> (db_reports db))) aid) as Hrep.
  { intros aid Hr.
    by apply (settle_exists db rid f _ (fun g => f_action_id g = Some aid) Hf). }
  split; simpl; try assumption; intros; table_cases; eauto.
  - apply ok_rfk, report_fk_spec in Hf. by apply report_fk_spec.
  - apply (ok_valid _ _ Hf).
  - rewrite (ok_terminal k p) by done. symmetry.
    by apply (settle_exists db rid f _ (fun g => f_process_id g = k
                /\ f_report_kind g = ReportProcessTerminal) Hf).
Qed.

(** Facts about reports that survive deleting others. *)
Lemma reported_delete db Q db' aid :
  db_reports db' = delete_where Q (db_reports db) ->
  (forall k f, db_reports db !! k = Some f -> f_action_id f = Some aid -> Q f = false) ->
  reported db aid -> reported db' aid.
Proof.
  intros E HQ (k & f & Hf & Ha). exists k, f. rewrite E, lookup_delete_where. eauto.
Qed.

Lemma has_terminal_delete db Q db' pid :
  db_reports db' = delete_where Q (db_reports db) ->
  (forall k f, db_reports db !! k = Some f -> f_process_id f = pid ->
               f_report_kind f = ReportProcessTerminal -> Q f = false) ->
  (has_terminal_report db' pid <-> has_terminal_report db pid).
Proof.
  intros E HQ. unfold has_terminal_report. rewrite E. split; intros (k & f & Hf & ? & ?).
  - table_cases. eauto.
  - exists k, f. rewrite lookup_delete_where. eauto.
Qed.

(** The terminal report of a process is no action's report. *)
Lemma terminal_not_of_action db aid pid q :
  db_ok db ->
  forall k f, db_reports db !! k = Some f -> f_process_id f = pid ->
    f_report_kind f = ReportProcessTerminal ->
    (f_action_id f ==? Some aid) && (f_process_id f ==? q) = false.
Proof.
  intros Hok k f Hf _ Hk. rewrite (process_terminal_report_no_action f); [done| |congruence].
  by eapply ok_rcheck.
Qed.

(** The frontier of a row may move forward without violating its CHECKs. *)
Lemma advanced_check p n :
  processes_check p = true -> p_ResolvedActionSeq p <= n ->
  processes_check (set_ResolvedActionSeq n p) = true.
Proof.
  unfold processes_check. simpl. rewrite !andb_true_iff, !Z.leb_le. intuition lia.
Qed.

(** Resolving the action at the frontier: its row and its report disappear,
    the frontier moves onto it. *)
Lemma resolve_ok db a p :
  db_ok db -> db_actions db !! a_ID a = Some a ->
  db_processes db !! a_ProcessID a = Some p ->
  db_ok (mkDB (db_identity db)
           (<[a_ProcessID a := set_ResolvedActionSeq (a_Seq a) p]> (db_processes db))
           (delete (a_ID a) (db_actions db))
           (delete_where (fun f => (f_action_id f ==? Some (a_ID a))
                                   && (f_process_id f ==? a_ProcessID a)) (db_reports db))).
Proof.
  intros Hok Ha Hp. pose proof Hok as [].
  assert (forall k b, db_actions db !! k = Some b -> a_ID a <> k ->
            a_ProcessID b <> a_ProcessID a) as Hother.
  { intros k b Hb Hne E. apply Hne. symmetry. eauto. }
  destruct (ok_frontier _ _ Ha) as (p' & Hp' & Hseq & H64). simplify_eq.
  assert (processes_check (set_ResolvedActionSeq (a_Seq a) p) = true) as Hck'.
  { apply advanced_check; [eauto|lia]. }
  split; simpl; intros; table_cases; eauto.
  - destruct (ok_frontier _ _ H) as (q & Hq & ?). exists q.
    rewrite lookup_insert_ne; [done|]. intros E. eapply Hother; eauto.
  - apply ok_rfk in H as Hfk. apply report_fk_spec in Hfk as [Hs Hfa]. apply report_fk_spec. simpl.
    split; [rewrite lookup_insert; destruct (decide _); [by eexists|done]|].
    intros aid Haid. destruct (Hfa aid Haid) as (b & Hb & Hbp). exists b.
    rewrite lookup_delete_ne; [done|]. intros <-. bcases; congruence.
  - rewrite has_terminal_delete by (reflexivity || by apply terminal_not_of_action).
    simpl. eauto.
  - rewrite has_terminal_delete by (reflexivity || by apply terminal_not_of_action). eauto.
  - exfalso. eapply Hother; eauto.
  - eapply reported_delete; [done| |eauto]. intros ? g _ Hg. simpl.
    rewrite Hg, bool_decide_eq_false_2; [done|]. intros [= E]. apply ok_akey in H1. congruence.
  - eapply reported_delete; [done| |eauto]. intros ? g _ Hg. simpl.
    rewrite Hg, bool_decide_eq_false_2; [done|]. intros [= E]. apply ok_akey in H. congruence.
Qed.

Lemma delete_ok db pid p :
  db_ok db -> db_processes db !! pid = Some p -> db_ok (cascade_process pid db).
Proof.
  intros [] Hp.
  split; simpl; intros; table_cases; eauto.
  - destruct (ok_frontier _ _ H) as (q & Hq & ?). bsimpl. exists q.
    by rewrite lookup_delete_ne.
  - apply ok_rfk in H as Hfk. apply report_fk_spec in Hfk as [Hs Hfa]. bsimpl.
    apply report_fk_spec. simpl. rewrite lookup_delete_ne by done. split; [done|].
    intros aid Haid. destruct (Hfa aid Haid) as (b & Hb & Hbp). exists b.
    rewrite lookup_delete_where. rewrite bool_decide_eq_false_2 by congruence. done.
  - rewrite has_terminal_delete; [eauto|done|]. intros ? g _ Hg _. simpl.
    by rewrite Hg, bool_decide_eq_false_2.
  - eapply reported_delete; [done| |eauto]. intros k1 g Hg Hga. bsimpl.
    apply ok_rfk, report_fk_spec in Hg as [_ Hg]. destruct (Hg _ Hga) as (b & Hb & Hbp).
    apply ok_akey in H1 as Hk. rewrite bool_decide_eq_false_2; congruence.
  - eapply reported_delete; [done| |eauto]. intros k1 g Hg Hga. bsimpl.
    apply ok_rfk, report_fk_spec in Hg as [_ Hg]. destruct (Hg _ Hga) as (b & Hb & Hbp).
    apply ok_akey in H as Hk. rewrite bool_decide_eq_false_2; congruence.
Qed.

Lemma prim_ok db db' : db_ok db -> prim db db' -> db_ok db'.
Proof.
  intros Hok Hprim. destruct Hprim.
  - by destruct Hok; split.
  - by apply reserve_ok.
  - eapply update_row_ok; eauto using ple_id.
    match goal with H : p_ResolvedActionSeq _ = _ |- _ => rewrite H end. by eapply ok_seq64.
  - eapply update_row_ok; eauto. apply advanced_check; [by eapply ok_pcheck|done].
  - by eapply admit_ok.
  - by eapply admit_noeffect_ok.
  - by apply report_ok.
  - by eapply terminal_ok.
  - match goal with H : exists _ _ _, _ |- _ => destruct H as (st & code & err & ->) end.
    by apply settle_ok.
  - by apply resolve_ok.
Qed.
End Preserve.
