(* ===== verification/StateEffects.v ===== *)
(** * What each committed operation does to the database

    For every operation: when it succeeds, the database it leaves is reached by
    [prim] steps, together with what its result says about the database before
    and after. *)
From S2P Require Import Prelude DaemonProtocol StateSchema StateQueries StateTx StateReport.
From S2P Require Import StateProcess StateAction StateInvariant StatePreserve.
From stdpp Require Import options.
Local Open Scope Z_scope.

(** ** Statements *)

Lemma update_process_cases pid guard f db n db' :
  update_process pid guard f db = inr (n, db') ->
  (n = 1 /\ exists p, db_processes db !! pid = Some p /\ guard p = true
                      /\ processes_check (f p) = true
                      /\ db' = with_processes db (<[pid := f p]> (db_processes db)))
  \/ (n = 0 /\ db' = db /\ forall p, db_processes db !! pid = Some p -> guard p = false).
Proof.
  unfold update_process. intros H. repeat case_match; simplify_eq; [left|right|right];
    split_and!; try done; naive_solver.
Qed.

Lemma update_report_cases rid guard g db n db' :
  update_report rid guard g db = inr (n, db') ->
  (n = 1 /\ exists f, db_reports db !! rid = Some f /\ guard f = true
                      /\ frozen_reports_check (g f) = true
                      /\ db' = with_reports db (<[rid := g f]> (db_reports db)))
  \/ (n = 0 /\ db' = db).
Proof.
  unfold update_report. intros H. repeat case_match; simplify_eq; naive_solver.
Qed.

Lemma updateProcess_success op pid instance upd faults db v db' :
  updateProcess op pid instance upd faults db = (inr v, db') -> upd db = inr (1, db').
Proof.
  unfold updateProcess. intros H. case_match; [by inversion H|].
  tx_inv. case_match; bsimpl; tx_inv. congruence.
Qed.

Lemma updateProcess_row op pid instance guard f faults db v db' :
  updateProcess op pid instance (update_process pid guard f) faults db = (inr v, db') ->
  exists p, db_processes db !! pid = Some p /\ guard p = true /\ processes_check (f p) = true
            /\ db' = with_processes db (<[pid := f p]> (db_processes db)).
Proof.
  intros H%updateProcess_success. apply update_process_cases in H as [[_ ?]|[? _]]; done.
Qed.

Section Effects.
Context {RC : ReportCodec}.
Implicit Types (db : DB).

(** ** Process operations *)

Definition steps : DB -> DB -> Prop := rtc prim.

Lemma steps_none db : steps db db.
Proof. apply rtc_refl. Qed.

Lemma steps_ok db db' : db_ok db -> steps db db' -> db_ok db'.
Proof. intros Hok Hs. induction Hs; eauto using prim_ok. Qed.

(** A guarded column update of one process row that keeps the frontier, the
    terminality and the local closure of the row. *)
Lemma column_update db pid p p' :
  db_processes db !! pid = Some p -> process_le p p' ->
  p_ResolvedActionSeq p' = p_ResolvedActionSeq p -> processes_check p' = true ->
  (p_Phase p' = ProcessTerminal <-> p_Phase p = ProcessTerminal) ->
  p_LocalClosed p' = p_LocalClosed p ->
  steps db (with_processes db (<[pid := p']> (db_processes db))).
Proof.
  intros. apply rtc_once. eapply prim_process; eauto; naive_solver congruence.
Qed.

(** Proves that rewriting columns of a row is monotone. *)
Ltac row_le :=
  split; simpl; intros; try done; try lia;
  repeat match goal with E : p_Phase _ = _ |- _ => rewrite E end; simpl; try lia; try by split.

Ltac row_update H :=
  apply updateProcess_row in H as (? & ? & ? & ? & ->); bcases;
  (eapply column_update; try eassumption; try reflexivity; [row_le|..]);
  simpl; repeat match goal with E : p_Phase _ = _ |- _ => rewrite E end; done.

Lemma bindOrVerifyIdentity_effect installationID machineID faults db v db' :
  bindOrVerifyIdentity installationID machineID faults db = (inr v, db') -> steps db db'.
Proof.
  unfold bindOrVerifyIdentity, GetMachineIdentity, BindMachineIdentity. intros H. tx_inv.
  repeat (case_match; tx_inv); try apply steps_none.
  all: simplify_eq/=. apply rtc_once.
  match goal with H : _ = tx_db _ |- _ => rewrite <- H end. by apply prim_identity.
Qed.

Lemma ReserveProcess_effect process faults db v db' :
  ReserveProcess process faults db = (inr v, db') -> steps db db'.
Proof.
  unfold ReserveProcess, GetProcessSupervisorIdentity. intros H.
  case_match; [by inversion H|]. tx_inv. repeat case_match; tx_inv; try apply steps_none.
  match goal with H : InsertProcess _ _ _ _ = _ |- _ => unfold InsertProcess in H end.
  repeat case_match; simplify_eq/=; bsimpl.
  match goal with H : _ = tx_db _ |- _ => rewrite <- H end.
  apply rtc_once. by apply prim_reserve.
Qed.

Lemma MarkPrepared_effect pid instance faults db v db' :
  MarkPrepared pid instance faults db = (inr v, db') -> steps db db'.
Proof. unfold MarkPrepared, MarkProcessPrepared. intros H. row_update H. Qed.

Lemma MarkAccepted_effect pid instance faults db v db' :
  MarkAccepted pid instance faults db = (inr v, db') -> steps db db'.
Proof. unfold MarkAccepted, MarkProcessAccepted. intros H. row_update H. Qed.

Lemma containment_recorded p :
  processes_check p = true -> p_ContainmentKind p <> "" -> p_ContainmentID p <> "".
Proof. unfold processes_check. intros H ?. bcases; congruence. Qed.

Lemma RecordSpawned_effect s kind id faults db v db' :
  db_ok db -> RecordSpawned s kind id faults db = (inr v, db') -> steps db db'.
Proof.
  unfold RecordSpawned, RecordProcessSpawned. intros Hok H. case_match; [by inversion H|].
  apply updateProcess_row in H as (p & Hp & Hg & Hck & ->). bsimpl.
  pose proof (containment_recorded p (ok_pcheck _ Hok _ _ Hp)).
  eapply column_update; eauto. split; simpl; intros; try done; try lia.
  bcases; naive_solver.
Qed.

Lemma closeActionAdmission_effect pid instance faults db v db' :
  closeActionAdmission pid instance faults db = (inr v, db') -> steps db db'.
Proof. unfold closeActionAdmission, CloseProcessActionAdmission. intros H. row_update H. Qed.

Lemma markContainmentEmpty_effect pid instance faults db v db' :
  markContainmentEmpty pid instance faults db = (inr v, db') -> steps db db'.
Proof. unfold markContainmentEmpty, MarkProcessContainmentEmpty. intros H. row_update H. Qed.

Lemma MarkServerReleased_effect pid instance faults db v db' :
  MarkServerReleased pid instance faults db = (inr v, db') -> steps db db'.
Proof. unfold MarkServerReleased, MarkProcessServerReleased. intros H. row_update H. Qed.

(** The deletions: nothing happens, or the row goes with its cascade. *)
Definition deleted (pid : string) (db db' : DB) : Prop :=
  db' = db \/ (is_Some (db_processes db !! pid) /\ db' = cascade_process pid db).

Lemma DeleteProcess_deleted pid instance db n db' :
  DeleteProcess pid instance db = inr (n, db') -> deleted pid db db'.
Proof.
  unfold DeleteProcess, deleted. intros H. repeat case_match; simplify_eq; eauto.
Qed.

Lemma deleted_none pid db : deleted pid db db.
Proof. by left. Qed.

Lemma deleteProcessAfterArtifacts_effect pid instance accepted faults db v db' :
  deleteProcessAfterArtifacts pid instance accepted faults db = (inr v, db') ->
  deleted pid db db'.
Proof.
  unfold deleteProcessAfterArtifacts, processTx. intros H. tx_inv.
  repeat case_match; tx_inv; eauto using DeleteProcess_deleted, deleted_none.
Qed.

Lemma DeleteClosedAfterArtifacts_effect pid instance faults db v db' :
  DeleteClosedAfterArtifacts pid instance faults db = (inr v, db') -> deleted pid db db'.
Proof.
  unfold DeleteClosedAfterArtifacts, processTx. intros H. tx_inv.
  repeat (case_match; tx_inv); eauto using DeleteProcess_deleted, deleted_none.
Qed.

Lemma AuthorizeSpawnOnce_effect s faults db v db' :
  AuthorizeSpawnOnce s faults db = (inr v, db') -> steps db db'.
Proof.
  unfold AuthorizeSpawnOnce, processTx, AuthorizeProcessSpawn. intros H. tx_inv.
  match goal with H : update_process _ _ _ _ = _ |- _ =>
    apply update_process_cases in H as [[-> (p & Hp & Hg & Hck & Heq)]|(-> & Heq & _)] end;
    simplify_eq/=; tx_inv.
  - rewrite Heq. bsimpl. eapply column_update; eauto. row_le.
  - repeat case_match; tx_inv; apply steps_none.
Qed.

Lemma unresolved_actions_reported pid db :
  CountUnresolvedProcessActions pid db = 0 ->
  forall k a, db_actions db !! k = Some a -> a_ProcessID a = pid -> reported db (a_ID a).
Proof.
  unfold CountUnresolvedProcessActions. rewrite count_zero. intros H k a Ha Hpid.
  specialize (H k a Ha). bcases; [done|].
  match goal with H : action_has_report _ _ = true |- _ =>
    apply exists_row_true in H as (k' & f & Hf & ?) end.
  bsimpl. exists k', f. done.
Qed.

Lemma markLocalClosed_effect pid instance faults db v db' :
  markLocalClosed pid instance faults db = (inr v, db') -> steps db db'.
Proof.
  unfold markLocalClosed, processTx, GetProcess, MarkProcessLocalClosed. intros H. tx_inv.
  repeat (case_match; tx_inv); try apply steps_none. bsimpl.
  match goal with H : update_process _ _ _ _ = _ |- _ =>
    apply update_process_cases in H as [[-> (p' & Hp & Hg & Hck & Heq)]|(-> & Heq & _)] end;
    rewrite Heq; [|apply steps_none].
  simplify_eq. apply rtc_once. eapply prim_process; eauto; [row_le|].
  intros _. right. split; [done|]. by apply unresolved_actions_reported.
Qed.

(** ** Freezing *)

Lemma check_inv e s v s' : check e s = (inr v, s') -> e = None /\ s' = s.
Proof. destruct e; simpl; intros H; [by inversion H|]. by apply ret_inv in H as [_ ?]. Qed.

Lemma validateReport_action report :
  validateReport report = None ->
  (r_Kind report = ReportActionTerminal <-> r_ActionID report <> "").
Proof.
  unfold validateReport. intros H. repeat case_match; try done; bcases; naive_solver.
Qed.

(** [validateReport] reads only what [sameReportContent] compares. *)
Lemma validateReport_content r r' :
  sameReportContent r r' = true -> validateReport r = validateReport r'.
Proof.
  unfold sameReportContent. intros H. bsimpl. unfold validateReport.
  repeat match goal with E : _ r = _ r' |- _ => rewrite E; clear E end. done.
Qed.

Lemma sameReportContent_iff r r' :
  sameReportContent r r' = true <->
  r_ProcessID r = r_ProcessID r' /\ r_ActionID r = r_ActionID r'
  /\ r_Kind r = r_Kind r' /\ r_Body r = r_Body r'.
Proof. unfold sameReportContent. rewrite !andb_true_iff, !bool_decide_eq_true. tauto. Qed.

Lemma reportBySlotTx_spec kind pid aid s o s' :
  reportBySlotTx kind pid aid s = (inr o, s') ->
  tx_db s' = tx_db s /\
  forall r, o = Some r ->
    exists k f, db_reports (tx_db s) !! k = Some f /\ r = reportFromSQLC f.
Proof.
  unfold reportBySlotTx. intros H.
  case_match; tx_inv; (split; [done|]); intros r Hr;
    apply fmap_Some in Hr as (f & Hf & ->); apply select_one_Some in Hf as [_ [k Hk]]; eauto.
Qed.

Lemma reportByActionTx_spec aid s o s' :
  reportByActionTx aid s = (inr o, s') ->
  tx_db s' = tx_db s /\ o = reportFromSQLC <$> GetFrozenReportByAction aid (tx_db s).
Proof. unfold reportByActionTx. intros H. tx_inv. done. Qed.

Lemma InsertFrozenReport_inv rid pid aid kind body db n db' :
  InsertFrozenReport rid pid aid kind body db = inr (n, db') ->
  let f := mkFrozenReport rid pid aid kind body ReportPending "" "" in
  db_reports db !! rid = None /\ frozen_reports_check f = true
  /\ (forall k g, db_reports db !! k = Some g -> same_slot f g = false)
  /\ report_fk f db = true
  /\ db' = with_reports db (<[rid := f]> (db_reports db)).
Proof.
  unfold InsertFrozenReport. intros H. repeat case_match; simplify_eq. bsimpl. simpl.
  rewrite <- exists_row_false. split_and!; try done.
  by apply eq_None_not_Some.
Qed.

Lemma freezeReportTx_spec uuid report s r s' :
  freezeReportTx uuid report s = (inr r, s') ->
  sameReportContent r report = true /\ validateReport report = None /\
  ((tx_db s' = tx_db s /\
    exists k f, db_reports (tx_db s) !! k = Some f /\ r = reportFromSQLC f)
   \/ exists f, fresh_report (tx_db s) f /\ report_fk f (tx_db s) = true
        /\ r = reportFromSQLC f
        /\ tx_db s' = with_reports (tx_db s) (<[f_report_id f := f]> (db_reports (tx_db s)))).
Proof.
  unfold freezeReportTx. intros H. apply bind_inv in H as (? & ? & H & ?).
  apply check_inv in H as [Hval ->]. tx_inv.
  match goal with H : reportBySlotTx _ _ _ _ = _ |- _ =>
    apply reportBySlotTx_spec in H as [Hdb Hfound] end.
  repeat (case_match; tx_inv); bsimpl.
  1: { split_and!; [done|done|]. left. eauto. }
  all: match goal with H : InsertFrozenReport _ _ _ _ _ _ = _ |- _ =>
      apply InsertFrozenReport_inv in H as (Hnone & Hck & Hslot & Hfk & Hdb') end;
    split_and!; [by apply sameReportContent_iff|done|right];
    match type of Hfk with report_fk ?f _ = true => exists f;
      assert (reportFromSQLC f = mkReport (newReportID uuid) (r_ProcessID report)
        (r_ActionID report) (r_Kind report) (r_Body report) ReportPending "" "") as Hf
        by (unfold reportFromSQLC; simpl; f_equal; congruence) end;
    (split; [unfold fresh_report; rewrite Hf; split_and!; try done|by rewrite Hf]);
    (etrans; [|apply Hval]); by apply validateReport_content, sameReportContent_iff.
Qed.

Lemma freezeReport_steps db f :
  fresh_report db f -> report_fk f db = true -> f_report_kind f <> ReportProcessTerminal ->
  steps db (with_reports db (<[f_report_id f := f]> (db_reports db))).
Proof. intros. apply rtc_once. by apply prim_report. Qed.

Lemma FreezeStartedReport_effect s uuid report faults db r db' :
  FreezeStartedReport s uuid report faults db = (inr r, db') -> steps db db'.
Proof.
  unfold FreezeStartedReport, processTx. intros H. case_match; [by inversion H|]. tx_inv.
  repeat (case_match; tx_inv). bsimpl.
  match goal with H : freezeReportTx _ _ _ = _ |- _ => apply freezeReportTx_spec in H
    as (Hsame & Hval & [[-> _]|(f & Hfresh & Hfk & -> & ->)]) end; tx_norm; [apply steps_none|].
  apply sameReportContent_iff in Hsame as (? & ? & Hk & ?).
  apply freezeReport_steps; [done|done|]. simpl in *. congruence.
Qed.

Lemma freezeActionReport_effect pid instance uuid aid report faults db r db' :
  freezeActionReport pid instance uuid aid report faults db = (inr r, db') -> steps db db'.
Proof.
  unfold freezeActionReport, validateActionReportInput, processTx, actionTx. intros H.
  repeat case_match; simplify_eq/=; tx_inv. bsimpl. repeat (case_match; tx_inv).
  - match goal with H : reportByActionTx _ _ = _ |- _ =>
      apply reportByActionTx_spec in H as [-> _] end. tx_norm. apply steps_none.
  - match goal with H : freezeReportTx _ _ _ = _ |- _ => apply freezeReportTx_spec in H
      as (Hsame & Hval & [[-> _]|(f & Hfresh & Hfk & -> & ->)]) end; tx_norm; [apply steps_none|].
    apply sameReportContent_iff in Hsame as (? & ? & Hk & ?).
    apply freezeReport_steps; [done|done|]. simpl in *. congruence.
Qed.

(** The terminal report and the terminal phase arrive together. *)
Lemma freezeTerminalReport_effect pid instance uuid report faults db r db' :
  db_ok db ->
  freezeTerminalReport pid instance uuid report faults db = (inr r, db') -> steps db db'.
Proof.
  unfold freezeTerminalReport, processTx, GetProcess, SetProcessTerminal. intros Hok H.
  case_match; [by inversion H|]. tx_inv.
  repeat (case_match; tx_inv). bsimpl.
  match goal with H : freezeReportTx _ _ _ = _ |- _ => apply freezeReportTx_spec in H
    as (Hsame & Hval & Hcases) end.
  apply sameReportContent_iff in Hsame as (Hpid & Haid & Hk & Hbody).
  set (p' := set_ActionAdmissionClosed true (set_Phase ProcessTerminal p)).
  assert (process_le p p') as Hle by (split; simpl; intros; try done; destruct (p_Phase p); simpl; lia).
  tx_norm. destruct Hcases as [[Hdb (k & f & Hf & ->)]|(f & Hfresh & Hfk & -> & Hdb)];
    rewrite Hdb in *;
    match goal with H : update_process _ _ _ _ = _ |- _ =>
      apply update_process_cases in H as [[_ (p1 & Hp1 & _ & Hck & ->)]|(_ & _ & Hno)] end;
    simplify_eq/=; try (specialize (Hno _ H); bsimpl; congruence).
  - assert (p_Phase p = ProcessTerminal) as Hph.
    { apply (ok_terminal _ Hok _ _ H). exists k, f. split_and!; congruence. }
    eapply column_update; eauto. by rewrite Hph.
  - apply rtc_once. rewrite <- Hpid in *. eapply (prim_terminal _ p p' f); eauto; congruence.
Qed.

(** ** Admission at the frontier *)

(** Sequence number [seq] of process [pid] is decided: resolved, or held by a
    local action row. *)
Definition spent (db : DB) (pid : string) (seq : Z) : Prop :=
  exists p, db_processes db !! pid = Some p
    /\ (seq <= p_ResolvedActionSeq p
        \/ exists k a, db_actions db !! k = Some a /\ a_ProcessID a = pid /\ a_Seq a = seq).

Lemma set_ResolvedActionSeq_id p : set_ResolvedActionSeq (p_ResolvedActionSeq p) p = p.
Proof. by destruct p. Qed.

Lemma with_processes_id db : with_processes db (db_processes db) = db.
Proof. by destruct db. Qed.

Lemma compact_blocked p n s e s' :
  compactMissingActionPrefixTx p n s = (inl e, s') -> tx_db s' = tx_db s.
Proof.
  unfold compactMissingActionPrefixTx. intros H. case_match; [by inversion H|].
  apply bind_err in H as [H|(rows & s1 & Hq & H)]; [by apply query_err in H|].
  apply query_inv in Hq as [_ <-]. case_match; [unfold throw in H; by simplify_eq|].
  apply bind_err in H as [H|(m & s2 & _ & H)]; [by apply exec_err in H|by inversion H].
Qed.

(** Compaction moves the frontier to just before [n], or finds it there, or
    reports an earlier local row and changes nothing. *)
Lemma compact_spec pid p n s o s' :
  db_ok (tx_db s) -> db_processes (tx_db s) !! pid = Some p ->
  is_int64 n -> p_ResolvedActionSeq p < n ->
  catchActionBlocked (compactMissingActionPrefixTx p n) s = (inr o, s') ->
  match o with
  | None => tx_db s' = tx_db s
  | Some p' =>
      p' = set_ResolvedActionSeq (n - 1) p
      /\ tx_db s' = with_processes (tx_db s) (<[pid := p']> (db_processes (tx_db s)))
      /\ (n = p_ResolvedActionSeq p + 1 \/ no_action (tx_db s) pid)
  end.
Proof.
  intros Hok Hp Hn Hlt. unfold catchActionBlocked.
  pose proof (ok_seq64 _ Hok _ _ Hp) as H64. pose proof (ok_pcheck _ Hok _ _ Hp) as Hck.
  assert (0 <= p_ResolvedActionSeq p) as Hpos by (unfold processes_check in Hck; bsimpl; lia).
  pose proof (ok_pkey _ Hok _ _ Hp) as Hkey.
  destruct (compactMissingActionPrefixTx p n s) as [[e|p'] s1] eqn:E.
  - intros H. case_match; simplify_eq. by eapply compact_blocked.
  - intros [= <- <-]. unfold compactMissingActionPrefixTx in E.
    rewrite (wrap64_succ _ n), (wrap64_pred n) in E by (done || lia).
    case_match; bsimpl; tx_inv.
    + assert (n - 1 = p_ResolvedActionSeq p) as -> by lia.
      rewrite set_ResolvedActionSeq_id, insert_id, with_processes_id by done.
      split_and!; [done|done|lia].
    + case_match; bsimpl; tx_inv.
      assert (no_action (tx_db s) (p_ProcessID p)) as Hno.
      { intros k a Ha Hpid. destruct (ok_frontier _ Hok _ _ Ha) as (q & Hq & Hs & _).
        match goal with H : CountProcessActionsBetween _ _ _ _ = 0 |- _ =>
          unfold CountProcessActionsBetween in H; rewrite count_zero in H;
          specialize (H k a Ha) end.
        rewrite Hpid in *. bcases; (done || simplify_eq; lia). }
      match goal with H : CompactMissingActionPrefix _ _ _ _ _ = _ |- _ =>
        apply update_process_cases in H as [(_ & p1 & Hp1 & _ & _ & ->)|(_ & _ & Hg)] end;
        simplify_eq; [split_and!; auto|].
      specialize (Hg _ Hp). bcases; done.
Qed.

Lemma compact_steps db pid p n :
  db_ok db -> db_processes db !! pid = Some p -> is_int64 n -> p_ResolvedActionSeq p < n ->
  n = p_ResolvedActionSeq p + 1 \/ no_action db pid ->
  steps db (with_processes db (<[pid := set_ResolvedActionSeq (n - 1) p]> (db_processes db))).
Proof.
  intros Hok Hp Hn Hlt [->|Hno].
  - replace (p_ResolvedActionSeq p + 1 - 1) with (p_ResolvedActionSeq p) by lia.
    rewrite set_ResolvedActionSeq_id, insert_id, with_processes_id by done. apply steps_none.
  - apply rtc_once. apply prim_advance; [done|lia| |done].
    pose proof (ok_seq64 _ Hok _ _ Hp). unfold is_int64 in *. lia.
Qed.

Lemma loadActionTransitionTx_spec pid instance action s p o s' :
  loadActionTransitionTx pid instance action s = (inr (p, o), s') ->
  tx_db s' = tx_db s /\ db_processes (tx_db s) !! pid = Some p
  /\ p_SupervisorInstanceID p = instance /\ o = db_actions (tx_db s) !! a_ID action.
Proof.
  unfold loadActionTransitionTx, processTx, actionTx, GetProcess, GetProcessAction. intros H.
  tx_inv. repeat (case_match; tx_inv); bsimpl; done.
Qed.

Lemma ensureActionSequenceUnused_spec action s v s' :
  ensureActionSequenceUnused action s = (inr v, s') ->
  tx_db s' = tx_db s /\
  forall k a, db_actions (tx_db s) !! k = Some a -> a_ProcessID a = a_ProcessID action ->
              a_Seq a <> a_Seq action.
Proof.
  unfold ensureActionSequenceUnused, GetProcessActionIDBySequence. intros H. tx_inv.
  case_match; tx_inv. split; [done|]. intros k a Ha Hpid Hseq.
  match goal with H : _ <$> _ = None |- _ => apply fmap_None in H;
    rewrite select_one_None in H; specialize (H k a Ha) end.
  bcases; congruence.
Qed.

(** An unused sequence number right after the frontier means no local row. *)
Lemma unused_no_action db pid p seq :
  db_ok db -> db_processes db !! pid = Some p -> seq = p_ResolvedActionSeq p + 1 ->
  (forall k a, db_actions db !! k = Some a -> a_ProcessID a = pid -> a_Seq a <> seq) ->
  no_action db pid.
Proof.
  intros Hok Hp Hseq Hun k a Ha Hpid. destruct (ok_frontier _ Hok _ _ Ha) as (q & Hq & Hs & _).
  apply (Hun _ _ Ha Hpid). rewrite Hpid in Hq. simplify_eq. done.
Qed.

Lemma InsertProcessAction_inv a db n db' :
  InsertProcessAction a db = inr (n, db') ->
  process_actions_check a = true /\ db_actions db !! a_ID a = None
  /\ db' = with_actions db (<[a_ID a := a]> (db_actions db)).
Proof.
  unfold InsertProcessAction. intros H. repeat case_match; simplify_eq. bsimpl.
  split_and!; [done| |done]. by apply eq_None_not_Some.
Qed.

Lemma not_spent db pid p seq :
  db_processes db !! pid = Some p -> p_ResolvedActionSeq p < seq ->
  (forall k a, db_actions db !! k = Some a -> a_ProcessID a = pid -> a_Seq a <> seq) ->
  ~ spent db pid seq.
Proof. intros Hp Hlt Hun (q & Hq & [?|(k & a & Ha & ? & ?)]); simplify_eq; [lia|naive_solver]. Qed.

Lemma validateAction_None action pid :
  validateAction action pid = None ->
  a_ProcessID action = pid /\ 0 < a_Seq action.
Proof. unfold validateAction. intros H. case_match; [done|]. bsimpl. done. Qed.

(** The state of an admission that got past compaction, at its insertion. *)
Lemma admission_spec db pid p seq s v s' action :
  db_ok db -> db_processes db !! pid = Some p -> is_int64 seq -> p_ResolvedActionSeq p < seq ->
  seq = p_ResolvedActionSeq p + 1 \/ no_action db pid ->
  tx_db s = with_processes db (<[pid := set_ResolvedActionSeq (seq - 1) p]> (db_processes db)) ->
  a_ProcessID action = pid -> a_Seq action = seq ->
  ensureActionSequenceUnused action s = (inr v, s') ->
  tx_db s' = tx_db s /\ db_ok (tx_db s) /\ steps db (tx_db s) /\
  no_action (tx_db s) pid /\ ~ spent db pid seq.
Proof.
  intros Hok Hp Hn Hlt Hcase Hdb Hpid Hseq Hun.
  apply ensureActionSequenceUnused_spec in Hun as [Hs' Hun]. rewrite Hpid, Hseq in Hun.
  assert (steps db (tx_db s)) as Hst by (rewrite Hdb; by apply compact_steps).
  assert (db_ok (tx_db s)) as Hok1 by eauto using steps_ok.
  split_and!; try done.
  - eapply unused_no_action; [done| | |done].
    + rewrite Hdb. simpl. apply lookup_insert_eq.
    + simpl. lia.
  - apply (not_spent db pid p); [done|done|]. rewrite Hdb in Hun. done.
Qed.

(** The part [ApplyOnce] and [RecordActionWithoutEffect] share. *)
Definition admission {B} (pid instance : string) (action : Action) (onFound : Action -> Tx B)
    (onResolved onBlocked : B) (onAdmit : Process -> Tx B) : Tx B :=
  loaded ← loadActionTransitionTx pid instance action;
  match loaded with
  | (process, Some existing) => onFound existing
  | (process, None) =>
      if a_Seq action <=? p_ResolvedActionSeq process then mret onResolved
      else
        compacted ← catchActionBlocked (compactMissingActionPrefixTx process (a_Seq action));
        match compacted with
        | None => mret onBlocked
        | Some process' =>
            if negb (a_Seq action =? wrap64 (p_ResolvedActionSeq process' + 1))
            then mret onBlocked
            else onAdmit process'
        end
  end.

(** An admission ends before it changed anything, or it reached its test with
    at most the frontier moved. *)
Lemma admission_inv {B} pid instance action onFound onResolved onBlocked onAdmit s (b : B) s' :
  db_ok (tx_db s) -> is_int64 (a_Seq action) ->
  admission pid instance action onFound onResolved onBlocked onAdmit s = (inr b, s') ->
  (exists existing s1, tx_db s1 = tx_db s /\ onFound existing s1 = (inr b, s'))
  \/ (steps (tx_db s) (tx_db s') /\ (b = onResolved \/ b = onBlocked))
  \/ exists p s1,
       db_processes (tx_db s) !! pid = Some p /\ p_ResolvedActionSeq p < a_Seq action
       /\ (a_Seq action = p_ResolvedActionSeq p + 1 \/ no_action (tx_db s) pid)
       /\ tx_db s1 = with_processes (tx_db s)
            (<[pid := set_ResolvedActionSeq (a_Seq action - 1) p]> (db_processes (tx_db s)))
       /\ onAdmit (set_ResolvedActionSeq (a_Seq action - 1) p) s1 = (inr b, s').
Proof.
  unfold admission. intros Hok Hn H. apply bind_inv in H as ([p o] & s1 & Hload & H).
  apply loadActionTransitionTx_spec in Hload as (Hdb & Hp & _ & _).
  destruct o as [existing|]; [left; eauto|right].
  case_match; [left; apply ret_inv in H as [-> ->]; split; [by rewrite Hdb|auto]|]. bsimpl.
  apply bind_inv in H as (o & s2 & Hc & H). rewrite <- Hdb in Hok, Hp.
  apply (compact_spec pid) in Hc; [|done..]. rewrite Hdb in *.
  destruct o as [p'|]; [destruct Hc as (-> & Hdb2 & Hcase)|].
  - case_match; [|right; by exists p, s2].
    left. apply ret_inv in H as [-> ->]. split; [|auto]. rewrite Hdb2. by apply compact_steps.
  - left. apply ret_inv in H as [-> ->]. rewrite Hc. split; [done|auto].
Qed.

Lemma ApplyOnce_effect s action faults db d r db' :
  db_ok db -> is_int64 (a_Seq action) ->
  ApplyOnce s action faults db = (inr (d, r), db') ->
  steps db db' /\
  (d = ApplyExecute ->
     ~ spent db (sv_processID s) (a_Seq action)
     /\ spent db' (sv_processID s) (a_Seq action)).
Proof.
  unfold ApplyOnce. intros Hok Hn H. case_match eqn:Hva; [by inversion H|].
  apply validateAction_None in Hva as [Hpid Hpos].
  apply write_tx_success in H as (s0 & s1 & <- & H & <-).
  apply admission_inv in H as [(a & s2 & Hdb & H)|[[Hst Hd]|(p & s2 & Hp & Hlt & Hcase & Hdb & H)]];
    [..|done|done].
  { tx_inv. match goal with H : reportByActionTx _ _ = _ |- _ =>
      apply reportByActionTx_spec in H as [Hdb' _] end.
    repeat (case_match; tx_inv); rewrite ?Hdb', ?Hdb; (split; [apply steps_none|done]). }
  { split; [done|]. naive_solver. }
  assert (steps (tx_db s0) (tx_db s2)) as Hst by (rewrite Hdb; by apply compact_steps).
  case_match; [tx_inv; split; [exact Hst|done]|]. bsimpl. simpl in *. tx_inv.
  match goal with H : ensureActionSequenceUnused _ _ = _ |- _ =>
    eapply (admission_spec _ (sv_processID s)) in H as (Hs & Hok1 & _ & Hno & Hunspent); eauto end.
  match goal with H : InsertProcessAction _ _ = _ |- _ =>
    apply InsertProcessAction_inv in H as (Hack & Hfree & Hdb0) end.
  rewrite Hs in *. split.
  - etrans; [exact Hst|]. rewrite Hdb0. apply rtc_once.
    eapply (prim_admit _ (set_ResolvedActionSeq (a_Seq action - 1) p)); simpl;
      rewrite ?Hpid; try done; [|lia]. rewrite Hdb. apply lookup_insert_eq.
  - intros _. split; [done|]. rewrite Hdb0, Hdb. simpl.
    exists (set_ResolvedActionSeq (a_Seq action - 1) p). simpl.
    rewrite lookup_insert_eq. split; [done|]. right.
    eexists (a_ID action), _. by rewrite lookup_insert_eq.
Qed.

Lemma action_report_row f aid :
  r_ActionID (reportFromSQLC f) = aid -> aid <> "" -> f_action_id f = Some aid.
Proof. simpl. case_match; congruence. Qed.

Lemma no_report_without_action db k f aid :
  db_ok db -> db_actions db !! aid = None -> db_reports db !! k = Some f ->
  f_action_id f <> Some aid.
Proof.
  intros Hok Hfree Hf E. apply (ok_rfk _ Hok), report_fk_spec in Hf as [_ Hf].
  destruct (Hf _ E) as (a & ? & _). congruence.
Qed.

(** An action recorded without effect gets its report in the same transaction. *)
Lemma noeffect_steps uuid report db p a s r s' :
  db_ok db -> db_processes db !! a_ProcessID a = Some p ->
  a_Seq a = p_ResolvedActionSeq p + 1 -> is_int64 (a_Seq a) ->
  no_action db (a_ProcessID a) -> db_actions db !! a_ID a = None ->
  process_actions_check a = true -> a_EffectCommitted a = false -> p_LocalClosed p = false ->
  tx_db s = with_actions db (<[a_ID a := a]> (db_actions db)) ->
  r_ProcessID report = a_ProcessID a -> r_ActionID report = a_ID a ->
  freezeReportTx uuid report s = (inr r, s') ->
  steps db (tx_db s')
  /\ db_processes (tx_db s') = db_processes db /\ db_actions (tx_db s') !! a_ID a = Some a.
Proof.
  intros Hok Hp Hseq Hn Hno Hfree Hck Heff Hcl Hdb Hpid Haid Hfz.
  assert (a_ID a <> "") as Hne by (unfold process_actions_check in Hck; by bsimpl).
  apply freezeReportTx_spec in Hfz as (Hsame & Hval & Hcases).
  apply sameReportContent_iff in Hsame as (Hpid' & Haid' & _ & _).
  destruct Hcases as [[_ (k & f & Hf & ->)]|(f & Hfresh & Hfk & -> & ->)];
    rewrite Haid in Haid'; apply action_report_row in Haid' as Hfa; try done.
  - exfalso. rewrite Hdb in Hf. simpl in Hf. by eapply no_report_without_action.
  - rewrite Hdb in *. simpl. split_and!; [|done|by rewrite lookup_insert_eq].
    apply rtc_once. eapply (prim_admit_noeffect _ p a f); eauto. simpl in *. congruence.
Qed.

Lemma RecordActionWithoutEffect_effect s uuid action report faults db d r db' :
  db_ok db -> is_int64 (a_Seq action) ->
  RecordActionWithoutEffect s uuid action report faults db = (inr (d, r), db') ->
  steps db db' /\
  (d = NoEffectRecorded ->
     ~ spent db (sv_processID s) (a_Seq action)
     /\ spent db' (sv_processID s) (a_Seq action)).
Proof.
  unfold RecordActionWithoutEffect, validateActionReportInput. intros Hok Hn H.
  case_match eqn:Hva; [by inversion H|]. apply validateAction_None in Hva as [Hpid Hpos].
  case_match eqn:Hvr; [by inversion H|]. case_match; [done|]. bsimpl. clear Hvr.
  apply write_tx_success in H as (s0 & s1 & <- & H & <-).
  apply admission_inv in H as [(a & s2 & Hdb & H)|[[Hst Hd]|(p & s2 & Hp & Hlt & Hcase & Hdb & H)]];
    [..|done|done].
  { tx_inv. match goal with H : reportByActionTx _ _ = _ |- _ =>
      apply reportByActionTx_spec in H as [Hdb' _] end.
    repeat (case_match; tx_inv); rewrite ?Hdb', ?Hdb; (split; [apply steps_none|done]). }
  { split; [done|]. naive_solver. }
  assert (steps (tx_db s0) (tx_db s2)) as Hst by (rewrite Hdb; by apply compact_steps).
  case_match; [tx_inv; split; [exact Hst|done]|]. bsimpl. simpl in *. tx_inv.
  match goal with H : ensureActionSequenceUnused _ _ = _ |- _ =>
    eapply (admission_spec _ (sv_processID s)) in H as (Hs & Hok1 & _ & Hno & Hunspent); eauto end.
  match goal with H : InsertProcessAction _ _ = _ |- _ =>
    apply InsertProcessAction_inv in H as (Hack & Hfree & Hdb0) end.
  rewrite Hs in *. simpl in *.
  match goal with H : freezeReportTx _ _ _ = _ |- _ =>
    eapply (noeffect_steps _ _ _ (set_ResolvedActionSeq (a_Seq action - 1) p)) in H
      as (Hst' & Hprocs & Hrow); try exact Hdb0; try done; simpl;
      rewrite ?Hpid; try done; try lia; try congruence end.
  2: { rewrite Hdb. apply lookup_insert_eq. }
  split; [by etrans|]. intros _. split; [done|].
  exists (set_ResolvedActionSeq (a_Seq action - 1) p). rewrite Hprocs, Hdb. simpl.
  rewrite lookup_insert_eq. split; [done|]. right. eexists _, _. simpl in Hrow. eauto.
Qed.

(** ** Settlement *)

Lemma DeleteProcessAction_row aid pid a db n db' :
  db_actions db !! aid = Some a -> a_ProcessID a = pid ->
  DeleteProcessAction aid pid db = inr (n, db') ->
  db' = mkDB (db_identity db) (db_processes db) (delete aid (db_actions db))
          (delete_where (fun f => (f_action_id f ==? Some aid) && (f_process_id f ==? pid))
             (db_reports db)).
Proof.
  unfold DeleteProcessAction. intros Ha Hpid H. rewrite Ha in H. case_match; bsimpl; congruence.
Qed.

Lemma update_process_row pid guard f db p n db' :
  db_processes db !! pid = Some p -> guard p = true ->
  update_process pid guard f db = inr (n, db') ->
  db' = with_processes db (<[pid := f p]> (db_processes db)) /\ processes_check (f p) = true.
Proof.
  intros Hp Hg H. apply update_process_cases in H as [(_ & q & Hq & _ & ? & ->)|(_ & _ & Hno)].
  - by simplify_eq.
  - specialize (Hno _ Hp). congruence.
Qed.

Lemma resolve_steps db aid a p :
  db_ok db -> db_actions db !! aid = Some a -> db_processes db !! a_ProcessID a = Some p ->
  steps db (mkDB (db_identity db)
              (<[a_ProcessID a := set_ResolvedActionSeq (a_Seq a) p]> (db_processes db))
              (delete aid (db_actions db))
              (delete_where (fun f => (f_action_id f ==? Some aid)
                                      && (f_process_id f ==? a_ProcessID a)) (db_reports db))).
Proof.
  intros Hok Ha Hp. pose proof (ok_akey _ Hok _ _ Ha) as <-. apply rtc_once. by apply prim_resolve.
Qed.

Lemma acknowledge_action_steps db aid a p m n db1 db' :
  db_ok db -> db_actions db !! aid = Some a -> db_processes db !! a_ProcessID a = Some p ->
  AdvanceResolvedActionSequence (a_Seq a) (a_ProcessID a) db = inr (m, db1) ->
  DeleteProcessAction (a_ID a) (a_ProcessID a) db1 = inr (n, db') -> steps db db'.
Proof.
  intros Hok Ha Hp Hadv Hdel. pose proof (ok_akey _ Hok _ _ Ha) as Hid.
  destruct (update_process_row _ _ _ _ p _ _ Hp eq_refl Hadv) as [-> _].
  rewrite Hid in Hdel. eapply (DeleteProcessAction_row aid _ a) in Hdel as ->; [|done..].
  simpl. by apply resolve_steps.
Qed.

(** The delivery state of a report moves on; a process report also frees the
    process on the server's side. *)
Lemma acknowledge_process_steps rid db n db' :
  AcknowledgeProcessReport rid db = inr (n, db') -> steps db db'.
Proof.
  intros H. apply update_report_cases in H as [(_ & f & Hf & Hg & Hck & ->)|(_ & ->)];
    [|apply steps_none].
  apply rtc_once. eapply prim_settle; eauto. bcases; congruence.
Qed.

Lemma server_released_steps pid db n db' :
  MarkTerminalProcessServerReleased pid db = inr (n, db') -> steps db db'.
Proof.
  intros H. apply update_process_cases in H as [(_ & p & Hp & _ & Hck & ->)|(_ & -> & _)];
    [|apply steps_none].
  eapply column_update; eauto. row_le.
Qed.

Lemma AcknowledgeReport_effect rid faults db v db' :
  db_ok db -> AcknowledgeReport rid faults db = (inr v, db') -> steps db db'.
Proof.
  unfold AcknowledgeReport, actionTx, processTx, GetProcess, GetProcessAction. intros Hok H.
  tx_inv. repeat (case_match; tx_inv); bsimpl;
    eauto using steps_none, acknowledge_process_steps, server_released_steps.
  1: etrans; eauto using acknowledge_process_steps, server_released_steps.
  all: match goal with H : a_ProcessID ?a = _, H' : db_processes _ !! _ = Some ?p |- _ =>
         rewrite <- H in H'; by eapply (acknowledge_action_steps _ _ a p) end.
Qed.

Lemma RejectReport_effect rid code message faults db v db' :
  RejectReport rid code message faults db = (inr v, db') -> steps db db'.
Proof.
  unfold RejectReport. intros H. case_match; [by inversion H|]. tx_inv.
  repeat (case_match; tx_inv); try apply steps_none.
  match goal with H : RejectFrozenReport _ _ _ _ = _ |- _ =>
    apply update_report_cases in H as [(_ & f' & Hf & Hg & Hck & ->)|(_ & ->)] end;
    [|apply steps_none].
  apply rtc_once. eapply prim_settle; eauto. bsimpl. congruence.
Qed.

Lemma no_action_advance db pid p : 
  no_action db pid -> no_action (with_processes db (<[pid := p]> (db_processes db))) pid.
Proof. done. Qed.

(** Advancing the frontier over a sequence number that has no local row. *)
Lemma release_absent_steps db pid p seq n db' instance :
  db_ok db -> db_processes db !! pid = Some p -> is_int64 seq -> p_ResolvedActionSeq p <= seq ->
  p_SupervisorInstanceID p = instance -> no_action db pid ->
  AdvanceReleasedActionSequence seq pid instance db = inr (n, db') -> steps db db'.
Proof.
  intros Hok Hp Hn Hle Hinst Hno H.
  apply (update_process_row _ _ _ _ p) in H as [-> _]; [|done|by apply bool_decide_eq_true].
  apply rtc_once. by apply prim_advance.
Qed.

(** Deleting the row at the frontier and advancing over it. *)
Lemma release_found_steps db pid instance aid a p m n db1 db' :
  db_ok db -> db_actions db !! aid = Some a -> a_ProcessID a = pid ->
  db_processes db !! pid = Some p -> p_SupervisorInstanceID p = instance ->
  DeleteProcessAction aid pid db = inr (m, db1) ->
  AdvanceReleasedActionSequence (a_Seq a) pid instance db1 = inr (n, db') -> steps db db'.
Proof.
  intros Hok Ha <- Hp Hinst Hdel Hadv.
  eapply (DeleteProcessAction_row aid _ a) in Hdel as ->; [|done..].
  apply (update_process_row _ _ _ _ p) in Hadv as [-> _]; [|done|by apply bool_decide_eq_true].
  unfold with_processes. simpl. by apply resolve_steps.
Qed.

(** The frontier [releaseAction] continues from when the action is absent. *)
Lemma release_compact_spec pid p seq s o s' :
  db_ok (tx_db s) -> db_processes (tx_db s) !! pid = Some p ->
  is_int64 seq -> p_ResolvedActionSeq p < seq ->
  (forall k a, db_actions (tx_db s) !! k = Some a -> a_ProcessID a = pid -> a_Seq a <> seq) ->
  (if p_ResolvedActionSeq p + 1 <? seq
   then compacted ← catchActionBlocked (compactMissingActionPrefixTx p seq);
        match compacted with
        | Some process' => mret (Some process')
        | None => mret None
        end
   else mret (Some p)) s = (inr o, s') ->
  match o with
  | None => tx_db s' = tx_db s
  | Some p' => p' = set_ResolvedActionSeq (seq - 1) p
      /\ tx_db s' = with_processes (tx_db s) (<[pid := p']> (db_processes (tx_db s)))
      /\ no_action (tx_db s) pid
  end.
Proof.
  intros Hok Hp Hn Hlt Hun H. case_match; bsimpl.
  - apply bind_inv in H as (c & s1 & Hc & H). apply (compact_spec pid) in Hc; [|done..].
    destruct c as [p'|]; apply ret_inv in H as [-> ->]; [|done].
    destruct Hc as (-> & -> & [?|?]); [lia|done].
  - apply ret_inv in H as [-> ->].
    assert (seq - 1 = p_ResolvedActionSeq p) as -> by lia.
    rewrite set_ResolvedActionSeq_id, insert_id, with_processes_id by done.
    split_and!; [done|done|]. apply (unused_no_action _ pid p seq); [done|done|lia|done].
Qed.

Lemma releaseAction_effect pid instance aid seq requireAbsent faults db v db' :
  db_ok db -> is_int64 seq ->
  releaseAction pid instance aid seq requireAbsent faults db = (inr v, db') -> steps db db'.
Proof.
  unfold releaseAction, processTx, actionTx, GetProcess, GetProcessAction. intros Hok Hn H.
  case_match; [by inversion H|]. bsimpl.
  apply write_tx_success in H as (s0 & s1 & <- & H & <-).
  apply bind_inv in H as (o & s2 & Hq & H). apply query_inv in Hq as [-> Hdb2].
  destruct (db_processes (tx_db s0) !! pid) as [p|] eqn:Hp; [|by apply throw_inv in H].
  case_match; [by apply throw_inv in H|]. bsimpl.
  apply bind_inv in H as (oa & s3 & Hq & H). apply query_inv in Hq as [Hoa Hdb3].
  rewrite Hdb2 in *. pose proof (ok_seq64 _ Hok _ _ Hp) as H64.
  destruct oa as [a|]; simpl in H.
  - case_match; [by apply throw_inv in H|]. case_match; [by apply throw_inv in H|].
    apply bind_inv in H as ([] & s4 & Hr & H). apply ret_inv in Hr as [_ ->].
    case_match; [by apply throw_inv in H|]. bsimpl.
    destruct (ok_frontier _ Hok _ _ (eq_sym Hoa)) as (q & Hq & Hseq & _). simplify_eq.
    rewrite (wrap64_succ _ (a_Seq a)) in H by done. rewrite <- Hseq, Z.ltb_irrefl in H.
    tx_inv. repeat (case_match; tx_inv).
    match goal with H : reportByActionTx _ _ = _ |- _ =>
      apply reportByActionTx_spec in H as [Hdb4 _] end.
    rewrite Hdb4, ?Hdb3 in *. eapply (release_found_steps _ _ _ aid a p); eauto.
  - rewrite andb_false_r in H.
    apply bind_inv in H as ([] & s4 & Hun & H).
    apply ensureActionSequenceUnused_spec in Hun as [Hdb4 Hun]. rewrite Hdb3 in *. simpl in Hun.
    case_match; [tx_inv; apply steps_none|]. bsimpl.
    rewrite (wrap64_succ _ seq) in H by done.
    apply bind_inv in H as (c & s5 & Hc & H).
    apply (release_compact_spec pid) in Hc; rewrite ?Hdb4; try done. rewrite Hdb4 in Hc.
    destruct c as [p'|]; [destruct Hc as (-> & Hdb5 & Hno)|tx_inv; apply steps_none].
    case_match; [by apply throw_inv in H|]. tx_inv.
    assert (steps (tx_db s0) (tx_db s5)) as Hst by (rewrite Hdb5; apply compact_steps; auto).
    etrans; [exact Hst|]. eapply (release_absent_steps _ pid (set_ResolvedActionSeq (seq - 1) p) seq);
      eauto using steps_ok; [| |by rewrite Hdb5].
    + rewrite Hdb5. apply lookup_insert_eq.
    + simpl. lia.
Qed.
End Effects.
