(* ===== verification/StateTrace.v ===== *)
(** * Executions of the state database

    [Cmd] lists every operation of the store and of the supervisor handle that
    writes, [run_cmd] runs one of them against a schedule of storage faults, and
    [runs] is a history of calls with the outcomes the callers saw.  The daemon
    and the supervisors call these operations from different OS processes; SQLite
    serialises the write transactions, so every interleaving is a history.

    The properties are over all histories: the invariant, atomicity, exactly-once
    admission and spawn authorisation, monotone process rows, immutable
    evidence. *)
From S2P Require Import Prelude DaemonProtocol StateSchema StateQueries StateTx StateReport.
From S2P Require Import StateProcess StateAction StateInvariant StatePreserve StateEffects.
From stdpp Require Import options.
Local Open Scope Z_scope.

Inductive Cmd : Type :=
  | CBindIdentity (installationID machineID : string)
  | CReserveProcess (process : Process)
  | CMarkPrepared (pid instance : string)
  | CMarkAccepted (pid instance : string)
  | CDeleteRejectedPreparation (pid instance : string)
  | CDeleteStorageExhausted (pid instance : string)
  | CAuthorizeSpawnOnce (s : Supervisor)
  | CRecordSpawned (s : Supervisor) (kind id : string)
  | CCloseActionAdmission (pid instance : string)
  | CMarkContainmentEmpty (pid instance : string)
  | CMarkLocalClosed (pid instance : string)
  | CMarkServerReleased (pid instance : string)
  | CDeleteClosed (pid instance : string)
  | CApplyOnce (s : Supervisor) (action : Action)
  | CRecordActionWithoutEffect (s : Supervisor) (uuid : string) (action : Action) (report : Report)
  | CFreezeActionReport (pid instance uuid aid : string) (report : Report)
  | CFreezeStartedReport (s : Supervisor) (uuid : string) (report : Report)
  | CFreezeTerminalReport (pid instance uuid : string) (report : Report)
  | CAcknowledgeReport (rid : string)
  | CReleaseAction (pid instance aid : string) (seq : Z)
  | CResolveAbsentAction (pid instance aid : string) (seq : Z)
  | CRejectReport (rid code message : string).

Inductive Outcome : Type :=
  | ODone
  | OSpawn (authorized : bool)
  | OApply (d : ApplyDecision) (r : Report)
  | ONoEffect (d : NoEffectDecision) (r : Report)
  | OReport (r : Report).

Definition op_map {A B} (f : A -> B) (op : Op A) : Op B := fun faults db =>
  let '(r, db') := op faults db in
  (match r with inl e => inl e | inr a => inr (f a) end, db').

(** Sequence numbers are Go [int64]s. *)
Definition wf_cmd (c : Cmd) : Prop :=
  match c with
  | CApplyOnce _ a | CRecordActionWithoutEffect _ _ a _ => is_int64 (a_Seq a)
  | CReleaseAction _ _ _ seq | CResolveAbsentAction _ _ _ seq => is_int64 seq
  | _ => True
  end.

Global Instance wf_cmd_dec c : Decision (wf_cmd c).
Proof. destruct c; simpl; apply _. Defined.

Section Trace.
Context {RC : ReportCodec}.

Definition run_cmd (c : Cmd) : Op Outcome :=
  let done op := op_map (fun _ : unit => ODone) op in
  match c with
  | CBindIdentity i m => done (bindOrVerifyIdentity i m)
  | CReserveProcess p => done (ReserveProcess p)
  | CMarkPrepared pid inst => done (MarkPrepared pid inst)
  | CMarkAccepted pid inst => done (MarkAccepted pid inst)
  | CDeleteRejectedPreparation pid inst => done (DeleteRejectedPreparationAfterArtifacts pid inst)
  | CDeleteStorageExhausted pid inst => done (DeleteStorageExhaustedAfterArtifacts pid inst)
  | CAuthorizeSpawnOnce s => op_map OSpawn (AuthorizeSpawnOnce s)
  | CRecordSpawned s kind id => done (RecordSpawned s kind id)
  | CCloseActionAdmission pid inst => done (closeActionAdmission pid inst)
  | CMarkContainmentEmpty pid inst => done (markContainmentEmpty pid inst)
  | CMarkLocalClosed pid inst => done (markLocalClosed pid inst)
  | CMarkServerReleased pid inst => done (MarkServerReleased pid inst)
  | CDeleteClosed pid inst => done (DeleteClosedAfterArtifacts pid inst)
  | CApplyOnce s a => op_map (fun dr => OApply dr.1 dr.2) (ApplyOnce s a)
  | CRecordActionWithoutEffect s uuid a r =>
      op_map (fun dr => ONoEffect dr.1 dr.2) (RecordActionWithoutEffect s uuid a r)
  | CFreezeActionReport pid inst uuid aid r =>
      op_map OReport (freezeActionReport pid inst uuid aid r)
  | CFreezeStartedReport s uuid r => op_map OReport (FreezeStartedReport s uuid r)
  | CFreezeTerminalReport pid inst uuid r => op_map OReport (freezeTerminalReport pid inst uuid r)
  | CAcknowledgeReport rid => done (AcknowledgeReport rid)
  | CReleaseAction pid inst aid seq => done (ReleaseAction pid inst aid seq)
  | CResolveAbsentAction pid inst aid seq => done (ResolveAbsentAction pid inst aid seq)
  | CRejectReport rid code message => done (RejectReport rid code message)
  end.

(** One call in a history. *)
Record Call : Type := mkCall { c_cmd : Cmd; c_faults : Faults; c_result : Err + Outcome }.

Inductive runs : DB -> list Call -> DB -> Prop :=
  | runs_nil db : runs db [] db
  | runs_cons db c faults r db1 h db2 :
      wf_cmd c -> run_cmd c faults db = (r, db1) -> runs db1 h db2 ->
      runs db (mkCall c faults r :: h) db2.

(** Running a list of calls, for the concrete histories. *)
Fixpoint run_all (cs : list (Cmd * Faults)) (db : DB) : list Call * DB :=
  match cs with
  | [] => ([], db)
  | (c, faults) :: cs' =>
      let '(r, db1) := run_cmd c faults db in
      let '(h, db2) := run_all cs' db1 in
      (mkCall c faults r :: h, db2)
  end.

Lemma run_all_runs cs db :
  Forall (fun cf => wf_cmd cf.1) cs -> runs db (run_all cs db).1 (run_all cs db).2.
Proof.
  intros Hwf. revert db. induction Hwf as [|[c faults] cs Hc _ IH]; intros db; [constructor|].
  simpl. destruct (run_cmd c faults db) as [r db1] eqn:E.
  specialize (IH db1). destruct (run_all cs db1) as [h db2]. by econstructor.
Qed.

(** ** One call *)

Lemma op_map_success {A B} (f : A -> B) (op : Op A) faults db o db' :
  op_map f op faults db = (inr o, db') -> exists a, op faults db = (inr a, db') /\ o = f a.
Proof.
  unfold op_map. destruct (op faults db) as [[e|a] db1]; intros; simplify_eq. eauto.
Qed.

Lemma op_map_error {A B} (f : A -> B) (op : Op A) faults db e db' :
  op_map f op faults db = (inl e, db') -> op faults db = (inl e, db').
Proof. unfold op_map. destruct (op faults db) as [[e'|a] db1]; intros; by simplify_eq. Qed.

(** The process whose row a call may delete. *)
Definition deletes (c : Cmd) : option string :=
  match c with
  | CDeleteRejectedPreparation pid _ | CDeleteStorageExhausted pid _ | CDeleteClosed pid _ =>
      Some pid
  | _ => None
  end.

Definition effect (c : Cmd) (db db' : DB) : Prop :=
  match deletes c with
  | Some pid => deleted pid db db'
  | None => steps db db'
  end.

Lemma run_cmd_success c faults db o db' :
  db_ok db -> wf_cmd c -> run_cmd c faults db = (inr o, db') -> effect c db db'.
Proof.
  intros Hok Hwf H.
  destruct c; unfold effect; simpl in *; apply op_map_success in H as (v & H & _);
    try destruct v as [d r];
    first [ by eapply bindOrVerifyIdentity_effect
          | by eapply ReserveProcess_effect | by eapply MarkPrepared_effect
          | by eapply MarkAccepted_effect | by eapply deleteProcessAfterArtifacts_effect
          | by eapply AuthorizeSpawnOnce_effect | by eapply RecordSpawned_effect
          | by eapply closeActionAdmission_effect | by eapply markContainmentEmpty_effect
          | by eapply markLocalClosed_effect | by eapply MarkServerReleased_effect
          | by eapply DeleteClosedAfterArtifacts_effect
          | by eapply ApplyOnce_effect in H as [? _]
          | by eapply RecordActionWithoutEffect_effect in H as [? _]
          | by eapply freezeActionReport_effect | by eapply FreezeStartedReport_effect
          | by eapply freezeTerminalReport_effect | by eapply AcknowledgeReport_effect
          | by eapply releaseAction_effect | by eapply RejectReport_effect ].
Qed.

(** Operations are either refused before a transaction or are one. *)
Lemma run_cmd_error c faults db e db' : run_cmd c faults db = (inl e, db') -> db' = db.
Proof.
  intros H. destruct c; simpl in H; apply op_map_error in H;
    unfold bindOrVerifyIdentity, ReserveProcess, MarkPrepared, MarkAccepted,
      DeleteRejectedPreparationAfterArtifacts, DeleteStorageExhaustedAfterArtifacts,
      deleteProcessAfterArtifacts, AuthorizeSpawnOnce, RecordSpawned, closeActionAdmission,
      markContainmentEmpty, markLocalClosed, MarkServerReleased, DeleteClosedAfterArtifacts,
      updateProcess, ApplyOnce, RecordActionWithoutEffect, freezeActionReport,
      FreezeStartedReport, freezeTerminalReport, AcknowledgeReport, ReleaseAction,
      ResolveAbsentAction, releaseAction, RejectReport, fail_op in H;
    repeat first [ by apply write_tx_error in H | by simplify_eq | case_match ].
Qed.

Lemma run_cmd_effect c faults db r db' :
  db_ok db -> wf_cmd c -> run_cmd c faults db = (r, db') -> effect c db db'.
Proof.
  intros Hok Hwf H. destruct r as [e|o]; [|by eapply run_cmd_success].
  apply run_cmd_error in H as ->. unfold effect. case_match; [by left|apply steps_none].
Qed.

Lemma effect_ok c db db' : db_ok db -> effect c db db' -> db_ok db'.
Proof.
  unfold effect. intros Hok H. case_match; [|by eapply steps_ok].
  destruct H as [->|[[p Hp] ->]]; [done|by eapply delete_ok].
Qed.

Lemma runs_ok db h db' : db_ok db -> runs db h db' -> db_ok db'.
Proof. intros Hok H. induction H; eauto using effect_ok, run_cmd_effect. Qed.

(** ** Relations that every step respects *)

Definition keeps (pid : string) (h : list Call) : Prop :=
  Forall (fun c => deletes (c_cmd c) <> Some pid) h.

(** A property of the database about one process that survives every [prim]
    step and the deletion of other processes survives a history that does not
    delete the process. *)
Lemma runs_stable (P : DB -> Prop) pid db h db' :
  (forall db db', db_ok db -> prim db db' -> P db -> P db') ->
  (forall db pid', pid' <> pid -> P db -> P (cascade_process pid' db)) ->
  db_ok db -> runs db h db' -> keeps pid h -> P db -> P db'.
Proof.
  intros Hprim Hdel Hok H. unfold keeps.
  induction H as [|db c faults r db1 h db2 Hwf Hrun _ IH]; intros Hk HP; [done|].
  apply Forall_cons in Hk as [Hc Hk]. simpl in Hc.
  pose proof (run_cmd_effect _ _ _ _ _ Hok Hwf Hrun) as Heff.
  apply IH; [by eapply effect_ok|done|]. clear IH Hrun. unfold effect in Heff. case_match.
  - destruct Heff as [->|[_ ->]]; [done|]. apply Hdel; [congruence|done].
  - induction Heff; eauto using prim_ok.
Qed.

Lemma prim_row db db' pid p :
  db_ok db -> prim db db' -> db_processes db !! pid = Some p ->
  exists p', db_processes db' !! pid = Some p' /\ process_le p p'.
Proof.
  intros Hok H Hp. destruct H; simpl; try (by exists p).
  all: match goal with |- context [<[?k := _]> _ !! ?q] =>
    destruct (decide (k = q)) as [<-|Hne];
    [rewrite lookup_insert_eq|rewrite lookup_insert_ne by done; by eauto using process_le_refl] end;
    simplify_eq.
  - eauto.
  - eexists; split; [done|]. by split.
  - eauto.
  - eexists; split; [done|]. destruct (ok_frontier _ Hok _ _ H) as (q & Hq & Hs & _).
    simplify_eq. split; simpl; try done. lia.
Qed.

Lemma cascade_row db pid pid' p :
  pid' <> pid -> db_processes db !! pid = Some p ->
  db_processes (cascade_process pid' db) !! pid = Some p.
Proof. intros. simpl. by rewrite lookup_delete_ne. Qed.

Lemma prim_spent db db' pid seq : db_ok db -> prim db db' -> spent db pid seq -> spent db' pid seq.
Proof.
  intros Hok H (p & Hp & Hs). destruct (prim_row _ _ _ _ Hok H Hp) as (p' & Hp' & Hle).
  exists p'. split; [done|]. destruct Hs as [Hs|(k & a & Ha & Hap & Has)].
  { left. destruct Hle. lia. }
  destruct H; simpl in *; try by (right; eauto).
  - right. exists k, a. rewrite lookup_insert_ne; [done|]. congruence.
  - right. exists k, a. rewrite lookup_insert_ne; [done|]. congruence.
  - destruct (decide (a_ID a0 = k)) as [<-|Hne].
    + simplify_eq. left. rewrite lookup_insert_eq in Hp'. simplify_eq. simpl. lia.
    + right. exists k, a. by rewrite lookup_delete_ne.
Qed.

Lemma cascade_spent db pid pid' seq :
  pid' <> pid -> spent db pid seq -> spent (cascade_process pid' db) pid seq.
Proof.
  intros Hne (p & Hp & Hs). exists p. split; [by apply cascade_row|].
  destruct Hs as [?|(k & a & Ha & Hap & Has)]; [by left|right]. exists k, a.
  split; [|done]. simpl. apply lookup_delete_where. split; [done|].
  apply bool_decide_eq_false. congruence.
Qed.
End Trace.
