(* ===== verification/StateEvidence.v ===== *)
(** * Frozen evidence

    A frozen report is never rewritten: while its row exists, the process, the
    action, the kind and the body it was frozen with stay, and its delivery state
    only advances from pending to rejected to acknowledged.  The proof is a rule
    for relations that every single statement of a transaction respects
    ([respects]), so it needs no invariant of the database. *)
From S2P Require Import Prelude DaemonProtocol StateSchema StateQueries StateTx StateReport.
From S2P Require Import StateProcess StateAction StateEffects StateTrace.
From stdpp Require Import options.
Local Open Scope Z_scope.

(** ** Relations respected statement by statement *)

Section Respects.
Local Set Default Proof Using "Type*".
Context (R : relation DB) {HR : PreOrder R}.

Definition respects {A} (m : Tx A) : Prop :=
  forall s r s', m s = (r, s') -> R (tx_db s) (tx_db s').

Definition write_respects (w : DB -> WriteResult) : Prop :=
  forall db n db', w db = inr (n, db') -> R db db'.

Lemma respects_ret {A} (a : A) : respects (mret a).
Proof. intros s r s' H. unfold mret, Tx_ret in H. by simplify_eq. Qed.

Lemma respects_throw {A} e : respects (throw e : Tx A).
Proof. intros s r s' H. unfold throw in H. by simplify_eq. Qed.

Lemma respects_bind {A B} (m : Tx A) (f : A -> Tx B) :
  respects m -> (forall a, respects (f a)) -> respects (m ≫= f).
Proof.
  intros Hm Hf s r s' H. unfold mbind, Tx_bind in H.
  destruct (m s) as [[e|a] s1] eqn:E; apply Hm in E; simplify_eq; [done|].
  etrans; [exact E|]. by eapply Hf.
Qed.

Lemma respects_query {A} (f : DB -> A) : respects (query f).
Proof.
  intros s [e|a] s' H; [by apply query_err in H as ->|by apply query_inv in H as [_ ->]].
Qed.

Lemma respects_exec w : write_respects w -> respects (exec w).
Proof.
  intros Hw s [e|n] s' H; [by apply exec_err in H as ->|]. apply exec_inv in H. by eapply Hw.
Qed.

Lemma respects_catch {A} (m : Tx A) : respects m -> respects (catchActionBlocked m).
Proof.
  intros Hm s r s' H. unfold catchActionBlocked in H.
  destruct (m s) as [[e|a] s1] eqn:E; apply Hm in E; repeat case_match; by simplify_eq.
Qed.

Lemma respects_check err : respects (check err).
Proof. destruct err; [apply respects_throw|apply respects_ret]. Qed.

Lemma respects_write_tx {A} (m : Tx A) faults db r db' :
  respects m -> write_tx m faults db = (r, db') -> R db db'.
Proof.
  intros Hm H. unfold write_tx in H. destruct ((beginWrite ≫= _) _) as [[e|a] s1] eqn:E;
    simplify_eq; [done|].
  apply (respects_bind beginWrite _ (respects_query _)) in E; [done|].
  intros []. apply respects_bind; [done|]. intros a'.
  apply respects_bind; [apply respects_query|]. intros _. apply respects_ret.
Qed.
End Respects.

(** Walks a transaction program, leaving one goal per write statement. *)
Ltac respects_walk :=
  repeat first
    [ match goal with |- forall _, _ => intros ? end
    | apply respects_ret; [exact _]
    | apply respects_throw; [exact _]
    | apply respects_query; [exact _]
    | apply respects_check; [exact _]
    | apply respects_catch; [exact _|]
    | apply respects_bind; [exact _| |]
    | apply respects_exec; [exact _|]
    | case_match ].

(** ** The evidence relation *)

Definition report_state_rank (st : ReportState) : Z :=
  match st with
  | ReportStateUnset | ReportPending => 0
  | ReportRejected => 1
  | ReportAcknowledged => 2
  end.

Definition same_evidence (f f' : FrozenReport) : Prop :=
  f_process_id f' = f_process_id f /\ f_action_id f' = f_action_id f
  /\ f_report_kind f' = f_report_kind f /\ f_body f' = f_body f
  /\ report_state_rank (f_state f) <= report_state_rank (f_state f').

(** Every row [rid] after the step is the row before it, with the same evidence. *)
Definition evidence_kept (rid : string) (db db' : DB) : Prop :=
  forall f', db_reports db' !! rid = Some f' ->
  exists f, db_reports db !! rid = Some f /\ same_evidence f f'.

Global Instance evidence_kept_preorder rid : PreOrder (evidence_kept rid).
Proof.
  split.
  - intros db f Hf. exists f. unfold same_evidence. split_and!; done || lia.
  - intros db1 db2 db3 H12 H23 f3 H3. destruct (H23 _ H3) as (f2 & H2 & E2).
    destruct (H12 _ H2) as (f1 & H1 & E1). exists f1. unfold same_evidence in *.
    destruct E1 as (?&?&?&?&?), E2 as (?&?&?&?&?). split_and!; congruence || lia.
Qed.

Section Writes.
Context (rid : string).
Local Abbreviation ok := (write_respects (evidence_kept rid)).

Lemma kept_sub db db' :
  (forall f, db_reports db' !! rid = Some f -> db_reports db !! rid = Some f) ->
  evidence_kept rid db db'.
Proof. intros H f Hf. apply H in Hf. by apply (reflexivity (R:=evidence_kept rid) db). Qed.

Lemma update_process_evidence pid guard f : ok (update_process pid guard f).
Proof.
  intros db n db' H.
  apply update_process_cases in H as [(_ & p & _ & _ & _ & ->)|(_ & -> & _)]; [|done].
  by apply kept_sub.
Qed.

Lemma update_report_evidence rid' guard st code err :
  (forall f, guard f = true -> report_state_rank (f_state f) <= report_state_rank st) ->
  ok (update_report rid' guard (set_report_state st code err)).
Proof.
  intros Hg db n db' H.
  apply update_report_cases in H as [(_ & f & Hf & Hgf & _ & ->)|(_ & ->)]; [|done].
  intros g Hgl. simpl in Hgl. destruct (decide (rid' = rid)) as [<-|Hne].
  - rewrite lookup_insert_eq in Hgl. simplify_eq. exists f. split; [done|].
    unfold same_evidence. split_and!; try done. simpl. auto.
  - rewrite lookup_insert_ne in Hgl by done. exists g. split; [done|].
    unfold same_evidence. split_and!; done || lia.
Qed.

Lemma InsertProcess_evidence pid inst token : ok (InsertProcess pid inst token).
Proof. intros db n db' H. unfold InsertProcess in H. repeat case_match; simplify_eq. by apply kept_sub. Qed.

Lemma InsertProcessAction_evidence a : ok (InsertProcessAction a).
Proof.
  intros db n db' H. unfold InsertProcessAction in H. repeat case_match; simplify_eq.
  by apply kept_sub.
Qed.

Lemma BindMachineIdentity_evidence i m : ok (BindMachineIdentity i m).
Proof.
  intros db n db' H. unfold BindMachineIdentity in H. repeat case_match; simplify_eq.
  by apply kept_sub.
Qed.

Lemma DeleteProcess_evidence pid inst : ok (DeleteProcess pid inst).
Proof.
  intros db n db' H. unfold DeleteProcess in H. repeat case_match; simplify_eq; [|done..].
  apply kept_sub. intros f Hf. by apply lookup_delete_where in Hf as [? _].
Qed.

Lemma DeleteProcessAction_evidence aid pid : ok (DeleteProcessAction aid pid).
Proof.
  intros db n db' H. unfold DeleteProcessAction in H. repeat case_match; simplify_eq; [|done..].
  apply kept_sub. intros f Hf. by apply lookup_delete_where in Hf as [? _].
Qed.

Lemma InsertFrozenReport_evidence rid' pid aid kind body :
  rid' <> rid -> ok (InsertFrozenReport rid' pid aid kind body).
Proof.
  intros Hne db n db' H. unfold InsertFrozenReport in H. repeat case_match; simplify_eq.
  apply kept_sub. intros f Hf. simpl in Hf. by rewrite lookup_insert_ne in Hf.
Qed.

Lemma AcknowledgeProcessReport_evidence rid' : ok (AcknowledgeProcessReport rid').
Proof. apply update_report_evidence. intros f _. destruct (f_state f); simpl; lia. Qed.

Lemma RejectFrozenReport_evidence code err rid' : ok (RejectFrozenReport code err rid').
Proof. apply update_report_evidence. intros f Hf. bsimpl. rewrite Hf. simpl. lia. Qed.
End Writes.

Create HintDb evidence.
#[export] Hint Resolve InsertProcess_evidence InsertProcessAction_evidence
  BindMachineIdentity_evidence DeleteProcess_evidence DeleteProcessAction_evidence
  InsertFrozenReport_evidence AcknowledgeProcessReport_evidence RejectFrozenReport_evidence : evidence.
#[export] Hint Extern 1 (write_respects (evidence_kept _) (_ _)) =>
  apply update_process_evidence : evidence.

Section Evidence.
Context {RC : ReportCodec}.

(** The report identifier a call draws. *)
Definition draws (c : Cmd) : option string :=
  match c with
  | CRecordActionWithoutEffect _ uuid _ _ | CFreezeActionReport _ _ uuid _ _
  | CFreezeStartedReport _ uuid _ | CFreezeTerminalReport _ _ uuid _ => Some (newReportID uuid)
  | _ => None
  end.

Lemma freezeReportTx_evidence rid uuid report :
  newReportID uuid <> rid -> respects (evidence_kept rid) (freezeReportTx uuid report).
Proof. intros Hne. unfold freezeReportTx, reportBySlotTx. respects_walk; eauto with evidence. Qed.

Local Opaque freezeReportTx.

Lemma run_cmd_evidence rid c faults db r db' :
  draws c <> Some rid -> run_cmd c faults db = (r, db') -> evidence_kept rid db db'.
Proof.
  intros Hd H. destruct r as [e|o]; [by apply run_cmd_error in H as ->|].
  destruct c; simpl in *; apply op_map_success in H as (v & H & _);
    unfold bindOrVerifyIdentity, ReserveProcess, MarkPrepared, MarkAccepted,
      DeleteRejectedPreparationAfterArtifacts, DeleteStorageExhaustedAfterArtifacts,
      deleteProcessAfterArtifacts, AuthorizeSpawnOnce, RecordSpawned, closeActionAdmission,
      markContainmentEmpty, markLocalClosed, MarkServerReleased, DeleteClosedAfterArtifacts,
      updateProcess, ApplyOnce, RecordActionWithoutEffect, freezeActionReport,
      FreezeStartedReport, freezeTerminalReport, AcknowledgeReport, ReleaseAction,
      ResolveAbsentAction, releaseAction, RejectReport, fail_op in H;
    repeat first [ by simplify_eq
                 | eapply respects_write_tx in H; [exact H|exact _|]; clear H
                 | case_match ].
  all: unfold loadActionTransitionTx, compactMissingActionPrefixTx, ensureActionSequenceUnused,
         reportByActionTx, processTx, actionTx; respects_walk; eauto with evidence.
  all: apply freezeReportTx_evidence; congruence.
Qed.

Lemma runs_evidence rid db h db' :
  runs db h db' -> Forall (fun c => draws (c_cmd c) <> Some rid) h -> evidence_kept rid db db'.
Proof.
  intros H. induction H as [|db c faults r db1 h db2 _ Hrun _ IH]; intros Hd; [done|].
  apply Forall_cons in Hd as [Hc Hd]. etrans; eauto using run_cmd_evidence.
Qed.
End Evidence.
