(* ===== verification/StateSpec.v ===== *)
(** * Reference behaviour of action admission

    [apply_spec] says, from the rows of the database alone, what
    [Supervisor.ApplyOnce] must answer; [ApplyOnce_healthy] shows that on a
    database that satisfies the invariant and does not fail, the transaction of
    [action.go] computes exactly that, on every branch. *)
From S2P Require Import Prelude DaemonProtocol StateSchema StateQueries StateTx StateReport.
From S2P Require Import StateProcess StateAction StateInvariant StatePreserve StateEffects.
From stdpp Require Import options.
Local Open Scope Z_scope.

(** ** Running a transaction on a healthy database *)

Abbreviation healthy db := (mkTxState db []).

Lemma bind_ret {A B} (m : Tx A) (f : A -> Tx B) s a s' :
  m s = (inr a, s') -> (m ≫= f) s = f a s'.
Proof. unfold mbind, Tx_bind. by intros ->. Qed.

Lemma bind_throw {A B} (m : Tx A) (f : A -> Tx B) s e s' :
  m s = (inl e, s') -> (m ≫= f) s = (inl e, s').
Proof. unfold mbind, Tx_bind. by intros ->. Qed.

Lemma query_healthy {A} (f : DB -> A) db : query f (healthy db) = (inr (f db), healthy db).
Proof. done. Qed.

Lemma bind_query {A B} (q : DB -> A) (f : A -> Tx B) db :
  (query q ≫= f) (healthy db) = f (q db) (healthy db).
Proof. done. Qed.

Lemma bind_mret {A B} (a : A) (f : A -> Tx B) s : (mret a ≫= f) s = f a s.
Proof. done. Qed.

Lemma exec_healthy w db n db' :
  w db = inr (n, db') -> exec w (healthy db) = (inr n, healthy db').
Proof. unfold exec. simpl. by intros ->. Qed.

Lemma bind_exec {B} w (f : Z -> Tx B) db n db' :
  w db = inr (n, db') -> (exec w ≫= f) (healthy db) = f n (healthy db').
Proof. intros H. apply bind_ret. by apply exec_healthy. Qed.

Definition commit {A} (db : DB) (r : (Err + A) * TxState) : (Err + A) * DB :=
  match r with
  | (inr a, s) => (inr a, tx_db s)
  | (inl e, _) => (inl e, db)
  end.

Lemma write_tx_healthy {A} (body : Tx A) db r db' :
  body (healthy db) = (r, healthy db') ->
  write_tx body [] db = commit db (r, healthy db').
Proof.
  intros H. unfold write_tx, beginWrite, commitWrite. rewrite bind_query.
  destruct r as [e|a]; [by rewrite (bind_throw _ _ _ _ _ H)|].
  by rewrite (bind_ret _ _ _ _ _ H), bind_query.
Qed.

Lemma write_tx_run {A} (body : Tx A) db a db' :
  body (healthy db) = (inr a, healthy db') -> write_tx body [] db = (inr a, db').
Proof. intros H. by rewrite (write_tx_healthy _ _ _ _ H). Qed.

(** ** The in-flight action of a process *)

Definition in_flight (db : DB) (pid : string) : option Action :=
  select_one (fun a => a_ProcessID a ==? pid) (db_actions db).

(** [ApplyOnce]'s admission guard. *)
Definition admission_open (p : Process) : bool :=
  negb (p_LocalClosed p) && negb (p_ActionAdmissionClosed p)
  && (p_Phase p ==? ProcessAccepted) && p_ExecCommitted p && (p_ContainmentKind p <>? "").

(** Moving the frontier of [pid] to just before [seq]. *)
Definition compacted (db : DB) (pid : string) (p : Process) (seq : Z) : DB :=
  with_processes db (<[pid := set_ResolvedActionSeq (seq - 1) p]> (db_processes db)).

Definition committed (action : Action) : Action :=
  mkAction (a_ID action) (a_ProcessID action) (a_Kind action) (a_Seq action) true.

Definition apply_spec (s : Supervisor) (action : Action) (db : DB)
    : (Err + ApplyDecision * Report) * DB :=
  let pid := sv_processID s in
  match validateAction action pid with
  | Some e => (inl e, db)
  | None =>
  match db_processes db !! pid with
  | None => (inl ErrSupervisorIdentityMismatch, db)
  | Some p =>
      if p_SupervisorInstanceID p <>? sv_supervisorInstanceID s
      then (inl ErrSupervisorIdentityMismatch, db)
      else
        match db_actions db !! a_ID action with
        | Some existing =>
            if negb (sameActionIdentity existing action) then (inl ErrStateConflict, db)
            else
              match GetFrozenReportByAction (a_ID action) db with
              | Some f => (inr (ApplyAlreadyReported, reportFromSQLC f), db)
              | None => (inr (ApplyOutcomeUnknown, Report_zero), db)
              end
        | None =>
            if a_Seq action <=? p_ResolvedActionSeq p
            then (inr (ApplyAlreadyResolved, Report_zero), db)
            else
              match in_flight db pid with
              | Some _ =>
                  if p_ResolvedActionSeq p + 1 <? a_Seq action
                  then (inr (ApplyBlocked, Report_zero), db)
                  else if admission_open p then (inl ErrStateConflict, db)
                  else (inr (ApplyAdmissionClosed, Report_zero), db)
              | None =>
                  let db1 := compacted db pid p (a_Seq action) in
                  if admission_open p
                  then (inr (ApplyExecute, Report_zero),
                        with_actions db1 (<[a_ID action := committed action]> (db_actions db1)))
                  else (inr (ApplyAdmissionClosed, Report_zero), db1)
              end
        end
  end
  end.

Section Spec.
Context {RC : ReportCodec}.

Lemma in_flight_None db pid : in_flight db pid = None <-> no_action db pid.
Proof.
  unfold in_flight, no_action. rewrite select_one_None. split; intros H k a Ha.
  - intros E. specialize (H _ _ Ha). by bsimpl.
  - apply bool_decide_eq_false. eauto.
Qed.

Lemma in_flight_Some db pid a :
  db_ok db -> in_flight db pid = Some a ->
  exists p, db_actions db !! a_ID a = Some a /\ a_ProcessID a = pid
    /\ db_processes db !! pid = Some p /\ a_Seq a = p_ResolvedActionSeq p + 1.
Proof.
  intros Hok H. apply select_one_Some in H as [Hp [k Hk]]. bsimpl. subst.
  destruct (ok_frontier _ Hok _ _ Hk) as (p & Hp & Hs & _). exists p.
  by rewrite (ok_akey _ Hok _ _ Hk).
Qed.

(** The compaction step of the code, on a healthy database. *)
Lemma compact_healthy db pid p n :
  db_ok db -> db_processes db !! pid = Some p -> is_int64 n -> p_ResolvedActionSeq p < n ->
  catchActionBlocked (compactMissingActionPrefixTx p n) (healthy db) =
  if bool_decide (is_Some (in_flight db pid)) && (p_ResolvedActionSeq p + 1 <? n)
  then (inr None, healthy db)
  else (inr (Some (set_ResolvedActionSeq (n - 1) p)), healthy (compacted db pid p n)).
Proof.
  intros Hok Hp Hn Hlt. unfold catchActionBlocked, compactMissingActionPrefixTx, compacted.
  pose proof (ok_seq64 _ Hok _ _ Hp) as H64. pose proof (ok_pcheck _ Hok _ _ Hp) as Hck.
  assert (0 <= p_ResolvedActionSeq p) as Hpos by (unfold processes_check in Hck; bsimpl; lia).
  rewrite (wrap64_succ _ n), (wrap64_pred n) by (done || lia).
  rewrite (ok_pkey _ Hok _ _ Hp).
  destruct (n <=? p_ResolvedActionSeq p + 1) eqn:E; bsimpl.
  { assert (n - 1 = p_ResolvedActionSeq p) as -> by lia.
    rewrite (proj2 (Z.ltb_ge _ _)), andb_false_r by lia.
    rewrite set_ResolvedActionSeq_id, insert_id, with_processes_id by done. done. }
  rewrite (proj2 (Z.ltb_lt _ _)), andb_true_r by lia. rewrite bind_query.
  destruct (in_flight db pid) as [a|] eqn:Ea; simpl.
  - destruct (in_flight_Some _ _ _ Hok Ea) as (q & Ha & Hap & Hq & Hs). simplify_eq.
    rewrite (proj2 (Z.eqb_neq _ _)); [done|]. unfold CountProcessActionsBetween.
    rewrite count_zero. intros Hz. specialize (Hz _ _ Ha).
    rewrite bool_decide_eq_true_2 in Hz by done. simpl in Hz. bcases; lia.
  - rewrite (proj2 (Z.eqb_eq _ _)); simpl.
    2: { apply count_zero. intros k b Hb. apply in_flight_None in Ea.
         by rewrite bool_decide_eq_false_2 by eauto. }
    erewrite bind_exec; [done|]. unfold CompactMissingActionPrefix, update_process.
    rewrite Hp, bool_decide_eq_true_2, Z.eqb_refl by done. simpl.
    rewrite advanced_check by (done || lia). done.
Qed.

Lemma set_seq_open n p : admission_open (set_ResolvedActionSeq n p) = admission_open p.
Proof. done. Qed.

Lemma admission_guard p :
  p_LocalClosed p || p_ActionAdmissionClosed p || (p_Phase p <>? ProcessAccepted)
    || negb (p_ExecCommitted p) || (p_ContainmentKind p ==? "") = negb (admission_open p).
Proof.
  unfold admission_open. by rewrite !negb_andb, !negb_involutive.
Qed.

(** What the code does once the action is known to be absent and ahead of the
    frontier. *)
Lemma admit_healthy (p : Process) action db pid :
  db_ok db -> is_int64 (a_Seq action) -> validateAction action pid = None ->
  db_processes db !! pid = Some p -> db_actions db !! a_ID action = None ->
  p_ResolvedActionSeq p < a_Seq action -> in_flight db pid = None ->
  let db1 := compacted db pid p (a_Seq action) in
  InsertProcessAction (committed action) db1 =
    inr (1, with_actions db1 (<[a_ID action := committed action]> (db_actions db1))).
Proof.
  intros Hok Hn Hva Hp Ha Hlt Hno. unfold InsertProcessAction, committed. simpl.
  unfold validateAction in Hva. rewrite Ha.
  assert (process_actions_check (mkAction (a_ID action) (a_ProcessID action) (a_Kind action)
    (a_Seq action) true) = true) as ->.
  { unfold process_actions_check. simpl. repeat case_match; bsimpl; try done;
      rewrite !andb_true_iff; rewrite Z.ltb_lt, negb_true_iff, bool_decide_eq_false; done. }
  simpl. replace (a_ProcessID action) with pid by (repeat case_match; by bsimpl).
  replace (exists_row _ _) with false.
  - rewrite lookup_insert_eq. done.
  - symmetry. apply exists_row_false. intros k b Hb. apply in_flight_None in Hno.
    by rewrite bool_decide_eq_false_2 by eauto.
Qed.

Lemma sequence_healthy action db pid p :
  db_ok db -> validateAction action pid = None -> db_processes db !! pid = Some p ->
  a_Seq action = p_ResolvedActionSeq p + 1 ->
  ensureActionSequenceUnused action (healthy db) =
  (if in_flight db pid then inl ErrStateConflict else inr tt, healthy db).
Proof.
  intros Hok Hva Hp Hs. unfold ensureActionSequenceUnused, GetProcessActionIDBySequence.
  rewrite bind_query.
  replace (a_ProcessID action) with pid
    by (unfold validateAction in Hva; repeat case_match; by bsimpl).
  destruct (in_flight db pid) as [a|] eqn:Ea.
  - destruct (in_flight_Some _ _ _ Hok Ea) as (q & Ha & Hap & Hq & Hsa). simplify_eq.
    assert (is_Some (select_one (fun b => (a_ProcessID b ==? a_ProcessID a)
      && (a_Seq b =? a_Seq action)) (db_actions db))) as [b ->]; [|done].
    eapply select_one_is_Some; [exact Ha|]. rewrite bool_decide_eq_true_2 by done.
    apply Z.eqb_eq. lia.
  - assert (select_one (fun b => (a_ProcessID b ==? pid) && (a_Seq b =? a_Seq action))
      (db_actions db) = None) as ->; [|done].
    apply select_one_None. intros k b Hb. apply in_flight_None in Ea.
    by rewrite bool_decide_eq_false_2 by eauto.
Qed.

Lemma compacted_ok db pid p n :
  db_ok db -> db_processes db !! pid = Some p -> is_int64 n -> p_ResolvedActionSeq p < n ->
  in_flight db pid = None \/ n = p_ResolvedActionSeq p + 1 -> db_ok (compacted db pid p n).
Proof.
  intros Hok Hp Hn Hlt Hc. eapply steps_ok; [exact Hok|]. apply compact_steps; try done.
  rewrite in_flight_None in Hc. tauto.
Qed.

Lemma compacted_in_flight db pid p n pid' : in_flight (compacted db pid p n) pid' = in_flight db pid'.
Proof. done. Qed.

Lemma compacted_id db pid p n :
  db_processes db !! pid = Some p -> n = p_ResolvedActionSeq p + 1 -> compacted db pid p n = db.
Proof.
  intros Hp ->. unfold compacted. rewrite Z.add_simpl_r.
  by rewrite set_ResolvedActionSeq_id, insert_id, with_processes_id.
Qed.

(** The transaction after the lookups, against the tail of [apply_spec]. *)
Lemma admission_healthy action db pid p :
  db_ok db -> is_int64 (a_Seq action) -> validateAction action pid = None ->
  db_processes db !! pid = Some p -> db_actions db !! a_ID action = None ->
  p_ResolvedActionSeq p < a_Seq action ->
  exists r db', (compacted ← catchActionBlocked (compactMissingActionPrefixTx p (a_Seq action));
     match compacted with
     | None => mret (ApplyBlocked, Report_zero)
     | Some process' =>
         if negb (a_Seq action =? wrap64 (p_ResolvedActionSeq process' + 1))
         then mret (ApplyBlocked, Report_zero)
         else if p_LocalClosed process' || p_ActionAdmissionClosed process'
                 || (p_Phase process' <>? ProcessAccepted)
                 || negb (p_ExecCommitted process') || (p_ContainmentKind process' ==? "")
         then mret (ApplyAdmissionClosed, Report_zero)
         else
           ensureActionSequenceUnused action;;
           exec (InsertProcessAction (committed action));;
           mret (ApplyExecute, Report_zero)
     end) (healthy db) = (r, healthy db') /\
  commit db (r, healthy db') =
    match in_flight db pid with
    | Some _ =>
        if p_ResolvedActionSeq p + 1 <? a_Seq action
        then (inr (ApplyBlocked, Report_zero), db)
        else if admission_open p then (inl ErrStateConflict, db)
        else (inr (ApplyAdmissionClosed, Report_zero), db)
    | None =>
        let db1 := compacted db pid p (a_Seq action) in
        if admission_open p
        then (inr (ApplyExecute, Report_zero),
              with_actions db1 (<[a_ID action := committed action]> (db_actions db1)))
        else (inr (ApplyAdmissionClosed, Report_zero), db1)
    end.
Proof.
  intros Hok Hn Hva Hp Ha Hlt.
  pose proof (compact_healthy db pid p _ Hok Hp Hn Hlt) as Hc.
  destruct (bool_decide (is_Some (in_flight db pid)) && (p_ResolvedActionSeq p + 1 <? a_Seq action))
    eqn:Hblk; rewrite (bind_ret _ _ _ _ _ Hc).
  { bsimpl. destruct (in_flight db pid) as [b|]; [|by destruct H as [? ?]].
    rewrite (proj2 (Z.ltb_lt _ _)) by done. eauto. }
  assert (in_flight db pid = None \/ a_Seq action = p_ResolvedActionSeq p + 1) as Hcase.
  { bcases; [|right; lia]. left. by apply eq_None_not_Some. }
  cbv beta iota. rewrite admission_guard, set_seq_open. simpl.
  rewrite Z.sub_add, (wrap64_id (a_Seq action)), Z.eqb_refl by done. simpl.
  pose proof (compacted_ok _ _ _ _ Hok Hp Hn Hlt Hcase) as Hok1.
  destruct (admission_open p) eqn:Hopen; simpl.
  2: { eexists _, _. split; [done|]. simpl. destruct (in_flight db pid); [|done].
       destruct Hcase as [|Hs]; [done|].
       by rewrite compacted_id, Hs, Z.ltb_irrefl. }
  assert (ensureActionSequenceUnused action (healthy (compacted db pid p (a_Seq action))) =
    (if in_flight db pid then inl ErrStateConflict else inr tt,
     healthy (compacted db pid p (a_Seq action)))) as Hseq.
  { rewrite <- (compacted_in_flight db pid p (a_Seq action)).
    eapply sequence_healthy; [done|done|apply lookup_insert_eq|simpl; lia]. }
  destruct (in_flight db pid) as [b|] eqn:Hb; simpl in Hseq.
  - rewrite (bind_throw _ _ _ _ _ Hseq). eexists _, _. split; [done|]. simpl.
    destruct Hcase as [|Hs]; [done|]. by rewrite Hs, Z.ltb_irrefl.
  - rewrite (bind_ret _ _ _ _ _ Hseq).
    erewrite bind_exec by (eapply admit_healthy; eauto). by eexists _, _.
Qed.

Lemma load_healthy pid inst action db :
  loadActionTransitionTx pid inst action (healthy db) =
  (match db_processes db !! pid with
   | None => inl ErrSupervisorIdentityMismatch
   | Some p =>
       if p_SupervisorInstanceID p <>? inst then inl ErrSupervisorIdentityMismatch
       else
         match db_actions db !! a_ID action with
         | Some ex =>
             if negb (sameActionIdentity ex action) then inl ErrStateConflict else inr (p, Some ex)
         | None => inr (p, None)
         end
   end, healthy db).
Proof.
  unfold loadActionTransitionTx, processTx, actionTx, GetProcess, GetProcessAction.
  rewrite bind_query. repeat (case_match; rewrite ?bind_query); try done; congruence.
Qed.

Lemma reportByAction_healthy aid db :
  reportByActionTx aid (healthy db) =
  (inr (reportFromSQLC <$> GetFrozenReportByAction aid db), healthy db).
Proof. done. Qed.

(** A local row without an effect always has its report. *)
Lemma unreported_effect db aid a :
  db_ok db -> db_actions db !! aid = Some a -> GetFrozenReportByAction aid db = None ->
  a_EffectCommitted a = true.
Proof.
  intros Hok Ha Hno. destruct (a_EffectCommitted a) eqn:E; [done|].
  destruct (ok_noeffect _ Hok _ _ Ha E) as (k & f & Hf & Hfa).
  rewrite (ok_akey _ Hok _ _ Ha) in Hfa.
  apply (proj1 (select_one_None _ _)) with (k := k) (r := f) in Hno; [|done]. by bsimpl.
Qed.

(** [ApplyOnce] computes [apply_spec]. *)
Lemma ApplyOnce_healthy s action db :
  db_ok db -> is_int64 (a_Seq action) -> ApplyOnce s action [] db = apply_spec s action db.
Proof.
  intros Hok Hn. unfold ApplyOnce, apply_spec.
  destruct (validateAction action (sv_processID s)) as [e|] eqn:Hva; [done|].
  pose proof (load_healthy (sv_processID s) (sv_supervisorInstanceID s) action db) as Hload.
  destruct (db_processes db !! sv_processID s) as [p|] eqn:Hp;
    [destruct (p_SupervisorInstanceID p <>? sv_supervisorInstanceID s) eqn:Hi;
      [|destruct (db_actions db !! a_ID action) as [ex|] eqn:Ha;
        [destruct (negb (sameActionIdentity ex action)) eqn:Hid|]]|].
  1,2,5: by rewrite (write_tx_healthy _ _ _ _ (bind_throw _ _ _ _ _ Hload)).
  - pose proof (reportByAction_healthy (a_ID action) db) as Hrep.
    destruct (GetFrozenReportByAction (a_ID action) db) as [f|] eqn:Hf; simpl in Hrep.
    + erewrite write_tx_healthy; [|rewrite (bind_ret _ _ _ _ _ Hload); by rewrite (bind_ret _ _ _ _ _ Hrep)].
      done.
    + pose proof (unreported_effect _ _ _ Hok Ha Hf) as Heff.
      erewrite write_tx_healthy;
        [|rewrite (bind_ret _ _ _ _ _ Hload), (bind_ret _ _ _ _ _ Hrep), Heff; done]. done.
  - destruct (a_Seq action <=? p_ResolvedActionSeq p) eqn:Hle.
    { erewrite write_tx_healthy; [|rewrite (bind_ret _ _ _ _ _ Hload), Hle; done]. done. }
    bsimpl. destruct (admission_healthy action db _ p Hok Hn Hva Hp Ha Hle) as (r & db' & Hrun & Hc).
    etrans; [|exact Hc]. apply write_tx_healthy. rewrite (bind_ret _ _ _ _ _ Hload).
    rewrite (proj2 (Z.leb_gt _ _)) by done. exact Hrun.
Qed.
End Spec.
