(* ===== verification/StateRefine.v ===== *)
(** * Refinement: the state database is a bank of single-slot sequencers

    Seen from the server, the daemon keeps for each process a frontier of
    resolved action sequence numbers and at most one action in flight.  [Abs] is
    that abstract state, [abs_step] what may happen to it, and [abs] the abstract
    state of a database.  Every committed operation, and every failed one, is a
    sequence of abstract steps (a simulation). *)
From S2P Require Import Prelude DaemonProtocol StateSchema StateQueries StateTx StateReport.
From S2P Require Import StateProcess StateAction StateInvariant StatePreserve StateEffects.
From S2P Require Import StateTrace StateSpec.
From stdpp Require Import options.
Local Open Scope Z_scope.

Record Sequencer : Type := mkSequencer {
  sq_frontier : Z;                    (**r every number up to here is resolved *)
  sq_slot : option (string * Z)       (**r the action in flight *)
}.

Abbreviation Abs := (gmap string Sequencer).

Inductive abs_step (m : Abs) : Abs -> Prop :=
  | abs_create pid :
      m !! pid = None -> abs_step m (<[pid := mkSequencer 0 None]> m)
  | abs_skip pid n n' :
      m !! pid = Some (mkSequencer n None) -> n <= n' ->
      abs_step m (<[pid := mkSequencer n' None]> m)
  | abs_admit pid n aid :
      m !! pid = Some (mkSequencer n None) ->
      abs_step m (<[pid := mkSequencer n (Some (aid, n + 1))]> m)
  | abs_complete pid n aid :
      m !! pid = Some (mkSequencer n (Some (aid, n + 1))) ->
      abs_step m (<[pid := mkSequencer (n + 1) None]> m)
  | abs_forget pid :
      abs_step m (delete pid m).

Definition sequencer_of (db : DB) (pid : string) (p : Process) : Sequencer :=
  mkSequencer (p_ResolvedActionSeq p) ((fun a => (a_ID a, a_Seq a)) <$> in_flight db pid).

Definition abs (db : DB) : Abs := map_imap (fun pid p => Some (sequencer_of db pid p)) (db_processes db).

Section Refine.
Context {RC : ReportCodec}.

Lemma lookup_abs db pid : abs db !! pid = sequencer_of db pid <$> db_processes db !! pid.
Proof. unfold abs. rewrite map_lookup_imap. by destruct (db_processes db !! pid). Qed.

Lemma abs_eq db m :
  (forall pid, sequencer_of db pid <$> db_processes db !! pid = m !! pid) -> abs db = m.
Proof. intros H. apply map_eq. intros pid. by rewrite lookup_abs. Qed.

Lemma in_flight_iff db pid a :
  db_ok db -> in_flight db pid = Some a <-> db_actions db !! a_ID a = Some a /\ a_ProcessID a = pid.
Proof.
  intros Hok. split.
  - intros H. apply in_flight_Some in H as (p & ? & ? & _); done.
  - intros [Ha Hp]. assert (is_Some (in_flight db pid)) as [b Hb].
    { eapply select_one_is_Some; [exact Ha|]. by apply bool_decide_eq_true. }
    rewrite Hb. f_equal. apply in_flight_Some in Hb as (p & Hb & Hbp & _); [|done].
    assert (a_ID a = a_ID b) as E by (eapply (ok_single _ Hok); eauto; congruence).
    rewrite E in Ha. congruence.
Qed.

Lemma in_flight_same db db' pid :
  db_ok db -> db_ok db' ->
  (forall a, a_ProcessID a = pid ->
     (db_actions db' !! a_ID a = Some a <-> db_actions db !! a_ID a = Some a)) ->
  in_flight db' pid = in_flight db pid.
Proof.
  intros Hok Hok' H. apply option_eq. intros a. rewrite !in_flight_iff by done.
  specialize (H a). naive_solver.
Qed.

Lemma abs_frontier db pid p a :
  db_ok db -> db_processes db !! pid = Some p -> in_flight db pid = Some a ->
  sequencer_of db pid p =
    mkSequencer (p_ResolvedActionSeq p) (Some (a_ID a, p_ResolvedActionSeq p + 1)).
Proof.
  intros Hok Hp Ha. unfold sequencer_of. rewrite Ha. simpl.
  apply in_flight_Some in Ha as (q & _ & _ & Hq & ->); [|done]. simplify_eq. done.
Qed.

(** Only the rows of [processes] changed. *)
Lemma abs_rows db t :
  abs (with_processes db t) = map_imap (fun pid p => Some (sequencer_of db pid p)) t.
Proof. done. Qed.

Lemma abs_update db pid p p' :
  db_processes db !! pid = Some p ->
  abs (with_processes db (<[pid := p']> (db_processes db))) =
  <[pid := sequencer_of db pid p']> (abs db).
Proof.
  intros Hp. apply map_eq. intros q. rewrite lookup_abs. simpl.
  destruct (decide (pid = q)) as [<-|Hne].
  - by rewrite !lookup_insert_eq.
  - by rewrite !lookup_insert_ne, lookup_abs.
Qed.

Lemma abs_in_flight_None db pid p :
  in_flight db pid = None -> sequencer_of db pid p = mkSequencer (p_ResolvedActionSeq p) None.
Proof. unfold sequencer_of. by intros ->. Qed.

Lemma abs_reserve db pid instance token :
  db_ok db -> db_processes db !! pid = None ->
  abs_step (abs db)
    (abs (with_processes db (<[pid := new_process_row pid instance token]> (db_processes db)))).
Proof.
  intros Hok Hnone.
  assert (abs (with_processes db (<[pid := new_process_row pid instance token]> (db_processes db)))
          = <[pid := mkSequencer 0 None]> (abs db)) as ->.
  2: { apply abs_create. by rewrite lookup_abs, Hnone. }
  apply abs_eq. intros q. simpl. destruct (decide (pid = q)) as [<-|Hne].
  - rewrite !lookup_insert_eq. simpl. f_equal. apply abs_in_flight_None, in_flight_None.
    intros k a Ha <-. destruct (ok_frontier _ Hok _ _ Ha) as (p & Hp & _). congruence.
  - by rewrite !lookup_insert_ne, lookup_abs.
Qed.

Lemma abs_admit_action db db' a p :
  db_ok db -> db_ok db' ->
  db_processes db' = db_processes db -> db_actions db' = <[a_ID a := a]> (db_actions db) ->
  db_processes db !! a_ProcessID a = Some p -> a_Seq a = p_ResolvedActionSeq p + 1 ->
  no_action db (a_ProcessID a) -> db_actions db !! a_ID a = None ->
  abs_step (abs db) (abs db').
Proof.
  intros Hok Hok' EP EA Hp Hs Hno Hnone. apply in_flight_None in Hno.
  assert (abs db' =
    <[a_ProcessID a := mkSequencer (p_ResolvedActionSeq p)
                         (Some (a_ID a, p_ResolvedActionSeq p + 1))]> (abs db)) as ->.
  2: { apply abs_admit. by rewrite lookup_abs, Hp; simpl; rewrite abs_in_flight_None. }
  apply abs_eq. intros q. rewrite EP. destruct (decide (a_ProcessID a = q)) as [<-|Hne].
  - rewrite lookup_insert_eq, Hp. simpl. f_equal. apply abs_frontier; [done|by rewrite EP|].
    apply in_flight_iff; [done|]. by rewrite EA, lookup_insert_eq.
  - rewrite lookup_insert_ne, lookup_abs by done. unfold sequencer_of.
    rewrite (in_flight_same db); [done..|]. intros b Hb. rewrite EA.
    destruct (decide (a_ID a = a_ID b)) as [E|]; [|by rewrite lookup_insert_ne].
    rewrite <- E, lookup_insert_eq, Hnone. split; intros; by simplify_eq.
Qed.

Definition resolved_db (db : DB) (a : Action) (p : Process) : DB :=
  mkDB (db_identity db)
    (<[a_ProcessID a := set_ResolvedActionSeq (a_Seq a) p]> (db_processes db))
    (delete (a_ID a) (db_actions db))
    (delete_where (fun f => (f_action_id f ==? Some (a_ID a))
                            && (f_process_id f ==? a_ProcessID a)) (db_reports db)).

Lemma abs_resolve db a p :
  db_ok db -> db_ok (resolved_db db a p) ->
  db_actions db !! a_ID a = Some a -> db_processes db !! a_ProcessID a = Some p ->
  abs_step (abs db) (abs (resolved_db db a p)).
Proof.
  intros Hok Hok' Ha Hp. destruct (ok_frontier _ Hok _ _ Ha) as (q & Hq & Hs & _). simplify_eq.
  assert (abs (resolved_db db a p) =
    <[a_ProcessID a := mkSequencer (p_ResolvedActionSeq p + 1) None]> (abs db)) as ->.
  2: { eapply abs_complete. rewrite lookup_abs, Hp. simpl. f_equal. apply abs_frontier; [done..|].
       by apply in_flight_iff. }
  apply abs_eq. intros pid. simpl. destruct (decide (a_ProcessID a = pid)) as [<-|Hne].
  - rewrite !lookup_insert_eq. simpl. f_equal. rewrite <- Hs.
    apply abs_in_flight_None, in_flight_None. intros k b Hb Hbp. simpl in Hb.
    apply lookup_delete_Some in Hb as [Hk Hb]. apply Hk. by eapply (ok_single _ Hok).
  - rewrite !lookup_insert_ne, lookup_abs by done. unfold sequencer_of.
    rewrite (in_flight_same db); [done..|]. intros b Hb. simpl.
    destruct (decide (a_ID a = a_ID b)) as [E|]; [|by rewrite lookup_delete_ne].
    rewrite <- E, lookup_delete_eq, Ha. split; intros; by simplify_eq.
Qed.

Lemma abs_delete db pid :
  db_ok db -> db_ok (cascade_process pid db) ->
  abs (cascade_process pid db) = delete pid (abs db).
Proof.
  intros Hok Hok'. apply abs_eq. intros q. simpl. destruct (decide (pid = q)) as [<-|Hne].
  { by rewrite !lookup_delete_eq. }
  rewrite !lookup_delete_ne, lookup_abs by done. unfold sequencer_of.
  rewrite (in_flight_same db); [done..|]. intros b Hb. simpl. rewrite lookup_delete_where.
  rewrite bool_decide_eq_false. naive_solver.
Qed.

Lemma prim_abs db db' : db_ok db -> prim db db' -> rtc abs_step (abs db) (abs db').
Proof.
  intros Hok H. pose proof (prim_ok _ _ Hok H) as Hok'. destruct H; try done.
  - apply rtc_once. by apply abs_reserve.
  - erewrite abs_update by done. unfold sequencer_of.
    match goal with E : p_ResolvedActionSeq _ = _ |- _ => rewrite E end.
    rewrite insert_id; [done|]. rewrite lookup_abs.
    match goal with E : db_processes db !! _ = _ |- _ => by rewrite E end.
  - erewrite abs_update by done. apply rtc_once. rewrite abs_in_flight_None
      by by apply in_flight_None.
    apply abs_skip with (n := p_ResolvedActionSeq p); [|done].
    rewrite lookup_abs. match goal with E : db_processes db !! _ = _ |- _ => rewrite E end.
    simpl. f_equal. by apply abs_in_flight_None, in_flight_None.
  - apply rtc_once. by eapply abs_admit_action.
  - apply rtc_once. by eapply abs_admit_action.
  - change (abs (with_processes _ _)) with
      (abs (with_processes db (<[f_process_id f := p']> (db_processes db)))).
    erewrite abs_update by done. unfold sequencer_of.
    match goal with E : p_ResolvedActionSeq _ = _ |- _ => rewrite E end.
    rewrite insert_id; [done|]. rewrite lookup_abs.
    match goal with E : db_processes db !! _ = _ |- _ => by rewrite E end.
  - apply rtc_once. by apply abs_resolve.
Qed.

Lemma effect_abs c db db' : db_ok db -> effect c db db' -> rtc abs_step (abs db) (abs db').
Proof.
  intros Hok Heff. pose proof (effect_ok _ _ _ Hok Heff) as Hok'.
  unfold effect in Heff. case_match.
  - destruct Heff as [->|[_ ->]]; [done|]. rewrite abs_delete by done.
    apply rtc_once. constructor.
  - clear Hok'. induction Heff; [done|]. etrans; [by eapply prim_abs|]. eauto using prim_ok.
Qed.
End Refine.
