(* ===== verification/StateAudit.v ===== *)
(** * Opening, auditing and snapshotting the state database

    Models [store.go]'s [open] and [verifyPragmas], [audit.go] and [snapshot.go].
    What the operating system and the SQLite engine answer (file checks, pragma
    values, the integrity check, the schema's table list, the outcome of the
    migrations) is the record [Engine], an argument of the definitions. *)
From S2P Require Import Prelude GoStrings DaemonProtocol StateSchema StateQueries StateTx StateReport.
From S2P Require Import StateProcess StateAction StateInvariant StatePreserve StateEffects.
From S2P Require Import StateSpec StateRefine.
From stdpp Require Import options.
Local Open Scope Z_scope.

(** ** The environment of an open database file *)

Record Engine : Type := mkEngine {
  eng_darwin : bool;                              (**r [runtime.GOOS == "darwin"] *)
  eng_abs : string -> bool;                       (**r [filepath.IsAbs] *)
  eng_exists : bool;                              (**r [os.Lstat] finds the file *)
  eng_files : option Err;                         (**r the directory and permission checks *)
  eng_secure : option Err;                        (**r [os.Chmod] and re-validation of a new file *)
  eng_pragma : string -> DbErr + Z;
  eng_journal : DbErr + string;
  eng_integrity : DbErr + list string;            (**r rows of [PRAGMA integrity_check] *)
  eng_schema : DbErr + (Z * bool * bool);         (**r table count, identity table, goose table *)
  eng_migrate : option Err;                       (**r [applyEmbeddedMigrations] *)
  eng_sync : option Err                           (**r [localstore.SyncDir] *)
}.

(** The error of the first check that fails. *)
Definition or_else (a : option Err) (b : option Err) : option Err :=
  match a with Some e => Some e | None => b end.
Infix "<+>" := or_else (at level 50, left associativity).

Definition expected_pragmas (darwin : bool) : list (string * Z) :=
  [("busy_timeout", 5000); ("foreign_keys", 1); ("synchronous", 2); ("trusted_schema", 0)]
  ++ (if darwin then [("fullfsync", 1); ("checkpoint_fullfsync", 1)] else []).

(** Go ranges over the map [expected] in no particular order: the order is an
    argument. *)
Definition verifyPragmas (eng : Engine) (order : list (string * Z)) : option Err :=
  (fix go (l : list (string * Z)) : option Err :=
     match l with
     | [] =>
         match eng_journal eng with
         | inl e => Some (dbError e)
         | inr journal =>
             if negb (EqualFold journal "wal")
             then Some (ErrInvalid "state database journal mode, want WAL") else None
         end
     | (pragma, want) :: l' =>
         match eng_pragma eng pragma with
         | inl e => Some (dbError e)
         | inr got =>
             if negb (got =? want) then Some (ErrInvalid "state database pragma") else go l'
         end
     end) order.

(** [SELECT count( * ) FROM pragma_foreign_key_check]: one row per violated
    foreign key of a row. *)
Definition foreign_key_check (db : DB) : Z :=
  count (fun a => negb (bool_decide (is_Some (db_processes db !! a_ProcessID a)))) (db_actions db)
  + count (fun f => negb (bool_decide (is_Some (db_processes db !! f_process_id f)))) (db_reports db)
  + count (fun f => match f_action_id f with
                    | None => false
                    | Some aid =>
                        match db_actions db !! aid with
                        | Some a => a_ProcessID a <>? f_process_id f
                        | None => true
                        end
                    end) (db_reports db).

Section Audit.
Context {RC : ReportCodec}.

Definition semantic_problem (v : GetInvariantViolationsRow) : string :=
  if TerminalProcessMissingReport v then "terminal process has no terminal report"
  else if TerminalReportOnNonterminalProcess v
  then "terminal report belongs to a non-terminal process"
  else if LocallyClosedProcessNotTerminal v then "locally closed process is not terminal"
  else if LocallyClosedProcessActionMissingReport v
  then "locally closed process has an action without a report"
  else if NoEffectActionMissingReport v then "action without an effect has no terminal report"
  else if ActionBehindResolvedFrontier v
  then "uncompacted action is behind the resolved frontier"
  else "".

Fixpoint audit_reports (reportRows : list FrozenReport) : option Err :=
  match reportRows with
  | [] => None
  | row :: rest =>
      match validateReport (reportFromSQLC row) with
      | Some _ => Some (ErrInvalid "audit frozen report")
      | None => audit_reports rest
      end
  end.

(** [Audit] runs its statements outside a transaction, on its own schedule of
    faults. *)
Definition audit_program (eng : Engine) (order : list (string * Z)) : Tx unit :=
  check (verifyPragmas eng order);;
  match eng_integrity eng with
  | inl e => throw (dbError e)
  | inr results =>
      let integrityProblems := List.filter (fun result => result <>? "ok") results in
      if negb (Nat.eqb (length integrityProblems) 0)
      then throw (ErrInvalid "state database integrity check failed")
      else
        foreignKeyViolations ← query foreign_key_check;
        if negb (foreignKeyViolations =? 0)
        then throw (ErrInvalid "state database has foreign-key violations")
        else
          violations ← query GetInvariantViolations;
          let problem := semantic_problem violations in
          if problem <>? "" then throw (ErrInvalid "state database semantic audit failed")
          else
            reportRows ← query ListFrozenReports;
            check (audit_reports reportRows)
  end.

Definition Audit (eng : Engine) (order : list (string * Z)) : Op unit := fun faults db =>
  ((audit_program eng order (mkTxState db faults)).1, db).

(** ** [open] *)

Definition verifyExistingStateDatabase (eng : Engine) (installationID machineID : string)
    : Op unit := fun faults db =>
  match eng_schema eng with
  | inl e => (inl (dbError e), db)
  | inr (tableCount, identityTable, gooseTable) =>
      if negb identityTable then
        if (tableCount =? 0) || ((tableCount =? 1) && gooseTable) then (inr tt, db)
        else (inl (ErrInvalid "state database has an unrecognized non-empty schema"), db)
      else if negb gooseTable
      then (inl (ErrInvalid "state database has an unrecognized non-empty schema"), db)
      else
        match read_op GetMachineIdentity faults db with
        | (inl e, db') => (inl e, db')
        | (inr None, db') => (inr tt, db')
        | (inr (Some (storedInstallation, storedMachine)), db') =>
            match verifyIdentityValues storedInstallation storedMachine installationID machineID with
            | Some e => (inl e, db')
            | None => (inr tt, db')
            end
        end
  end.

(** The three stages that run statements have a schedule of faults each. *)
Definition open (eng : Engine) (order : list (string * Z)) (verifyFaults auditFaults : Faults)
    (path installationID machineID : string) (mainDaemon : bool) : Op unit := fun faults db =>
  if (path ==? "") || (installationID ==? "") || (machineID ==? "")
  then (inl (ErrInvalid "state database path, installation, and machine are required"), db)
  else if negb (eng_abs eng path)
  then (inl (ErrInvalid "state database path must be absolute"), db)
  else if negb (eng_exists eng) && negb mainDaemon
  then (inl (ErrInvalid "file does not exist"), db)
  else
    match eng_files eng <+> verifyPragmas eng order
          <+> (if negb (eng_exists eng) then eng_secure eng else None) with
    | Some e => (inl e, db)
    | None =>
        if mainDaemon then
          match verifyExistingStateDatabase eng installationID machineID verifyFaults db with
          | (inl e, db1) => (inl e, db1)
          | (inr _, db1) =>
              match eng_migrate eng with
              | Some e => (inl e, db1)
              | None =>
                  match bindOrVerifyIdentity installationID machineID faults db1 with
                  | (inl e, db2) => (inl e, db2)
                  | (inr _, db2) =>
                      match eng_sync eng with
                      | Some e => (inl e, db2)
                      | None => Audit eng order auditFaults db2
                      end
                  end
              end
          end
        else verifyIdentity installationID machineID faults db
    end.

Definition OpenSupervisor (eng : Engine) (order : list (string * Z))
    (path installationID machineID processID supervisorInstanceID supervisorToken : string)
    : Op Supervisor := fun faults db =>
  if (processID ==? "") || (supervisorInstanceID ==? "") || (supervisorToken ==? "")
  then (inl (ErrInvalid "process, supervisor instance ID, and supervisor token are required"), db)
  else
    match open eng order [] [] path installationID machineID false faults db with
    | (inl e, db') => (inl e, db')
    | (inr _, db') =>
        match Store_Process processID (tail faults) db' with
        | (inl e, db'') => (inl e, db'')
        | (inr None, db'') => (inl ErrSupervisorIdentityMismatch, db'')
        | (inr (Some process), db'') =>
            if (p_SupervisorInstanceID process <>? supervisorInstanceID)
               || (p_SupervisorToken process <>? supervisorToken)
            then (inl ErrSupervisorIdentityMismatch, db'')
            else (inr (mkSupervisor processID supervisorInstanceID), db'')
        end
    end.
End Audit.

(** ** [SnapshotForReconciliation] *)

Record ActionSnapshot : Type := mkActionSnapshot { as_Action : Action; as_Reported : bool }.

Record ProcessSnapshot : Type := mkProcessSnapshot {
  ps_Process : Process;
  ps_Actions : list ActionSnapshot;
  ps_RejectedReportIDs : list string
}.

(** [snapshot.Processes[index].Actions = append(..)] and its sibling. *)
Definition append_action (a : ActionSnapshot) (ps : ProcessSnapshot) : ProcessSnapshot :=
  mkProcessSnapshot (ps_Process ps) (ps_Actions ps ++ [a]) (ps_RejectedReportIDs ps).
Definition append_rejected (rid : string) (ps : ProcessSnapshot) : ProcessSnapshot :=
  mkProcessSnapshot (ps_Process ps) (ps_Actions ps) (ps_RejectedReportIDs ps ++ [rid]).

(** [byProcess], later rows of the same id overwriting earlier ones. *)
Fixpoint index_processes (i : nat) (processRows : list Process) : gmap string nat :=
  match processRows with
  | [] => ∅
  | p :: rest => index_processes (S i) rest ∪ {[ p_ProcessID p := i ]}
  end.

Fixpoint join_actions (byProcess : gmap string nat) (actionRows : list ActionSnapshotRow)
    (acc : list ProcessSnapshot) : option (list ProcessSnapshot) :=
  match actionRows with
  | [] => Some acc
  | row :: rest =>
      match byProcess !! a_ProcessID (s_action row) with
      | None => None
      | Some index =>
          let acc1 := alter (append_action (mkActionSnapshot (s_action row) (s_reported row)))
                        index acc in
          let acc2 := if s_report_state row ==? ReportRejected
                      then alter (append_rejected (s_report_id row)) index acc1 else acc1 in
          join_actions byProcess rest acc2
      end
  end.

Fixpoint join_rejected (byProcess : gmap string nat) (rejectedRows : list (string * string))
    (acc : list ProcessSnapshot) : option (list ProcessSnapshot) :=
  match rejectedRows with
  | [] => Some acc
  | (pid, rid) :: rest =>
      match byProcess !! pid with
      | None => None
      | Some index => join_rejected byProcess rest (alter (append_rejected rid) index acc)
      end
  end.

Definition SnapshotForReconciliation : Op (list ProcessSnapshot) :=
  write_tx (
    processRows ← query ListProcesses;
    let snapshot := (fun p => mkProcessSnapshot p [] []) <$> processRows in
    let byProcess := index_processes 0 processRows in
    actionRows ← query ListProcessActionSnapshots;
    match join_actions byProcess actionRows snapshot with
    | None => throw ErrDB
    | Some snapshot1 =>
        rejectedRows ← query ListRejectedProcessReportIDs;
        match join_rejected byProcess rejectedRows snapshot1 with
        | None => throw ErrDB
        | Some snapshot2 => mret snapshot2
        end
    end).

(** ** The audit against the invariant *)

Section AuditProofs.
Context {RC : ReportCodec}.

(** What a successful audit establishes. *)
Record audited (db : DB) : Prop := mk_audited {
  aud_action_fk : forall k a, db_actions db !! k = Some a ->
    is_Some (db_processes db !! a_ProcessID a);
  aud_report_fk : forall k f, db_reports db !! k = Some f -> report_fk f db = true;
  aud_terminal : forall k p, db_processes db !! k = Some p -> p_Phase p = ProcessTerminal ->
    exists k' f, db_reports db !! k' = Some f /\ f_process_id f = p_ProcessID p
      /\ f_action_id f = None /\ f_report_kind f = ReportProcessTerminal;
  aud_nonterminal : forall k f p, db_reports db !! k = Some f ->
    f_report_kind f = ReportProcessTerminal -> db_processes db !! f_process_id f = Some p ->
    p_Phase p = ProcessTerminal;
  aud_closed : forall k p, db_processes db !! k = Some p -> p_LocalClosed p = true ->
    p_Phase p = ProcessTerminal;
  aud_closed_reported : forall k a p, db_actions db !! k = Some a ->
    db_processes db !! a_ProcessID a = Some p -> p_LocalClosed p = true -> reported db (a_ID a);
  aud_noeffect : forall k a, db_actions db !! k = Some a -> a_EffectCommitted a = false ->
    reported db (a_ID a);
  aud_frontier : forall k a p, db_actions db !! k = Some a ->
    db_processes db !! a_ProcessID a = Some p -> p_ResolvedActionSeq p < a_Seq a;
  aud_valid : forall k f, db_reports db !! k = Some f -> validateReport (reportFromSQLC f) = None
}.

Lemma db_ok_audited db : db_ok db -> audited db.
Proof.
  intros Hok. pose proof Hok as [].
  split; eauto.
  - intros k a Ha. destruct (ok_frontier _ _ Ha) as (p & -> & _). eauto.
  - intros k p Hp Hph. apply (ok_terminal _ _ Hp) in Hph as (k' & f & Hf & Hfp & Hfk).
    exists k', f. rewrite (ok_pkey _ _ Hp). split_and!; try done.
    eapply process_terminal_report_no_action; eauto. congruence.
  - intros k f p Hf Hk Hp. apply (ok_terminal _ _ Hp). by exists k, f.
  - intros k a p Ha Hp. destruct (ok_frontier _ _ Ha) as (q & Hq & ? & _). simplify_eq. lia.
Qed.

Lemma action_has_report_iff aid db : action_has_report aid db = true <-> reported db aid.
Proof.
  unfold action_has_report, reported. rewrite exists_row_true.
  setoid_rewrite bool_decide_eq_true. done.
Qed.

Lemma join_process_true db pid P :
  join_process db pid P = true <-> exists p, db_processes db !! pid = Some p /\ P p = true.
Proof. unfold join_process. destruct (db_processes db !! pid); naive_solver. Qed.

Lemma audit_reports_None l :
  audit_reports l = None <-> forall f, f ∈ l -> validateReport (reportFromSQLC f) = None.
Proof.
  induction l as [|g l IH]; simpl.
  - split; [|done]. intros _ f Hf. by apply not_elem_of_nil in Hf.
  - split.
    + intros H f Hf. case_match eqn:E; [done|]. apply elem_of_cons in Hf as [->|Hf]; [done|].
      by apply IH.
    + intros H. rewrite (H g) by left. apply IH. intros f Hf. apply H. by right.
Qed.

Lemma foreign_key_check_zero db :
  foreign_key_check db = 0 <->
  (forall k a, db_actions db !! k = Some a -> is_Some (db_processes db !! a_ProcessID a))
  /\ (forall k f, db_reports db !! k = Some f -> report_fk f db = true).
Proof.
  unfold foreign_key_check.
  rewrite sum3_zero by apply count_nonneg.
  rewrite !count_zero. unfold report_fk.
  setoid_rewrite andb_true_iff. setoid_rewrite negb_false_iff. setoid_rewrite bool_decide_eq_true.
  split.
  - intros (H1 & H2 & H3). split; [done|]. intros k f Hf. split; [eauto|].
    specialize (H3 k f Hf). repeat case_match; try done. by apply negb_false_iff in H3.
  - intros [H1 H2]. split_and!; [done| |]; intros k f Hf; destruct (H2 k f Hf) as [Hp Ha]; [done|].
    repeat case_match; try done. by rewrite Ha.
Qed.

Lemma violations_none db :
  semantic_problem (GetInvariantViolations db) = "" <->
  GetInvariantViolations db = mkViolations false false false false false false.
Proof.
  destruct (GetInvariantViolations db) as [[] [] [] [] [] []]; unfold semantic_problem; simpl;
    split; congruence.
Qed.

Lemma violations_audited db :
  GetInvariantViolations db = mkViolations false false false false false false <->
  (forall k p, db_processes db !! k = Some p -> p_Phase p = ProcessTerminal ->
     exists k' f, db_reports db !! k' = Some f /\ f_process_id f = p_ProcessID p
       /\ f_action_id f = None /\ f_report_kind f = ReportProcessTerminal)
  /\ (forall k f p, db_reports db !! k = Some f ->
       f_report_kind f = ReportProcessTerminal -> db_processes db !! f_process_id f = Some p ->
       p_Phase p = ProcessTerminal)
  /\ (forall k p, db_processes db !! k = Some p -> p_LocalClosed p = true ->
       p_Phase p = ProcessTerminal)
  /\ (forall k a p, db_actions db !! k = Some a ->
       db_processes db !! a_ProcessID a = Some p -> p_LocalClosed p = true -> reported db (a_ID a))
  /\ (forall k a, db_actions db !! k = Some a -> a_EffectCommitted a = false ->
       reported db (a_ID a))
  /\ (forall k a p, db_actions db !! k = Some a ->
       db_processes db !! a_ProcessID a = Some p -> p_ResolvedActionSeq p < a_Seq a).
Proof.
  unfold GetInvariantViolations.
  match goal with |- mkViolations ?a ?b ?c ?d ?e ?f = _ <-> _ =>
    assert (mkViolations a b c d e f = mkViolations false false false false false false <->
      a = false /\ b = false /\ c = false /\ d = false /\ e = false /\ f = false) as ->
      by (split; [by intros [= -> -> -> -> -> ->]|by intros (->&->&->&->&->&->)]) end.
  rewrite !exists_row_false.
  repeat apply Morphisms_Prop.and_iff_morphism.
  - setoid_rewrite andb_negb_false. setoid_rewrite exists_row_true.
    setoid_rewrite andb_true_iff. setoid_rewrite andb_true_iff.
    setoid_rewrite bool_decide_eq_true. naive_solver.
  - setoid_rewrite andb_false_imp. setoid_rewrite bool_decide_eq_true.
    setoid_rewrite <- not_true_iff_false. setoid_rewrite join_process_true.
    setoid_rewrite negb_true_iff. setoid_rewrite bool_decide_eq_false.
    split; intros H k f; [intros p Hf Hk Hp|intros Hf Hk (p & Hp & Hne)].
    + destruct (decide (p_Phase p = ProcessTerminal)); [done|]. exfalso. eapply H; eauto.
    + eauto.
  - setoid_rewrite andb_negb_false. setoid_rewrite bool_decide_eq_true. done.
  - setoid_rewrite andb_negb_false. setoid_rewrite join_process_true.
    setoid_rewrite action_has_report_iff. naive_solver.
  - setoid_rewrite andb_negb_false. setoid_rewrite negb_true_iff.
    setoid_rewrite action_has_report_iff. done.
  - setoid_rewrite <- not_true_iff_false. setoid_rewrite join_process_true.
    setoid_rewrite Z.leb_le. split; intros H k a; [intros p Ha Hp|intros Ha (p & Hp & Hle)].
    + apply Z.nle_gt. intros Hle. eapply H; eauto.
    + specialize (H _ _ _ Ha Hp). lia.
Qed.

(** On a healthy engine the audit succeeds exactly on the audited databases. *)
Lemma audit_exact eng order db :
  verifyPragmas eng order = None ->
  eng_integrity eng = inr ["ok"] ->
  Audit eng order [] db = (inr tt, db) <-> audited db.
Proof.
  intros Hpr Hint. unfold Audit, audit_program. rewrite Hpr, Hint. simpl.
  rewrite bind_mret, bind_query.
  destruct (foreign_key_check db =? 0) eqn:Hfk; bsimpl; simpl.
  2: { split; [done|]. intros []. exfalso. apply Hfk. by apply foreign_key_check_zero. }
  rewrite bind_query.
  destruct (semantic_problem (GetInvariantViolations db) ==? "") eqn:Hsem; bsimpl; simpl.
  2: { split; [done|]. intros []. exfalso. apply Hsem, violations_none, violations_audited.
       split_and!; done. }
  rewrite bind_query. apply violations_none, violations_audited in Hsem as (?&?&?&?&?&?).
  apply foreign_key_check_zero in Hfk as [? ?].
  assert (audit_reports (ListFrozenReports db) = None <->
    forall k f, db_reports db !! k = Some f -> validateReport (reportFromSQLC f) = None) as Hrep.
  { rewrite audit_reports_None. unfold ListFrozenReports. setoid_rewrite elem_of_rows.
    naive_solver. }
  destruct (audit_reports (ListFrozenReports db)) eqn:E; simpl; split; try done.
  - intros []. by apply Hrep in aud_valid0.
  - intros _. split; try done. by apply Hrep.
Qed.
End AuditProofs.
