(* ===== verification/StateSnapshot.v ===== *)
(** * The reconciliation snapshot

    [SnapshotForReconciliation] of [snapshot.go] joins the process rows with the
    action and report rows through an index map.  On a database that satisfies
    the invariant it never meets an orphan row, lists every process once in key
    order, and attaches to each exactly its in-flight action and its rejected
    reports. *)
From S2P Require Import Prelude DaemonProtocol StateSchema StateQueries StateTx StateReport.
From S2P Require Import StateProcess StateAction StateInvariant StatePreserve StateEffects.
From S2P Require Import StateSpec StateRefine StateAudit.
From stdpp Require Import options.
Local Open Scope Z_scope.

(** ** The joins *)

Definition attach (actions : list ActionSnapshotRow) (rejected : list string)
    (ps : ProcessSnapshot) : ProcessSnapshot :=
  mkProcessSnapshot (ps_Process ps)
    (ps_Actions ps ++ ((fun row => mkActionSnapshot (s_action row) (s_reported row)) <$> actions))
    (ps_RejectedReportIDs ps ++ rejected).

(** The rows a join sends to index [j]. *)
Definition rows_at (byProcess : gmap string nat) (j : nat) (l : list ActionSnapshotRow)
    : list ActionSnapshotRow :=
  List.filter (fun row => byProcess !! a_ProcessID (s_action row) ==? Some j) l.

Definition rejected_rows (l : list ActionSnapshotRow) : list string :=
  s_report_id <$> List.filter (fun row => s_report_state row ==? ReportRejected) l.

Definition ids_at (byProcess : gmap string nat) (j : nat) (l : list (string * string)) : list string :=
  (List.filter (fun r => byProcess !! r.1 ==? Some j) l).*2.

Lemma attach_nil ps : attach [] [] ps = ps.
Proof. destruct ps. unfold attach. simpl. by rewrite !app_nil_r. Qed.

Lemma join_actions_spec byProcess l acc :
  (forall row, row ∈ l -> is_Some (byProcess !! a_ProcessID (s_action row))) ->
  exists acc', join_actions byProcess l acc = Some acc'
    /\ forall j, acc' !! j = attach (rows_at byProcess j l) (rejected_rows (rows_at byProcess j l))
                             <$> acc !! j.
Proof.
  revert acc. induction l as [|row l IH]; intros acc Hdef; simpl.
  - exists acc. split; [done|]. intros j. destruct (acc !! j); simpl; [by rewrite attach_nil|done].
  - destruct (Hdef row) as [i Hi]; [left|]. rewrite Hi.
    destruct (IH (let acc1 := alter (append_action (mkActionSnapshot (s_action row) (s_reported row)))
                                i acc in
                  if s_report_state row ==? ReportRejected
                  then alter (append_rejected (s_report_id row)) i acc1 else acc1))
      as (acc' & Hj & Hacc). { intros r Hr. apply Hdef. by right. }
    exists acc'. split; [done|]. intros j. rewrite Hacc. unfold rows_at. simpl. rewrite ?Hi.
    destruct (decide (i = j)) as [->|Hne].
    + rewrite (bool_decide_eq_true_2 (Some j = Some j)) by done. unfold rejected_rows. simpl.
      case_bool_decide; rewrite !list_lookup_alter_eq; destruct (acc !! j); try done; simpl;
        f_equal; unfold attach, append_action, append_rejected; simpl; by rewrite <- !app_assoc.
    + rewrite (bool_decide_eq_false_2 (Some i = Some j)) by congruence.
      case_bool_decide; by rewrite !list_lookup_alter_ne.
Qed.

Lemma join_rejected_spec byProcess l acc :
  (forall r, r ∈ l -> is_Some (byProcess !! r.1)) ->
  exists acc', join_rejected byProcess l acc = Some acc'
    /\ forall j, acc' !! j = attach [] (ids_at byProcess j l) <$> acc !! j.
Proof.
  revert acc. induction l as [|[pid rid] l IH]; intros acc Hdef; simpl.
  - exists acc. split; [done|]. intros j. destruct (acc !! j); simpl; [by rewrite attach_nil|done].
  - destruct (Hdef (pid, rid)) as [i Hi]; [left|]. simpl in Hi. rewrite Hi.
    destruct (IH (alter (append_rejected rid) i acc)) as (acc' & Hj & Hacc).
    { intros r Hr. apply Hdef. by right. }
    exists acc'. split; [done|]. intros j. rewrite Hacc. unfold ids_at. simpl. rewrite ?Hi.
    destruct (decide (i = j)) as [->|Hne].
    + rewrite (bool_decide_eq_true_2 (Some j = Some j)) by done. rewrite list_lookup_alter_eq.
      destruct (acc !! j); try done; simpl.
      f_equal; unfold attach, append_rejected; simpl. by rewrite <- !app_assoc.
    + rewrite (bool_decide_eq_false_2 (Some i = Some j)) by congruence. by rewrite list_lookup_alter_ne.
Qed.

Lemma index_processes_spec i l pid j :
  NoDup (p_ProcessID <$> l) ->
  index_processes i l !! pid = Some j <->
  exists k p, j = (i + k)%nat /\ l !! k = Some p /\ p_ProcessID p = pid.
Proof.
  revert i pid j. induction l as [|q l IH]; intros i pid j Hnd; simpl.
  - rewrite lookup_empty. split; [done|]. intros (k & p & _ & Hk & _). by rewrite lookup_nil in Hk.
  - apply NoDup_cons in Hnd as [Hq Hnd].
    pose proof (fun pid j => IH (S i) pid j Hnd) as IHpid.
    rewrite lookup_union_Some_raw, IHpid, lookup_singleton_Some. split.
    + intros [(k & p & -> & Hk & <-)|(_ & <- & <-)].
      * exists (S k), p. split_and!; [lia|done|done].
      * exists 0%nat, q. split_and!; [lia|done|done].
    + intros ([|k] & p & -> & Hk & <-).
      * simplify_eq/=. right. rewrite Nat.add_0_r. split; [|done].
        apply eq_None_not_Some. intros [m Hm]. apply Hq.
        apply (IHpid (p_ProcessID p) m) in Hm as (k & r & _ & Hk & Hr).
        apply list_elem_of_fmap. exists r. split; [done|]. by eapply list_elem_of_lookup_2.
      * left. exists k, p. split_and!; [lia|done|done].
Qed.

Section Snapshot.
Context {RC : ReportCodec}.

(** What the snapshot must say about a process. *)
Definition snapshot_of (db : DB) (ps : ProcessSnapshot) : Prop :=
  let pid := p_ProcessID (ps_Process ps) in
  ps_Actions ps =
    (match in_flight db pid with
     | Some a => [mkActionSnapshot a (action_has_report (a_ID a) db)]
     | None => []
     end)
  /\ forall rid, rid ∈ ps_RejectedReportIDs ps <->
       exists f, db_reports db !! rid = Some f /\ f_process_id f = pid /\ f_state f = ReportRejected.

Lemma ListProcesses_NoDup db : db_ok db -> NoDup (p_ProcessID <$> ListProcesses db).
Proof.
  intros Hok. unfold ListProcesses. rewrite merge_sort_Permutation.
  apply rows_NoDup_keys, Hok.
Qed.

Lemma elem_of_ListProcesses db p :
  db_ok db -> p ∈ ListProcesses db <-> db_processes db !! p_ProcessID p = Some p.
Proof.
  intros Hok. unfold ListProcesses. rewrite merge_sort_Permutation, elem_of_rows. split; [|eauto].
  intros [k Hk]. by rewrite (ok_pkey _ Hok _ _ Hk).
Qed.

Lemma snapshot_row_action db a :
  s_action (match GetFrozenReportByAction (a_ID a) db with
            | Some f => mkActionSnapshotRow a true (f_report_id f) (f_state f)
            | None => mkActionSnapshotRow a false "" ReportStateUnset
            end) = a.
Proof. by case_match. Qed.

Lemma elem_of_action_snapshots db row :
  db_ok db -> row ∈ ListProcessActionSnapshots db <->
  exists a, db_actions db !! a_ID a = Some a /\
    row = match GetFrozenReportByAction (a_ID a) db with
          | Some f => mkActionSnapshotRow a true (f_report_id f) (f_state f)
          | None => mkActionSnapshotRow a false "" ReportStateUnset
          end.
Proof.
  intros Hok. unfold ListProcessActionSnapshots. rewrite list_elem_of_fmap. split.
  - intros (a & -> & Ha). rewrite merge_sort_Permutation in Ha. apply elem_of_rows in Ha as [k Hk].
    exists a. by rewrite (ok_akey _ Hok _ _ Hk).
  - intros (a & Ha & ->). exists a. split; [done|]. rewrite merge_sort_Permutation.
    apply elem_of_rows. eauto.
Qed.

Lemma action_snapshots_NoDup db : db_ok db -> NoDup (s_action <$> ListProcessActionSnapshots db).
Proof.
  intros Hok. unfold ListProcessActionSnapshots. rewrite <- list_fmap_compose.
  rewrite (list_fmap_ext _ id).
  - rewrite list_fmap_id, merge_sort_Permutation. apply (rows_NoDup a_ID), Hok.
  - intros i a _. simpl. apply snapshot_row_action.
Qed.

Definition snapshot_row (db : DB) (a : Action) : ActionSnapshotRow :=
  match GetFrozenReportByAction (a_ID a) db with
  | Some f => mkActionSnapshotRow a true (f_report_id f) (f_state f)
  | None => mkActionSnapshotRow a false "" ReportStateUnset
  end.

Lemma rows_at_in_flight db byProcess pid j :
  db_ok db -> (forall q, byProcess !! q = Some j <-> q = pid) ->
  rows_at byProcess j (ListProcessActionSnapshots db) =
  match in_flight db pid with Some a => [snapshot_row db a] | None => [] end.
Proof.
  intros Hok Hj.
  assert (forall row, row ∈ rows_at byProcess j (ListProcessActionSnapshots db) <->
    exists a, in_flight db pid = Some a /\ row = snapshot_row db a) as Hin.
  { intros row. unfold rows_at. rewrite elem_of_filter_bool, bool_decide_eq_true, Hj.
    rewrite elem_of_action_snapshots by done. setoid_rewrite in_flight_iff; [|done]. split.
    - intros [Hp (a & Ha & ->)]. exists a. rewrite snapshot_row_action in Hp. done.
    - intros (a & [Ha Hp] & ->). unfold snapshot_row. rewrite snapshot_row_action. eauto. }
  destruct (in_flight db pid) as [a|].
  - apply NoDup_singleton.
    + unfold rows_at. apply NoDup_filter_bool. eapply NoDup_fmap_1, action_snapshots_NoDup, Hok.
    + apply Hin. eauto.
    + intros row Hrow. apply Hin in Hrow as (b & [= <-] & ->). done.
  - apply elem_of_nil_inv. intros row Hrow. by apply Hin in Hrow as (b & ? & _).
Qed.

Lemma GetFrozenReportByAction_unique db aid k f :
  db_ok db -> db_reports db !! k = Some f -> f_action_id f = Some aid ->
  GetFrozenReportByAction aid db = Some f.
Proof.
  intros Hok Hf Hfa. assert (is_Some (GetFrozenReportByAction aid db)) as [g Hg].
  { eapply select_one_is_Some; [exact Hf|]. by apply bool_decide_eq_true. }
  rewrite Hg. f_equal. apply select_one_Some in Hg as [Hga [k' Hk']]. bsimpl.
  assert (k = k') as ->; [|congruence]. eapply (ok_slot _ Hok); eauto.
  unfold same_slot. rewrite Hfa, Hga. by apply bool_decide_eq_true.
Qed.

(** The rejected action reports of a process. *)
Lemma rejected_rows_spec db pid rid :
  db_ok db ->
  rid ∈ rejected_rows (match in_flight db pid with Some a => [snapshot_row db a] | None => [] end)
  <-> exists f aid, db_reports db !! rid = Some f /\ f_process_id f = pid
      /\ f_state f = ReportRejected /\ f_action_id f = Some aid.
Proof.
  intros Hok. unfold rejected_rows. rewrite list_elem_of_fmap.
  setoid_rewrite elem_of_filter_bool. setoid_rewrite bool_decide_eq_true. split.
  - intros (row & -> & Hst & Hin). case_match eqn:Ha; [|by apply not_elem_of_nil in Hin].
    apply list_elem_of_singleton in Hin as ->. unfold snapshot_row in *.
    destruct (GetFrozenReportByAction (a_ID a) db) as [f|] eqn:Hf; simpl in Hst; [|done].
    simpl. apply select_one_Some in Hf as [Hfa [k Hk]]. bsimpl. exists f, (a_ID a).
    rewrite (ok_rkey _ Hok _ _ Hk). split_and!; try done.
    destruct (proj1 (report_fk_spec _ _) (ok_rfk _ Hok _ _ Hk)) as [_ Hb].
    destruct (Hb _ Hfa) as (b & Hb1 & <-). apply in_flight_Some in Ha as (p & Ha1 & <- & _); [|done].
    congruence.
  - intros (f & aid & Hf & Hfp & Hst & Hfa).
    destruct (proj1 (report_fk_spec _ _) (ok_rfk _ Hok _ _ Hf)) as [_ Hb].
    destruct (Hb _ Hfa) as (b & Hb1 & Hb2). pose proof (ok_akey _ Hok _ _ Hb1) as Hid.
    assert (in_flight db pid = Some b) as ->.
    { apply in_flight_iff; [done|]. rewrite Hid. split; [done|congruence]. }
    exists (snapshot_row db b). unfold snapshot_row. rewrite Hid.
    rewrite (GetFrozenReportByAction_unique _ _ _ _ Hok Hf Hfa). simpl.
    rewrite (ok_rkey _ Hok _ _ Hf). split_and!; try done. by apply list_elem_of_singleton.
Qed.

Lemma elem_of_rejected_ids db r :
  db_ok db -> r ∈ ListRejectedProcessReportIDs db <->
  exists f, db_reports db !! r.2 = Some f /\ f_process_id f = r.1
    /\ f_state f = ReportRejected /\ f_action_id f = None.
Proof.
  intros Hok. unfold ListRejectedProcessReportIDs. rewrite list_elem_of_fmap. split.
  - intros (f & -> & Hf). rewrite merge_sort_Permutation in Hf.
    apply elem_of_select in Hf as [Hb [k Hk]]. bsimpl. exists f. simpl.
    by rewrite (ok_rkey _ Hok _ _ Hk).
  - intros (f & Hf & Hp & Hst & Ha). exists f. split.
    + rewrite (ok_rkey _ Hok _ _ Hf), Hp. by destruct r.
    + rewrite merge_sort_Permutation. apply elem_of_select. rewrite Ha, Hst. split; [done|eauto].
Qed.

Lemma index_defined db pid :
  db_ok db -> is_Some (db_processes db !! pid) ->
  is_Some (index_processes 0 (ListProcesses db) !! pid).
Proof.
  intros Hok [p Hp]. pose proof (ok_pkey _ Hok _ _ Hp) as Hk.
  assert (p ∈ ListProcesses db) as Hin by (apply elem_of_ListProcesses; [done|by rewrite Hk]).
  apply list_elem_of_lookup in Hin as [j Hj]. exists j.
  apply index_processes_spec; [by apply ListProcesses_NoDup|]. by exists j, p.
Qed.

Lemma index_at db j p q :
  db_ok db -> ListProcesses db !! j = Some p ->
  index_processes 0 (ListProcesses db) !! q = Some j <-> q = p_ProcessID p.
Proof.
  intros Hok Hj. rewrite index_processes_spec by by apply ListProcesses_NoDup. simpl. split.
  - intros (k & r & -> & Hk & <-). congruence.
  - intros ->. by exists j, p.
Qed.

Lemma snapshot_healthy db :
  db_ok db ->
  exists snapshot, SnapshotForReconciliation [] db = (inr snapshot, db)
    /\ ps_Process <$> snapshot = ListProcesses db
    /\ Forall (snapshot_of db) snapshot.
Proof.
  intros Hok. set (byP := index_processes 0 (ListProcesses db)).
  destruct (join_actions_spec byP (ListProcessActionSnapshots db)
    ((fun p => mkProcessSnapshot p [] []) <$> ListProcesses db)) as (s1 & Hs1 & Hl1).
  { intros row Hrow. apply index_defined; [done|].
    apply elem_of_action_snapshots in Hrow as (a & Ha & ->); [|done]. rewrite snapshot_row_action.
    destruct (ok_frontier _ Hok _ _ Ha) as (p & -> & _). eauto. }
  destruct (join_rejected_spec byP (ListRejectedProcessReportIDs db) s1) as (s2 & Hs2 & Hl2).
  { intros r Hr. apply index_defined; [done|].
    apply elem_of_rejected_ids in Hr as (f & Hf & <- & _); [|done].
    by apply (report_fk_spec f db), (ok_rfk _ Hok r.2). }
  assert (forall j, s2 !! j = (fun p =>
    mkProcessSnapshot p
      ((fun row => mkActionSnapshot (s_action row) (s_reported row)) <$>
         rows_at byP j (ListProcessActionSnapshots db))
      (rejected_rows (rows_at byP j (ListProcessActionSnapshots db))
         ++ ids_at byP j (ListRejectedProcessReportIDs db))) <$> ListProcesses db !! j) as Hl.
  { intros j. rewrite Hl2, Hl1, list_lookup_fmap. destruct (ListProcesses db !! j); [|done].
    simpl. unfold attach. simpl. by rewrite app_nil_r. }
  exists s2. split_and!.
  - unfold SnapshotForReconciliation. erewrite write_tx_healthy; [|].
    2: { rewrite bind_query, bind_query. fold byP. rewrite Hs1, bind_query, Hs2. done. }
    done.
  - apply list_eq. intros j. rewrite list_lookup_fmap, Hl. by destruct (ListProcesses db !! j).
  - apply Forall_lookup. intros j ps Hps. rewrite Hl in Hps.
    apply fmap_Some in Hps as (p & Hp & ->).
    assert (forall q, byP !! q = Some j <-> q = p_ProcessID p) as Hat by (intros; by apply index_at).
    rewrite (rows_at_in_flight _ _ _ _ Hok Hat). split; simpl.
    + destruct (in_flight db (p_ProcessID p)) as [a|]; [|done]. simpl.
      unfold snapshot_row. f_equal.
      destruct (GetFrozenReportByAction (a_ID a) db) as [f|] eqn:E; simpl; f_equal; symmetry.
      * apply select_one_Some in E as [HP [k Hk]]. apply exists_row_true. eauto.
      * apply exists_row_false. by apply select_one_None.
    + intros rid. rewrite elem_of_app, rejected_rows_spec by done. unfold ids_at.
      rewrite list_elem_of_fmap. setoid_rewrite elem_of_filter_bool.
      setoid_rewrite bool_decide_eq_true. setoid_rewrite elem_of_rejected_ids; [|done].
      setoid_rewrite Hat. split.
      * intros [(f & aid & Hf & Hfp & Hst & _)|(r & -> & Hr1 & f & Hf & Hfp & Hst & _)];
          exists f; split_and!; congruence.
      * intros (f & Hf & Hfp & Hst). destruct (f_action_id f) as [aid|] eqn:Ha.
        { left. exists f, aid. done. }
        right. exists (p_ProcessID p, rid). simpl. eauto 10.
Qed.
End Snapshot.
