(* ===== verification/StateOutbox.v ===== *)
(** * The report outbox

    Models [internal/machinedaemon/report_outbox.go]: which frozen reports a
    round of [replayReportOutbox] sends, in what order, and how the server's
    acknowledgements settle them in the state database.

    The transport and the context are the environment: an [Exchange] says, for
    one report, what the server replied (or that the send failed) and the fault
    schedules of the attempts [retryWhileStateDBBusy] gets before the context
    ends. *)
From S2P Require Import Prelude DaemonProtocol StateSchema StateQueries StateTx StateReport.
From S2P Require Import StateProcess StateAction StateInvariant StatePreserve StateEffects.
From S2P Require Import StateTrace StateSpec.
From stdpp Require Import options.
Local Open Scope Z_scope.

Record daemonReportAck : Type := mkAck {
  ack_status : AckStatus;
  ack_code : string;
  ack_err : string
}.

(** [retryWhileStateDBBusy]; the context ends when the attempts do. *)
Fixpoint retryWhileStateDBBusy (operation : Op unit) (attempts : list Faults) (db : DB)
    : (Err + unit) * DB :=
  match attempts with
  | [] => (inl (ErrInvalid "context canceled"), db)
  | faults :: rest =>
      match operation faults db with
      | (inr v, db') => (inr v, db')
      | (inl err, db') =>
          if err <>? ErrBusy then (inl err, db') else retryWhileStateDBBusy operation rest db'
      end
  end.

Record Exchange : Type := mkExchange {
  x_reply : option daemonReportAck;      (**r [None]: the send failed *)
  x_store : option Err;                  (**r [c.stateStore] fails to open *)
  x_attempts : list Faults
}.

(** ** [outboxReports] *)

Definition outbox_limit : nat := 128.

(** The loop over the candidates; [cleanupOnly] is the runtime table's flag. *)
Fixpoint select_reports (cleanupOnly : string -> bool) (forced : gset string)
    (candidates : list Report) (blockedProcesses blockedActions : gset string)
    (reports : list Report) : list Report :=
  match candidates with
  | [] => reports
  | report :: rest =>
      if cleanupOnly (r_ProcessID report)
      then select_reports cleanupOnly forced rest blockedProcesses blockedActions reports
      else if bool_decide (r_ProcessID report ∈ blockedProcesses)
      then select_reports cleanupOnly forced rest blockedProcesses blockedActions reports
      else if bool_decide (r_ProcessID report ∈ blockedActions)
              && (r_Kind report <>? ReportProcessTerminal)
      then select_reports cleanupOnly forced rest blockedProcesses blockedActions reports
      else if (r_State report <>? ReportPending) && negb (bool_decide (r_ID report ∈ forced)) then
        if (r_Kind report ==? ReportActionTerminal) && (r_State report ==? ReportRejected)
        then select_reports cleanupOnly forced rest blockedProcesses
               ({[ r_ProcessID report ]} ∪ blockedActions) reports
        else select_reports cleanupOnly forced rest
               ({[ r_ProcessID report ]} ∪ blockedProcesses) blockedActions reports
      else
        let reports' := reports ++ [report] in
        if Nat.eqb (length reports') outbox_limit then reports'
        else select_reports cleanupOnly forced rest blockedProcesses blockedActions reports'
  end.

Definition outboxReports (cleanupOnly : string -> bool) (forced : gset string)
    : Op (list Report) := fun faults db =>
  match DeliveryCandidates faults db with
  | (inl e, db') => (inl e, db')
  | (inr candidates, db') => (inr (select_reports cleanupOnly forced candidates ∅ ∅ []), db')
  end.

Section Outbox.
Context {RC : ReportCodec}.

(** The [switch ack.status] of [replayReportOutbox]. *)
Definition settle_report (report : Report) (ack : daemonReportAck) (x : Exchange) (db : DB)
    : (Err + unit) * DB :=
  let with_store op :=
    match x_store x with
    | Some e => (inl e, db)
    | None => retryWhileStateDBBusy op (x_attempts x) db
    end in
  match ack_status ack with
  | AckStatusCommitted | AckStatusCleanupOnly => with_store (AcknowledgeReport (r_ID report))
  | AckStatusPermanentReject =>
      let code := if ack_code ack ==? "" then ErrorCodeValidationFailed else ack_code ack in
      with_store (RejectReport (r_ID report) code (ack_err ack))
  | AckStatusTransientError => (inl (ErrInvalid "transient report rejection"), db)
  | AckStatusOther _ => (inl (ErrInvalid "unsupported daemon report acknowledgement"), db)
  end.

(** The [for _, report := range reports] of one round. *)
Fixpoint deliver (reports : list Report) (env : list Exchange) (forced : gset string)
    (progress : bool) (db : DB) : gset string * bool * DB :=
  match reports, env with
  | [], _ | _, [] => (forced, progress, db)
  | report :: rest, x :: env' =>
      match x_reply x with
      | None => (forced, progress, db)
      | Some ack =>
          match settle_report report ack x db with
          | (inl _, db') => (forced, progress, db')
          | (inr _, db') =>
              let forced' := forced ∖ {[ r_ID report ]} in
              if ack_status ack ==? AckStatusPermanentReject then (forced', true, db')
              else deliver rest env' forced' true db'
          end
      end
  end.

(** One round of the loop: load the outbox, send and settle. *)
Definition outbox_round (cleanupOnly : string -> bool) (forced : gset string) (faults : Faults)
    (env : list Exchange) (db : DB) : gset string * bool * DB :=
  match outboxReports cleanupOnly forced faults db with
  | (inl _, db') => (forced, false, db')
  | (inr reports, db') => deliver reports env forced false db'
  end.
End Outbox.

(** ** The order of delivery *)

Section Selection.
Context (cleanupOnly : string -> bool) (forced : gset string).

(** [r] may be sent: pending, or re-sent on request; never during cleanup. *)
Definition sendable (r : Report) : Prop :=
  cleanupOnly (r_ProcessID r) = false /\ (r_State r = ReportPending \/ r_ID r ∈ forced).

(** A rejected action report that nobody asked to send again. *)
Definition parked (r : Report) : Prop :=
  r_Kind r = ReportActionTerminal /\ r_State r = ReportRejected /\ r_ID r ∉ forced.

(** What the loop guarantees, from the blocked sets it starts with. *)
Record selection (candidates : list Report) (bp ba : gset string) (out : list Report) : Prop :=
  mk_selection {
    sel_sublist : sublist out candidates;
    sel_sendable : Forall sendable out;
    sel_unblocked : Forall (fun r => (r_ProcessID r ∉ bp)
      /\ (r_ProcessID r ∈ ba -> r_Kind r = ReportProcessTerminal)) out;
    sel_order : forall l1 r l2 r', candidates = (l1 ++ r :: l2) -> r ∈ out ->
      r' ∈ l1 -> r_ProcessID r' = r_ProcessID r -> cleanupOnly (r_ProcessID r) = false ->
      r' ∉ out ->
      r_Kind r = ReportProcessTerminal
      /\ (r_ProcessID r ∈ ba
          \/ exists r'', r'' ∈ l1 /\ r_ProcessID r'' = r_ProcessID r /\ parked r'')
  }.

Lemma selection_nil bp ba : selection [] bp ba [].
Proof.
  split; [done|constructor|constructor|]. intros l1 r l2 r' Hl. by destruct l1.
Qed.

(** The candidate at the head is skipped: it blocks nothing new, and whatever
    passes it later is a terminal report. *)
Lemma selection_skip c rest bp ba bp' ba' out :
  c ∉ rest -> bp ⊆ bp' -> ba ⊆ ba' ->
  (cleanupOnly (r_ProcessID c) = true \/ r_ProcessID c ∈ bp' \/ r_ProcessID c ∈ ba) ->
  ba' = ba -> selection rest bp' ba' out -> selection (c :: rest) bp ba out.
Proof.
  intros Hc Hbp Hba Hwhy -> [H1 H2 H3 H4]. split; [by constructor|done| |].
  - eapply Forall_impl; [exact H3|]. intros r [Hr1 Hr2]. split; [set_solver|done].
  - intros [|c' l1] r l2 r' Hl Hr Hr' Hp Hcl Hout; [by apply not_elem_of_nil in Hr'|].
    injection Hl as <- ->.
    apply elem_of_cons in Hr' as [->|Hr'].
    + rewrite Forall_forall in H3. destruct (H3 r Hr) as [Hn Hk]. rewrite Hp in Hwhy.
      destruct Hwhy as [?|[?|?]]; [congruence|done|]. split; [auto|by left].
    + destruct (H4 l1 r l2 r') as [Hk [?|(r'' & ? & ?)]]; try done; (split; [done|]); [by left|].
      right. exists r''. split; [by right|done].
Qed.

(** The candidate at the head is a parked action report: only the terminal
    report may pass. *)
Lemma selection_park c rest bp ba out :
  parked c -> selection rest bp ({[ r_ProcessID c ]} ∪ ba) out -> c ∉ rest ->
  selection (c :: rest) bp ba out.
Proof.
  intros Hpk [H1 H2 H3 H4] Hc. split; [by constructor|done| |].
  - eapply Forall_impl; [exact H3|]. intros r [Hr1 Hr2]. split; [done|set_solver].
  - intros [|c' l1] r l2 r' Hl Hr Hr' Hp Hcl Hout; [by apply not_elem_of_nil in Hr'|].
    injection Hl as <- ->.
    apply elem_of_cons in Hr' as [->|Hr'].
    + rewrite Forall_forall in H3. destruct (H3 r Hr) as [Hn Hk].
      split; [apply Hk; set_solver|]. right. exists c. split; [left|done].
    + destruct (H4 l1 r l2 r') as [Hk [Hin|(r'' & ? & ?)]]; try done; (split; [done|]).
      * apply elem_of_union in Hin as [Hin|?]; [|by left]. apply elem_of_singleton in Hin.
        right. exists c. split; [left|done].
      * right. exists r''. split; [by right|done].
Qed.

Lemma selection_send c rest bp ba out :
  sendable c -> r_ProcessID c ∉ bp ->
  (r_ProcessID c ∈ ba -> r_Kind c = ReportProcessTerminal) -> c ∉ rest ->
  selection rest bp ba out -> selection (c :: rest) bp ba (c :: out).
Proof.
  intros Hs Hbp Hba Hc [H1 H2 H3 H4]. split; [by constructor|by constructor|by constructor|].
  intros [|c' l1] r l2 r' Hl Hr Hr' Hp Hcl Hout; [by apply not_elem_of_nil in Hr'|].
  injection Hl as <- ->.
  apply elem_of_cons in Hr' as [->|Hr']; [exfalso; apply Hout; left|].
  apply elem_of_cons in Hr as [->|Hr].
  { exfalso. apply Hc. apply elem_of_app. right. left. }
  destruct (H4 l1 r l2 r') as [Hk [?|(r'' & ? & ?)]]; try done.
  - intros ?. apply Hout. by right.
  - split; [done|by left].
  - split; [done|]. right. exists r''. split; [by right|done].
Qed.

(** The loop stops early once the limit is reached. *)
Lemma selection_stop c rest bp ba :
  sendable c -> r_ProcessID c ∉ bp ->
  (r_ProcessID c ∈ ba -> r_Kind c = ReportProcessTerminal) -> c ∉ rest ->
  selection (c :: rest) bp ba [c].
Proof.
  intros. split; [constructor; apply sublist_nil_l|by constructor; [|constructor]
                 |by constructor; [|constructor]|].
  intros [|c' l1] r l2 r' Hl Hr Hr'; [by apply not_elem_of_nil in Hr'|].
  injection Hl as <- ->. apply list_elem_of_singleton in Hr as ->. exfalso.
  apply H2, elem_of_app. right. left.
Qed.

Lemma select_reports_spec candidates bp ba acc :
  NoDup candidates -> (length acc < outbox_limit)%nat ->
  exists out, select_reports cleanupOnly forced candidates bp ba acc = acc ++ out
    /\ (length (acc ++ out) <= outbox_limit)%nat /\ selection candidates bp ba out.
Proof.
  intros Hnd. revert bp ba acc. induction Hnd as [|c rest Hc Hnd IH]; intros bp ba acc Hlen; simpl.
  { exists []. rewrite app_nil_r. split_and!; [done|lia|apply selection_nil]. }
  destruct (cleanupOnly (r_ProcessID c)) eqn:Hcl.
  { destruct (IH bp ba acc Hlen) as (out & -> & Hl & Hs). exists out.
    split_and!; [done|done|]. by eapply selection_skip; eauto. }
  case_bool_decide as Hbp.
  { destruct (IH bp ba acc Hlen) as (out & -> & Hl & Hs). exists out.
    split_and!; [done|done|]. by eapply selection_skip; eauto. }
  destruct (bool_decide (r_ProcessID c ∈ ba) && (r_Kind c <>? ReportProcessTerminal)) eqn:Hba.
  { bsimpl. destruct (IH bp ba acc Hlen) as (out & -> & Hl & Hs). exists out.
    split_and!; [done|done|]. by eapply selection_skip; eauto. }
  destruct ((r_State c <>? ReportPending) && negb (bool_decide (r_ID c ∈ forced))) eqn:Hst.
  { bsimpl. destruct ((r_Kind c ==? ReportActionTerminal) && (r_State c ==? ReportRejected)) eqn:Hk.
    - bsimpl. destruct (IH bp ({[r_ProcessID c]} ∪ ba) acc Hlen) as (out & -> & Hl & Hs). exists out.
      split_and!; [done|done|]. by apply selection_park.
    - destruct (IH ({[r_ProcessID c]} ∪ bp) ba acc Hlen) as (out & -> & Hl & Hs). exists out.
      split_and!; [done|done|].
      eapply selection_skip; [done| | | | |exact Hs]; [set_solver|done|right; left; set_solver|done]. }
  assert (sendable c) as Hsend by (split; [done|]; bcases; auto).
  assert (r_ProcessID c ∈ ba -> r_Kind c = ReportProcessTerminal) as Hba' by (intros; bcases; done).
  destruct (Nat.eqb (length (acc ++ [c])) outbox_limit) eqn:Hlim.
  - apply Nat.eqb_eq in Hlim. exists [c]. split_and!; [done|lia|]. by apply selection_stop.
  - apply Nat.eqb_neq in Hlim. destruct (IH bp ba (acc ++ [c])) as (out & -> & Hl & Hs).
    { rewrite length_app in *. simpl in *. lia. }
    exists (c :: out). rewrite <- app_assoc in *. split_and!; [done|done|]. by apply selection_send.
Qed.
End Selection.

(** ** Settling *)

Section Settling.
Context {RC : ReportCodec}.

Lemma retry_invariant (I : DB -> Prop) (op : Op unit) attempts db r db' :
  (forall faults db r db', I db -> op faults db = (r, db') -> I db') ->
  I db -> retryWhileStateDBBusy op attempts db = (r, db') -> I db'.
Proof.
  intros Hop. revert db. induction attempts as [|faults rest IH]; intros db HI H; simpl in H.
  { by simplify_eq. }
  destruct (op faults db) as [[e|v] db1] eqn:E; [|simplify_eq; eauto].
  case_match; [simplify_eq; eauto|]. eapply IH; [|exact H]. eauto.
Qed.

Lemma update_process_reports pid guard f db n db' :
  update_process pid guard f db = inr (n, db') -> db_reports db' = db_reports db.
Proof.
  intros H. apply update_process_cases in H as [(_ & p & _ & _ & _ & ->)|(_ & -> & _)]; done.
Qed.

(** An action has one report: deleting the action deletes no other report. *)
Lemma DeleteProcessAction_reports aid pid db0 db n db' k f rid :
  db_ok db0 -> db_reports db = db_reports db0 -> DeleteProcessAction aid pid db = inr (n, db') ->
  db_reports db0 !! k = Some f -> f_action_id f = Some aid -> rid <> k ->
  db_reports db' !! rid = db_reports db0 !! rid.
Proof.
  intros Hok E H Hf Hfa Hne. rewrite <- E in *. unfold DeleteProcessAction in H.
  repeat case_match; simplify_eq; try done. simpl.
  destruct (db_reports db !! rid) as [g|] eqn:Hg; [|by apply delete_where_None].
  apply lookup_delete_where. split; [done|]. apply andb_false_iff. left.
  apply bool_decide_eq_false. intros Hga. apply Hne.
  rewrite E in *. eapply (ok_slot _ Hok); eauto. unfold same_slot. rewrite Hga, Hfa.
  by apply bool_decide_eq_true.
Qed.

Lemma acknowledge_others rid db n db' rid' :
  AcknowledgeProcessReport rid db = inr (n, db') -> rid' <> rid ->
  db_reports db' !! rid' = db_reports db !! rid'.
Proof.
  intros H Hne. apply update_report_cases in H as [(_ & f & Hf & _ & _ & ->)|(_ & ->)]; [|done].
  simpl. by rewrite lookup_insert_ne.
Qed.

Lemma AcknowledgeReport_others rid faults db r db' rid' :
  db_ok db -> AcknowledgeReport rid faults db = (r, db') -> rid' <> rid ->
  db_reports db' !! rid' = db_reports db !! rid'.
Proof.
  intros Hok H Hne. destruct r as [e|v].
  { unfold AcknowledgeReport in H. by apply write_tx_error in H as ->. }
  unfold AcknowledgeReport, actionTx, processTx, GetProcessAction, GetFrozenReportByID,
    AdvanceResolvedActionSequence, MarkTerminalProcessServerReleased in H. tx_inv.
  repeat (case_match; tx_inv); bsimpl; try done.
  all: repeat match goal with
    | H : update_process _ _ _ _ = _ |- _ => apply update_process_reports in H
    end.
  - by eapply acknowledge_others.
  - match goal with H : db_reports _ = _ |- _ => rewrite H end. by eapply acknowledge_others.
  - by match goal with H : db_reports _ = _ |- _ => rewrite H end.
  - match goal with Ha : db_actions _ !! _ = Some _ |- _ =>
      pose proof (ok_akey _ Hok _ _ Ha) end. subst.
    by eapply DeleteProcessAction_reports.
  - match goal with Hf : db_reports _ !! _ = Some ?f |- _ =>
      pose proof (ok_rcheck _ Hok _ _ Hf) as Hck end.
    unfold frozen_reports_check in Hck. bcases; congruence.
Qed.

(** A rejection touches one row and keeps it in the outbox. *)
Lemma RejectReport_reports rid code message faults db r db' rid' f :
  RejectReport rid code message faults db = (r, db') -> db_reports db !! rid' = Some f ->
  exists f', db_reports db' !! rid' = Some f'
    /\ (f_state f' = f_state f \/ f_state f' = ReportRejected).
Proof.
  intros H Hf. destruct r as [e|v].
  { assert (db' = db) as -> by (unfold RejectReport in H; case_match;
      [by inversion H|by apply write_tx_error in H]). eauto. }
  unfold RejectReport, GetFrozenReportByID in H. case_match; [by inversion H|]. tx_inv.
  repeat (case_match; tx_inv); eauto.
  match goal with H : RejectFrozenReport _ _ _ _ = _ |- _ =>
    apply update_report_cases in H as [(_ & g & Hg & _ & _ & ->)|(_ & ->)] end; [|eauto].
  simpl. destruct (decide (rid = rid')) as [<-|Hne].
  - rewrite lookup_insert_eq. eexists. split; [done|by right].
  - rewrite lookup_insert_ne by done. eauto.
Qed.

(** A report that is still owed to the server. *)
Definition owed (rid : string) (db : DB) : Prop :=
  exists f, db_reports db !! rid = Some f /\ f_state f <> ReportAcknowledged.

(** The server has confirmed the report. *)
Definition confirmed (reports : list Report) (env : list Exchange) (rid : string) : Prop :=
  exists i report x ack, reports !! i = Some report /\ r_ID report = rid
    /\ env !! i = Some x /\ x_reply x = Some ack
    /\ (ack_status ack = AckStatusCommitted \/ ack_status ack = AckStatusCleanupOnly).

Lemma AcknowledgeReport_ok rid faults db r db' :
  db_ok db -> AcknowledgeReport rid faults db = (r, db') -> db_ok db'.
Proof.
  intros Hok H. destruct r as [e|v].
  - unfold AcknowledgeReport in H. by apply write_tx_error in H as ->.
  - by eapply steps_ok, AcknowledgeReport_effect.
Qed.

Lemma RejectReport_ok rid code message faults db r db' :
  db_ok db -> RejectReport rid code message faults db = (r, db') -> db_ok db'.
Proof.
  intros Hok H. destruct r as [e|v].
  - assert (run_cmd (CRejectReport rid code message) faults db = (inl e, db')) as Hr
      by (simpl; unfold op_map; by rewrite H).
    by apply run_cmd_error in Hr as ->.
  - by eapply steps_ok, RejectReport_effect.
Qed.

Lemma settle_report_ok report ack x db r db' :
  db_ok db -> settle_report report ack x db = (r, db') -> db_ok db'.
Proof.
  unfold settle_report. intros Hok H.
  repeat case_match; simplify_eq; try done;
    (eapply (retry_invariant db_ok); [|exact Hok|exact H]);
    eauto using AcknowledgeReport_ok, RejectReport_ok.
Qed.

Lemma reject_owed rid code message attempts db r db' rid' :
  retryWhileStateDBBusy (RejectReport rid code message) attempts db = (r, db') ->
  owed rid' db -> owed rid' db'.
Proof.
  intros H Ho. eapply (retry_invariant (owed rid')); [|exact Ho|exact H].
  intros f db1 r1 db2 (g & Hg & Hgs) Hr.
  destruct (RejectReport_reports _ _ _ _ _ _ _ _ _ Hr Hg) as (g' & Hg' & Hs).
  exists g'. split; [done|]. destruct Hs; congruence.
Qed.

Lemma acknowledge_owed rid attempts db r db' rid' :
  db_ok db -> retryWhileStateDBBusy (AcknowledgeReport rid) attempts db = (r, db') ->
  rid' <> rid -> owed rid' db -> owed rid' db'.
Proof.
  intros Hok H Hne Ho.
  apply (retry_invariant (fun d => db_ok d /\ owed rid' d)) in H; [apply H| |done].
  intros f db1 r1 db2 [Hok1 (g & Hg & Hgs)] Hr. split; [by eapply AcknowledgeReport_ok|].
  exists g. by rewrite (AcknowledgeReport_others _ _ _ _ _ _ Hok1 Hr).
Qed.

(** Settling one report discharges at most that report, and only on a
    confirmation. *)
Lemma settle_owed report ack x db r db' rid :
  db_ok db -> settle_report report ack x db = (r, db') -> owed rid db ->
  owed rid db' \/ (r_ID report = rid
    /\ (ack_status ack = AckStatusCommitted \/ ack_status ack = AckStatusCleanupOnly)).
Proof.
  intros Hok H Hrid. unfold settle_report in H.
  destruct (decide (r_ID report = rid)) as [E|Hne];
    destruct (ack_status ack) eqn:Hst; try (by eauto); left; try (by simplify_eq);
    (case_match; [by simplify_eq|]); eauto using reject_owed, acknowledge_owed.
Qed.

Lemma deliver_ok reports env forced progress db forced' progress' db' :
  db_ok db -> deliver reports env forced progress db = (forced', progress', db') -> db_ok db'.
Proof.
  revert env forced progress db. induction reports as [|report rest IH];
    intros [|x env] forced progress db Hok H; simpl in H; try by simplify_eq.
  destruct (x_reply x) as [ack|]; [|by simplify_eq].
  destruct (settle_report report ack x db) as [[e|v] db1] eqn:E;
    apply settle_report_ok in E as Hok1; [by simplify_eq|done| |done].
  case_match; [by simplify_eq|]. by eapply IH.
Qed.

Lemma confirmed_cons report rest x env rid :
  confirmed rest env rid -> confirmed (report :: rest) (x :: env) rid.
Proof. intros (i & ?). by exists (S i). Qed.

Lemma deliver_owed reports env forced progress db forced' progress' db' rid :
  db_ok db -> deliver reports env forced progress db = (forced', progress', db') ->
  owed rid db -> owed rid db' \/ confirmed reports env rid.
Proof.
  revert env forced progress db. induction reports as [|report rest IH];
    intros [|x env] forced progress db Hok H Ho; simpl in H; try (simplify_eq; by left).
  destruct (x_reply x) as [ack|] eqn:Hx; [|simplify_eq; by left].
  destruct (settle_report report ack x db) as [r db1] eqn:E.
  pose proof (settle_report_ok _ _ _ _ _ _ Hok E) as Hok1.
  destruct (settle_owed _ _ _ _ _ _ rid Hok E Ho) as [Ho1|[Hid Hst]].
  2: { right. exists 0%nat, report, x, ack. done. }
  destruct r as [e|v]; [simplify_eq; by left|].
  case_match; [simplify_eq; by left|].
  destruct (IH _ _ _ _ Hok1 H Ho1); [by left|right]. by apply confirmed_cons.
Qed.
End Settling.
