(* ===== verification/StateDelivery.v ===== *)
(** * Delivery order and progress

    The [ORDER BY] and [WHERE] of the delivery query, composed with the selection
    of [outboxReports]: reports of a process leave in the order started, action,
    terminal, and the terminal report leaves only once no action of the process
    can still produce evidence.  On a healthy database the acknowledgement of any
    stored report succeeds and discharges it. *)
From S2P Require Import Prelude DaemonProtocol StateSchema StateQueries StateTx StateReport.
From S2P Require Import StateProcess StateAction StateInvariant StatePreserve StateEffects.
From S2P Require Import StateSpec StateOutbox.
From stdpp Require Import options.
Local Open Scope Z_scope.

Global Instance key_le_total : Total key_le.
Proof.
  intros [p1 [r1 [s1 i1]]] [p2 [r2 [s2 i2]]]. unfold key_le.
  destruct (decide (p1 = p2)) as [->|Hp].
  2: { destruct (String.le_total p1 p2); [left|right]; left; split; congruence || done. }
  destruct (Z.lt_trichotomy r1 r2) as [?|[->|?]]; [left; right; auto| |right; right; auto].
  destruct (Z.lt_trichotomy s1 s2) as [?|[->|?]]; [left; right; auto 6| |right; right; auto 6].
  destruct (String.le_total i1 i2); [left|right]; right; auto 8.
Qed.

Global Instance key_le_trans : Transitive key_le.
Proof.
  intros [p1 [r1 [s1 i1]]] [p2 [r2 [s2 i2]]] [p3 [r3 [s3 i3]]]. unfold key_le.
  assert (forall a b, String.le a b -> String.le b a -> a = b) as Hanti
    by (intros; by apply (anti_symm String.le)).
  intros [[H12 N12]|(-> & H12)] [[H23 N23]|(-> & H23)].
  - left. split; [by etrans|]. intros ->. apply N12. by apply Hanti.
  - left. done.
  - left. done.
  - right. split; [done|].
    destruct H12 as [?|(-> & [?|(-> & ?)])], H23 as [?|(-> & [?|(-> & ?)])];
      try (left; lia); right; (split; [done|]); try (left; lia).
    right. split; [done|]. by etrans.
Qed.

Global Instance delivery_le_total db : Total (delivery_le db).
Proof. intros f g. unfold delivery_le. apply key_le_total. Qed.
Global Instance delivery_le_trans db : Transitive (delivery_le db).
Proof. intros f g h. unfold delivery_le. apply key_le_trans. Qed.

Section Delivery.
Context {RC : ReportCodec}.

Lemma candidates_sorted db : StronglySorted (delivery_le db) (ListFrozenReportDeliveryCandidates db).
Proof. apply StronglySorted_merge_sort; apply _. Qed.

Lemma elem_of_candidates db f :
  db_ok db -> f ∈ ListFrozenReportDeliveryCandidates db <->
  db_reports db !! f_report_id f = Some f /\ deliverable db f = true.
Proof.
  intros Hok. unfold ListFrozenReportDeliveryCandidates.
  rewrite merge_sort_Permutation, elem_of_select. split; [|naive_solver].
  intros [Hd [k Hk]]. by rewrite (ok_rkey _ Hok _ _ Hk).
Qed.

(** The two reports of a process, and those of its actions, in order. *)
Lemma delivery_le_kind db f g :
  delivery_le db f g -> f_process_id f = f_process_id g ->
  report_kind_rank (f_report_kind f) <= report_kind_rank (f_report_kind g).
Proof. unfold delivery_le, delivery_key, key_le. naive_solver lia. Qed.

Lemma deliverable_terminal db f a k :
  deliverable db f = true -> f_report_kind f = ReportProcessTerminal ->
  db_actions db !! k = Some a -> a_ProcessID a = f_process_id f ->
  exists k' g, db_reports db !! k' = Some g /\ f_action_id g = Some (a_ID a)
    /\ f_state g = ReportRejected.
Proof.
  unfold deliverable. intros Hd Hk Ha Hp. apply andb_true_iff in Hd as [_ Hd].
  rewrite Hk in Hd. simpl in Hd. apply negb_true_iff in Hd. rewrite exists_row_false in Hd.
  specialize (Hd _ _ Ha). rewrite Hp, bool_decide_eq_true_2 in Hd by done. simpl in Hd.
  apply negb_false_iff, exists_row_true in Hd as (k' & g & Hg & HP). bsimpl. eauto.
Qed.

Lemma reportFromSQLC_inj db f g :
  db_ok db -> db_reports db !! f_report_id f = Some f -> db_reports db !! f_report_id g = Some g ->
  reportFromSQLC f = reportFromSQLC g -> f = g.
Proof. unfold reportFromSQLC. intros Hok Hf Hg [= E]. congruence. Qed.

Lemma candidates_NoDup db :
  db_ok db -> NoDup (reportFromSQLC <$> ListFrozenReportDeliveryCandidates db).
Proof.
  intros Hok. apply NoDup_fmap_2_strong.
  - intros f g Hf Hg. apply elem_of_candidates in Hf as [Hf _]; [|done].
    apply elem_of_candidates in Hg as [Hg _]; [|done]. by apply (reportFromSQLC_inj db).
  - unfold ListFrozenReportDeliveryCandidates. rewrite merge_sort_Permutation.
    apply NoDup_filter_bool, (rows_NoDup f_report_id), Hok.
Qed.

Lemma outbox_healthy cleanupOnly forced db :
  db_ok db ->
  exists out, outboxReports cleanupOnly forced [] db = (inr out, db)
    /\ (length out <= outbox_limit)%nat
    /\ selection cleanupOnly forced (reportFromSQLC <$> ListFrozenReportDeliveryCandidates db) ∅ ∅ out.
Proof.
  intros Hok. unfold outboxReports, DeliveryCandidates, read_op. simpl.
  destruct (select_reports_spec cleanupOnly forced
    (reportFromSQLC <$> ListFrozenReportDeliveryCandidates db) ∅ ∅ []) as (out & -> & Hl & Hs);
    [by apply candidates_NoDup|unfold outbox_limit; simpl; lia|]. eauto.
Qed.

(** ** Acknowledgements make progress *)

Lemma acknowledged_check f :
  frozen_reports_check f = true -> f_report_kind f <> ReportActionTerminal ->
  frozen_reports_check (set_report_state ReportAcknowledged "" "" f) = true.
Proof.
  intros Hck Hk. pose proof (process_terminal_report_no_action _ Hck Hk) as Ha.
  unfold frozen_reports_check in *. simpl. rewrite Ha in *.
  destruct (f_report_kind f); try done;
    rewrite !andb_true_iff in Hck; destruct Hck as [[[[[[[-> ->] Hkind] _] ->] _] _] _]; done.
Qed.

Lemma released_check p :
  processes_check p = true -> processes_check (set_ServerReleased true p) = true.
Proof. done. Qed.

Lemma acknowledge_process_healthy db rid f :
  db_ok db -> db_reports db !! rid = Some f -> f_report_kind f <> ReportActionTerminal ->
  f_state f = ReportPending \/ f_state f = ReportRejected ->
  AcknowledgeProcessReport rid db =
    inr (1, with_reports db (<[rid := set_report_state ReportAcknowledged "" "" f]> (db_reports db))).
Proof.
  intros Hok Hf Hk Hst. unfold AcknowledgeProcessReport, update_report. rewrite Hf.
  replace (_ || _) with true by (destruct Hst as [-> | ->]; done).
  rewrite acknowledged_check; [done| |done]. by eapply ok_rcheck.
Qed.

Lemma release_healthy db pid :
  db_ok db -> is_Some (db_processes db !! pid) ->
  exists db', MarkTerminalProcessServerReleased pid db = inr (1, db')
    /\ db_reports db' = db_reports db.
Proof.
  intros Hok [p Hp]. unfold MarkTerminalProcessServerReleased, update_process. rewrite Hp.
  rewrite released_check by by eapply ok_pcheck. eauto.
Qed.

(** The action branch: the row at the frontier and its report are retired. *)
Lemma acknowledge_action_healthy db rid f :
  db_ok db -> db_reports db !! rid = Some f -> f_report_kind f = ReportActionTerminal ->
  exists db', AcknowledgeReport rid [] db = (inr tt, db') /\ db_reports db' !! rid = None.
Proof.
  intros Hok Hf Hk. pose proof (ok_rcheck _ Hok _ _ Hf) as Hck.
  destruct (f_action_id f) as [aid|] eqn:Hfa.
  2: { unfold frozen_reports_check in Hck. bcases; congruence. }
  destruct (proj1 (report_fk_spec _ _) (ok_rfk _ Hok _ _ Hf)) as [_ Hfk].
  destruct (Hfk _ Hfa) as (a & Ha & Hap).
  destruct (ok_frontier _ Hok _ _ Ha) as (p & Hp & Hs & H64).
  pose proof (ok_akey _ Hok _ _ Ha) as Hid.
  assert ((f_state f <>? ReportPending) && (f_state f <>? ReportRejected) = false) as Hst.
  { unfold frozen_reports_check in Hck. rewrite Hfa in Hck. destruct (f_state f); bcases; done. }
  unfold AcknowledgeReport. eexists. split.
  1: { apply write_tx_run. rewrite bind_query. unfold GetFrozenReportByID, reportFromSQLC. rewrite Hf. simpl.
       rewrite Hk, Hst, Hfa. unfold actionTx, GetProcessAction, processTx, GetProcess.
       rewrite bind_query, Ha, Hap, bool_decide_eq_true_2 by done. simpl.
       rewrite bind_query, <- Hap, Hp, <- Hs, wrap64_id, Z.eqb_refl by done. simpl.
       rewrite (bind_exec _ _ _ 1 (with_processes db
         (<[a_ProcessID a := set_ResolvedActionSeq (a_Seq a) p]> (db_processes db)))).
       2: { unfold AdvanceResolvedActionSequence, update_process. rewrite Hp.
            rewrite advanced_check; [done| |lia]. by eapply ok_pcheck. }
       erewrite bind_exec; [done|].
       unfold DeleteProcessAction. simpl. by rewrite Hid, Ha, bool_decide_eq_true_2. }
  simpl. destruct (delete_where _ _ !! rid) as [g|] eqn:E; [|done].
  apply lookup_delete_where in E as [Hg Hn]. simplify_eq.
  rewrite Hfa, Hap, !bool_decide_eq_true_2 in Hn; done.
Qed.

Lemma AcknowledgeReport_healthy db rid f :
  db_ok db -> db_reports db !! rid = Some f ->
  exists db', AcknowledgeReport rid [] db = (inr tt, db') /\ ~ owed rid db'.
Proof.
  intros Hok Hf. destruct (decide (f_report_kind f = ReportActionTerminal)) as [Hk|Hk].
  { destruct (acknowledge_action_healthy _ _ _ Hok Hf Hk) as (db' & H & Hno).
    exists db'. split; [done|]. intros (g & Hg & _). congruence. }
  pose proof (ok_rcheck _ Hok _ _ Hf) as Hck.
  destruct (proj1 (report_fk_spec _ _) (ok_rfk _ Hok _ _ Hf)) as [Hp _].
  set (db1 := if decide (f_state f = ReportAcknowledged) then db else
    with_reports db (<[rid := set_report_state ReportAcknowledged "" "" f]> (db_reports db))).
  assert (((if (f_state f ==? ReportPending) || (f_state f ==? ReportRejected)
            then exec (AcknowledgeProcessReport rid);; mret tt
            else if f_state f <>? ReportAcknowledged then throw ErrStateConflict
            else mret tt) : Tx unit) (healthy db) = (inr tt, healthy db1)) as Hack.
  { destruct (decide (f_state f = ReportAcknowledged)) as [->|Hne]; [done|].
    assert (f_state f = ReportPending \/ f_state f = ReportRejected) as Hst.
    { unfold frozen_reports_check in Hck. destruct (f_state f); bcases; auto; done. }
    replace (_ || _) with true by (destruct Hst as [-> | ->]; done).
    by erewrite bind_exec by by apply acknowledge_process_healthy. }
  assert (exists f1, db_reports db1 !! rid = Some f1 /\ f_state f1 = ReportAcknowledged
    /\ db_processes db1 = db_processes db) as (f1 & Hf1 & Hst1 & Hp1).
  { subst db1. case_decide; [by exists f|]. eexists. simpl. by rewrite lookup_insert_eq. }
  pose proof (ok_pcheck _ Hok) as Hpck. destruct Hp as [p Hp].
  set (db2 := if f_report_kind f ==? ReportProcessTerminal
    then with_processes db1 (<[f_process_id f := set_ServerReleased true p]> (db_processes db1))
    else db1).
  assert (((if f_report_kind f ==? ReportProcessTerminal
            then exec (MarkTerminalProcessServerReleased (f_process_id f));; mret tt
            else mret tt) : Tx unit) (healthy db1) = (inr tt, healthy db2)) as Hrel.
  { subst db2. destruct (f_report_kind f ==? ReportProcessTerminal); [|done]. erewrite bind_exec; [done|].
    unfold MarkTerminalProcessServerReleased, update_process. rewrite Hp1, Hp.
    by rewrite released_check by by eapply Hpck. }
  exists db2. split.
  - unfold AcknowledgeReport. apply write_tx_run. rewrite bind_query.
    unfold GetFrozenReportByID, reportFromSQLC. rewrite Hf. simpl.
    destruct (f_report_kind f) eqn:E; try done;
      [by rewrite (bind_ret _ _ _ _ _ Hack)..|].
    unfold frozen_reports_check in Hck. rewrite E in Hck. bcases; done.
  - intros (g & Hg & Hgs). assert (db_reports db2 = db_reports db1) as E
      by (subst db2; by destruct (f_report_kind f ==? ReportProcessTerminal)). rewrite E, Hf1 in Hg. congruence.
Qed.
End Delivery.
