(* ===== verification/StateScenario.v ===== *)
(** * A concrete run of the state database

    A codec over four report bodies and the life of one process: reserved,
    accepted, spawned, one write action applied and acknowledged, a second action
    refused without an effect, the terminal report.  The theorems about histories
    are instantiated on it. *)
From S2P Require Import Prelude DaemonProtocol StateSchema StateQueries StateTx StateReport.
From S2P Require Import StateProcess StateAction StateInvariant StateTrace.
From stdpp Require Import options.
Local Open Scope Z_scope.

Definition demo_event (ty : ReportedEventType) (aid : string) (st : ProcessState)
    (reason : string) (startedAt endedAt observedAt : Time) : ReportedEvent :=
  mkReportedEvent ty "p1" aid st None "" reason "" "" startedAt endedAt observedAt.

Definition demo_unmarshal (body : string) : option ReportedEvent :=
  if body ==? "started"
  then Some (demo_event EventProcessStarted "" ProcessStateRunning "" 1 0 2)
  else if body ==? "applied a1"
  then Some (demo_event EventProcessActionApplied "a1" ProcessStateRunning "" 0 0 0)
  else if body ==? "failed a2"
  then Some (demo_event EventProcessActionFailed "a2" ProcessStateRunning "denied" 0 0 0)
  else if body ==? "exited"
  then Some (demo_event EventProcessFinished "" ProcessStateExited "" 1 3 0)
  else None.

Global Instance demo_codec : ReportCodec := {|
  unmarshal_event := demo_unmarshal;
  unmarshal_observation := fun _ => None;
  marshal_report_message := fun id ev => Some ("{" +:+ id +:+ "}")
|}.

Definition demo_sup : Supervisor := mkSupervisor "p1" "s1".
Definition demo_process : Process := new_process_row "p1" "s1" "t1".
Definition demo_action (aid : string) (seq : Z) : Action := mkAction aid "p1" KindWrite seq false.
Definition demo_report (aid : string) (kind : ReportKind) (body : string) : Report :=
  mkReport "" "p1" aid kind body ReportStateUnset "" "".

(** The process is accepted and has been spawned. *)
Definition demo_boot : list (Cmd * Faults) :=
  [ (CBindIdentity "i1" "m1", []);
    (CReserveProcess demo_process, []);
    (CMarkPrepared "p1" "s1", []);
    (CMarkAccepted "p1" "s1", [None; Some (SqliteError 5)]);
    (CMarkAccepted "p1" "s1", []);
    (CAuthorizeSpawnOnce demo_sup, []);
    (CRecordSpawned demo_sup "cgroup" "c1", []);
    (CFreezeStartedReport demo_sup "u-0" (demo_report "" ReportProcessStarted "started"), []) ].

(** One action applied, retried and acknowledged; one refused. *)
Definition demo_work : list (Cmd * Faults) :=
  [ (CAuthorizeSpawnOnce demo_sup, []);
    (CApplyOnce demo_sup (demo_action "a1" 1), []);
    (CApplyOnce demo_sup (demo_action "a1" 1), []);
    (CFreezeActionReport "p1" "s1" "u-1" "a1" (demo_report "a1" ReportActionTerminal "applied a1"), []);
    (CAcknowledgeReport "rpt_u1", []);
    (CApplyOnce demo_sup (demo_action "a1" 1), []);
    (CRecordActionWithoutEffect demo_sup "u-2" (demo_action "a2" 2)
       (demo_report "a2" ReportActionTerminal "failed a2"), []) ].

Definition demo_close : list (Cmd * Faults) :=
  [ (CFreezeTerminalReport "p1" "s1" "u-3" (demo_report "" ReportProcessTerminal "exited"), []);
    (CMarkContainmentEmpty "p1" "s1", []);
    (CMarkLocalClosed "p1" "s1", []) ].

Definition demo_history : list (Cmd * Faults) := demo_boot ++ demo_work ++ demo_close.

Definition booted_db : DB := (run_all demo_boot empty_db).2.
Definition worked_db : DB := (run_all (demo_boot ++ demo_work) empty_db).2.
Definition closed_db : DB := (run_all demo_history empty_db).2.

(** What the callers saw. *)
Example demo_outcomes :
  omap (fun c => match c_result c with inr (OApply d _) => Some (inl d) | inr (ONoEffect d _) => Some (inr d)
                 | _ => None end) (run_all demo_history empty_db).1 =
  [inl ApplyExecute; inl ApplyOutcomeUnknown; inl ApplyAlreadyResolved; inr NoEffectRecorded].
Proof. vm_compute. reflexivity. Qed.

Example demo_errors :
  omap (fun c => match c_result c with inl e => Some e | _ => None end)
    (run_all demo_history empty_db).1 = [ErrBusy].
Proof. vm_compute. reflexivity. Qed.

Lemma demo_runs : runs empty_db (run_all demo_history empty_db).1 closed_db.
Proof. unfold closed_db. apply (run_all_runs demo_history empty_db). apply (bool_decide_unpack _). vm_compute. exact I. Defined.

Lemma demo_work_runs : runs booted_db (run_all demo_work booted_db).1 worked_db.
Proof.
  assert (worked_db = (run_all demo_work booted_db).2) as -> by (vm_compute; reflexivity).
  apply (run_all_runs demo_work booted_db). apply (bool_decide_unpack _). vm_compute. exact I.
Defined.

Lemma demo_boot_runs : runs empty_db (run_all demo_boot empty_db).1 booted_db.
Proof. unfold booted_db. apply (run_all_runs demo_boot empty_db). apply (bool_decide_unpack _). vm_compute. exact I. Defined.
