(* ===== verification/StateHistory.v ===== *)
(** * Lemmas about histories

    Exactly-once admission and spawn authorisation, and what a closed admission
    means for the rest of a history. *)
From S2P Require Import Prelude DaemonProtocol StateSchema StateQueries StateTx StateReport.
From S2P Require Import StateProcess StateAction StateInvariant StatePreserve StateEffects.
From S2P Require Import StateTrace StateSpec.
From stdpp Require Import options.
Local Open Scope Z_scope.

Section History.
Context {RC : ReportCodec}.

(** The sequence number a call admitted for [pid]: the caller was told to
    execute the action, or its outcome was recorded without one. *)
Definition admitted (pid : string) (c : Call) : option Z :=
  match c_cmd c, c_result c with
  | CApplyOnce s a, inr (OApply ApplyExecute _) =>
      if sv_processID s ==? pid then Some (a_Seq a) else None
  | CRecordActionWithoutEffect s _ a _, inr (ONoEffect NoEffectRecorded _) =>
      if sv_processID s ==? pid then Some (a_Seq a) else None
  | _, _ => None
  end.

(** The sequence number of an action the caller was told to execute. *)
Definition executed (pid : string) (c : Call) : option Z :=
  match c_cmd c, c_result c with
  | CApplyOnce s a, inr (OApply ApplyExecute _) =>
      if sv_processID s ==? pid then Some (a_Seq a) else None
  | _, _ => None
  end.

(** The caller was told to spawn the process [pid]. *)
Definition spawns (pid : string) (c : Call) : bool :=
  match c_cmd c, c_result c with
  | CAuthorizeSpawnOnce s, inr (OSpawn true) => sv_processID s ==? pid
  | _, _ => false
  end.

Lemma runs_one c faults db r db' :
  wf_cmd c -> run_cmd c faults db = (r, db') -> runs db [mkCall c faults r] db'.
Proof. intros. econstructor; [done|done|constructor]. Qed.

Lemma keeps_one pid c h : keeps pid (c :: h) -> keeps pid [c] /\ keeps pid h.
Proof. intros H. apply Forall_cons in H as [? ?]. split; [by repeat constructor|done]. Qed.

Lemma admitted_spent pid c faults db r db' seq :
  db_ok db -> wf_cmd c -> run_cmd c faults db = (r, db') ->
  admitted pid (mkCall c faults r) = Some seq ->
  ~ spent db pid seq /\ spent db' pid seq.
Proof.
  intros Hok Hwf Hrun Ha. unfold admitted in Ha. simpl in Ha.
  destruct c; try done; repeat case_match; simplify_eq; bsimpl; subst; simpl in Hrun;
    apply op_map_success in Hrun as ([d' r'] & Hrun & E); simplify_eq/=.
  - by apply ApplyOnce_effect in Hrun as [_ Hs]; [apply Hs|..].
  - by apply RecordActionWithoutEffect_effect in Hrun as [_ Hs]; [apply Hs|..].
Qed.

Lemma runs_spent db h db' pid seq :
  db_ok db -> runs db h db' -> keeps pid h -> spent db pid seq -> spent db' pid seq.
Proof.
  intros Hok Hr Hk. eapply (runs_stable (fun d => spent d pid seq) pid);
    eauto using prim_spent, cascade_spent.
Qed.

(** Spent sequence numbers are downward closed. *)
Lemma spent_below db pid m n : db_ok db -> spent db pid n -> m <= n -> spent db pid m.
Proof.
  intros Hok (p & Hp & Hs) Hle. exists p. split; [done|].
  destruct Hs as [Hs|(k & a & Ha & Hap & Has)]; [left; lia|].
  destruct (ok_frontier _ Hok _ _ Ha) as (q & Hq & Hqs & _). rewrite Hap in Hq. simplify_eq.
  destruct (decide (m = a_Seq a)) as [->|]; [right; eauto|left; lia].
Qed.

Lemma admissions_above pid db h db' n :
  db_ok db -> runs db h db' -> keeps pid h -> spent db pid n ->
  Forall (Z.lt n) (omap (admitted pid) h).
Proof.
  intros Hok Hr. induction Hr as [|db c faults r db1 h db2 Hwf Hrun Hr IH]; intros Hk Hs;
    [constructor|].
  pose proof (effect_ok _ _ _ Hok (run_cmd_effect _ _ _ _ _ Hok Hwf Hrun)) as Hok1.
  apply keeps_one in Hk as [Hc Hk]. simpl.
  assert (spent db1 pid n) as Hs1 by eauto using runs_spent, runs_one.
  destruct (admitted pid (mkCall c faults r)) as [m|] eqn:Ha; [|auto].
  constructor; [|auto]. destruct (admitted_spent _ _ _ _ _ _ _ Hok Hwf Hrun Ha) as [Hns _].
  apply Z.nle_gt. intros Hle. apply Hns. by eapply spent_below.
Qed.

Lemma admissions_sorted pid db h db' :
  db_ok db -> runs db h db' -> keeps pid h -> StronglySorted Z.lt (omap (admitted pid) h).
Proof.
  intros Hok Hr. induction Hr as [|db c faults r db1 h db2 Hwf Hrun Hr IH]; intros Hk;
    [constructor|].
  pose proof (effect_ok _ _ _ Hok (run_cmd_effect _ _ _ _ _ Hok Hwf Hrun)) as Hok1.
  apply Forall_cons in Hk as [_ Hk]. simpl.
  destruct (admitted pid (mkCall c faults r)) as [m|] eqn:Ha; [|auto].
  constructor; [auto|]. destruct (admitted_spent _ _ _ _ _ _ _ Hok Hwf Hrun Ha) as [_ Hs].
  by eapply admissions_above.
Qed.

(** ** Rows along a history *)

Lemma runs_row db h db' pid p :
  db_ok db -> runs db h db' -> keeps pid h -> db_processes db !! pid = Some p ->
  exists p', db_processes db' !! pid = Some p' /\ process_le p p'.
Proof.
  intros Hok Hr Hk Hp.
  eapply (runs_stable (fun d => exists p', db_processes d !! pid = Some p' /\ process_le p p') pid);
    [| |done|done|done|by exists p].
  - intros d d' Hd Hprim (q & Hq & Hle). destruct (prim_row _ _ _ _ Hd Hprim Hq) as (q' & ? & ?).
    exists q'. split; [done|by etrans].
  - intros d pid' Hne (q & Hq & Hle). exists q. split; [by apply cascade_row|done].
Qed.

(** ** Spawning *)

Lemma AuthorizeSpawnOnce_true s faults db db' :
  AuthorizeSpawnOnce s faults db = (inr true, db') ->
  (exists p, db_processes db !! sv_processID s = Some p /\ p_ExecCommitted p = false
             /\ p_Phase p = ProcessAccepted)
  /\ (exists p, db_processes db' !! sv_processID s = Some p /\ p_ExecCommitted p = true).
Proof.
  unfold AuthorizeSpawnOnce, processTx, AuthorizeProcessSpawn. intros H. tx_inv.
  match goal with H : update_process _ _ _ _ = _ |- _ =>
    apply update_process_cases in H as [[-> (p & Hp & Hg & Hck & Heq)]|(-> & Heq & _)] end;
    simplify_eq/=; tx_inv.
  - rewrite Heq. bsimpl. split; [by exists p|]. eexists. simpl. by rewrite lookup_insert_eq.
  - repeat case_match; tx_inv.
Qed.

Lemma spawns_committed pid c faults db r db' :
  run_cmd c faults db = (r, db') -> spawns pid (mkCall c faults r) = true ->
  (exists p, db_processes db !! pid = Some p /\ p_ExecCommitted p = false)
  /\ (exists p, db_processes db' !! pid = Some p /\ p_ExecCommitted p = true).
Proof.
  unfold spawns. simpl. intros Hrun H. destruct c; try done. repeat case_match; try done.
  bsimpl. simplify_eq. simpl in Hrun. apply op_map_success in Hrun as (b & Hrun & [= <-]).
  destruct (AuthorizeSpawnOnce_true _ _ _ _ Hrun) as [(p & ? & ? & _) ?]. eauto.
Qed.

Lemma spawns_none pid db h db' p :
  db_ok db -> runs db h db' -> keeps pid h -> db_processes db !! pid = Some p ->
  p_ExecCommitted p = true -> List.filter (spawns pid) h = [].
Proof.
  intros Hok Hr. revert p. induction Hr as [|db c faults r db1 h db2 Hwf Hrun Hr IH];
    intros p Hk Hp He; [done|].
  pose proof (effect_ok _ _ _ Hok (run_cmd_effect _ _ _ _ _ Hok Hwf Hrun)) as Hok1.
  apply keeps_one in Hk as [Hc Hk]. simpl.
  destruct (runs_row db [mkCall c faults r] db1 pid p Hok) as (p1 & Hp1 & Hle);
    [by apply runs_one|done|done|].
  destruct (spawns pid (mkCall c faults r)) eqn:Hs.
  { destruct (spawns_committed _ _ _ _ _ _ Hrun Hs) as [(q & Hq & Hqe) _]. congruence. }
  eapply IH; eauto using ple_exec.
Qed.

Lemma spawns_once pid db h db' :
  db_ok db -> runs db h db' -> keeps pid h -> (length (List.filter (spawns pid) h) <= 1)%nat.
Proof.
  intros Hok Hr. induction Hr as [|db c faults r db1 h db2 Hwf Hrun Hr IH]; intros Hk; simpl; [lia|].
  pose proof (effect_ok _ _ _ Hok (run_cmd_effect _ _ _ _ _ Hok Hwf Hrun)) as Hok1.
  apply Forall_cons in Hk as [_ Hk]. destruct (spawns pid (mkCall c faults r)) eqn:Hs; [|auto].
  destruct (spawns_committed _ _ _ _ _ _ Hrun Hs) as [_ (p & Hp & Hpe)].
  by erewrite spawns_none.
Qed.

(** ** Closed admission *)

Lemma catch_compact_flags p n s p' s' :
  catchActionBlocked (compactMissingActionPrefixTx p n) s = (inr (Some p'), s') ->
  exists m, p' = set_ResolvedActionSeq m p.
Proof.
  unfold catchActionBlocked. intros H.
  destruct (compactMissingActionPrefixTx p n s) as [[e|q] s1] eqn:E; [by case_match|].
  injection H as <- <-. unfold compactMissingActionPrefixTx in E. case_match.
  - apply ret_inv in E as [-> _]. exists (p_ResolvedActionSeq p). by destruct p.
  - tx_inv. case_match; tx_inv. eauto.
Qed.

Lemma ApplyOnce_open s action faults db r db' :
  ApplyOnce s action faults db = (inr (ApplyExecute, r), db') ->
  exists p, db_processes db !! sv_processID s = Some p /\ admission_open p = true.
Proof.
  unfold ApplyOnce. intros H. case_match; [by inversion H|]. tx_inv.
  repeat (case_match; tx_inv).
  all: match goal with H : loadActionTransitionTx _ _ _ _ = _ |- _ =>
    apply loadActionTransitionTx_spec in H as (E & Hp & _ & _) end.
  all: match goal with H : catchActionBlocked _ _ = _ |- _ =>
    apply catch_compact_flags in H as [m ->] end.
  all: rewrite admission_guard, set_seq_open, negb_false_iff in *; eauto.
Qed.

Lemma executed_open pid c faults db r db' seq :
  run_cmd c faults db = (r, db') -> executed pid (mkCall c faults r) = Some seq ->
  exists p, db_processes db !! pid = Some p /\ admission_open p = true.
Proof.
  unfold executed. simpl. intros Hrun H. destruct c; try done. repeat case_match; try done.
  bsimpl. simplify_eq. simpl in Hrun. apply op_map_success in Hrun as ([d' r'] & Hrun & E).
  simplify_eq/=. by eapply ApplyOnce_open.
Qed.

Lemma closed_executes_none pid db h db' p :
  db_ok db -> runs db h db' -> keeps pid h -> db_processes db !! pid = Some p ->
  p_ActionAdmissionClosed p = true -> omap (executed pid) h = [].
Proof.
  intros Hok Hr. revert p. induction Hr as [|db c faults r db1 h db2 Hwf Hrun Hr IH];
    intros p Hk Hp He; [done|].
  pose proof (effect_ok _ _ _ Hok (run_cmd_effect _ _ _ _ _ Hok Hwf Hrun)) as Hok1.
  apply keeps_one in Hk as [Hc Hk]. simpl.
  destruct (runs_row db [mkCall c faults r] db1 pid p Hok) as (p1 & Hp1 & Hle);
    [by apply runs_one|done|done|].
  destruct (executed pid (mkCall c faults r)) as [m|] eqn:Hs.
  { destruct (executed_open _ _ _ _ _ _ _ Hrun Hs) as (q & Hq & Hqe). simplify_eq.
    unfold admission_open in Hqe. bsimpl. congruence. }
  eapply IH; eauto using ple_admission.
Qed.
End History.
