(* ===== verification/StateGuards.v ===== *)
(** * Lemmas about single operations: write-once slots and closure guards *)
From S2P Require Import Prelude DaemonProtocol StateSchema StateQueries StateTx StateReport.
From S2P Require Import StateProcess StateAction StateInvariant StatePreserve StateEffects.
From S2P Require Import StateTrace StateSpec StateAudit.
From stdpp Require Import options.
Local Open Scope Z_scope.

Section Guards.
Context {RC : ReportCodec}.

(** ** Write-once report slots *)

Definition slot_action (report : Report) : option string :=
  if r_ActionID report ==? "" then None else Some (r_ActionID report).

(** The row of the slot [report] addresses. *)
Definition in_slot (report : Report) (f : FrozenReport) : Prop :=
  f_process_id f = r_ProcessID report /\ f_action_id f = slot_action report
  /\ f_report_kind f = r_Kind report.

Lemma in_slot_unique db report k1 k2 f1 f2 :
  db_ok db -> db_reports db !! k1 = Some f1 -> db_reports db !! k2 = Some f2 ->
  in_slot report f1 -> in_slot report f2 -> f1 = f2.
Proof.
  intros Hok H1 H2 (Hp1 & Ha1 & Hk1) (Hp2 & Ha2 & Hk2).
  assert (k1 = k2) as ->; [|congruence]. eapply (ok_slot _ Hok); eauto.
  unfold same_slot. rewrite Ha1, Ha2, Hp1, Hp2, Hk1, Hk2.
  case_match; [by apply bool_decide_eq_true|]. by rewrite !bool_decide_eq_true_2.
Qed.

(** A query whose predicate singles out a slot returns the slot's row. *)
Lemma slot_query db report P k f :
  db_ok db -> db_reports db !! k = Some f -> in_slot report f ->
  (forall g, P g = true <-> in_slot report g) -> select_one P (db_reports db) = Some f.
Proof.
  intros Hok Hf Hs HP. assert (is_Some (select_one P (db_reports db))) as [g Hg].
  { eapply select_one_is_Some; [exact Hf|]. by apply HP. }
  rewrite Hg. f_equal. apply select_one_Some in Hg as [Hg [k' Hk']]. apply HP in Hg.
  by eapply in_slot_unique.
Qed.

Lemma reportBySlot_healthy db report k f :
  db_ok db -> db_reports db !! k = Some f -> in_slot report f ->
  reportBySlotTx (r_Kind report) (r_ProcessID report) (r_ActionID report) (healthy db) =
  (inr (Some (reportFromSQLC f)), healthy db).
Proof.
  intros Hok Hf Hs. unfold reportBySlotTx. pose proof Hs as (_ & Hact & _).
  unfold slot_action in Hact.
  case_bool_decide as E; rewrite bind_query;
    unfold GetFrozenProcessReportBySlot, GetFrozenActionReportBySlot;
    (erewrite (slot_query db report); [done|done|exact Hf|exact Hs|]); intros g;
    rewrite !andb_true_iff, !bool_decide_eq_true; unfold in_slot, slot_action.
  - rewrite bool_decide_eq_true_2 by done. tauto.
  - rewrite bool_decide_eq_false_2 by done. tauto.
Qed.

(** Freezing into a slot that is taken returns the frozen report or a conflict. *)
Lemma freeze_taken db uuid report k f :
  db_ok db -> db_reports db !! k = Some f -> in_slot report f -> validateReport report = None ->
  freezeReportTx uuid report (healthy db) =
  (if sameReportContent (reportFromSQLC f) report
   then inr (reportFromSQLC f) else inl ErrStateConflict, healthy db).
Proof.
  intros Hok Hf Hs Hv. unfold freezeReportTx. rewrite Hv. simpl. rewrite bind_mret.
  rewrite (bind_ret _ _ _ _ _ (reportBySlot_healthy _ _ _ _ Hok Hf Hs)). by case_match.
Qed.

(** The row a successful freeze returns. *)
Lemma frozen_in_slot report f :
  sameReportContent (reportFromSQLC f) report = true -> frozen_reports_check f = true ->
  validateReport report = None -> in_slot report f.
Proof.
  intros Hs Hck Hv. apply sameReportContent_iff in Hs as (Hp & Ha & Hk & _). simpl in *.
  unfold in_slot, slot_action. split_and!; try done.
  pose proof (proj1 (validateReport_action report Hv)) as Hact.
  destruct (f_action_id f) as [aid|] eqn:E.
  - rewrite <- Ha. destruct (decide (aid = "")) as [->|]; [|by rewrite bool_decide_eq_false_2].
    pose proof (action_report_kind f "" Hck E) as Hkind. rewrite Hk in Hkind.
    apply Hact in Hkind. congruence.
  - by rewrite <- Ha, bool_decide_eq_true_2.
Qed.

Lemma freeze_result db uuid report s r s' :
  tx_db s = db -> db_ok (tx_db s') -> freezeReportTx uuid report s = (inr r, s') ->
  exists k f, db_reports (tx_db s') !! k = Some f /\ r = reportFromSQLC f /\ in_slot report f.
Proof.
  intros <- Hok H. apply freezeReportTx_spec in H as (Hs & Hv & [[E (k & f & Hf & ->)]|H]).
  - rewrite <- E in Hf. exists k, f. split_and!; [done|done|].
    apply frozen_in_slot; [done| |done]. by eapply ok_rcheck.
  - destruct H as (f & Hfresh & _ & -> & E). exists (f_report_id f), f.
    rewrite E. simpl. rewrite lookup_insert_eq. split_and!; [done|done|].
    apply frozen_in_slot; [done| |done]. apply Hfresh.
Qed.

(** ** Deletion and local closure *)

Lemma DeleteClosed_guard pid instance faults db db' :
  DeleteClosedAfterArtifacts pid instance faults db = (inr tt, db') ->
  (db_processes db !! pid = None /\ db' = db)
  \/ exists p, db_processes db !! pid = Some p /\ p_SupervisorInstanceID p = instance
       /\ p_LocalClosed p = true /\ p_ServerReleased p = true /\ no_action db pid
       /\ (forall k f, db_reports db !! k = Some f -> f_process_id f = pid ->
             f_state f = ReportAcknowledged)
       /\ db' = cascade_process pid db.
Proof.
  unfold DeleteClosedAfterArtifacts, processTx, GetProcess. intros H. tx_inv.
  repeat (case_match; tx_inv); [right|by left]. bsimpl.
  match goal with H : CountProcessActions _ _ = 0, H' : CountUnsettledProcessReports _ _ = 0 |- _ =>
    pose proof (proj1 (count_zero _ _) H) as Hno; pose proof (proj1 (count_zero _ _) H') as Hset end.
  match goal with H : DeleteProcess _ _ _ = _ |- _ => unfold DeleteProcess in H end.
  match goal with H : db_processes _ !! _ = Some ?q |- _ => exists q; rewrite H in * end.
  simplify_eq. rewrite bool_decide_eq_true_2 in * by done. simplify_eq.
  split_and!; try done.
  - intros k a Ha E. specialize (Hno _ _ Ha). cbv beta in Hno. by bsimpl.
  - intros k f Hf E. specialize (Hset _ _ Hf). cbv beta in Hset. bcases; done.
Qed.

Lemma markLocalClosed_row pid instance faults db db' :
  markLocalClosed pid instance faults db = (inr tt, db') ->
  exists p, db_processes db' !! pid = Some p /\ p_SupervisorInstanceID p = instance
    /\ p_LocalClosed p = true.
Proof.
  unfold markLocalClosed, processTx, GetProcess, MarkProcessLocalClosed. intros H. tx_inv.
  repeat (case_match; tx_inv); bsimpl; try by eauto.
  match goal with H : update_process _ _ _ _ = _ |- _ =>
    apply update_process_cases in H as [(_ & q & Hq & Hg & _ & ->)|(_ & _ & Hg)] end; simplify_eq.
  - eexists. simpl. rewrite lookup_insert_eq. done.
  - match goal with Hp : db_processes _ !! _ = Some _ |- _ => specialize (Hg _ Hp) end. by bsimpl.
Qed.

(** ** The machine identity *)

Lemma prim_identity_kept db db' x : prim db db' -> db_identity db = Some x -> db_identity db' = Some x.
Proof. intros H Hx. destruct H; simpl; try done. congruence. Qed.

Lemma runs_identity db h db' x :
  db_ok db -> runs db h db' -> db_identity db = Some x -> db_identity db' = Some x.
Proof.
  intros Hok Hr. induction Hr as [|db c faults r db1 h db2 Hwf Hrun Hr IH]; intros Hx; [done|].
  pose proof (run_cmd_effect _ _ _ _ _ Hok Hwf Hrun) as Heff.
  apply IH; [by eapply effect_ok|]. unfold effect in Heff. case_match.
  - destruct Heff as [->|[_ ->]]; done.
  - clear -Heff Hx. induction Heff; eauto using prim_identity_kept.
Qed.

Lemma bind_mismatch installationID machineID i m faults db r db' :
  db_identity db = Some (i, m) -> (installationID, machineID) <> (i, m) ->
  bindOrVerifyIdentity installationID machineID faults db = (r, db') -> exists e, r = inl e.
Proof.
  intros Hid Hne H. destruct r as [e|v]; [eauto|]. exfalso.
  unfold bindOrVerifyIdentity, GetMachineIdentity, verifyIdentityValues in H. tx_inv.
  rewrite Hid in *. repeat (case_match; tx_inv); simplify_eq; bsimpl; congruence.
Qed.

Lemma verifyExisting_db eng i m faults db r db' :
  verifyExistingStateDatabase eng i m faults db = (r, db') -> db' = db.
Proof.
  unfold verifyExistingStateDatabase, read_op. intros H. by repeat (case_match; simplify_eq/=).
Qed.
End Guards.
