(* ===== verification/StateProperties.v ===== *)
(** * Properties of the state database

    The statements a user of [internal/machinedaemon/statedb] relies on, over
    single calls and over histories of calls, each with an instance on the run of
    [StateScenario] where it has hypotheses. *)
From S2P Require Import Prelude DaemonProtocol StateSchema StateQueries StateTx StateReport.
From S2P Require Import StateProcess StateAction StateInvariant StatePreserve StateEffects.
From S2P Require Import StateTrace StateEvidence StateSpec StateRefine StateAudit StateSnapshot.
From S2P Require Import StateOutbox StateDelivery StateScenario StateHistory StateGuards.
From stdpp Require Import options.
Local Open Scope Z_scope.

Section Properties.
Context {RC : ReportCodec}.

(** C1: after any history of calls of the store and of the supervisors, with any
    storage faults, the database satisfies the invariant: every CHECK, key, unique
    index and foreign key of the schema, every report valid, terminal exactly when
    a terminal report is frozen, at most one action row per process and that row
    at the frontier. *)
Theorem reachable_invariant h db : runs empty_db h db -> db_ok db.
Proof. intros H. eapply runs_ok; [|exact H]. apply empty_db_ok. Qed.

(** C2: over any history that does not delete process [pid], the sequence numbers
    of the actions that were admitted for it (executed, or recorded without an
    effect) strictly increase: actions are admitted in order and none twice. *)
Theorem admitted_in_order_once pid db h db' :
  db_ok db -> runs db h db' -> keeps pid h -> StronglySorted Z.lt (omap (admitted pid) h).
Proof. apply admissions_sorted. Qed.


(** C4: a frozen report is never rewritten: a row present after a history whose
    calls do not draw its identifier was there before, for the same process,
    action and kind, with the same body, and its delivery state has not gone back
    (pending, rejected, acknowledged). *)
Theorem frozen_evidence_is_immutable rid db h db' f' :
  runs db h db' -> Forall (fun c => draws (c_cmd c) <> Some rid) h ->
  db_reports db' !! rid = Some f' ->
  exists f, db_reports db !! rid = Some f /\ same_evidence f f'.
Proof. intros Hr Hd. by apply (runs_evidence rid db h db'). Qed.

(** C5: on a database that satisfies the invariant and does not fail,
    [ApplyOnce] answers on every branch what the reference [apply_spec] says, and
    leaves the database the reference leaves. *)
Theorem apply_once_matches_reference s action db :
  db_ok db -> is_int64 (a_Seq action) -> ApplyOnce s action [] db = apply_spec s action db.
Proof. apply ApplyOnce_healthy. Qed.


(** Over any history that does not delete process [pid], at most one call is
    told to spawn it. *)
Theorem spawn_authorized_at_most_once pid db h db' :
  db_ok db -> runs db h db' -> keeps pid h -> (length (List.filter (spawns pid) h) <= 1)%nat.
Proof. apply spawns_once. Qed.

(** C7: a round of the outbox discharges a report only when the server has
    confirmed that very report (committed or cleanup-only); otherwise it stays
    owed, whatever the sends and the database did. *)
Theorem outbox_loses_no_report cleanupOnly forced faults env db forced' progress db' rid :
  db_ok db -> outbox_round cleanupOnly forced faults env db = (forced', progress, db') ->
  owed rid db ->
  owed rid db'
  \/ exists reports, outboxReports cleanupOnly forced faults db = (inr reports, db)
       /\ confirmed reports env rid.
Proof.
  intros Hok H Ho. unfold outbox_round in H.
  destruct (outboxReports cleanupOnly forced faults db) as [r db1] eqn:E.
  assert (db1 = db) as ->.
  { unfold outboxReports in E. destruct (DeliveryCandidates faults db) as [x y] eqn:D.
    unfold DeliveryCandidates, read_op in D. destruct x; by simplify_eq. }
  destruct r as [e|reports]; [simplify_eq; by left|].
  destruct (deliver_owed _ _ _ _ _ _ _ _ rid Hok H Ho); eauto.
Qed.

(** C8: the reports a round sends are candidates, in the query's order and at most
    128, each pending or sent again on request; a report overtakes an unsent one
    of its process only when it is the terminal report and the unsent ones are
    parked behind a rejected action report; and a terminal report is sent only
    when every local action of the process has a rejected report. *)
Theorem outbox_delivery_order cleanupOnly forced db :
  db_ok db ->
  exists out, outboxReports cleanupOnly forced [] db = (inr out, db)
    /\ (length out <= outbox_limit)%nat
    /\ StronglySorted (delivery_le db) (ListFrozenReportDeliveryCandidates db)
    /\ selection cleanupOnly forced (reportFromSQLC <$> ListFrozenReportDeliveryCandidates db) ∅ ∅ out
    /\ forall r k a, r ∈ out -> r_Kind r = ReportProcessTerminal ->
         db_actions db !! k = Some a -> a_ProcessID a = r_ProcessID r ->
         exists k' g, db_reports db !! k' = Some g /\ f_action_id g = Some (a_ID a)
           /\ f_state g = ReportRejected.
Proof.
  intros Hok. destruct (outbox_healthy cleanupOnly forced db Hok) as (out & H & Hl & Hs).
  exists out. split_and!; [done|done|apply candidates_sorted|done|].
  intros r k a Hr Hk Ha Hp.
  assert (r ∈ (reportFromSQLC <$> ListFrozenReportDeliveryCandidates db)) as Hin
    by (eapply elem_of_submseteq; [exact Hr|apply sublist_submseteq, Hs]).
  apply list_elem_of_fmap in Hin as (f & -> & Hf). apply elem_of_candidates in Hf as [Hf Hd]; [|done].
  by eapply deliverable_terminal.
Qed.

(** C9: along any history that does not delete the process, its row only moves
    forward: identity fixed, phase and frontier never back, commitments, closures
    and a recorded containment never withdrawn. *)
Theorem process_row_monotone db h db' pid p :
  db_ok db -> runs db h db' -> keeps pid h -> db_processes db !! pid = Some p ->
  exists p', db_processes db' !! pid = Some p' /\ process_le p p'.
Proof. apply runs_row. Qed.

(** Once the action admission of a process is closed (as it is from the
    terminal report on), no later call is told to execute an action for it. *)
Theorem admission_stays_closed pid db h db' p :
  db_ok db -> runs db h db' -> keeps pid h -> db_processes db !! pid = Some p ->
  p_ActionAdmissionClosed p = true -> omap (executed pid) h = [].
Proof. apply closed_executes_none. Qed.

(** The audit that guards the daemon's start never refuses a database the
    daemon itself produced, when the engine's own checks pass. *)
Theorem audit_accepts_reachable h db eng order :
  runs empty_db h db -> verifyPragmas eng order = None -> eng_integrity eng = inr ["ok"] ->
  Audit eng order [] db = (inr tt, db).
Proof.
  intros Hr Hp Hi. apply audit_exact; [done|done|]. apply db_ok_audited.
  eapply runs_ok; [|exact Hr]. apply empty_db_ok.
Qed.


(** The reconciliation snapshot of a database that satisfies the invariant
    succeeds, lists every process once in key order, and gives each exactly its
    in-flight action, whether that is reported, and its rejected reports. *)
Theorem snapshot_is_exact db :
  db_ok db ->
  exists snapshot, SnapshotForReconciliation [] db = (inr snapshot, db)
    /\ ps_Process <$> snapshot = ListProcesses db /\ Forall (snapshot_of db) snapshot.
Proof. apply snapshot_healthy. Qed.

(** On a healthy database the acknowledgement of any stored report succeeds,
    whatever the report's kind and state, and the report is no longer owed. *)
Theorem acknowledgement_discharges db rid f :
  db_ok db -> db_reports db !! rid = Some f ->
  exists db', AcknowledgeReport rid [] db = (inr tt, db') /\ ~ owed rid db'.
Proof. apply AcknowledgeReport_healthy. Qed.

(** The started-report slot is write-once: after a successful freeze, freezing
    again returns the first report when the content is the same and a conflict
    otherwise, and changes nothing. *)
Theorem started_report_is_write_once s uuid report faults db fr db' uuid' report' :
  db_ok db -> FreezeStartedReport s uuid report faults db = (inr fr, db') ->
  r_Kind report' = ReportProcessStarted -> r_ProcessID report' = sv_processID s ->
  r_ActionID report' = "" -> validateReport report' = None ->
  FreezeStartedReport s uuid' report' [] db' =
    (if sameReportContent fr report' then inr fr else inl ErrStateConflict, db').
Proof.
  intros Hok H Hk Hp Ha Hv.
  assert (db_ok db') as Hok' by (eapply steps_ok; [exact Hok|by eapply FreezeStartedReport_effect]).
  unfold FreezeStartedReport in H |- *. rewrite Hk, Hp, Ha, !bool_decide_eq_true_2 by done. simpl.
  case_match; [by inversion H|]. bsimpl.
  apply write_tx_success in H as (s0 & s1 & <- & H & <-).
  apply bind_inv in H as (o & s2 & Hq & H). apply query_inv in Hq as [-> Hdb2].
  unfold GetProcess in H. destruct (db_processes (tx_db s0) !! sv_processID s) as [p|] eqn:Hrow;
    [|by apply throw_inv in H].
  case_match eqn:Hinst; [by apply throw_inv in H|]. case_match eqn:Hguard; [by apply throw_inv in H|].
  assert (db_processes (tx_db s1) = db_processes (tx_db s2)) as Hrows.
  { apply freezeReportTx_spec in H as (_ & _ & [[-> _]|(f & _ & _ & _ & ->)]); done. }
  destruct (freeze_result (tx_db s2) _ _ _ _ _ eq_refl Hok' H) as (k & f & Hf & -> & Hslot).
  assert (in_slot report' f) as Hslot'.
  { unfold in_slot, slot_action in *. by rewrite Hk, Hp, Ha; destruct Hslot as (-> & -> & ->);
      simplify_eq; repeat match goal with E : _ = _ |- _ => rewrite E end. }
  erewrite write_tx_healthy.
  2: { unfold processTx. rewrite bind_query. unfold GetProcess. rewrite Hrows, Hdb2, Hrow.
       rewrite Hinst, Hguard. by apply (freeze_taken _ _ _ k f). }
  by case_match.
Qed.

(** A process is deleted after its artifacts only if it was closed locally,
    released by the server, had no action left and all its reports were
    acknowledged; then exactly its rows go. *)
Theorem closed_deletion_guard pid instance faults db db' :
  DeleteClosedAfterArtifacts pid instance faults db = (inr tt, db') ->
  (db_processes db !! pid = None /\ db' = db)
  \/ exists p, db_processes db !! pid = Some p /\ p_SupervisorInstanceID p = instance
       /\ p_LocalClosed p = true /\ p_ServerReleased p = true /\ no_action db pid
       /\ (forall k f, db_reports db !! k = Some f -> f_process_id f = pid ->
             f_state f = ReportAcknowledged)
       /\ db' = cascade_process pid db.
Proof. apply DeleteClosed_guard. Qed.

(** After a successful local closure the evidence is complete: the process is
    terminal with its terminal report frozen, its containment is empty, its
    admission is closed, and every action it still has is reported. *)
Theorem local_closure_is_complete pid instance faults db db' :
  db_ok db -> markLocalClosed pid instance faults db = (inr tt, db') ->
  exists p, db_processes db' !! pid = Some p /\ p_LocalClosed p = true
    /\ p_Phase p = ProcessTerminal /\ p_ActionAdmissionClosed p = true
    /\ p_ContainmentEmpty p = true /\ has_terminal_report db' pid
    /\ forall k a, db_actions db' !! k = Some a -> a_ProcessID a = pid -> reported db' (a_ID a).
Proof.
  intros Hok H. destruct (markLocalClosed_row _ _ _ _ _ H) as (p & Hp & _ & Hcl).
  apply markLocalClosed_effect in H. pose proof (steps_ok _ _ Hok H) as Hok'.
  pose proof (ok_closed _ Hok' _ _ Hp Hcl) as Hph. pose proof (ok_pcheck _ Hok' _ _ Hp) as Hck.
  exists p. split_and!; try done.
  - unfold processes_check in Hck. rewrite Hcl in Hck. bsimpl. bcases; done.
  - unfold processes_check in Hck. rewrite Hcl in Hck. bsimpl. bcases; done.
  - by apply (ok_terminal _ Hok' _ _ Hp).
  - intros k a Ha E. by eapply (ok_closed_reported _ Hok').
Qed.

(** A supervisor handle is given out only when the database is bound to the
    caller's installation and machine and holds the process with the caller's
    instance and token; opening it writes nothing. *)
Theorem supervisor_handle_is_authenticated eng order path i m pid instance token faults db s db' :
  OpenSupervisor eng order path i m pid instance token faults db = (inr s, db') ->
  db' = db /\ s = mkSupervisor pid instance /\ db_identity db = Some (i, m)
  /\ exists p, db_processes db !! pid = Some p /\ p_SupervisorInstanceID p = instance
       /\ p_SupervisorToken p = token.
Proof.
  unfold OpenSupervisor, open, verifyIdentity, verifyIdentityValues, Store_Process, read_op,
    GetMachineIdentity, GetProcess. intros H.
  repeat (case_match; simplify_eq/=); bsimpl; subst;
    repeat match goal with
    | H : fst (query _ _) = inr _ |- _ => apply query_fst in H
    end; simplify_eq/=; eauto 10.
Qed.

(** A state database serves one machine for ever: once bound, no history
    changes the binding, and the daemon of another installation or machine cannot
    open it. *)
Theorem database_serves_one_machine db h db' i m i' m' eng order vf af path faults r db'' :
  db_ok db -> db_identity db = Some (i, m) -> runs db h db' -> (i', m') <> (i, m) ->
  open eng order vf af path i' m' true faults db' = (r, db'') ->
  db_identity db' = Some (i, m) /\ exists e, r = inl e.
Proof.
  intros Hok Hid Hr Hne H. pose proof (runs_identity _ _ _ _ Hok Hr Hid) as Hid'.
  split; [done|]. unfold open in H.
  repeat (case_match; simplify_eq; try by eauto).
  all: match goal with E : verifyExistingStateDatabase _ _ _ _ _ = (_, ?d) |- _ =>
         assert (d = db') as -> by (by eapply verifyExisting_db) end.
  all: match goal with E : bindOrVerifyIdentity _ _ _ _ = _ |- _ =>
         eapply bind_mismatch in E as [? ?]; [done|exact Hid'|done] end.
Qed.
End Properties.

(** ** Instances on the run of [StateScenario] *)

(** Discharges a decidable hypothesis by evaluation. *)
Ltac evaluate := apply (bool_decide_unpack _); vm_compute; exact I.

Lemma booted_ok : db_ok booted_db.
Proof. eapply runs_ok; [apply empty_db_ok|apply demo_boot_runs]. Qed.

Lemma closed_ok : db_ok closed_db.
Proof. eapply runs_ok; [apply empty_db_ok|apply demo_runs]. Qed.

Definition booted_row : Process :=
  mkProcess "p1" "s1" "t1" ProcessAccepted 0 true "cgroup" "c1" false false false false.

Lemma booted_lookup : db_processes booted_db !! "p1" = Some booted_row.
Proof. vm_compute. reflexivity. Qed.

Lemma work_keeps : keeps "p1" (run_all demo_work booted_db).1.
Proof. evaluate. Qed.

Definition demo_engine : Engine :=
  mkEngine false (fun _ => true) true None None
    (fun pragma => match list_find (fun e => e.1 = pragma) (expected_pragmas false) with
                   | Some (_, (_, v)) => inr v
                   | None => inl OtherDbError
                   end)
    (inr "WAL") (inr ["ok"]) (inr (5, true, true)) None None.

Lemma reachable_invariant_witness : db_ok closed_db.
Proof. apply (reachable_invariant (run_all demo_history empty_db).1). apply demo_runs. Defined.

Lemma admitted_in_order_once_witness :
  omap (admitted "p1") (run_all demo_work booted_db).1 = [1; 2]
  /\ StronglySorted Z.lt (omap (admitted "p1") (run_all demo_work booted_db).1).
Proof.
  split; [vm_compute; reflexivity|].
  apply (admitted_in_order_once "p1" booted_db _ worked_db);
    [apply booted_ok|apply demo_work_runs|apply work_keeps].
Defined.


Lemma frozen_evidence_is_immutable_witness :
  exists f, db_reports booted_db !! "rpt_u0" = Some f
    /\ same_evidence f (mkFrozenReport "rpt_u0" "p1" None ReportProcessStarted "started"
                          ReportPending "" "").
Proof.
  apply (frozen_evidence_is_immutable "rpt_u0" booted_db (run_all demo_work booted_db).1 worked_db);
    [apply demo_work_runs|evaluate|vm_compute; reflexivity].
Defined.

Lemma apply_once_matches_reference_witness :
  (apply_spec demo_sup (demo_action "a9" 9) booted_db).1 = inr (ApplyExecute, Report_zero)
  /\ ApplyOnce demo_sup (demo_action "a9" 9) [] booted_db
     = apply_spec demo_sup (demo_action "a9" 9) booted_db.
Proof.
  split; [vm_compute; reflexivity|].
  apply (apply_once_matches_reference demo_sup (demo_action "a9" 9) booted_db);
    [apply booted_ok|evaluate].
Defined.


Lemma spawn_authorized_at_most_once_witness :
  (length (List.filter (spawns "p1") (run_all demo_history empty_db).1) <= 1)%nat.
Proof.
  apply (spawn_authorized_at_most_once "p1" empty_db _ closed_db);
    [apply empty_db_ok|apply demo_runs|evaluate].
Defined.

(** The send of the started report fails: it stays owed. *)
Lemma outbox_loses_no_report_witness :
  owed "rpt_u0" booted_db \/ exists reports,
    outboxReports (fun _ => false) ∅ [] booted_db = (inr reports, booted_db)
    /\ confirmed reports [mkExchange None None []] "rpt_u0".
Proof.
  apply (outbox_loses_no_report (fun _ => false) ∅ [] [mkExchange None None []] booted_db ∅ false);
    [apply booted_ok|vm_compute; reflexivity|].
  eexists. split; [vm_compute; reflexivity|done].
Defined.

Lemma outbox_delivery_order_witness :
  exists out, outboxReports (fun _ => false) ∅ [] closed_db = (inr out, closed_db)
    /\ r_ID <$> out = ["rpt_u0"; "rpt_u2"].
Proof.
  destruct (outbox_delivery_order (fun _ => false) ∅ closed_db closed_ok) as (out & H & _).
  exists out. split; [exact H|].
  assert (out = match (outboxReports (fun _ => false) ∅ [] closed_db).1 with
                | inr l => l | inl _ => [] end) as -> by by rewrite H.
  vm_compute. reflexivity.
Defined.

Lemma process_row_monotone_witness :
  exists p', db_processes worked_db !! "p1" = Some p' /\ process_le booted_row p'.
Proof.
  apply (process_row_monotone booted_db (run_all demo_work booted_db).1 worked_db "p1" booted_row);
    [apply booted_ok|apply demo_work_runs|apply work_keeps|apply booted_lookup].
Defined.

Definition late_calls : list (Cmd * Faults) := [(CApplyOnce demo_sup (demo_action "a7" 7), [])].

Lemma admission_stays_closed_witness :
  omap (executed "p1") (run_all late_calls closed_db).1 = [].
Proof.
  eapply (admission_stays_closed "p1" closed_db (run_all late_calls closed_db).1
            (run_all late_calls closed_db).2).
  - apply closed_ok.
  - apply (run_all_runs late_calls closed_db). evaluate.
  - evaluate.
  - vm_compute. reflexivity.
  - vm_compute. reflexivity.
Defined.

Lemma audit_accepts_reachable_witness :
  Audit demo_engine (expected_pragmas false) [] closed_db = (inr tt, closed_db).
Proof.
  apply (audit_accepts_reachable (run_all demo_history empty_db).1);
    [apply demo_runs|vm_compute; reflexivity|reflexivity].
Defined.


Lemma snapshot_is_exact_witness :
  exists snapshot, SnapshotForReconciliation [] closed_db = (inr snapshot, closed_db)
    /\ ps_Process <$> snapshot = ListProcesses closed_db /\ Forall (snapshot_of closed_db) snapshot.
Proof. apply (snapshot_is_exact closed_db closed_ok). Defined.

Lemma acknowledgement_discharges_witness :
  exists db', AcknowledgeReport "rpt_u2" [] closed_db = (inr tt, db') /\ ~ owed "rpt_u2" db'.
Proof.
  eapply (acknowledgement_discharges closed_db "rpt_u2"); [apply closed_ok|vm_compute; reflexivity].
Defined.

(** The started report of [demo_boot], frozen again with the same content. *)
Lemma started_report_is_write_once_witness :
  (FreezeStartedReport demo_sup "u-9" (demo_report "" ReportProcessStarted "started") []
     booted_db).1
  = inr (mkReport "rpt_u0" "p1" "" ReportProcessStarted "started" ReportPending "" "").
Proof.
  rewrite (started_report_is_write_once demo_sup "u-8"
             (demo_report "" ReportProcessStarted "started") [] booted_db
             (mkReport "rpt_u0" "p1" "" ReportProcessStarted "started" ReportPending "" "")
             booted_db "u-9" (demo_report "" ReportProcessStarted "started"));
    [vm_compute; reflexivity|apply booted_ok|vm_compute; reflexivity..].
Defined.

(** The acknowledged, closed process goes. *)
Definition settled_db : DB :=
  (run_all [(CAcknowledgeReport "rpt_u0", []); (CAcknowledgeReport "rpt_u2", []);
            (CAcknowledgeReport "rpt_u3", [])] closed_db).2.

Lemma closed_deletion_guard_witness :
  exists p, db_processes settled_db !! "p1" = Some p /\ p_LocalClosed p = true
    /\ no_action settled_db "p1".
Proof.
  destruct (closed_deletion_guard "p1" "s1" [] settled_db
              (cascade_process "p1" settled_db)) as [[H _]|(p & H)];
    [vm_compute; reflexivity|exfalso; vm_compute in H; discriminate H|].
  exists p. repeat (split; [apply H|]). apply H.
Defined.

Lemma local_closure_is_complete_witness :
  exists p, db_processes closed_db !! "p1" = Some p /\ p_LocalClosed p = true
    /\ has_terminal_report closed_db "p1".
Proof.
  destruct (local_closure_is_complete "p1" "s1" [] closed_db closed_db) as (p & H1 & H2 & _ & _ & _ & H3 & _);
    [apply closed_ok|vm_compute; reflexivity|]. exists p. auto.
Defined.

Lemma supervisor_handle_is_authenticated_witness : db_identity booted_db = Some ("i1", "m1").
Proof.
  apply (supervisor_handle_is_authenticated demo_engine (expected_pragmas false) "/state.db"
           "i1" "m1" "p1" "s1" "t1" [] booted_db demo_sup booted_db).
  vm_compute. reflexivity.
Defined.

Lemma database_serves_one_machine_witness :
  db_identity worked_db = Some ("i1", "m1")
  /\ exists e, (open demo_engine (expected_pragmas false) [] [] "/state.db" "i2" "m1" true []
                  worked_db).1 = inl e.
Proof.
  apply (database_serves_one_machine booted_db (run_all demo_work booted_db).1 worked_db
           "i1" "m1" "i2" "m1" demo_engine (expected_pragmas false) [] [] "/state.db" []
           _ worked_db);
    [apply booted_ok|vm_compute; reflexivity|apply demo_work_runs|discriminate|vm_compute; reflexivity].
Defined.
