(* ===== verification/Compaction.v ===== *)
(** * Context compaction: choosing what to summarise

    Models [internal/compaction/planner.go] and [progressive.go]: from the
    ordered source events of an agent and the atomic groups (a tool call with its
    result, ...), choose the event sequence from which the transcript is kept
    verbatim, and check that the summarised range splits no atomic group.

    Sequences and token counts are Go [int64]/[int] with their wrap-around.  A UUID
    is its text, [uuid.Nil] the empty string.  The content parts are raw JSON: how
    many parts [json.Unmarshal] finds in them is the parameter [unmarshal_parts]. *)
From S2P Require Import Prelude.
From stdpp Require Import options.
Local Open Scope Z_scope.

Inductive EventKind : Type :=
  | KindModelOutput
  | KindToolResult
  | KindAgentInput
  | KindContextCheckpoint
  | KindOtherEvent (s : string).

Global Instance EventKind_eq_dec : EqDecision EventKind.
Proof. solve_decision. Defined.

Definition uuid_Nil : string := "".

(** [executionstore.CompactionSourceEventRecord], the fields the planner reads. *)
Record SourceEvent : Type := mkSourceEvent {
  ev_Sequence : Z;
  ev_TurnID : string;
  ev_IsOpeningEvent : bool;
  ev_Kind : EventKind;
  ev_ToolName : string;
  ev_ProviderCallID : string;
  ev_ToolOutcome : string;
  ev_ContentParts : string
}.

Record AtomicGroup : Type := mkAtomicGroup {
  g_Kind : string;
  g_StartSequence : Z;
  g_EndSequence : Z
}.

Record PlanInput : Type := mkPlanInput {
  pi_ProjectID : string;
  pi_AgentID : string;
  pi_InputEventSequence : Z;
  pi_SummarizedThroughEventSequence : Z;
  pi_RetainFromEventSequence : Z;
  pi_AtomicGroups : list AtomicGroup
}.

Record Plan : Type := mkPlan {
  pl_ProjectID : string;
  pl_AgentID : string;
  pl_InputEventSequence : Z;
  pl_EventSequenceStart : Z;
  pl_EventSequenceEnd : Z
}.

Record RetainBoundaryInput : Type := mkRetainBoundaryInput {
  rb_SourceEventSequenceStart : Z;
  rb_DesiredRetainFromSequence : Z;
  rb_DesiredRetainTokens : Z;
  rb_MaximumRetainFromSequence : Z;
  rb_Events : list SourceEvent;
  rb_AtomicGroups : list AtomicGroup
}.

(** The errors of the planner, by their message. *)
Abbreviation PlanErr := string (only parsing).

Definition maxRecentTailTargetTokens : Z := 20000.

(** Go's [/] truncates; the operand is positive where it is used. *)
Definition RecentTailTargetTokens (usableInputTokens : Z) : Z :=
  if usableInputTokens <=? 0 then 0
  else
    let recentTailTargetTokens := Z.quot usableInputTokens 4 in
    if maxRecentTailTargetTokens <? recentTailTargetTokens
    then maxRecentTailTargetTokens else recentTailTargetTokens.

(** ** Helpers *)

Definition EstimateSourceEventTokens (event : SourceEvent) : Z :=
  Z.of_nat (String.length (ev_ContentParts event)) / 4 + 1.

Definition rangesOverlap (aStart aEnd bStart bEnd : Z) : bool := (aStart <=? bEnd) && (bStart <=? aEnd).

Definition group_invalid (group : AtomicGroup) : bool :=
  (g_StartSequence group <=? 0) || (g_EndSequence group <? g_StartSequence group).

Fixpoint events_ordered (previousSequence : Z) (events : list SourceEvent) : bool :=
  match events with
  | [] => true
  | event :: rest =>
      if ev_Sequence event <=? previousSequence then false
      else events_ordered (ev_Sequence event) rest
  end.

Definition validateRetainBoundaryInput (input : RetainBoundaryInput) : option PlanErr :=
  if (rb_SourceEventSequenceStart input <=? 0) || (rb_DesiredRetainFromSequence input <=? 0)
     || (rb_MaximumRetainFromSequence input <=? 0)
  then Some "source, desired retain, and maximum retain sequences are required"
  else if rb_MaximumRetainFromSequence input <? rb_DesiredRetainFromSequence input
  then Some "desired retain sequence exceeds maximum retain sequence"
  else if negb (events_ordered 0 (rb_Events input))
  then Some "compaction source events must be strictly ordered"
  else if existsb group_invalid (rb_AtomicGroups input)
  then Some "invalid atomic group"
  else None.

(** A Go [map[uuid.UUID]int64] filled by a loop: the last assignment wins, a
    missing key reads 0. *)
Definition map_get {K} `{Countable K} (m : gmap K Z) (k : K) : Z := default 0 (m !! k).

Definition latest_by_turn (keep : SourceEvent -> bool) (events : list SourceEvent) : gmap string Z :=
  foldl (fun m event => if keep event then <[ev_TurnID event := ev_Sequence event]> m else m) ∅ events.

Section Planner.
Context (unmarshal_parts : string -> option nat).

Definition compactionEventHasModelSemantics (event : SourceEvent) : bool :=
  if ev_Kind event ==? KindContextCheckpoint then false
  else if (ev_ToolName event <>? "") || (ev_ProviderCallID event <>? "")
          || (ev_ToolOutcome event <>? "")
  then true
  else
    match unmarshal_parts (ev_ContentParts event) with
    | None => true
    | Some parts => Nat.ltb 0 parts
    end.

Definition compactionEventEndsSettledStep (event : SourceEvent)
    (latestModelOutputByTurn : gmap string Z) : bool :=
  match ev_Kind event with
  | KindModelOutput | KindToolResult => true
  | KindAgentInput => ev_Sequence event <? map_get latestModelOutputByTurn (ev_TurnID event)
  | _ => false
  end.

(** Ending the source at [event] would cut the group. *)
Definition cuts (event : SourceEvent) (group : AtomicGroup) : bool :=
  (g_StartSequence group <=? ev_Sequence event) && (ev_Sequence event <? g_EndSequence group).

Definition safeCompactionSourceEndsWithWitness (events witnessEvents : list SourceEvent)
    (groups : list AtomicGroup) : list Z :=
  let latestModelOutputByTurn := latest_by_turn (fun e => ev_Kind e ==? KindModelOutput) witnessEvents in
  ev_Sequence <$> List.filter (fun event =>
    compactionEventHasModelSemantics event
    && compactionEventEndsSettledStep event latestModelOutputByTurn
    && negb (existsb (cuts event) groups)) events.

Definition safeCompactionSourceEnds (events : list SourceEvent) (groups : list AtomicGroup) : list Z :=
  safeCompactionSourceEndsWithWitness events events groups.

Definition completeTurnSourceEnds (events witnessEvents : list SourceEvent) (candidates : list Z)
    : list Z :=
  let latestSequenceByTurn :=
    latest_by_turn (fun e => (ev_Kind e <>? KindContextCheckpoint) && (ev_TurnID e <>? uuid_Nil))
      witnessEvents in
  let eventBySequence :=
    foldl (fun m event => <[ev_Sequence event := event]> m) (∅ : gmap Z SourceEvent) events in
  List.filter (fun candidate =>
    match eventBySequence !! candidate with
    | None => false
    | Some event =>
        (ev_Kind event ==? KindModelOutput) && (ev_TurnID event <>? uuid_Nil)
        && (map_get latestSequenceByTurn (ev_TurnID event) =? candidate)
    end) candidates.

Fixpoint boundaries_from (before : Z) (candidates : list Z) (beforeTarget : Z -> bool) : Z * Z :=
  match candidates with
  | [] => (before, 0)
  | candidate :: rest =>
      if beforeTarget candidate then boundaries_from candidate rest beforeTarget
      else (before, candidate)
  end.

Definition boundariesAroundTarget (candidates : list Z) (beforeTarget : Z -> bool) : Z * Z :=
  boundaries_from 0 candidates beforeTarget.

Fixpoint tail_fits (retainFrom limit tokens : Z) (events : list SourceEvent) : bool :=
  match events with
  | [] => true
  | event :: rest =>
      if ev_Sequence event <? retainFrom then tail_fits retainFrom limit tokens rest
      else
        let tokens' := wrap64 (tokens + EstimateSourceEventTokens event) in
        if limit <? tokens' then false else tail_fits retainFrom limit tokens' rest
  end.

Definition retainedTailFitsTarget (input : RetainBoundaryInput) (retainFrom : Z) : bool :=
  if rb_DesiredRetainTokens input <=? 0 then true
  else tail_fits retainFrom (rb_DesiredRetainTokens input) 0 (rb_Events input).

Definition wholeTurnBoundaryRetainFrom (input : RetainBoundaryInput) (safeEnds : list Z) : Z :=
  match rb_DesiredRetainTokens input <=? 0, last (rb_Events input) with
  | true, _ | _, None => 0
  | false, Some latest =>
      let desiredSourceEnd := wrap64 (rb_DesiredRetainFromSequence input - 1) in
      let latestSequence := ev_Sequence latest in
      let eligibleEnds := List.filter (fun ending =>
        negb ((ending <? rb_SourceEventSequenceStart input)
              || (rb_MaximumRetainFromSequence input <=? ending)
              || (latestSequence <=? ending)))
        (completeTurnSourceEnds (rb_Events input) (rb_Events input) safeEnds) in
      let '(latestBefore, firstAfter) :=
        boundariesAroundTarget eligibleEnds (fun ending => ending <=? desiredSourceEnd) in
      if (0 <? latestBefore) && retainedTailFitsTarget input (wrap64 (latestBefore + 1))
      then wrap64 (latestBefore + 1)
      else if 0 <? firstAfter then wrap64 (firstAfter + 1)
      else 0
  end.

(** The scan of [wholeTurnRetainFrom] over one turn: its tokens and the first
    sequence flagged as opening (0 when there is none). *)
Fixpoint scan_turn (turnID : string) (openingSequence turnTokens : Z) (events : list SourceEvent)
    : Z * Z :=
  match events with
  | [] => (openingSequence, turnTokens)
  | event :: rest =>
      if ev_TurnID event <>? turnID then scan_turn turnID openingSequence turnTokens rest
      else
        let turnTokens' := wrap64 (turnTokens + EstimateSourceEventTokens event) in
        let openingSequence' :=
          if ev_IsOpeningEvent event
             && ((openingSequence =? 0) || (ev_Sequence event <? openingSequence))
          then ev_Sequence event else openingSequence in
        scan_turn turnID openingSequence' turnTokens' rest
  end.

Definition wholeTurnRetainFrom (input : RetainBoundaryInput) (safeEnds : list Z) : Z :=
  if rb_DesiredRetainTokens input <=? 0 then 0
  else
    let desiredTurnID :=
      match List.find (fun e => ev_Sequence e =? rb_DesiredRetainFromSequence input)
              (rb_Events input) with
      | Some event => ev_TurnID event
      | None => uuid_Nil
      end in
    if desiredTurnID ==? uuid_Nil then 0
    else
      let '(openingSequence, turnTokens) := scan_turn desiredTurnID 0 0 (rb_Events input) in
      if (openingSequence <=? rb_SourceEventSequenceStart input)
         || (rb_DesiredRetainFromSequence input <? openingSequence)
         || (rb_MaximumRetainFromSequence input <? openingSequence)
         || (rb_DesiredRetainTokens input <? turnTokens)
      then 0
      else
        let wantedSourceEnd := wrap64 (openingSequence - 1) in
        if existsb (Z.eqb wantedSourceEnd) safeEnds then openingSequence else 0.

(** ** The entry points *)

Definition eligible (input : RetainBoundaryInput) (ending : Z) : bool :=
  negb ((ending <? rb_SourceEventSequenceStart input)
        || (rb_MaximumRetainFromSequence input <=? ending)).

(** The loop of [SelectRetainFromEventSequence] over the safe ends. *)
Fixpoint scan_ends (input : RetainBoundaryInput) (desiredSourceEnd latestBefore : Z)
    (safeEnds : list Z) : Z * Z :=
  match safeEnds with
  | [] => (latestBefore, 0)
  | ending :: rest =>
      if negb (eligible input ending) then scan_ends input desiredSourceEnd latestBefore rest
      else if ending <=? desiredSourceEnd then scan_ends input desiredSourceEnd ending rest
      else (latestBefore, ending)
  end.

(** [inr None] is [(0, false, nil)]. *)
Definition SelectRetainFromEventSequence (input : RetainBoundaryInput) : PlanErr + option Z :=
  match validateRetainBoundaryInput input with
  | Some err => inl err
  | None =>
      let safeEnds := safeCompactionSourceEnds (rb_Events input) (rb_AtomicGroups input) in
      let retainFrom := wholeTurnRetainFrom input safeEnds in
      if 0 <? retainFrom then inr (Some retainFrom)
      else
        let retainFrom := wholeTurnBoundaryRetainFrom input safeEnds in
        if 0 <? retainFrom then inr (Some retainFrom)
        else
          let desiredSourceEnd := wrap64 (rb_DesiredRetainFromSequence input - 1) in
          let '(latestBefore, firstAfter) := scan_ends input desiredSourceEnd 0 safeEnds in
          if (0 <? latestBefore) && retainedTailFitsTarget input (wrap64 (latestBefore + 1))
          then inr (Some (wrap64 (latestBefore + 1)))
          else if 0 <? firstAfter then inr (Some (wrap64 (firstAfter + 1)))
          else if 0 <? latestBefore then inr (Some (wrap64 (latestBefore + 1)))
          else inr None
  end.

Definition RetainFromEventSequenceCandidates (input : RetainBoundaryInput) : PlanErr + list Z :=
  match validateRetainBoundaryInput input with
  | Some err => inl err
  | None =>
      inr ((fun ending => wrap64 (ending + 1)) <$>
           List.filter (eligible input)
             (safeCompactionSourceEnds (rb_Events input) (rb_AtomicGroups input)))
  end.

Fixpoint check_groups (start ending : Z) (groups : list AtomicGroup) : option PlanErr :=
  match groups with
  | [] => None
  | group :: rest =>
      if group_invalid group then Some "invalid atomic group"
      else if (start <=? g_StartSequence group) && (g_EndSequence group <=? ending)
      then check_groups start ending rest
      else if rangesOverlap start ending (g_StartSequence group) (g_EndSequence group)
      then Some "checkpoint range splits atomic group"
      else check_groups start ending rest
  end.

Definition PlanCheckpoint (input : PlanInput) : PlanErr + option Plan :=
  if (pi_ProjectID input ==? uuid_Nil) || (pi_AgentID input ==? uuid_Nil)
  then inl "project and agent are required"
  else if pi_InputEventSequence input <=? 0 then inl "event watermark is required"
  else if pi_RetainFromEventSequence input <=? 1 then inr None
  else
    let start := wrap64 (pi_SummarizedThroughEventSequence input + 1) in
    let ending := wrap64 (pi_RetainFromEventSequence input - 1) in
    if ending <? start then inr None
    else if pi_InputEventSequence input <? ending
    then inl "checkpoint range exceeds event watermark"
    else
      match check_groups start ending (pi_AtomicGroups input) with
      | Some err => inl err
      | None =>
          inr (Some (mkPlan (pi_ProjectID input) (pi_AgentID input) (pi_InputEventSequence input)
                       start ending))
      end.

Definition OpeningEventsRequireVerbatimRetention (events : list SourceEvent) (openingStart : Z)
    : bool :=
  negb (existsb (fun e => (openingStart <? ev_Sequence e) && (ev_Kind e ==? KindModelOutput)) events).
End Planner.

(** ** progressive.go *)

Definition defaultMaxProgressiveCheckpoints : Z := 3.

Record ProgressiveCheckpointInput : Type := mkProgressiveInput {
  pc_PriorSummarizedThroughEventSequence : Z;
  pc_ConsecutiveCheckpointCount : Z;
  pc_CandidateSummarizedThroughSequence : Z;
  pc_HasRemainingSemanticSource : bool
}.

Record ProgressiveCheckpointDecision : Type := mkProgressiveDecision {
  pd_Allowed : bool;
  pd_Reason : string
}.

Definition Evaluate (input : ProgressiveCheckpointInput) : PlanErr + ProgressiveCheckpointDecision :=
  if pc_CandidateSummarizedThroughSequence input <=? pc_PriorSummarizedThroughEventSequence input
  then inr (mkProgressiveDecision false
              "candidate checkpoint does not advance the summarized event frontier")
  else if negb (pc_HasRemainingSemanticSource input)
  then inr (mkProgressiveDecision false
              "candidate checkpoint leaves no model-visible source for another compaction step")
  else if pc_ConsecutiveCheckpointCount input <? 0
  then inl "consecutive checkpoint count cannot be negative"
  else if defaultMaxProgressiveCheckpoints <=? pc_ConsecutiveCheckpointCount input
  then inr (mkProgressiveDecision false "progressive checkpoint limit of 3 was reached")
  else inr (mkProgressiveDecision true "").
