(* ===== verification/CompactionProofs.v ===== *)
(** * Correctness of the compaction planner

    A boundary the planner selects is one of its candidates: it cuts no atomic
    group, stays within the allowed range and does not overflow; one is found
    whenever there is one; and planning a checkpoint up to it succeeds. *)
From S2P Require Import Prelude Compaction.
From stdpp Require Import options.
Local Open Scope Z_scope.

(** The fields of an input are Go [int64]s. *)
Definition int64_input (input : RetainBoundaryInput) : Prop :=
  is_int64 (rb_DesiredRetainFromSequence input) /\ is_int64 (rb_MaximumRetainFromSequence input).

Global Instance int64_input_dec input : Decision (int64_input input).
Proof. unfold int64_input. apply _. Defined.

(** A group lies inside or outside the range [start..ending]. *)
Definition unsplit (start ending : Z) (g : AtomicGroup) : Prop :=
  (start <= g_StartSequence g /\ g_EndSequence g <= ending)
  \/ g_EndSequence g < start \/ ending < g_StartSequence g.

Lemma check_groups_None start ending groups :
  check_groups start ending groups = None <->
  Forall (fun g => group_invalid g = false /\ unsplit start ending g) groups.
Proof.
  induction groups as [|g groups IH]; simpl; [split; [constructor|done]|].
  rewrite Forall_cons, <- IH. unfold unsplit, rangesOverlap.
  destruct (group_invalid g) eqn:Hi; [naive_solver|].
  destruct ((start <=? g_StartSequence g) && (g_EndSequence g <=? ending)) eqn:H1.
  { bsimpl. naive_solver lia. }
  destruct ((start <=? g_EndSequence g) && (g_StartSequence g <=? ending)) eqn:H2.
  - bcases; (split; [done|]); intros [[_ ?] _]; lia.
  - assert (g_EndSequence g < start \/ ending < g_StartSequence g) by (bcases; lia). tauto.
Qed.

Lemma events_ordered_spec p events :
  events_ordered p events = true <->
  StronglySorted Z.lt (ev_Sequence <$> events) /\ Forall (fun e => p < ev_Sequence e) events.
Proof.
  revert p. induction events as [|e events IH]; intros p; simpl.
  { split; [split; constructor|done]. }
  destruct (ev_Sequence e <=? p) eqn:E; bsimpl.
  - split; [done|]. intros [_ H]. apply Forall_cons in H as [H _]. lia.
  - rewrite IH, Forall_cons. split.
    + intros [Hs Hf]. split; [constructor; [done|by apply Forall_fmap]|].
      split; [done|]. eapply Forall_impl; [exact Hf|]. simpl. lia.
    + intros [Hs [_ Hf]]. inversion Hs as [|? ? Hs' Hf']; subst. split; [done|].
      change (Forall (Z.lt (ev_Sequence e)) (ev_Sequence <$> events)) in Hf'.
      by rewrite Forall_fmap in Hf'.
Qed.

Section Proofs.
Context (unmarshal_parts : string -> option nat).
Local Abbreviation safe_ends input :=
  (safeCompactionSourceEnds unmarshal_parts (rb_Events input) (rb_AtomicGroups input)).

Lemma safe_end_spec events groups ending :
  ending ∈ safeCompactionSourceEnds unmarshal_parts events groups ->
  (exists e, e ∈ events /\ ev_Sequence e = ending)
  /\ Forall (fun g => ~ (g_StartSequence g <= ending < g_EndSequence g)) groups.
Proof.
  unfold safeCompactionSourceEnds, safeCompactionSourceEndsWithWitness.
  rewrite list_elem_of_fmap. intros (e & -> & He).
  apply elem_of_filter_bool in He as [Hb He]. split; [eauto|].
  apply andb_true_iff in Hb as [_ Hb]. apply negb_true_iff in Hb.
  apply Forall_forall. intros g Hg Hcut. apply not_true_iff_false in Hb. apply Hb.
  apply existsb_exists. exists g. split; [by apply list_elem_of_In|].
  unfold cuts. rewrite andb_true_iff, Z.leb_le, Z.ltb_lt. lia.
Qed.

Lemma validated input :
  validateRetainBoundaryInput input = None ->
  0 < rb_SourceEventSequenceStart input /\ 0 < rb_DesiredRetainFromSequence input
  /\ rb_DesiredRetainFromSequence input <= rb_MaximumRetainFromSequence input
  /\ StronglySorted Z.lt (ev_Sequence <$> rb_Events input)
  /\ Forall (fun e => 0 < ev_Sequence e) (rb_Events input)
  /\ Forall (fun g => group_invalid g = false) (rb_AtomicGroups input).
Proof.
  unfold validateRetainBoundaryInput. intros H. repeat case_match; try done. bsimpl.
  match goal with E : events_ordered _ _ = true |- _ => apply events_ordered_spec in E as [? ?] end.
  split_and!; try done. apply Forall_forall. intros g Hg. apply not_true_iff_false. intros Hi.
  match goal with E : existsb _ _ = false |- _ => apply not_true_iff_false in E; apply E end.
  apply existsb_exists. exists g. split; [by apply list_elem_of_In|done].
Qed.

Lemma StronglySorted_filter_bool {A} (R : relation A) (P : A -> bool) l :
  StronglySorted R l -> StronglySorted R (List.filter P l).
Proof.
  induction 1 as [|x l Hs IH Hf]; simpl; [constructor|]. case_match; [|done].
  constructor; [done|]. apply Forall_forall. intros y [_ Hy]%elem_of_filter_bool.
  rewrite Forall_forall in Hf. auto.
Qed.

Lemma safe_ends_sorted events groups :
  StronglySorted Z.lt (ev_Sequence <$> events) ->
  StronglySorted Z.lt (safeCompactionSourceEnds unmarshal_parts events groups).
Proof.
  intros H. unfold safeCompactionSourceEnds, safeCompactionSourceEndsWithWitness.
  set (P := fun event : SourceEvent => _). clearbody P.
  induction events as [|e events IH]; simpl; [constructor|].
  inversion H as [|? ? Hs Hf]; subst. destruct (P e); [|by apply IH].
  constructor; [by apply IH|]. rewrite Forall_forall in Hf |- *. intros y Hy.
  apply list_elem_of_fmap in Hy as (e' & -> & He'). apply elem_of_filter_bool in He' as [_ He'].
  apply Hf. apply list_elem_of_fmap. eauto.
Qed.

(** [r] is a boundary the planner may choose. *)
Definition candidate (input : RetainBoundaryInput) (r : Z) : Prop :=
  exists ending, r = ending + 1 /\ ending ∈ safe_ends input /\ eligible input ending = true.

Lemma eligible_spec input ending :
  eligible input ending = true <->
  rb_SourceEventSequenceStart input <= ending < rb_MaximumRetainFromSequence input.
Proof.
  unfold eligible. rewrite negb_true_iff, orb_false_iff, Z.ltb_ge, Z.leb_gt. lia.
Qed.

Lemma end_succ input ending :
  int64_input input -> validateRetainBoundaryInput input = None ->
  eligible input ending = true -> wrap64 (ending + 1) = ending + 1.
Proof.
  intros [_ H64] Hv [? ?]%eligible_spec. apply validated in Hv as (? & _).
  apply wrap64_id. unfold is_int64, int64_min in *. lia.
Qed.

Lemma wholeTurnRetainFrom_candidate input :
  int64_input input -> validateRetainBoundaryInput input = None ->
  0 < wholeTurnRetainFrom input (safe_ends input) ->
  candidate input (wholeTurnRetainFrom input (safe_ends input)).
Proof.
  intros [_ H64] Hv. unfold wholeTurnRetainFrom. pose proof (validated _ Hv) as (? & _).
  intros Hpos. case_match; [lia|]. case_match; [lia|].
  destruct (scan_turn _ _ _ _) as [opening tokens].
  case_match; [lia|]. bsimpl. case_match eqn:Hex; [|lia].
  apply existsb_exists in Hex as (x & Hx & Heq). bsimpl. subst x.
  assert (wrap64 (opening - 1) = opening - 1) as Hw.
  { apply wrap64_id. unfold is_int64, int64_min in *. lia. }
  exists (opening - 1). split; [lia|]. rewrite <- Hw at 1. split; [by apply list_elem_of_In|].
  apply eligible_spec. lia.
Qed.

(** Both components of [boundaries_from] come from the list. *)
Lemma boundaries_from_elem before l target b a :
  boundaries_from before l target = (b, a) ->
  (b = before \/ b ∈ l) /\ (a = 0 \/ a ∈ l).
Proof.
  revert before. induction l as [|c l IH]; intros before H; simpl in H; [simplify_eq; auto|].
  case_match; simplify_eq.
  - apply IH in H as [[->|?] [->|?]]; split; auto using list_elem_of_here, list_elem_of_further.
  - split; [by left|right; left].
Qed.

Lemma wholeTurnBoundary_candidate input :
  int64_input input -> validateRetainBoundaryInput input = None ->
  0 < wholeTurnBoundaryRetainFrom input (safe_ends input) ->
  candidate input (wholeTurnBoundaryRetainFrom input (safe_ends input)).
Proof.
  intros H64 Hv. unfold wholeTurnBoundaryRetainFrom. intros Hpos.
  case_match; [lia|]. case_match; [|lia].
  destruct (boundariesAroundTarget _ _) as [before after] eqn:E.
  apply boundaries_from_elem in E as [Hb Ha].
  assert (forall x, x ∈ List.filter (fun ending =>
        negb ((ending <? rb_SourceEventSequenceStart input)
              || (rb_MaximumRetainFromSequence input <=? ending)
              || (ev_Sequence s <=? ending)))
        (completeTurnSourceEnds (rb_Events input) (rb_Events input) (safe_ends input)) ->
    x ∈ safe_ends input /\ eligible input x = true) as Hin.
  { intros x [Hx Hc]%elem_of_filter_bool. apply elem_of_filter_bool in Hc as [_ Hc].
    split; [done|]. unfold eligible. apply negb_true_iff in Hx. apply orb_false_iff in Hx as [-> _].
    done. }
  case_match.
  - bsimpl. destruct Hb as [->|Hb]; [lia|]. apply Hin in Hb as [Hb Hel].
    exists before. rewrite (end_succ input) by done. done.
  - case_match; [|lia]. bsimpl. destruct Ha as [->|Ha]; [lia|].
    apply Hin in Ha as [Ha Hel]. exists after. rewrite (end_succ input) by done. done.
Qed.

(** The scan keeps the last eligible end up to the target and the first one
    beyond it. *)
Lemma scan_ends_spec input d before l b a :
  StronglySorted Z.lt l -> Forall (Z.lt before) l ->
  scan_ends input d before l = (b, a) ->
  (b = before \/ (b ∈ l /\ eligible input b = true /\ b <= d))
  /\ (a = 0 \/ (a ∈ l /\ eligible input a = true /\ d < a))
  /\ before <= b
  /\ (forall x, x ∈ l -> eligible input x = true -> x <= d -> x <= b)
  /\ (forall x, x ∈ l -> eligible input x = true -> d < x -> a ∈ l /\ a <= x).
Proof.
  intros Hs. revert before. induction Hs as [|c l Hs IH Hc]; intros before Hb H; simpl in H.
  { simplify_eq. split_and!; auto; [lia|..]; intros x Hx; by apply not_elem_of_nil in Hx. }
  apply Forall_cons in Hb as [Hb1 Hb]. rewrite Forall_forall in Hc.
  destruct (eligible input c) eqn:Hel; simpl in H.
  2: { apply IH in H as (H1 & H2 & H3 & H4 & H5); [|done]. split_and!; [..|done| |].
       - destruct H1 as [?|(? & ?)]; [by left|right; split; [by right|done]].
       - destruct H2 as [?|(? & ?)]; [by left|right; split; [by right|done]].
       - intros x Hx Hxe. apply elem_of_cons in Hx as [->|Hx]; [congruence|auto].
       - intros x Hx Hxe Hd. apply elem_of_cons in Hx as [->|Hx]; [congruence|].
         destruct (H5 x Hx Hxe Hd). split; [by right|done]. }
  destruct (c <=? d) eqn:Hcd; bsimpl.
  - apply IH in H as (H1 & H2 & H3 & H4 & H5); [|by apply Forall_forall].
    split_and!; [| |lia| |].
    + right. destruct H1 as [->|(? & ?)]; [split; [left|done]|split; [by right|done]].
    + destruct H2 as [?|(? & ?)]; [by left|right; split; [by right|done]].
    + intros x Hx Hxe Hd. apply elem_of_cons in Hx as [->|Hx]; [lia|auto].
    + intros x Hx Hxe Hd. apply elem_of_cons in Hx as [->|Hx]; [lia|].
      destruct (H5 x Hx Hxe Hd). split; [by right|done].
  - simplify_eq. split_and!; [by left|right; split; [left|done]|lia| |].
    + intros x Hx Hxe Hd. apply elem_of_cons in Hx as [->|Hx]; [lia|]. specialize (Hc x Hx). lia.
    + intros x Hx Hxe Hd. split; [left|].
      apply elem_of_cons in Hx as [->|Hx]; [lia|]. specialize (Hc x Hx). lia.
Qed.

Lemma safe_ends_pos input :
  validateRetainBoundaryInput input = None -> Forall (Z.lt 0) (safe_ends input).
Proof.
  intros Hv. apply validated in Hv as (_ & _ & _ & _ & Hpos & _).
  apply Forall_forall. intros x Hx. apply safe_end_spec in Hx as [(e & He & <-) _].
  by rewrite Forall_forall in Hpos; apply Hpos.
Qed.

Lemma desired_pred input :
  int64_input input -> validateRetainBoundaryInput input = None ->
  wrap64 (rb_DesiredRetainFromSequence input - 1) = rb_DesiredRetainFromSequence input - 1.
Proof. intros [H64 _] Hv. apply validated in Hv as (_ & ? & _). by apply wrap64_pred. Qed.

(** What the fallback scan finds, in terms of the candidates. *)
Lemma scan_candidates input b a :
  int64_input input -> validateRetainBoundaryInput input = None ->
  scan_ends input (wrap64 (rb_DesiredRetainFromSequence input - 1)) 0 (safe_ends input) = (b, a) ->
  let d := rb_DesiredRetainFromSequence input in
  (0 < b -> candidate input (b + 1) /\ wrap64 (b + 1) = b + 1 /\ b + 1 <= d)
  /\ (0 < a -> candidate input (a + 1) /\ wrap64 (a + 1) = a + 1 /\ d < a + 1)
  /\ (forall r, candidate input r -> r <= d -> 0 < b /\ r <= b + 1)
  /\ (forall r, candidate input r -> d < r -> 0 < a /\ a + 1 <= r).
Proof.
  intros H64 Hv H d. rewrite desired_pred in H by done.
  pose proof (safe_ends_pos input Hv) as Hpos.
  apply scan_ends_spec in H as (Hb & Ha & Hb0 & Hmax & Hmin);
    [|apply safe_ends_sorted; apply (validated _ Hv)|done].
  rewrite Forall_forall in Hpos. split_and!.
  - intros H0. destruct Hb as [->|(Hin & Hel & Hle)]; [lia|].
    split_and!; [by exists b|by apply (end_succ input)|subst d; lia].
  - intros H0. destruct Ha as [->|(Hin & Hel & Hle)]; [lia|].
    split_and!; [by exists a|by apply (end_succ input)|subst d; lia].
  - intros r (e & -> & He & Hel) Hr. specialize (Hmax e He Hel). specialize (Hpos e He).
    subst d. lia.
  - intros r (e & -> & He & Hel) Hr. destruct (Hmin e He Hel) as [Hin Hle]; [subst d; lia|].
    specialize (Hpos a Hin). lia.
Qed.

Lemma candidate_pos input r :
  validateRetainBoundaryInput input = None -> candidate input r -> 1 < r.
Proof.
  intros Hv (e & -> & He & _). pose proof (safe_ends_pos input Hv) as H.
  rewrite Forall_forall in H. specialize (H e He). lia.
Qed.

(** The selection: always a candidate, and one whenever there is one. *)
Lemma select_spec input :
  int64_input input -> validateRetainBoundaryInput input = None ->
  match SelectRetainFromEventSequence unmarshal_parts input with
  | inl _ => False
  | inr (Some r) => candidate input r
  | inr None => forall r, ~ candidate input r
  end.
Proof.
  intros H64 Hv. unfold SelectRetainFromEventSequence. rewrite Hv.
  destruct (0 <? wholeTurnRetainFrom input (safe_ends input)) eqn:E1; bsimpl.
  { by apply wholeTurnRetainFrom_candidate. }
  destruct (0 <? wholeTurnBoundaryRetainFrom input (safe_ends input)) eqn:E2; bsimpl.
  { by apply wholeTurnBoundary_candidate. }
  destruct (scan_ends _ _ _ _) as [b a] eqn:Es.
  destruct (scan_candidates input b a H64 Hv Es) as (Hb & Ha & Hbm & Ham).
  destruct (0 <? b) eqn:Eb, (0 <? a) eqn:Ea; bsimpl; simpl.
  - destruct (Hb Eb) as (? & -> & _), (Ha Ea) as (? & -> & _).
    by destruct (retainedTailFitsTarget input (b + 1)).
  - destruct (Hb Eb) as (? & -> & _). by destruct (retainedTailFitsTarget input (b + 1)).
  - by destruct (Ha Ea) as (? & -> & _).
  - intros r Hr. destruct (Z.le_gt_cases r (rb_DesiredRetainFromSequence input)).
    + destruct (Hbm r Hr); lia.
    + destruct (Ham r Hr); lia.
Qed.

Lemma candidates_iff input cs r :
  int64_input input -> RetainFromEventSequenceCandidates unmarshal_parts input = inr cs ->
  r ∈ cs <-> candidate input r.
Proof.
  intros H64. unfold RetainFromEventSequenceCandidates. case_match eqn:Hv; [done|].
  intros [= <-]. rewrite list_elem_of_fmap. unfold candidate. split.
  - intros (e & -> & [Hel He]%elem_of_filter_bool). exists e. by rewrite (end_succ input).
  - intros (e & -> & He & Hel). exists e. rewrite (end_succ input) by done.
    split; [done|]. by apply elem_of_filter_bool.
Qed.

(** The tokens of the events kept from [retainFrom] on. *)
Definition tail_tokens (retainFrom : Z) (events : list SourceEvent) : Z :=
  foldr (fun e n => (if ev_Sequence e <? retainFrom then 0 else EstimateSourceEventTokens e) + n)
    0 events.

Lemma estimate_pos e : 0 < EstimateSourceEventTokens e.
Proof.
  unfold EstimateSourceEventTokens.
  pose proof (Z.div_pos (Z.of_nat (String.length (ev_ContentParts e))) 4). lia.
Qed.

Lemma tail_tokens_nonneg retainFrom events : 0 <= tail_tokens retainFrom events.
Proof.
  induction events as [|e events IH]; simpl; [done|]. pose proof (estimate_pos e). case_match; lia.
Qed.

Lemma tail_fits_spec retainFrom limit tokens events :
  0 <= tokens -> tokens <= limit -> tokens + tail_tokens retainFrom events <= int64_max ->
  tail_fits retainFrom limit tokens events = true
  <-> tokens + tail_tokens retainFrom events <= limit.
Proof.
  revert tokens. induction events as [|e events IH]; intros tokens H0 H1 H2; simpl in *.
  { split; [lia|done]. }
  pose proof (estimate_pos e). pose proof (tail_tokens_nonneg retainFrom events).
  destruct (ev_Sequence e <? retainFrom); [rewrite IH; lia|].
  rewrite wrap64_id by (unfold is_int64, int64_min in *; lia).
  destruct (limit <? tokens + EstimateSourceEventTokens e) eqn:E; bsimpl.
  - split; [done|lia].
  - rewrite IH by lia. lia.
Qed.
End Proofs.

(** ** Properties *)

(** A chain of progressive checkpoints, each allowed by the policy on the
    frontier and the count the previous one left. *)
Fixpoint allowed_chain (prior count : Z) (steps : list (Z * bool)) : bool :=
  match steps with
  | [] => true
  | (cand, more) :: rest =>
      match Evaluate (mkProgressiveInput prior count cand more) with
      | inr decision => pd_Allowed decision && allowed_chain cand (count + 1) rest
      | inl _ => false
      end
  end.

Lemma Evaluate_allowed input d :
  Evaluate input = inr d -> pd_Allowed d = true ->
  pc_PriorSummarizedThroughEventSequence input < pc_CandidateSummarizedThroughSequence input
  /\ 0 <= pc_ConsecutiveCheckpointCount input < defaultMaxProgressiveCheckpoints.
Proof.
  unfold Evaluate. intros H Ha. repeat case_match; simplify_eq; try done. bsimpl. lia.
Qed.

Lemma allowed_chain_spec prior count steps :
  allowed_chain prior count steps = true -> count <= defaultMaxProgressiveCheckpoints ->
  count + Z.of_nat (length steps) <= defaultMaxProgressiveCheckpoints
  /\ StronglySorted Z.lt (prior :: steps.*1).
Proof.
  revert prior count. induction steps as [|[cand more] rest IH]; intros prior count H Hc; simpl in *.
  { split; [lia|repeat constructor]. }
  destruct (Evaluate _) as [e|d] eqn:E; [done|]. bsimpl.
  destruct (Evaluate_allowed _ _ E) as [Hlt Hcnt]; [done|]. simpl in *.
  destruct (IH cand (count + 1)) as [Hl Hs]; [done|lia|]. split; [lia|].
  constructor; [done|]. constructor; [done|]. inversion Hs as [|? ? _ Hf]; subst.
  eapply Forall_impl; [exact Hf|]. simpl. lia.
Qed.

(** C36: a planned checkpoint starts right after the summarised frontier, ends
    right before the retained event and within the watermark, and every atomic
    group is wholly inside or wholly outside the planned range. *)
Theorem plan_splits_no_group input plan :
  PlanCheckpoint input = inr (Some plan) ->
  pl_EventSequenceStart plan = wrap64 (pi_SummarizedThroughEventSequence input + 1)
  /\ pl_EventSequenceEnd plan = wrap64 (pi_RetainFromEventSequence input - 1)
  /\ pl_EventSequenceStart plan <= pl_EventSequenceEnd plan <= pi_InputEventSequence input
  /\ Forall (unsplit (pl_EventSequenceStart plan) (pl_EventSequenceEnd plan)) (pi_AtomicGroups input).
Proof.
  unfold PlanCheckpoint. intros H. repeat case_match; simplify_eq. bsimpl. simpl.
  match goal with E : check_groups _ _ _ = None |- _ => apply check_groups_None in E end.
  split_and!; try done. eapply Forall_impl; [eassumption|]. by intros g [_ ?].
Qed.

Definition sample_parts (s : string) : option nat := Some (String.length s).

Definition sample_event (seq : Z) (turn : string) (opening : bool) (kind : EventKind) : SourceEvent :=
  mkSourceEvent seq turn opening kind "" "" "" "content".

(** A user turn, a tool call with its result, and a second turn. *)
Definition sample_events : list SourceEvent :=
  [ sample_event 1 "t1" true KindAgentInput; sample_event 2 "t1" false KindModelOutput;
    sample_event 3 "t1" false KindToolResult; sample_event 4 "t1" false KindModelOutput;
    sample_event 5 "t2" true KindAgentInput; sample_event 6 "t2" false KindModelOutput ].

Definition sample_input (desired tokens : Z) : RetainBoundaryInput :=
  mkRetainBoundaryInput 1 desired tokens 6 sample_events [mkAtomicGroup "tool" 2 3].

Definition sample_plan (retainFrom : Z) : PlanInput :=
  mkPlanInput "project" "agent" 6 0 retainFrom [mkAtomicGroup "tool" 2 3].

Lemma plan_splits_no_group_witness : unsplit 1 3 (mkAtomicGroup "tool" 2 3).
Proof.
  pose proof (plan_splits_no_group (sample_plan 4) (mkPlan "project" "agent" 6 1 3)) as H.
  destruct H as (_ & _ & _ & H); [vm_compute; reflexivity|]. by apply Forall_cons in H as [H _].
Defined.

(** The boundary search and the candidate list agree: the search fails with
    the same error, selects one of the candidates, or finds none exactly when
    there are none. *)
Theorem selection_is_a_candidate unmarshal_parts input :
  int64_input input ->
  match SelectRetainFromEventSequence unmarshal_parts input,
        RetainFromEventSequenceCandidates unmarshal_parts input with
  | inl e, inl e' => e = e'
  | inr (Some r), inr cs => r ∈ cs
  | inr None, inr cs => cs = []
  | _, _ => False
  end.
Proof.
  intros H64. pose proof (select_spec unmarshal_parts input H64) as Hsel.
  pose proof (candidates_iff unmarshal_parts input) as Hc.
  unfold RetainFromEventSequenceCandidates in *.
  destruct (validateRetainBoundaryInput input) as [e|] eqn:Hv.
  { unfold SelectRetainFromEventSequence. by rewrite Hv. }
  specialize (Hsel eq_refl). destruct (SelectRetainFromEventSequence _ _) as [|[r|]]; [done|..].
  - by apply Hc.
  - apply elem_of_nil_inv. intros r Hr. apply (Hsel r). by eapply Hc.
Qed.

Lemma selection_is_a_candidate_witness :
  SelectRetainFromEventSequence sample_parts (sample_input 4 0) = inr (Some 4)
  /\ match SelectRetainFromEventSequence sample_parts (sample_input 4 0),
           RetainFromEventSequenceCandidates sample_parts (sample_input 4 0) with
     | inl e, inl e' => e = e'
     | inr (Some r), inr cs => r ∈ cs
     | inr None, inr cs => cs = []
     | _, _ => False
     end.
Proof.
  split; [vm_compute; reflexivity|]. apply (selection_is_a_candidate sample_parts (sample_input 4 0)).
  apply (bool_decide_unpack _). vm_compute. exact I.
Defined.

(** A selected boundary can be planned: when the previous frontier cut no
    atomic group and the watermark covers the range, [PlanCheckpoint] up to the
    selected boundary succeeds with exactly that range. *)
Theorem selected_boundary_plans unmarshal_parts input r plan_input :
  int64_input input -> SelectRetainFromEventSequence unmarshal_parts input = inr (Some r) ->
  pi_ProjectID plan_input <> uuid_Nil -> pi_AgentID plan_input <> uuid_Nil ->
  pi_AtomicGroups plan_input = rb_AtomicGroups input ->
  pi_SummarizedThroughEventSequence plan_input = rb_SourceEventSequenceStart input - 1 ->
  pi_RetainFromEventSequence plan_input = r -> r - 1 <= pi_InputEventSequence plan_input ->
  is_int64 (rb_SourceEventSequenceStart input) ->
  Forall (fun g => g_EndSequence g < rb_SourceEventSequenceStart input
                   \/ rb_SourceEventSequenceStart input <= g_StartSequence g) (rb_AtomicGroups input) ->
  PlanCheckpoint plan_input =
    inr (Some (mkPlan (pi_ProjectID plan_input) (pi_AgentID plan_input)
                 (pi_InputEventSequence plan_input) (rb_SourceEventSequenceStart input) (r - 1))).
Proof.
  intros H64 Hsel Hp Ha Hg Hsum Hret Hwm Hs64 Hprev.
  assert (validateRetainBoundaryInput input = None) as Hv.
  { unfold SelectRetainFromEventSequence in Hsel. by destruct (validateRetainBoundaryInput input). }
  pose proof (select_spec unmarshal_parts input H64 Hv) as Hc. rewrite Hsel in Hc.
  pose proof (candidate_pos _ _ _ Hv Hc) as Hpos.
  destruct Hc as (e & -> & He & Hel). apply eligible_spec in Hel.
  destruct (safe_end_spec _ _ _ _ He) as [_ Hcut].
  pose proof (validated _ Hv) as (Hst & _ & _ & _ & _ & Hgv). destruct H64 as [_ HM].
  unfold PlanCheckpoint. rewrite Hsum, Hret, Hg, Z.sub_add, (Z.add_simpl_r e 1).
  rewrite !wrap64_id by (unfold is_int64, int64_min in *; lia).
  rewrite !bool_decide_eq_false_2 by done. simpl.
  rewrite !(proj2 (Z.leb_gt _ _)), !(proj2 (Z.ltb_ge _ _)) by lia.
  rewrite (proj2 (check_groups_None _ _ _)); [done|].
  rewrite !Forall_forall in *. intros g Hin. specialize (Hcut g Hin). specialize (Hprev g Hin).
  split; [auto|]. unfold unsplit. lia.
Qed.

Lemma selected_boundary_plans_witness :
  PlanCheckpoint (sample_plan 4) = inr (Some (mkPlan "project" "agent" 6 1 3)).
Proof.
  apply (selected_boundary_plans sample_parts (sample_input 4 0) 4 (sample_plan 4));
    try (vm_compute; reflexivity); try (apply (bool_decide_unpack _); vm_compute; exact I); done.
Defined.

(** With no token target the selected boundary is the nearest one: the last
    candidate not beyond the desired sequence, or, when all candidates are beyond
    it, the first of them. *)
Theorem selection_is_nearest unmarshal_parts input r cs c :
  int64_input input -> rb_DesiredRetainTokens input <= 0 ->
  SelectRetainFromEventSequence unmarshal_parts input = inr (Some r) ->
  RetainFromEventSequenceCandidates unmarshal_parts input = inr cs -> c ∈ cs ->
  if r <=? rb_DesiredRetainFromSequence input
  then c <= rb_DesiredRetainFromSequence input -> c <= r
  else rb_DesiredRetainFromSequence input < c /\ r <= c.
Proof.
  intros H64 Htok Hsel Hcs Hc. rewrite (candidates_iff _ _ _ _ H64 Hcs) in Hc.
  assert (validateRetainBoundaryInput input = None) as Hv.
  { unfold SelectRetainFromEventSequence in Hsel. by destruct (validateRetainBoundaryInput input). }
  unfold SelectRetainFromEventSequence in Hsel. rewrite Hv in Hsel.
  unfold wholeTurnRetainFrom, wholeTurnBoundaryRetainFrom, retainedTailFitsTarget in Hsel.
  rewrite !(proj2 (Z.leb_le _ _) Htok) in Hsel. simpl in Hsel.
  destruct (scan_ends _ _ _ _) as [b a] eqn:Es.
  destruct (scan_candidates unmarshal_parts input b a H64 Hv Es) as (Hb & Ha & Hbm & Ham).
  destruct (0 <? b) eqn:Eb; bsimpl; simpl in Hsel.
  - destruct (Hb Eb) as (_ & Hw & Hle). rewrite Hw in Hsel. simplify_eq.
    rewrite (proj2 (Z.leb_le _ _)) by done. intros Hle'. by destruct (Hbm c Hc Hle').
  - destruct (0 <? a) eqn:Ea; [|done]. bsimpl. destruct (Ha Ea) as (_ & Hw & Hlt).
    rewrite Hw in Hsel. simplify_eq. rewrite (proj2 (Z.leb_gt _ _)) by done.
    destruct (Z.le_gt_cases c (rb_DesiredRetainFromSequence input)) as [Hle'|Hgt].
    + destruct (Hbm c Hc Hle'). lia.
    + split; [done|]. by destruct (Ham c Hc Hgt).
Qed.

Lemma selection_is_nearest_witness :
  RetainFromEventSequenceCandidates sample_parts (sample_input 4 0) = inr [2; 4; 5; 6]
  /\ (2 <= 4 -> 2 <= 4).
Proof.
  split; [vm_compute; reflexivity|].
  apply (selection_is_nearest sample_parts (sample_input 4 0) 4 [2; 4; 5; 6] 2);
    try (vm_compute; reflexivity); try (apply (bool_decide_unpack _); vm_compute; exact I); done.
Defined.

(** The token check of the retained tail is exact: for a positive target it
    holds when, and only when, the estimates of the events kept add up to at most
    the target, as long as the sum fits in an [int]. *)
Theorem retained_tail_check_is_exact input retainFrom :
  0 < rb_DesiredRetainTokens input -> tail_tokens retainFrom (rb_Events input) <= int64_max ->
  retainedTailFitsTarget input retainFrom = true
  <-> tail_tokens retainFrom (rb_Events input) <= rb_DesiredRetainTokens input.
Proof.
  intros Hpos Hmax. unfold retainedTailFitsTarget. rewrite (proj2 (Z.leb_gt _ _)) by done.
  rewrite tail_fits_spec by lia. by rewrite Z.add_0_l.
Qed.

Lemma retained_tail_check_is_exact_witness :
  retainedTailFitsTarget (sample_input 4 5) 4 = true <-> tail_tokens 4 sample_events <= 5.
Proof.
  apply (retained_tail_check_is_exact (sample_input 4 5) 4); [reflexivity|].
  vm_compute. discriminate.
Defined.


