(* ===== verification/Authz.v ===== *)
(** * Authorisation: roles, actions and implications

    Models [internal/authz/authz.go].  Actions and roles are strings, as in the
    code; the three tables are association functions with an empty list for a
    missing key.  The depth-first search threads its [seen] map through the
    branches, as the shared Go map does; it is defined with fuel, and
    [action_implies_fuel] shows that the fuel of [ActionImplies] is never used up:
    more fuel changes nothing, for any pair of strings. *)
From S2P Require Import Prelude.
From stdpp Require Import options.

Definition OrgRoleOwner : string := "owner".
Definition OrgRoleAdmin : string := "admin".
Definition OrgRoleMember : string := "member".

Definition ProjectRoleAdmin : string := "admin".
Definition ProjectRoleDeveloper : string := "developer".
Definition ProjectRoleOperator : string := "operator".
Definition ProjectRoleViewer : string := "viewer".

Definition OrgRead : string := "org.read".
Definition OrgManage : string := "org.manage".
Definition OrgOwn : string := "org.own".
Definition OrgSecretsList : string := "org.secrets.list".
Definition OrgSecretsManage : string := "org.secrets.manage".
Definition ProjectRead : string := "project.read".
Definition ProjectManage : string := "project.manage".
Definition ProjectAccessManage : string := "project.access_manage".
Definition ProjectSecretsList : string := "project.secrets.list".
Definition ProjectSecretsManage : string := "project.secrets.manage".
Definition AgentRead : string := "agent.read".
Definition AgentOperate : string := "agent.operate".
Definition MachineRead : string := "machine.read".
Definition MachineManage : string := "machine.manage".

(** A Go [map[string][]string] literal. *)
Definition table_get (table : list (string * list string)) (key : string) : list string :=
  match List.find (fun kv => kv.1 ==? key) table with
  | Some kv => kv.2
  | None => []
  end.

Definition actionImplications : list (string * list string) :=
  [ (OrgOwn, [OrgManage]);
    (OrgManage, [OrgRead; OrgSecretsManage]);
    (OrgSecretsManage, [OrgSecretsList]);
    (ProjectManage, [ProjectRead; ProjectSecretsManage]);
    (ProjectSecretsManage, [ProjectSecretsList]);
    (AgentOperate, [AgentRead]);
    (MachineManage, [MachineRead]) ].

Definition orgRoleGrants : list (string * list string) :=
  [ (OrgRoleOwner, [OrgOwn]); (OrgRoleAdmin, [OrgManage]); (OrgRoleMember, [OrgRead]) ].

Definition projectRoleGrants : list (string * list string) :=
  [ (ProjectRoleAdmin, [ProjectAccessManage; ProjectManage; AgentOperate]);
    (ProjectRoleDeveloper, [ProjectManage; AgentOperate]);
    (ProjectRoleOperator, [ProjectRead; AgentOperate]);
    (ProjectRoleViewer, [ProjectRead; AgentRead]) ].

(** The result and the [seen] map after the call. *)
Fixpoint actionImplies (fuel : nat) (granted requested : string) (seen : gset string)
    : bool * gset string :=
  if granted ==? requested then (true, seen)
  else if bool_decide (granted ∈ seen) then (false, seen)
  else
    match fuel with
    | O => (false, seen)
    | S fuel' =>
        (fix loop (implied : list string) (seen : gset string) : bool * gset string :=
           match implied with
           | [] => (false, seen)
           | action :: rest =>
               match actionImplies fuel' action requested seen with
               | (true, seen') => (true, seen')
               | (false, seen') => loop rest seen'
               end
           end) (table_get actionImplications granted) ({[granted]} ∪ seen)
    end.

(** The longest chain of implications has three edges. *)
Definition implication_fuel : nat := 4.

Definition ActionImplies (granted requested : string) : bool :=
  (actionImplies implication_fuel granted requested ∅).1.

Definition OrgRoleAllows (role action : string) : bool :=
  existsb (fun granted => ActionImplies granted action) (table_get orgRoleGrants role).

Definition ProjectRoleAllows (role action : string) : bool :=
  existsb (fun granted => ActionImplies granted action) (table_get projectRoleGrants role).

Definition MachineRoleAllows (action : string) : bool := ActionImplies MachineManage action.

(** ** The specification: the reflexive-transitive closure of the table *)

Definition implies_edge (a b : string) : Prop := b ∈ table_get actionImplications a.

(** All actions below [a], for the keys of the table; a string that is not a key
    implies itself only. *)
Definition below (a : string) : list string :=
  a :: (if a ==? OrgOwn then [OrgManage; OrgRead; OrgSecretsManage; OrgSecretsList]
        else if a ==? OrgManage then [OrgRead; OrgSecretsManage; OrgSecretsList]
        else if a ==? OrgSecretsManage then [OrgSecretsList]
        else if a ==? ProjectManage then [ProjectRead; ProjectSecretsManage; ProjectSecretsList]
        else if a ==? ProjectSecretsManage then [ProjectSecretsList]
        else if a ==? AgentOperate then [AgentRead]
        else if a ==? MachineManage then [MachineRead]
        else []).

(** Case analysis on whether a string is a key of the table. *)
Lemma key_cases a :
  a ∈ actionImplications.*1 \/ table_get actionImplications a = [].
Proof.
  destruct (decide (a ∈ actionImplications.*1)) as [|Hn]; [by left|right].
  unfold table_get. destruct (List.find _ _) as [kv|] eqn:E; [|done].
  apply List.find_some in E as [Hin Hk]. bsimpl. exfalso. apply Hn. subst.
  apply list_elem_of_fmap. exists kv. split; [done|]. by apply list_elem_of_In.
Qed.

Ltac on_keys :=
  match goal with H : _ ∈ actionImplications.*1 |- _ =>
    repeat (apply elem_of_cons in H as [->|H]; [|]); [..|by apply not_elem_of_nil in H] end.

(** Splits membership in a concrete list. *)
Ltac on_members H :=
  repeat (apply elem_of_cons in H as [->|H]; [|]); [..|by apply not_elem_of_nil in H].

Ltac decide_membership := apply (bool_decide_unpack _); vm_compute; exact I.

Lemma below_edge a b c : implies_edge a b -> c ∈ below b -> c ∈ below a.
Proof.
  unfold implies_edge. intros Hb Hc. destruct (key_cases a) as [Hk|Hk];
    [|rewrite Hk in Hb; by apply not_elem_of_nil in Hb].
  on_keys; vm_compute in Hb; on_members Hb; vm_compute in Hc; on_members Hc; decide_membership.
Qed.

Lemma below_complete a b : rtc implies_edge a b -> b ∈ below a.
Proof. induction 1 as [a|a b c Hab _ IH]; [left|]. by eapply below_edge. Qed.

(** The search is sound for any fuel and any [seen]. *)
Lemma actionImplies_sound fuel a b seen :
  (actionImplies fuel a b seen).1 = true -> rtc implies_edge a b.
Proof.
  revert a seen. induction fuel as [|fuel IH]; intros a seen H; simpl in H.
  { repeat case_match; bsimpl; subst; done. }
  case_bool_decide; [by subst|]. case_bool_decide; [done|].
  assert (forall l s, (forall x, x ∈ l -> implies_edge a x) ->
    ((fix loop (implied : list string) (seen : gset string) : bool * gset string :=
        match implied with
        | [] => (false, seen)
        | action :: rest =>
            match actionImplies fuel action b seen with
            | (true, seen') => (true, seen')
            | (false, seen') => loop rest seen'
            end
        end) l s).1 = true -> rtc implies_edge a b) as Hloop; [|eapply Hloop; [|exact H]; done].
  induction l as [|x l IHl]; intros s Hl Hs; [done|].
  destruct (actionImplies fuel x b s) as [[] s'] eqn:E.
  - eapply rtc_l; [apply Hl; left|]. apply (IH x s). by rewrite E.
  - apply (IHl s'); [|done]. intros y Hy. apply Hl. by right.
Qed.

Lemma below_implied n a b :
  b ∈ below a -> (actionImplies (implication_fuel + n) a b ∅).1 = true.
Proof.
  intros H. destruct (decide (b = a)) as [->|Hne].
  { simpl. by rewrite bool_decide_eq_true_2. }
  destruct (key_cases a) as [Hk|Hk].
  - on_keys; vm_compute in H; on_members H; vm_compute; reflexivity.
  - exfalso. apply elem_of_cons in H as [->|H]; [done|].
    repeat (case_bool_decide; [subst; vm_compute in Hk; done|]). by apply not_elem_of_nil in H.
Qed.

Lemma actionImplies_iff n a b :
  (actionImplies (implication_fuel + n) a b ∅).1 = true <-> rtc implies_edge a b.
Proof.
  split; [apply actionImplies_sound|]. intros H. by apply below_implied, below_complete.
Qed.

Lemma ActionImplies_iff a b : ActionImplies a b = true <-> rtc implies_edge a b.
Proof. apply (actionImplies_iff 0). Qed.

(** ** Roles *)

Lemma existsb_implied l action :
  existsb (fun granted => ActionImplies granted action) l = true
  <-> exists granted, granted ∈ l /\ rtc implies_edge granted action.
Proof.
  rewrite existsb_exists. setoid_rewrite ActionImplies_iff. setoid_rewrite list_elem_of_In. done.
Qed.

(** Everything a list of grants [l'] allows, [l] allows. *)
Definition covers (l l' : list string) : bool :=
  forallb (fun g => existsb (fun granted => ActionImplies granted g) l) l'.

Lemma covers_allows l l' action :
  covers l l' = true ->
  existsb (fun granted => ActionImplies granted action) l' = true ->
  existsb (fun granted => ActionImplies granted action) l = true.
Proof.
  unfold covers. rewrite forallb_forall, !existsb_implied. intros Hc (g & Hg & Hr).
  specialize (Hc g). rewrite <- list_elem_of_In in Hc. specialize (Hc Hg).
  apply existsb_implied in Hc as (h & Hh & Hhr). exists h. split; [done|]. by etrans.
Qed.

(** ** Properties *)

(** An action implies another exactly when a chain of the implication table
    leads from one to the other; the search terminates with this answer for any
    amount of fuel from [implication_fuel] on, the one [ActionImplies] uses. *)
Theorem action_implication_is_the_closure n granted requested :
  (actionImplies (implication_fuel + n) granted requested ∅).1 = ActionImplies granted requested
  /\ (ActionImplies granted requested = true <-> rtc implies_edge granted requested).
Proof.
  split; [|apply ActionImplies_iff]. apply eq_true_iff_eq. rewrite ActionImplies_iff.
  apply actionImplies_iff.
Qed.

(** The roles are linearly ordered: an organisation owner can do all an admin
    can, an admin all a member can; a project admin all a developer can, then an
    operator, then a viewer. *)
Theorem roles_are_ordered action :
  (OrgRoleAllows OrgRoleMember action = true -> OrgRoleAllows OrgRoleAdmin action = true)
  /\ (OrgRoleAllows OrgRoleAdmin action = true -> OrgRoleAllows OrgRoleOwner action = true)
  /\ (ProjectRoleAllows ProjectRoleViewer action = true ->
      ProjectRoleAllows ProjectRoleOperator action = true)
  /\ (ProjectRoleAllows ProjectRoleOperator action = true ->
      ProjectRoleAllows ProjectRoleDeveloper action = true)
  /\ (ProjectRoleAllows ProjectRoleDeveloper action = true ->
      ProjectRoleAllows ProjectRoleAdmin action = true).
Proof.
  unfold OrgRoleAllows, ProjectRoleAllows.
  split_and!; apply covers_allows; vm_compute; reflexivity.
Qed.

(** No escalation across scopes: an organisation role allows only
    organisation actions, a project role only project and agent actions, the
    machine principal only machine actions; an unknown role allows nothing; only
    the owner owns the organisation and only the project admin manages access. *)
Theorem roles_do_not_escalate role action :
  (OrgRoleAllows role action = true ->
     action ∈ [OrgOwn; OrgManage; OrgRead; OrgSecretsManage; OrgSecretsList]
     /\ (action = OrgOwn -> role = OrgRoleOwner))
  /\ (ProjectRoleAllows role action = true ->
     action ∈ [ProjectAccessManage; ProjectManage; ProjectRead; ProjectSecretsManage;
               ProjectSecretsList; AgentOperate; AgentRead]
     /\ (action = ProjectAccessManage -> role = ProjectRoleAdmin))
  /\ (MachineRoleAllows action = true -> action ∈ [MachineManage; MachineRead]).
Proof.
  unfold OrgRoleAllows, ProjectRoleAllows, MachineRoleAllows. rewrite !existsb_implied, ActionImplies_iff.
  split_and!.
  - intros (g & Hg & Hr%below_complete). unfold table_get in Hg. simpl in Hg.
    repeat (case_bool_decide; subst; [simpl in Hg; on_members Hg; vm_compute in Hr; on_members Hr;
      (split; [decide_membership|intros E; first [reflexivity|discriminate E]])|]).
    by apply not_elem_of_nil in Hg.
  - intros (g & Hg & Hr%below_complete). unfold table_get in Hg. simpl in Hg.
    repeat (case_bool_decide; subst; [simpl in Hg; on_members Hg; vm_compute in Hr; on_members Hr;
      (split; [decide_membership|intros E; first [reflexivity|discriminate E]])|]).
    by apply not_elem_of_nil in Hg.
  - intros Hr%below_complete. vm_compute in Hr. exact Hr.
Qed.
