(* ===== verification/ModelRetry.v ===== *)
(** * Model-call retries

    Models [internal/modelretry/policy.go] ([Decide], [EvidenceFor],
    [retryAfterDelay], [retryable], [sanitize]), [request_policy.go], the error
    classification of [internal/model/provider_errors.go], the text checks of
    [internal/dbsafe] and the backoff of
    [internal/storage/executionstore/model_contexts_store.go].

    A [time.Duration] is an [int64] of nanoseconds with its wrap-around, a
    [time.Time] the instant in nanoseconds; [Time.Sub] saturates.  A Go error is a
    chain of wrappers, the form [errors.As] walks; errors joined from several are
    not covered.  What [encoding/json] answers is the class [JsonPackage]: the
    definitions and theorems hold for any instance. *)
From S2P Require Import Prelude GoStrings.
From stdpp Require Import pretty.
From Stdlib Require Import Ascii.
From stdpp Require Import options.
Local Open Scope Z_scope.

Definition Microsecond : Z := 1000.
Definition Millisecond : Z := 1000 * Microsecond.
Definition Second : Z := 1000 * Millisecond.
Definition maxDuration : Z := int64_max.

(** ** Errors *)

Inductive ErrorKind : Type :=
  | ErrorKindContextWindow
  | ErrorKindPayloadTooLarge
  | ErrorKindRateLimit
  | ErrorKindTransient
  | ErrorKindAuth
  | ErrorKindBillingAccount
  | ErrorKindInvalidRequest
  | ErrorKindProviderUnavailable
  | ErrorKindReplayRejected
  | ErrorKindRuntime
  | ErrorKindCanceled
  | ErrorKindUnknown
  | ErrorKindUnset                 (**r the empty string *)
  | ErrorKindOther (s : string).

Global Instance ErrorKind_eq_dec : EqDecision ErrorKind.
Proof. solve_decision. Defined.

(** [string(kind)] *)
Definition kind_text (kind : ErrorKind) : string :=
  match kind with
  | ErrorKindContextWindow => "context_window"
  | ErrorKindPayloadTooLarge => "payload_too_large"
  | ErrorKindRateLimit => "rate_limit"
  | ErrorKindTransient => "transient"
  | ErrorKindAuth => "auth"
  | ErrorKindBillingAccount => "billing_account"
  | ErrorKindInvalidRequest => "invalid_request"
  | ErrorKindProviderUnavailable => "provider_unavailable"
  | ErrorKindReplayRejected => "replay_rejected"
  | ErrorKindRuntime => "runtime"
  | ErrorKindCanceled => "canceled"
  | ErrorKindUnknown => "unknown"
  | ErrorKindUnset => ""
  | ErrorKindOther s => s
  end.

Record RetryAfter : Type := mkRetryAfter {
  ra_DeltaSeconds : option Z;
  ra_DelayMilliseconds : option Z;
  ra_HTTPDate : option Z
}.

(** [model.ProviderError]; its [Cause] is part of the error chain below. *)
Record ProviderError : Type := mkProviderError {
  pe_Kind : ErrorKind;
  pe_Source : string;
  pe_StatusCode : Z;
  pe_Code : string;
  pe_Message : string;
  pe_RequestID : string;
  pe_RetryAfter : option RetryAfter;
  pe_Retryable : option bool;
  pe_Metadata : string
}.

Definition set_Kind (kind : ErrorKind) (e : ProviderError) : ProviderError :=
  mkProviderError kind (pe_Source e) (pe_StatusCode e) (pe_Code e) (pe_Message e) (pe_RequestID e)
    (pe_RetryAfter e) (pe_Retryable e) (pe_Metadata e).

(** An error chain: a provider error, the ambiguity wrapper, an error type with a
    [ProviderErrorClassification] method, or any other error or wrapper; each with
    what [Unwrap] returns, the last two with what [Error] returns. *)
Inductive GoError : Type :=
  | EProvider (e : ProviderError) (cause : option GoError)
  | EAmbiguous (err : option GoError)
  | EClassifier (e : ProviderError) (text : string) (inner : option GoError)
  | EOther (text : string) (inner : option GoError).

Definition ErrorKindFromHTTPStatus (statusCode : Z) : ErrorKind :=
  if (300 <=? statusCode) && (statusCode <? 400) then ErrorKindInvalidRequest
  else if statusCode =? 402 then ErrorKindBillingAccount
  else if (statusCode =? 401) || (statusCode =? 403) then ErrorKindAuth
  else if statusCode =? 413 then ErrorKindPayloadTooLarge
  else if statusCode =? 429 then ErrorKindRateLimit
  else if (statusCode =? 408) || (statusCode =? 409) then ErrorKindTransient
  else if 500 <=? statusCode then ErrorKindProviderUnavailable
  else if 400 <=? statusCode then ErrorKindInvalidRequest
  else ErrorKindUnknown.

(** [errors.As(err, &target)]: the first match along the chain. *)
Fixpoint as_provider (err : GoError) : option ProviderError :=
  match err with
  | EProvider e _ => Some e
  | EAmbiguous inner | EClassifier _ _ inner | EOther _ inner =>
      match inner with Some err' => as_provider err' | None => None end
  end.

Fixpoint as_classifier (err : GoError) : option ProviderError :=
  match err with
  | EClassifier e _ _ => Some e
  | EProvider _ inner | EAmbiguous inner | EOther _ inner =>
      match inner with Some err' => as_classifier err' | None => None end
  end.

Fixpoint is_ambiguous (err : GoError) : bool :=
  match err with
  | EAmbiguous _ => true
  | EProvider _ inner | EClassifier _ _ inner | EOther _ inner =>
      match inner with Some err' => is_ambiguous err' | None => false end
  end.

Definition default_kind (e : ProviderError) : ProviderError :=
  if pe_Kind e ==? ErrorKindUnset then set_Kind ErrorKindUnknown e else e.

(** The [Error] methods. *)
Definition ProviderError_Error (e : ProviderError) : string :=
  let e := default_kind e in
  if pe_Message e ==? "" then kind_text (pe_Kind e)
  else kind_text (pe_Kind e) +:+ ": " +:+ pe_Message e.

Fixpoint error_text (err : GoError) : string :=
  match err with
  | EProvider e _ => ProviderError_Error e
  | EAmbiguous None => "provider outcome is ambiguous"
  | EAmbiguous (Some err') => error_text err'
  | EClassifier _ text _ | EOther text _ => text
  end.

Definition errorText (err : option GoError) : string :=
  match err with Some err => error_text err | None => "" end.

(** [ClassifyError]; a nil error is [None]. *)
Definition ClassifyError (err : option GoError) : option ProviderError :=
  match err with
  | None => None
  | Some err =>
      match as_provider err with
      | Some e => Some (default_kind e)
      | None => default_kind <$> as_classifier err
      end
  end.

Definition IsAmbiguousProviderOutcome (err : option GoError) : bool :=
  match err with Some err => is_ambiguous err | None => false end.

(** [AmbiguousProviderOutcome] wraps once. *)
Definition AmbiguousProviderOutcome (err : option GoError) : option GoError :=
  match err with
  | None => None
  | Some e => if is_ambiguous e then Some e else Some (EAmbiguous (Some e))
  end.

(** ** The evidence kept of a failure *)

Definition NUL : ascii := ascii_of_nat 0.
(** The encoding of U+FFFD. *)
Definition replacement_character : string :=
  String (ascii_of_nat 239) (String (ascii_of_nat 191) (String (ascii_of_nat 189) "")).

Definition sanitize_max : nat := 2000.

Definition sanitize (value : string) : string :=
  let value := ToValidUTF8 value replacement_character in
  let value := remove_byte NUL value in
  let value := TrimSpace value in
  if Nat.ltb sanitize_max (String.length value) then valid_prefix sanitize_max value else value.

(** [dbsafe.Text]: [true] is a nil error. *)
Definition Text (value : string) : bool := ValidString value && (remove_byte NUL value ==? value).

(** A token of [json.Decoder.Token]; only strings are told apart. *)
Inductive JsonToken : Type :=
  | TokenString (value : string)
  | TokenOther.

(** A value of the details map that is marshalled. *)
Inductive DetailValue : Type :=
  | DString (s : string)
  | DInt (n : Z)
  | DBool (b : bool)
  | DRetryAfter (ra : RetryAfter)
  | DRaw (json : string).

Class JsonPackage : Type := {
  json_value : Type;
  (** [json.Valid] *)
  json_Valid : string -> bool;
  (** the tokens up to the first error, and whether that is [io.EOF] *)
  json_tokens : string -> list JsonToken * bool;
  (** [json.Unmarshal] into an [any] succeeds *)
  json_Unmarshal : string -> bool;
  (** a decoder with [UseNumber], and [json.Marshal] of what it decodes *)
  json_Decode : string -> option json_value;
  json_Marshal : json_value -> option string;
  (** [json.Marshal(detailFields)] *)
  json_Marshal_details : gmap string DetailValue -> option string
}.

Record Evidence : Type := mkEvidence {
  evd_Kind : ErrorKind;
  evd_Code : string;
  evd_Message : string;
  evd_Details : string;
  evd_RequestID : string;
  evd_Ambiguous : bool;
  evd_Provider : ProviderError
}.

Definition maxProviderMetadataBytes : nat := 64 * 1024.

Section Evidence.
Context {JP : JsonPackage}.

(** [dbsafe.JSONStrings]: every string token is valid text. *)
Definition JSONStrings (raw : string) : bool :=
  let '(tokens, eof) := json_tokens raw in
  (fix loop (tokens : list JsonToken) : bool :=
     match tokens with
     | [] => eof
     | TokenString value :: rest => if Text value then loop rest else false
     | TokenOther :: rest => loop rest
     end) tokens.

Definition ValidateProviderJSON (body : string) : bool :=
  if negb (ValidString body) then false
  else if negb (json_Valid body) then false
  else JSONStrings body.

Definition providerMetadataForStorage (raw : string) : option string :=
  let metadata := TrimSpace raw in
  if (metadata ==? "") || Nat.ltb maxProviderMetadataBytes (String.length metadata)
     || (metadata ==? "null")
  then None
  else if negb (ValidateProviderJSON metadata) then None
  else if negb (json_Unmarshal metadata) then None
  else
    match json_Decode metadata with
    | None => None
    | Some exact => json_Marshal exact
    end.

Definition EvidenceFor (err : option GoError) : Evidence :=
  let providerErr :=
    match ClassifyError err with
    | Some e => e
    | None =>
        mkProviderError ErrorKindUnknown "" 0 "request_failed" (errorText err) "" None None ""
    end in
  let providerErr := default_kind providerErr in
  let code := TrimSpace (pe_Code providerErr) in
  let code := if code ==? "" then kind_text (pe_Kind providerErr) else code in
  let message := TrimSpace (pe_Message providerErr) in
  let message := if message ==? "" then errorText err else message in
  let message := sanitize message in
  let message := if message ==? "" then "The model provider request failed." else message in
  let requestID := sanitize (pe_RequestID providerErr) in
  let ambiguous := IsAmbiguousProviderOutcome err in
  let detailFields : gmap string DetailValue :=
    {[ "source" := DString (sanitize (pe_Source providerErr));
       "status_code" := DInt (pe_StatusCode providerErr);
       "request_id" := DString requestID ]} in
  let detailFields :=
    if ambiguous then <["outcome_ambiguous" := DBool true]> detailFields else detailFields in
  let detailFields :=
    match pe_RetryAfter providerErr with
    | Some ra => <["retry_after" := DRetryAfter ra]> detailFields
    | None => detailFields
    end in
  let detailFields :=
    match pe_Retryable providerErr with
    | Some b => <["provider_retryable" := DBool b]> detailFields
    | None => detailFields
    end in
  let detailFields :=
    match providerMetadataForStorage (pe_Metadata providerErr) with
    | Some metadata => <["provider_metadata" := DRaw metadata]> detailFields
    | None => detailFields
    end in
  let details := default "{}" (json_Marshal_details detailFields) in
  mkEvidence (pe_Kind providerErr) (sanitize code) message details requestID ambiguous providerErr.
End Evidence.

(** ** Backoff *)

Definition MaxModelCallRetriesPerOperation : Z := 8.
Definition baseModelCallRetryBackoff : Z := Second.
Definition maxModelCallRetryBackoff : Z := 30 * Second.

(** FNV-1a, 32 bits. *)
Fixpoint fnv32a (h : Z) (s : string) : Z :=
  match s with
  | EmptyString => h
  | String c s' =>
      fnv32a ((Z.lxor h (Z.of_N (N_of_ascii c)) * 16777619) mod 2 ^ 32) s'
  end.
Definition fnv_offset : Z := 2166136261.

Definition deterministicModelCallRetryJitterPercent (contextID : string) (attemptNumber : Z) : Z :=
  80 + fnv32a fnv_offset (contextID +:+ ":" +:+ pretty attemptNumber) mod 41.

(** The loop [for i := 1; i < attemptNumber && delay < max; i++], by the number
    of iterations left. *)
Fixpoint double_delay (n : nat) (delay : Z) : Z :=
  match n with
  | O => delay
  | S n' => if delay <? maxModelCallRetryBackoff then double_delay n' (wrap64 (delay * 2)) else delay
  end.

Definition ModelCallRetryBackoff (attemptNumber : Z) (contextID : string) : Z :=
  let attemptNumber := if attemptNumber <? 1 then 1 else attemptNumber in
  let delay := double_delay (Z.to_nat (attemptNumber - 1)) baseModelCallRetryBackoff in
  let percent := deterministicModelCallRetryJitterPercent contextID attemptNumber in
  let delay := Z.quot (wrap64 (delay * percent)) 100 in
  if maxModelCallRetryBackoff <? delay then maxModelCallRetryBackoff else delay.

(** ** The decision *)

Record Attempt : Type := mkAttempt {
  at_Number : Z;
  at_ProviderReplayCutoffCanAdvance : bool
}.

Inductive RetryAction : Type := ActionRetry | ActionStop.

Record Decision : Type := mkDecision { d_Action : RetryAction; d_RetryDelay : Z }.

(** [candidate, ok]: [None] when the delay is not representable. *)
Definition providerDelaySeconds (seconds : Z) : option Z :=
  if seconds <=? 0 then Some 0
  else if Z.quot maxDuration Second <? seconds then None
  else Some (wrap64 (seconds * Second)).

Definition providerDelayMilliseconds (milliseconds : Z) : option Z :=
  if milliseconds <=? 0 then Some 0
  else if Z.quot maxDuration Millisecond <? milliseconds then None
  else Some (wrap64 (milliseconds * Millisecond)).

(** [Time.Sub], which saturates. *)
Definition Time_Sub (t u : Z) : Z := Z.max int64_min (Z.min int64_max (t - u)).

Definition raise_to (candidate delay : Z) : Z := if delay <? candidate then candidate else delay.

Definition retryAfterDelay (retryAfter : option RetryAfter) (now : Z) : option Z :=
  match retryAfter with
  | None => Some 0
  | Some ra =>
      delay ←
        match ra_DeltaSeconds ra with
        | None => Some 0
        | Some seconds =>
            let seconds := if seconds <? 0 then 0 else seconds in
            candidate ← providerDelaySeconds seconds; Some (raise_to candidate 0)
        end;
      delay ←
        match ra_DelayMilliseconds ra with
        | None => Some delay
        | Some ms => candidate ← providerDelayMilliseconds ms; Some (raise_to candidate delay)
        end;
      match ra_HTTPDate ra with
      | None => Some delay
      | Some when =>
          if now + maxDuration <? when then None
          else
            let candidate := Time_Sub when now in
            let candidate := if candidate <? 0 then 0 else candidate in
            Some (raise_to candidate delay)
      end
  end.

Definition deterministicInputFailure (kind : ErrorKind) : bool :=
  (kind ==? ErrorKindContextWindow) || (kind ==? ErrorKindPayloadTooLarge).

Definition retryable (evidence : Evidence) (attempt : Attempt) : bool :=
  if pe_Kind (evd_Provider evidence) ==? ErrorKindReplayRejected
  then at_ProviderReplayCutoffCanAdvance attempt
  else if deterministicInputFailure (pe_Kind (evd_Provider evidence)) then false
  else if evd_Ambiguous evidence then true
  else
    match pe_Retryable (evd_Provider evidence) with
    | Some b => b
    | None =>
        match pe_Kind (evd_Provider evidence) with
        | ErrorKindTransient | ErrorKindRateLimit | ErrorKindProviderUnavailable | ErrorKindUnknown =>
            true
        | _ => false
        end
    end.

Definition Decide {JP : JsonPackage} (err : option GoError) (attempt : Attempt) (contextID : string) (now : Z)
    : Evidence * Decision :=
  let evidence := EvidenceFor err in
  if negb (retryable evidence attempt) then (evidence, mkDecision ActionStop 0)
  else if MaxModelCallRetriesPerOperation <? at_Number attempt
  then (evidence, mkDecision ActionStop 0)
  else
    match retryAfterDelay (pe_RetryAfter (evd_Provider evidence)) now with
    | None => (evidence, mkDecision ActionStop 0)
    | Some providerRetryDelay =>
        let delay := ModelCallRetryBackoff (at_Number attempt) contextID in
        (evidence, mkDecision ActionRetry
                     (if delay <? providerRetryDelay then providerRetryDelay else delay))
    end.


(** ** Bounds *)

Lemma jitter_range contextID n : 80 <= deterministicModelCallRetryJitterPercent contextID n <= 120.
Proof.
  unfold deterministicModelCallRetryJitterPercent.
  pose proof (Z.mod_pos_bound (fnv32a fnv_offset (contextID +:+ ":" +:+ pretty n)) 41). lia.
Qed.

Lemma double_delay_range n delay :
  Second <= delay <= 2 * maxModelCallRetryBackoff ->
  Second <= double_delay n delay <= 2 * maxModelCallRetryBackoff.
Proof.
  revert delay. induction n as [|n IH]; intros delay H; simpl; [done|].
  case_match; [|done]. bsimpl. apply IH.
  rewrite wrap64_id; unfold is_int64, int64_min, int64_max, maxModelCallRetryBackoff, Second,
    Millisecond, Microsecond in *; lia.
Qed.

Lemma backoff_range n contextID :
  800 * Millisecond <= ModelCallRetryBackoff n contextID <= maxModelCallRetryBackoff.
Proof.
  unfold ModelCallRetryBackoff. set (a := if n <? 1 then 1 else n).
  pose proof (double_delay_range (Z.to_nat (a - 1)) baseModelCallRetryBackoff) as Hd.
  pose proof (jitter_range contextID a) as Hj.
  set (d := double_delay _ _) in *. set (j := deterministicModelCallRetryJitterPercent _ _) in *.
  unfold baseModelCallRetryBackoff, maxModelCallRetryBackoff, Second, Millisecond, Microsecond in *.
  assert (1000 * (1000 * 1000) <= d <= 2 * (30 * (1000 * (1000 * 1000)))) as Hd' by (apply Hd; lia).
  rewrite wrap64_id by (unfold is_int64, int64_min, int64_max; nia).
  rewrite Z.quot_div_nonneg by nia.
  assert (800 * (1000 * 1000) <= d * j / 100) by (apply Z.div_le_lower_bound; nia).
  case_match; bsimpl; lia.
Qed.

Lemma raise_to_max c d : raise_to c d = Z.max c d.
Proof. unfold raise_to. case_match; bsimpl; lia. Qed.

Lemma providerDelaySeconds_spec s d :
  providerDelaySeconds s = Some d -> d = Z.max 0 (s * Second) /\ 0 <= d <= maxDuration.
Proof.
  unfold providerDelaySeconds. intros H. repeat case_match; simplify_eq; bsimpl.
  - unfold maxDuration, Second, Millisecond, Microsecond, int64_max. lia.
  - assert (s * Second <= maxDuration).
    { unfold maxDuration, int64_max, Second, Millisecond, Microsecond in *.
      change (Z.quot (2 ^ 63 - 1) (1000 * (1000 * 1000))) with 9223372036 in *. lia. }
    rewrite wrap64_id.
    + unfold Second, Millisecond, Microsecond in *. lia.
    + unfold is_int64, int64_min, maxDuration, Second, Millisecond, Microsecond in *. lia.
Qed.

Lemma providerDelayMilliseconds_spec s d :
  providerDelayMilliseconds s = Some d -> d = Z.max 0 (s * Millisecond) /\ 0 <= d <= maxDuration.
Proof.
  unfold providerDelayMilliseconds. intros H. repeat case_match; simplify_eq; bsimpl.
  - unfold maxDuration, Millisecond, Microsecond, int64_max. lia.
  - assert (s * Millisecond <= maxDuration).
    { unfold maxDuration, int64_max, Millisecond, Microsecond in *.
      change (Z.quot (2 ^ 63 - 1) (1000 * 1000)) with 9223372036854 in *. lia. }
    rewrite wrap64_id.
    + unfold Millisecond, Microsecond in *. lia.
    + unfold is_int64, int64_min, maxDuration, Millisecond, Microsecond in *. lia.
Qed.

(** The instant before which the provider asked not to be called again. *)
Definition requested_delay (ra : RetryAfter) (now : Z) : Z :=
  Z.max (default 0 ((fun s => s * Second) <$> ra_DeltaSeconds ra))
    (Z.max (default 0 ((fun s => s * Millisecond) <$> ra_DelayMilliseconds ra))
       (default 0 ((fun t => t - now) <$> ra_HTTPDate ra))).

Lemma retryAfterDelay_spec ra now d :
  retryAfterDelay (Some ra) now = Some d ->
  d = Z.max 0 (requested_delay ra now) /\ d <= maxDuration.
Proof.
  unfold retryAfterDelay, requested_delay. intros H.
  apply bind_Some in H as (d1 & H1 & H). apply bind_Some in H as (d2 & H2 & H).
  assert (d1 = Z.max 0 (default 0 ((fun s => s * Second) <$> ra_DeltaSeconds ra)) /\ 0 <= d1 <= maxDuration)
    as [E1 B1].
  { destruct (ra_DeltaSeconds ra) as [s|]; simpl.
    - apply bind_Some in H1 as (c & Hc & [= <-]). apply providerDelaySeconds_spec in Hc as [-> ?].
      rewrite raise_to_max. unfold Second, Millisecond, Microsecond in *.
      destruct (s <? 0) eqn:E; bsimpl; lia.
    - simplify_eq. unfold maxDuration, int64_max. lia. }
  assert (d2 = Z.max d1 (default 0 ((fun s => s * Millisecond) <$> ra_DelayMilliseconds ra))
          /\ 0 <= d2 <= maxDuration) as [E2 B2].
  { destruct (ra_DelayMilliseconds ra) as [s|]; simpl.
    - apply bind_Some in H2 as (c & Hc & [= <-]). apply providerDelayMilliseconds_spec in Hc as [-> ?].
      rewrite raise_to_max. lia.
    - simplify_eq. lia. }
  destruct (ra_HTTPDate ra) as [t|]; simpl in *; [|simplify_eq; lia].
  case_match; simplify_eq. bsimpl. rewrite raise_to_max.
  destruct (Time_Sub t now <? 0) eqn:E; bsimpl;
    unfold Time_Sub, maxDuration, int64_min, int64_max in *; lia.
Qed.

Lemma ambiguity_wrapper_facts err :
  ClassifyError (AmbiguousProviderOutcome err) = ClassifyError err
  /\ IsAmbiguousProviderOutcome (AmbiguousProviderOutcome err) = bool_decide (is_Some err).
Proof. destruct err as [e|]; [|done]. simpl. destruct (is_ambiguous e) eqn:E; simpl; rewrite ?E; done. Qed.

(** ** Properties *)

(** A decision to retry is within the attempt budget and its delay is at
    least 800 ms, fits a [time.Duration], is never earlier than any of the
    provider's three hints asks, and without hints never exceeds 30 s. *)
Theorem retry_delay_is_bounded {JP : JsonPackage} err attempt contextID now d :
  (Decide err attempt contextID now).2 = mkDecision ActionRetry d ->
  at_Number attempt <= MaxModelCallRetriesPerOperation
  /\ 800 * Millisecond <= d <= maxDuration
  /\ match pe_RetryAfter (evd_Provider (EvidenceFor err)) with
     | None => d <= maxModelCallRetryBackoff
     | Some ra => requested_delay ra now <= d
                  /\ d = Z.max (ModelCallRetryBackoff (at_Number attempt) contextID)
                               (requested_delay ra now)
     end.
Proof.
  unfold Decide. intros H. pose proof (backoff_range (at_Number attempt) contextID) as Hb.
  assert (maxModelCallRetryBackoff <= maxDuration)
    by (unfold maxModelCallRetryBackoff, maxDuration, int64_max, Second, Millisecond, Microsecond; lia).
  assert (0 < 800 * Millisecond) by (unfold Millisecond, Microsecond; lia).
  destruct (retryable (EvidenceFor err) attempt); cbn [negb snd] in H; [|done].
  destruct (MaxModelCallRetriesPerOperation <? at_Number attempt) eqn:Hn; cbn [negb snd] in H; [done|]. bsimpl.
  destruct (pe_RetryAfter (evd_Provider (EvidenceFor err))) as [ra|].
  - destruct (retryAfterDelay (Some ra) now) as [p|] eqn:Hp; cbn [negb snd] in H; [|done].
    apply retryAfterDelay_spec in Hp as [-> Hmax]. cbn [negb snd] in H. simplify_eq.
    destruct (_ <? _) eqn:E; bsimpl; lia.
  - simpl in H. simplify_eq. rewrite (proj2 (Z.ltb_ge _ _)) by lia. lia.
Qed.

(** An instance of the parameters, and a rate-limit error with two hints. *)
Definition sample_json : JsonPackage := {|
  json_value := string;
  json_Valid := fun s => s <>? "";
  json_tokens := fun s => ([TokenString s], true);
  json_Unmarshal := fun s => s <>? "";
  json_Decode := Some;
  json_Marshal := Some;
  json_Marshal_details := fun _ => Some "{}"
|}.

Definition sample_error (kind : ErrorKind) (retryAfter : option RetryAfter) (retryable : option bool)
    : ProviderError :=
  mkProviderError kind "openai" 429 "" " slow down " "req_1" retryAfter retryable "".

Definition sample_rate_limit : GoError :=
  EOther "send: slow down" (Some (EProvider
    (sample_error ErrorKindRateLimit (Some (mkRetryAfter (Some 7) (Some 1500) None)) None) None)).

Lemma retry_delay_is_bounded_witness :
  requested_delay (mkRetryAfter (Some 7) (Some 1500) None) 0 <= 7 * Second.
Proof.
  apply (@retry_delay_is_bounded sample_json (Some sample_rate_limit) (mkAttempt 2 false) "ctx" 0
           (7 * Second)).
  vm_compute. reflexivity.
Defined.

(** Marking an outcome ambiguous keeps its classification, is visible through
    any chain, and wraps only once. *)
Theorem ambiguity_wrapper_is_transparent err :
  ClassifyError (AmbiguousProviderOutcome err) = ClassifyError err
  /\ IsAmbiguousProviderOutcome (AmbiguousProviderOutcome err) = bool_decide (is_Some err)
  /\ AmbiguousProviderOutcome (AmbiguousProviderOutcome err) = AmbiguousProviderOutcome err.
Proof.
  destruct (ambiguity_wrapper_facts err) as [-> ->]. split_and!; [done|done|].
  destruct err as [e|]; [|done]. simpl. destruct (is_ambiguous e) eqn:E; simpl; by rewrite ?E.
Qed.

(** What the policy retries: a failure the provider would repeat for the same
    input is never retried, even if it is ambiguous or flagged retryable; an
    ambiguous outcome of any other kind (replay rejections apart) is retried while
    the budget lasts and no hint is beyond representation. *)
Theorem retry_classification {JP : JsonPackage} e err attempt contextID now :
  ClassifyError err = Some e ->
  (deterministicInputFailure (pe_Kind e) = true ->
     d_Action (Decide err attempt contextID now).2 = ActionStop)
  /\ (deterministicInputFailure (pe_Kind e) = false -> pe_Kind e <> ErrorKindReplayRejected ->
      pe_RetryAfter e = None -> at_Number attempt <= MaxModelCallRetriesPerOperation ->
      d_Action (Decide (AmbiguousProviderOutcome err) attempt contextID now).2 = ActionRetry).
Proof.
  intros Hc. destruct err as [err|]; [|done].
  assert (default_kind e = e) as Hdk.
  { simpl in Hc. unfold default_kind in *.
    destruct (as_provider err) as [e1|]; [|destruct (as_classifier err) as [e1|]; [|done]];
      simpl in Hc; repeat case_bool_decide; by simplify_eq. }
  split.
  - intros Hdet. unfold Decide, EvidenceFor. rewrite Hc, Hdk. unfold retryable. simpl.
    rewrite Hdet. case_bool_decide as Hr; [|done].
    unfold deterministicInputFailure in Hdet. by rewrite Hr in Hdet.
  - intros Hdet Hrep Hra Hn.
    destruct (ambiguity_wrapper_facts (Some err)) as (Hc' & Ha'). rewrite Hc in Hc'.
    unfold Decide, EvidenceFor. rewrite Hc', Ha', Hdk. unfold retryable. simpl.
    rewrite Hdet, bool_decide_eq_false_2 by done.
    rewrite (proj2 (Z.ltb_ge _ _)), Hra by done. done.
Qed.

Lemma retry_classification_witness :
  d_Action (@Decide sample_json (Some (EOther "failed" (Some (EProvider
     (sample_error ErrorKindContextWindow None (Some true)) None)))) (mkAttempt 1 true) "ctx" 0).2
  = ActionStop.
Proof.
  apply (@retry_classification sample_json (sample_error ErrorKindContextWindow None (Some true)));
    vm_compute; reflexivity.
Defined.

(** ** The texts of the evidence *)

(** What a PostgreSQL text column takes: valid UTF-8 without U+0000, and short. *)
Definition storable (s : string) : Prop :=
  utf8 s /\ free_of NUL s /\ (String.length s <= sanitize_max)%nat.

(** A text that needs no cleaning. *)
Definition clean (s : string) : Prop := storable s /\ TrimSpace s = s.

Lemma replacement_valid : utf8 replacement_character.
Proof. apply ValidString_iff. vm_compute. reflexivity. Qed.

Lemma cleaned_valid value :
  let v := TrimSpace (remove_byte NUL (ToValidUTF8 value replacement_character)) in
  utf8 v /\ free_of NUL v.
Proof.
  simpl. split.
  - destruct (TrimSpace_spec (remove_byte NUL (ToValidUTF8 value replacement_character)))
      as (p & q & _ & Hu).
    apply Hu, remove_byte_utf8; [done|]. apply to_valid_utf8, replacement_valid.
  - apply free_of_TrimSpace, remove_byte_idem.
Qed.

Lemma sanitize_storable value : storable (sanitize value).
Proof.
  unfold sanitize. destruct (cleaned_valid value) as [Hu Hf]. cbv zeta in *.
  set (v := TrimSpace _) in *. destruct (Nat.ltb sanitize_max (String.length v)) eqn:E.
  - apply Nat.ltb_lt in E.
    destruct (valid_prefix_spec sanitize_max v) as (m & t & Hm & -> & Ht & Hl & Hv & _); [lia|].
    rewrite Ht in Hf. apply free_of_app in Hf as [Hf _]. split_and!; [done|done|lia].
  - apply Nat.ltb_ge in E. by split_and!.
Qed.

(** Whatever bytes a provider sends, the code, message and request identifier
    of the stored evidence are valid UTF-8 without U+0000 and at most 2,000 bytes
    long, and the message is never empty. *)
Theorem evidence_is_storable {JP : JsonPackage} err :
  storable (evd_Code (EvidenceFor err)) /\ storable (evd_Message (EvidenceFor err))
  /\ storable (evd_RequestID (EvidenceFor err)) /\ evd_Message (EvidenceFor err) <> "".
Proof.
  unfold EvidenceFor. cbn [evd_Code evd_Message evd_RequestID].
  split_and!; try apply sanitize_storable; case_bool_decide; try done; try apply sanitize_storable.
  split_and!; [apply ValidString_iff; reflexivity|reflexivity|unfold sanitize_max; simpl; lia].
Qed.

(** [sanitize] loses no more than it must: a clean text is kept as it is, and
    a longer valid one, free of U+0000 and of surrounding space, is cut to a
    prefix that is at most three bytes short of the limit. *)
Theorem sanitize_is_faithful value :
  (clean value -> sanitize value = value)
  /\ (utf8 value -> free_of NUL value -> TrimSpace value = value ->
      (sanitize_max < String.length value)%nat ->
      exists rest, value = sanitize value +:+ rest
        /\ (sanitize_max - 3 <= String.length (sanitize value))%nat).
Proof.
  assert (utf8 value -> free_of NUL value -> TrimSpace value = value ->
          sanitize value = if Nat.ltb sanitize_max (String.length value)
                           then valid_prefix sanitize_max value else value) as Heq.
  { intros Hu Hf Ht. unfold sanitize, ToValidUTF8. rewrite to_valid_id by done. cbv zeta.
    unfold free_of in Hf. by rewrite Hf, Ht. }
  split.
  - intros ((Hu & Hf & Hl) & Ht). rewrite Heq by done. case_match eqn:E; [|done].
    apply Nat.ltb_lt in E. lia.
  - intros Hu Hf Ht Hlong. rewrite Heq by done. rewrite (proj2 (Nat.ltb_lt _ _) Hlong).
    pose proof (valid_prefix_length sanitize_max value Hu). 
    destruct (valid_prefix_spec sanitize_max value) as (m & t & _ & Hv & Hs & _); [lia|].
    exists t. rewrite Hv in *. split; [done|lia].
Qed.

Lemma sanitize_is_faithful_witness : sanitize "slow down" = "slow down".
Proof.
  apply (sanitize_is_faithful "slow down").
  split; [|reflexivity]. split_and!; [apply ValidString_iff; reflexivity|reflexivity|].
  unfold sanitize_max. simpl. lia.
Defined.
