(* ===== verification/ModelContext.v ===== *)
(** * The size of a model request

    Models [internal/modelcontext/budget.go] and the media types it reads: the
    window arithmetic, and the token estimate of a prepared body in which inline
    base64 media is replaced by a per-item estimate before the bytes are counted.

    [encoding/json] is the class [JsonCodec]: [json.Unmarshal] into an [any] gives a
    tree, [json.Marshal] a text.  An object is an association list with the keys of
    the Go map; the replacement edits it in place, as the code edits the freshly
    decoded maps, which share nothing.  The recursion over the tree is not
    structural (an object is edited before its fields are visited): it has fuel, the
    depth of the tree is always enough, and [replace_fuel] shows more changes
    nothing. *)
From S2P Require Import Prelude GoStrings.
From Stdlib Require Import Ascii.
From stdpp Require Import options.
Local Open Scope Z_scope.

(** ** The window *)

Record ModelWindow : Type := mkModelWindow {
  ContextTokens : Z;
  OutputReserveTokens : Z;
  SafetyMarginTokens : Z
}.

Definition UsableInputTokens (w : ModelWindow) : Z :=
  let usable := wrap64 (wrap64 (ContextTokens w - OutputReserveTokens w) - SafetyMarginTokens w) in
  if usable <? 0 then 0 else usable.

Definition DefaultSafetyMarginTokens (contextTokens : Z) : Z :=
  if contextTokens <=? 0 then 0
  else
    let margin := Z.quot contextTokens 20 in
    let margin := if (4096 <=? contextTokens) && (margin <? 1024) then 1024 else margin in
    if 8192 <? margin then 8192 else margin.

(** ** Rendered media *)

Definition AttachmentKindImage : string := "image".
Definition AttachmentKindDocument : string := "document".
Definition MediaRepresentationInline : string := "inline".
Definition MediaRepresentationInlineText : string := "inline_text".
Definition InputModalityText : string := "text".
Definition InputModalityImage : string := "image".
Definition InputModalityFile : string := "file".
Definition DefaultImageTokenEstimate : Z := 4784.
Definition DefaultBinaryDocumentTokenEstimate : Z := 8192.

(** [RenderedMedia] with the two fields of its [ResolvedMedia] that are read. *)
Record RenderedMedia : Type := mkRenderedMedia {
  m_Kind : string;
  m_Data : string;
  m_Representation : string;
  m_RouteParsed : bool;
  m_TokenEstimate : Z
}.

Definition InputModality (m : RenderedMedia) : string :=
  if m_Kind m ==? AttachmentKindImage then InputModalityImage
  else if m_Kind m ==? AttachmentKindDocument then
    if m_RouteParsed m || (m_Representation m ==? MediaRepresentationInlineText) then ""
    else InputModalityFile
  else "".

Definition renderedMediaTokenEstimate (media : list RenderedMedia) : Z :=
  foldl (fun estimate item =>
    if m_Representation item ==? MediaRepresentationInlineText then estimate
    else if 0 <? m_TokenEstimate item then wrap64 (estimate + m_TokenEstimate item)
    else if m_Kind item ==? AttachmentKindImage then wrap64 (estimate + DefaultImageTokenEstimate)
    else wrap64 (estimate + DefaultBinaryDocumentTokenEstimate)) 0 media.

(** ** [base64.StdEncoding.EncodeToString] *)

Definition base64_alphabet : string :=
  "ABCDEFGHIJKLMNOPQRSTUVWXYZabcdefghijklmnopqrstuvwxyz0123456789+/".
Definition digit (n : Z) : ascii := default "="%char (String.get (Z.to_nat n) base64_alphabet).

Fixpoint EncodeToString (s : string) : string :=
  match s with
  | "" => ""
  | String a "" =>
      let n := byte a * 65536 in
      String (digit (n / 262144)) (String (digit (n / 4096 mod 64)) "==")
  | String a (String b "") =>
      let n := byte a * 65536 + byte b * 256 in
      String (digit (n / 262144)) (String (digit (n / 4096 mod 64))
        (String (digit (n / 64 mod 64)) "="))
  | String a (String b (String c rest)) =>
      let n := byte a * 65536 + byte b * 256 + byte c in
      String (digit (n / 262144)) (String (digit (n / 4096 mod 64))
        (String (digit (n / 64 mod 64)) (String (digit (n mod 64)) (EncodeToString rest))))
  end.

Example base64_vectors :
  map EncodeToString ["f"; "fo"; "foo"; "foobar"] = ["Zg=="; "Zm8="; "Zm9v"; "Zm9vYmFy"].
Proof. reflexivity. Qed.

(** ** The decoded body *)

Inductive Json : Type :=
  | JNull
  | JBool (b : bool)
  | JNumber (n : string)
  | JString (s : string)
  | JArray (items : list Json)
  | JObject (fields : list (string * Json)).

Class JsonCodec : Type := {
  (** [json.Unmarshal] into an [any] *)
  unmarshal_any : string -> option Json;
  (** [json.Marshal] *)
  marshal_any : Json -> option string
}.

(** [object[field]] and the assignment to an existing key. *)
Fixpoint get (field : string) (object : list (string * Json)) : option Json :=
  match object with
  | [] => None
  | (k, v) :: rest => if k ==? field then Some v else get field rest
  end.

Fixpoint put (field : string) (value : Json) (object : list (string * Json)) : list (string * Json) :=
  match object with
  | [] => []
  | (k, v) :: rest => if k ==? field then (k, value) :: rest else (k, v) :: put field value rest
  end.

(** [value[strings.Index(value, marker)+len(marker):]] *)
Fixpoint after (marker value : string) : option string :=
  if String.prefix marker value
  then Some (String.substring (String.length marker) (String.length value) value)
  else match value with "" => None | String _ value' => after marker value' end.

Definition resolved_media : Json := JString "<resolved-media>".

Section Replace.
Context (encodedMedia : gset string).

Definition replaceDataURLField (object : list (string * Json)) (field : string)
    : list (string * Json) :=
  match get field object with
  | Some (JString value) =>
      match after ";base64," value with
      | None => object
      | Some encoded =>
          if bool_decide (encoded ∈ encodedMedia) then put field resolved_media object else object
      end
  | _ => object
  end.

Definition replaceEncodedField (object : list (string * Json)) (field : string)
    : list (string * Json) :=
  match get field object with
  | Some (JString value) =>
      if bool_decide (value ∈ encodedMedia) then put field resolved_media object else object
  | _ => object
  end.

(** Edits the object that is the value of [field], if it is one. *)
Definition edit_object (field : string)
    (edit : list (string * Json) -> list (string * Json)) (typed : list (string * Json))
    : list (string * Json) :=
  match get field typed with
  | Some (JObject object) => put field (JObject (edit object)) typed
  | _ => typed
  end.

Definition has_type (type : string) (typed : list (string * Json)) : bool :=
  match get "type" typed with Some (JString t) => t ==? type | _ => false end.

(** The [switch typed["type"]]. *)
Definition replace_typed (typed : list (string * Json)) : list (string * Json) :=
  if has_type "input_image" typed then replaceDataURLField typed "image_url"
  else if has_type "input_file" typed then replaceDataURLField typed "file_data"
  else if has_type "file" typed
  then edit_object "file" (fun file => replaceDataURLField file "file_data") typed
  else if has_type "image" typed || has_type "document" typed
  then edit_object "source" (fun source =>
         if has_type "base64" source then replaceEncodedField source "data" else source) typed
  else if has_type "image_url" typed
  then edit_object "image_url" (fun imageURL => replaceDataURLField imageURL "url") typed
  else typed.

Fixpoint replaceInlineMediaFields (fuel : nat) (value : Json) : Json :=
  match fuel with
  | O => value
  | S fuel' =>
      match value with
      | JArray items => JArray (map (replaceInlineMediaFields fuel') items)
      | JObject typed =>
          JObject (map (fun kv => (kv.1, replaceInlineMediaFields fuel' kv.2)) (replace_typed typed))
      | _ => value
      end
  end.
End Replace.

Fixpoint depth (value : Json) : nat :=
  match value with
  | JArray items => S (fold_right (fun v n => Nat.max (depth v) n) 0%nat items)
  | JObject fields => S (fold_right (fun kv n => Nat.max (depth kv.2) n) 0%nat fields)
  | _ => 1%nat
  end.

Section Estimate.
Context {JC : JsonCodec}.

Definition encoded_media (media : list RenderedMedia) : gset string :=
  foldl (fun encoded item =>
    if (m_Representation item <>? MediaRepresentationInline) || (m_Data item ==? "") then encoded
    else {[ EncodeToString (m_Data item) ]} ∪ encoded) ∅ media.

Definition preparedRequestWithoutInlineMedia (body : string) (media : list RenderedMedia) : string :=
  let encodedMedia := encoded_media media in
  if bool_decide (encodedMedia = ∅) then body
  else
    match unmarshal_any body with
    | None => body
    | Some request =>
        match marshal_any (replaceInlineMediaFields encodedMedia (depth request) request) with
        | None => body
        | Some projected => projected
        end
    end.

Definition EstimatePreparedRequest (body : string) (media : list RenderedMedia) : Z :=
  let projected := preparedRequestWithoutInlineMedia body media in
  wrap64 (Z.of_nat (String.length projected) / 4 + 1 + renderedMediaTokenEstimate media).
End Estimate.

(** ** What the replacement does *)

Lemma Json_nested_ind (P : Json -> Prop) :
  P JNull -> (forall b, P (JBool b)) -> (forall n, P (JNumber n)) -> (forall s, P (JString s)) ->
  (forall items, Forall P items -> P (JArray items)) ->
  (forall fields, Forall (fun kv => P kv.2) fields -> P (JObject fields)) -> forall v, P v.
Proof.
  intros HN HB Hn HS HA HO. fix IH 1. intros [|b|n|s|items|fields]; [apply HN|apply HB|apply Hn|apply HS|..].
  - apply HA. induction items as [|v items IHl]; constructor; [apply IH|apply IHl].
  - apply HO. induction fields as [|[k v] fields IHl]; constructor; [apply IH|apply IHl].
Qed.

Definition scalar (v : Json) : bool :=
  match v with JArray _ | JObject _ => false | _ => true end.

Lemma Forall2_trans_on {A} (R : A -> A -> Prop) l1 l2 l3 :
  Forall (fun x => forall y z, R x y -> R y z -> R x z) l1 ->
  Forall2 R l1 l2 -> Forall2 R l2 l3 -> Forall2 R l1 l3.
Proof.
  intros H. revert l2 l3. induction H as [|x l1 Hx _ IH]; intros l2 l3 H12 H23;
    inversion H12; subst; inversion H23; subst; constructor; eauto.
Qed.

Section Projection.
Context (encodedMedia : gset string).

(** A text that carries one of the media: the encoding itself, or a data URL. *)
Definition media_text (s : string) : Prop :=
  s ∈ encodedMedia \/ exists encoded, after ";base64," s = Some encoded /\ encoded ∈ encodedMedia.

(** [v'] is [v] with some media texts replaced, and nothing else changed. *)
Inductive projects : Json -> Json -> Prop :=
  | projects_scalar v : scalar v = true -> projects v v
  | projects_media s : media_text s -> projects (JString s) resolved_media
  | projects_array l l' : Forall2 projects l l' -> projects (JArray l) (JArray l')
  | projects_object o o' :
      Forall2 (fun kv kv' => kv.1 = kv'.1 /\ projects kv.2 kv'.2) o o' ->
      projects (JObject o) (JObject o').

Definition field_projects (kv kv' : string * Json) : Prop := kv.1 = kv'.1 /\ projects kv.2 kv'.2.
Abbreviation fields_project := (Forall2 field_projects).

Lemma projects_refl v : projects v v.
Proof.
  induction v as [| | | |l IH|o IH] using Json_nested_ind; try by constructor.
  - apply projects_array. by induction IH; constructor.
  - apply projects_object. by induction IH; constructor.
Qed.

Lemma fields_project_refl o : fields_project o o.
Proof. induction o; constructor; [|done]. split; [done|apply projects_refl]. Qed.

Lemma projects_trans v1 v2 v3 : projects v1 v2 -> projects v2 v3 -> projects v1 v3.
Proof.
  revert v2 v3. induction v1 as [| | | |l IH|o IH] using Json_nested_ind; intros v2 v3 H12 H23.
  all: inversion H12; subst; try done.
  - inversion H23; subst; by constructor.
  - inversion H23; subst; try done. apply projects_array.
    by eapply (Forall2_trans_on projects).
  - inversion H23; subst; try done. apply projects_object.
    eapply (Forall2_trans_on field_projects); [|done|done].
    eapply Forall_impl; [exact IH|]. intros kv Hkv kv2 kv3 [E H] [E' H'].
    split; [congruence|eauto].
Qed.

Lemma fields_project_trans o1 o2 o3 :
  fields_project o1 o2 -> fields_project o2 o3 -> fields_project o1 o3.
Proof.
  intros H12 H23. assert (projects (JObject o1) (JObject o3)) as H
    by (by eapply projects_trans; apply projects_object).
  by inversion H.
Qed.

Lemma projects_depth v v' : projects v v' -> depth v' = depth v.
Proof.
  revert v'. induction v as [| | | |l IH|o IH] using Json_nested_ind; intros v' H;
    inversion H as [| |? l' Hl|? o' Ho]; subst; try done; simpl; f_equal.
  - clear H. revert l' Hl. induction IH as [|v l Hv _ IHl]; intros l' Hl;
      inversion Hl; subst; simpl; [done|]. f_equal; auto.
  - clear H. revert o' Ho. induction IH as [|kv o Hv _ IHl]; intros o' Ho;
      inversion Ho as [|? ? ? ? [_ ?]]; subst; simpl; [done|]. f_equal; auto.
Qed.

(** An assignment to a field that holds a projection of what it held. *)
Lemma put_project f v v' o : get f o = Some v -> projects v v' -> fields_project o (put f v' o).
Proof.
  induction o as [|[k w] o IH]; simpl; [done|]. case_bool_decide; intros Hg Hv; simplify_eq.
  - constructor; [done|apply fields_project_refl].
  - constructor; [split; [done|apply projects_refl]|auto].
Qed.

Lemma replaceDataURLField_project o f : fields_project o (replaceDataURLField encodedMedia o f).
Proof.
  unfold replaceDataURLField. repeat (case_match; try apply fields_project_refl).
  bsimpl. eapply put_project; [done|]. apply projects_media. right. eauto.
Qed.

Lemma replaceEncodedField_project o f : fields_project o (replaceEncodedField encodedMedia o f).
Proof.
  unfold replaceEncodedField. repeat (case_match; try apply fields_project_refl).
  bsimpl. eapply put_project; [done|]. apply projects_media. by left.
Qed.

Lemma edit_object_project f edit o :
  (forall obj, fields_project obj (edit obj)) -> fields_project o (edit_object f edit o).
Proof.
  intros H. unfold edit_object. repeat (case_match; try apply fields_project_refl).
  eapply put_project; [done|]. by apply projects_object.
Qed.

Lemma replace_typed_project o : fields_project o (replace_typed encodedMedia o).
Proof.
  unfold replace_typed. repeat case_match; try apply fields_project_refl;
    try apply replaceDataURLField_project; apply edit_object_project; intros obj;
    repeat case_match; auto using replaceDataURLField_project, replaceEncodedField_project,
      fields_project_refl.
Qed.

Lemma replace_project n v : projects v (replaceInlineMediaFields encodedMedia n v).
Proof.
  revert v. induction n as [|n IH]; intros v; simpl; [apply projects_refl|].
  destruct v as [| | | |items|typed]; try apply projects_refl.
  - apply projects_array. induction items; by constructor.
  - apply projects_object. eapply fields_project_trans; [apply replace_typed_project|].
    induction (replace_typed encodedMedia typed); by constructor.
Qed.

(** *** Fuel *)

Lemma depth_pos v : (1 <= depth v)%nat.
Proof. destruct v; simpl; lia. Qed.

Lemma depth_item v items : v ∈ items -> (depth v < depth (JArray items))%nat.
Proof. induction 1; simpl in *; lia. Qed.

Lemma depth_field kv o : kv ∈ o -> (depth kv.2 < depth (JObject o))%nat.
Proof. induction 1; simpl in *; lia. Qed.

Lemma replace_fuel n m v : (depth v <= n)%nat -> (depth v <= m)%nat ->
  replaceInlineMediaFields encodedMedia n v = replaceInlineMediaFields encodedMedia m v.
Proof.
  revert m v. induction n as [|n IH]; intros m v Hn Hm; [pose proof (depth_pos v); lia|].
  destruct m as [|m]; [pose proof (depth_pos v); lia|]. simpl.
  destruct v as [| | | |items|typed]; try done; f_equal; apply map_ext_in; intros x Hx;
    apply list_elem_of_In in Hx.
  - apply depth_item in Hx. apply IH; lia.
  - apply depth_field in Hx. f_equal.
    pose proof (projects_depth (JObject typed) (JObject (replace_typed encodedMedia typed))
                  ltac:(apply projects_object, replace_typed_project)). apply IH; lia.
Qed.

(** *** Completeness: a second pass finds nothing *)

Definition url_ok (f : string) (o : list (string * Json)) : Prop :=
  forall s encoded, get f o = Some (JString s) -> after ";base64," s = Some encoded ->
    encoded ∉ encodedMedia.
Definition data_ok (f : string) (o : list (string * Json)) : Prop :=
  forall s, get f o = Some (JString s) -> s ∈ encodedMedia -> JString s = resolved_media.

Lemma get_project f o o' v' :
  fields_project o o' -> get f o' = Some v' -> exists v, get f o = Some v /\ projects v v'.
Proof.
  induction 1 as [|[k v] [k' w] o o' [E Hv] _ IH]; simpl in *; [done|]. subst k'.
  case_bool_decide; [|done]. intros [= ->]. eauto.
Qed.

Lemma url_ok_project f o o' : fields_project o o' -> url_ok f o -> url_ok f o'.
Proof.
  intros Hp Hok s encoded Hg Ha. destruct (get_project _ _ _ _ Hp Hg) as (v & Hv & Hs).
  inversion Hs; subst; [by eapply Hok|]. by vm_compute in Ha.
Qed.

Lemma data_ok_project f o o' : fields_project o o' -> data_ok f o -> data_ok f o'.
Proof.
  intros Hp Hok s Hg Hin. destruct (get_project _ _ _ _ Hp Hg) as (v & Hv & Hs).
  inversion Hs; subst; [by eapply Hok|done].
Qed.

Lemma get_put f g v o :
  get f (put g v o) = if f ==? g then (if bool_decide (is_Some (get g o)) then Some v else None) else get f o.
Proof.
  induction o as [|[k w] o IH]; simpl; [by repeat case_bool_decide; destruct (decide (f = g))|].
  repeat (case_bool_decide; simplify_eq/=; try done).
  all: try (rewrite IH; repeat (case_bool_decide; simplify_eq/=; try done)).
  all: exfalso; eauto.
Qed.

Lemma put_same f v o : get f o = Some v -> put f v o = o.
Proof.
  induction o as [|[k w] o IH]; simpl; [done|]. case_bool_decide; intros Hg; simplify_eq; [done|].
  by rewrite IH.
Qed.

Lemma url_ok_replaced f o : url_ok f (replaceDataURLField encodedMedia o f).
Proof.
  unfold replaceDataURLField. intros s encoded Hg Ha Hin.
  destruct (get f o) as [[| | |value| |]|] eqn:E; try congruence.
  destruct (after ";base64," value) as [e|] eqn:Ev; [|congruence].
  case_bool_decide; [|congruence].
  rewrite get_put, E, !bool_decide_eq_true_2 in Hg by eauto using mk_is_Some.
  unfold resolved_media in Hg. by simplify_eq.
Qed.

Lemma data_ok_replaced f o : data_ok f (replaceEncodedField encodedMedia o f).
Proof.
  unfold replaceEncodedField. intros s Hg Hin.
  destruct (get f o) as [[| | |value| |]|] eqn:E; try congruence.
  case_bool_decide; [|congruence].
  rewrite get_put, E, !bool_decide_eq_true_2 in Hg by eauto using mk_is_Some. congruence.
Qed.

Lemma url_ok_id f o : url_ok f o -> replaceDataURLField encodedMedia o f = o.
Proof.
  unfold replaceDataURLField. intros H. repeat case_match; try done. bsimpl. exfalso. by eapply H.
Qed.

Lemma data_ok_id f o : data_ok f o -> replaceEncodedField encodedMedia o f = o.
Proof.
  unfold replaceEncodedField. intros H. repeat case_match; try done. bsimpl. subst.
  apply put_same. erewrite <- H; eauto.
Qed.

(** The object a field holds. *)
Definition inner (P : list (string * Json) -> Prop) (f : string) (o : list (string * Json)) : Prop :=
  forall object, get f o = Some (JObject object) -> P object.

(** Nothing left to replace at the top of an object. *)
Record typed_ok (o : list (string * Json)) : Prop := mk_typed_ok {
  ok_input_image : has_type "input_image" o = true -> url_ok "image_url" o;
  ok_input_file : has_type "input_file" o = true -> url_ok "file_data" o;
  ok_file : has_type "file" o = true -> inner (url_ok "file_data") "file" o;
  ok_source : has_type "image" o = true \/ has_type "document" o = true ->
    inner (fun source => has_type "base64" source = true -> data_ok "data" source) "source" o;
  ok_image_url : has_type "image_url" o = true -> inner (url_ok "url") "image_url" o
}.

Lemma edit_object_id f edit o :
  inner (fun object => edit object = object) f o -> edit_object f edit o = o.
Proof.
  unfold edit_object, inner. intros H. repeat case_match; try done. subst. apply put_same.
  by rewrite H.
Qed.

Lemma typed_ok_id o : typed_ok o -> replace_typed encodedMedia o = o.
Proof.
  intros [H1 H2 H3 H4 H5]. unfold replace_typed.
  repeat (case_match; bcases); try done; try (apply url_ok_id; auto; fail);
    apply edit_object_id; intros object Hg.
  - apply url_ok_id. by apply H3.
  - case_match; [|done]. apply data_ok_id. eapply H4; eauto.
  - case_match; [|done]. apply data_ok_id. eapply H4; eauto.
  - apply url_ok_id. by apply H5.
Qed.

(** The edits leave the ["type"] of an object alone. *)
Lemma has_type_get t o o' : get "type" o' = get "type" o -> has_type t o' = has_type t o.
Proof. unfold has_type. by intros ->. Qed.

Lemma get_type_put f v o : f <> "type" -> get "type" (put f v o) = get "type" o.
Proof. intros H. rewrite get_put. by rewrite bool_decide_eq_false_2. Qed.

Lemma get_type_url f o : f <> "type" -> get "type" (replaceDataURLField encodedMedia o f) = get "type" o.
Proof. intros. unfold replaceDataURLField. repeat case_match; try done; by apply get_type_put. Qed.

Lemma get_type_data f o : f <> "type" -> get "type" (replaceEncodedField encodedMedia o f) = get "type" o.
Proof. intros. unfold replaceEncodedField. repeat case_match; try done; by apply get_type_put. Qed.

Lemma get_type_edit f edit o : f <> "type" -> get "type" (edit_object f edit o) = get "type" o.
Proof. intros. unfold edit_object. repeat case_match; try done; by apply get_type_put. Qed.

Lemma get_type_typed o : get "type" (replace_typed encodedMedia o) = get "type" o.
Proof.
  unfold replace_typed. repeat case_match; try done;
    first [by apply get_type_url | by apply get_type_edit].
Qed.

Lemma has_type_other t t' o : has_type t o = true -> t' <> t -> has_type t' o = false.
Proof.
  unfold has_type. intros H Hne. repeat case_match; try done. bsimpl. subst.
  by apply bool_decide_eq_false_2.
Qed.

Lemma inner_edited (P : list (string * Json) -> Prop) f edit o :
  (forall object, P (edit object)) -> inner P f (edit_object f edit o).
Proof.
  intros H object Hg. unfold edit_object in Hg.
  destruct (get f o) as [[| | | | |obj]|] eqn:E; simplify_eq.
  rewrite get_put, E, !bool_decide_eq_true_2 in Hg by eauto using mk_is_Some. by simplify_eq.
Qed.

Lemma base64_source_ok source :
  has_type "base64" (if has_type "base64" source then replaceEncodedField encodedMedia source "data"
                     else source) = true ->
  data_ok "data" (if has_type "base64" source then replaceEncodedField encodedMedia source "data"
                  else source).
Proof. case_match; [|congruence]. intros _. apply data_ok_replaced. Qed.

Lemma replace_typed_ok o : typed_ok (replace_typed encodedMedia o).
Proof.
  assert (forall t, has_type t (replace_typed encodedMedia o) = has_type t o) as Ht
    by (intros t; apply has_type_get, get_type_typed).
  assert (forall t t', has_type t o = true -> t' <> t -> has_type t' o = false) as Ho
    by (intros t t'; apply has_type_other).
  split; rewrite !Ht; [intros H|intros H|intros H|intros [H|H]|intros H]; unfold replace_typed.
  all: rewrite ?H, ?(Ho _ _ H) by discriminate; rewrite ?orb_true_r; cbn [orb].
  all: first [apply url_ok_replaced | apply inner_edited; intros object].
  all: first [apply url_ok_replaced | apply base64_source_ok].
Qed.

(** The visit of the fields keeps what the edits established. *)
Abbreviation visit n := (fun kv : string * Json => (kv.1, replaceInlineMediaFields encodedMedia n kv.2)).

Lemma get_visit n f o : get f (map (visit n) o) = replaceInlineMediaFields encodedMedia n <$> get f o.
Proof. induction o as [|[k v] o IH]; simpl; [done|]. by case_bool_decide. Qed.

Lemma visit_project n o : fields_project o (map (visit n) o).
Proof. induction o; constructor; [|done]. split; [done|apply replace_project]. Qed.

Lemma replace_string n v s : replaceInlineMediaFields encodedMedia n v = JString s <-> v = JString s.
Proof. destruct n, v; simpl; split; congruence. Qed.

Lemma has_type_visit n t o : has_type t (map (visit n) o) = has_type t o.
Proof.
  unfold has_type. rewrite get_visit. destruct (get "type" o) as [v|]; [|done]. simpl.
  destruct (replaceInlineMediaFields encodedMedia n v) as [| | |s| |] eqn:E;
    [..|apply replace_string in E; by subst| |].
  all: destruct v; try done; by rewrite (proj2 (replace_string n _ _) eq_refl) in E.
Qed.

(** The object of a field, before and after the visit. *)
Lemma inner_visit n (P : list (string * Json) -> Prop) f o :
  (forall object object', fields_project object object' ->
     (forall t, has_type t object' = has_type t object) -> P object -> P object') ->
  inner P f o -> inner P f (map (visit n) o).
Proof.
  intros HP H object' Hg. rewrite get_visit in Hg. apply fmap_Some in Hg as (v & Hv & Hr).
  destruct n as [|n]; simpl in Hr; [subst; by apply H|].
  destruct v as [| | | | |object]; simplify_eq. apply (HP object); [| |by apply H].
  - eapply fields_project_trans; [apply replace_typed_project|apply visit_project].
  - intros t. rewrite has_type_visit. apply has_type_get, get_type_typed.
Qed.

Lemma typed_ok_visit n o : typed_ok o -> typed_ok (map (visit n) o).
Proof.
  intros [H1 H2 H3 H4 H5]. split; rewrite !has_type_visit; intros H.
  - eapply url_ok_project; [apply visit_project|auto].
  - eapply url_ok_project; [apply visit_project|auto].
  - apply inner_visit; [|auto]. intros object object' Hp _. by apply url_ok_project.
  - apply inner_visit; [|auto]. intros object object' Hp Ht Hd. rewrite Ht. intros Hb.
    eapply data_ok_project; eauto.
  - apply inner_visit; [|auto]. intros object object' Hp _. by apply url_ok_project.
Qed.

Lemma replace_idempotent n v :
  replaceInlineMediaFields encodedMedia n (replaceInlineMediaFields encodedMedia n v)
  = replaceInlineMediaFields encodedMedia n v.
Proof.
  revert v. induction n as [|n IH]; intros v; [done|].
  destruct v as [| | | |items|typed]; try done; cbn [replaceInlineMediaFields]; f_equal.
  - rewrite map_map. apply map_ext. auto.
  - rewrite typed_ok_id by apply typed_ok_visit, replace_typed_ok.
    rewrite map_map. apply map_ext. intros kv. simpl. by rewrite IH.
Qed.
End Projection.

(** The projection of a request replaces media texts and nothing else (same
    keys, same structure, every other value kept), replaces all of them (a second
    pass changes nothing), and its recursion never runs out of fuel: the depth of
    the request is enough and more fuel gives the same result. *)
Theorem media_projection_is_exact encodedMedia request n :
  let projected := replaceInlineMediaFields encodedMedia (depth request) request in
  projects encodedMedia request projected
  /\ replaceInlineMediaFields encodedMedia (depth projected) projected = projected
  /\ replaceInlineMediaFields encodedMedia (depth request + n) request = projected.
Proof.
  simpl. pose proof (replace_project encodedMedia (depth request) request) as Hp.
  split_and!; [done| |apply replace_fuel; lia].
  rewrite (projects_depth _ _ _ Hp). apply replace_idempotent.
Qed.
