(* ===== verification/ModelBudget.v ===== *)
(** * The token budget of a model request

    Models the admission of [internal/model/model.go] and
    [internal/modelretry/request_policy.go]: [PrepareForSend] checks the provider's
    output-token limits and the modalities, asks the provider client for the request
    body, may lower the output allowance so that input and output share the context
    window, and records the input budget.

    The [Client] interface is a record of what its methods answer; the context
    bundle is an arbitrary type with its rendered media.  Errors are the chains of
    [ModelRetry].  Go's [int] is 64 bits wide. *)
From S2P Require Import Prelude GoStrings ModelRetry ModelContext.
From stdpp Require Import pretty.
From stdpp Require Import options.
Local Open Scope Z_scope.

Record Capabilities : Type := mkCapabilities {
  ContextWindowTokens : Z;
  cap_MaxOutputTokens : option Z;
  DefaultMaxOutputTokens : Z;
  DefaultCacheRetention : string;
  cap_SupportsTools : option bool;
  cap_SupportsReasoning : bool;
  DefaultReasoningEffort : string;
  SupportedReasoningEfforts : list string;
  InputModalities : list string;
  OutputModalities : list string
}.

Record RequestPolicy : Type := mkRequestPolicy {
  rp_MaxOutputTokens : Z;
  CacheRetention : string;
  SupportsTools : option bool;
  SupportsReasoning : option bool;
  ReasoningEffort : string;
  ProviderReplayCutoffEventSequence : Z
}.

Definition set_MaxOutputTokens (n : Z) (p : RequestPolicy) : RequestPolicy :=
  mkRequestPolicy n (CacheRetention p) (SupportsTools p) (SupportsReasoning p) (ReasoningEffort p)
    (ProviderReplayCutoffEventSequence p).
Definition set_ReplayCutoff (n : Z) (p : RequestPolicy) : RequestPolicy :=
  mkRequestPolicy (rp_MaxOutputTokens p) (CacheRetention p) (SupportsTools p) (SupportsReasoning p)
    (ReasoningEffort p) n.

Definition AllowsProviderReplay (p : RequestPolicy) (eventSequence : Z) : bool :=
  (ProviderReplayCutoffEventSequence p <=? 0) || (ProviderReplayCutoffEventSequence p <? eventSequence).

Definition RequestPolicyFromCapabilities (capabilities : Capabilities) : RequestPolicy :=
  let maxOutputTokens :=
    match cap_MaxOutputTokens capabilities with
    | Some n => if DefaultMaxOutputTokens capabilities =? 0 then n
                else DefaultMaxOutputTokens capabilities
    | None => DefaultMaxOutputTokens capabilities
    end in
  mkRequestPolicy maxOutputTokens (DefaultCacheRetention capabilities)
    (cap_SupportsTools capabilities) (Some (cap_SupportsReasoning capabilities))
    (DefaultReasoningEffort capabilities) 0.

(** [cutoff] is what [GetProviderReplaySuppressionCutoff] of the store returned. *)
Definition RequestPolicyForModelCall (cutoff : GoError + Z) (base : RequestPolicy)
    : GoError + RequestPolicy :=
  match cutoff with
  | inl err => inl err
  | inr cutoff =>
      inr (if ProviderReplayCutoffEventSequence base <? cutoff then set_ReplayCutoff cutoff base
           else base)
  end.

Definition normalOutputHeadroomTokens : Z := 32768.

Definition modelWindowForRequest (capabilities : Capabilities) (policy : RequestPolicy)
    : ModelWindow :=
  let reserve := Z.min normalOutputHeadroomTokens (Z.quot (ContextWindowTokens capabilities) 2) in
  let reserve :=
    if 0 <? rp_MaxOutputTokens policy then Z.min reserve (rp_MaxOutputTokens policy) else reserve in
  mkModelWindow (ContextWindowTokens capabilities) reserve
    (DefaultSafetyMarginTokens (ContextWindowTokens capabilities)).

Definition UsableInputTokensForRequest (capabilities : Capabilities) (policy : RequestPolicy) : Z :=
  UsableInputTokens (modelWindowForRequest capabilities policy).

Record OutputTokenLimits : Type := mkOutputTokenLimits { Minimum : Z; Required : bool }.

Record InputBudgetAssessment : Type := mkInputBudget {
  EstimatedInputTokens : Z;
  UsableTokens : Z
}.

Definition Fits (a : InputBudgetAssessment) : bool :=
  (0 <? EstimatedInputTokens a) && (EstimatedInputTokens a <=? UsableTokens a).
Definition OverBudget (a : InputBudgetAssessment) : bool := negb (Fits a).

Record PreparedRequest : Type := mkPreparedRequest {
  Body : string;
  InputTokenEstimate : Z;
  InputBudget : InputBudgetAssessment;
  MaxOutputTokens : Z
}.

(** ** Errors *)

Definition invalid_request (source code message : string) (cause : option GoError) : GoError :=
  EProvider (mkProviderError ErrorKindInvalidRequest source 0 code message "" None None "") cause.

Definition ErrOutputTokenLimitIncompatible : GoError :=
  EOther "output token limit is incompatible with provider options" None.
Definition OutputTokenLimitIncompatibleCode : string := "output_token_limit_incompatible".
Definition InvalidOutputTokenConfigurationCode : string := "invalid_output_token_configuration".
Definition OutputTokenLimitRequiredCode : string := "output_token_limit_required".

Definition Validate (l : OutputTokenLimits) (maxOutputTokens : Z) (errorSource : string)
    : option GoError :=
  if Required l && (maxOutputTokens =? 0)
  then Some (invalid_request errorSource OutputTokenLimitRequiredCode
         ("This provider requires an output token allowance. Configure the model's output capacity, "
          +:+ "or set default_max_output_tokens on the model, project grant, or agent.") None)
  else if (Minimum l <=? 0) || (Minimum l <=? maxOutputTokens) then None
  else
    let cause :=
      EOther ("output token limit is incompatible with provider options: max output tokens ("
              +:+ pretty maxOutputTokens +:+ ") must be at least " +:+ pretty (Minimum l))
        (Some ErrOutputTokenLimitIncompatible) in
    Some (invalid_request errorSource OutputTokenLimitIncompatibleCode
            (error_text cause
             +:+ ". Configure a larger output allowance or reduce the thinking budget.")
            (Some cause)).

Section Admission.
Context {Bundle : Type} (RenderedMediaOf : Bundle -> list RenderedMedia) {JC : JsonCodec}.

(** The provider client: its capabilities, its output-token limits ([None] when it
    does not implement [OutputTokenLimitProvider]) and [Prepare]. *)
Record Client : Type := mkClient {
  client_Capabilities : Capabilities;
  client_OutputTokenLimits : option (GoError + OutputTokenLimits);
  client_Prepare : Bundle -> RequestPolicy -> GoError + PreparedRequest
}.

Record PrepareForSendInput : Type := mkPrepareForSendInput {
  Context_ : Bundle;
  Policy : RequestPolicy;
  ErrorSource : string;
  ReserveFullOutputAllowance : bool
}.

Definition with_allowance (n : Z) (input : PrepareForSendInput) : PrepareForSendInput :=
  mkPrepareForSendInput (Context_ input) (set_MaxOutputTokens n (Policy input)) (ErrorSource input)
    (ReserveFullOutputAllowance input).

Definition OutputTokenLimitsForClient (client : Client) (errorSource : string)
    : GoError + OutputTokenLimits :=
  let refuse err :=
    match ClassifyError (Some err) with
    | Some _ => inl err
    | None =>
        inl (invalid_request errorSource InvalidOutputTokenConfigurationCode (error_text err)
               (Some err))
    end in
  match client_OutputTokenLimits client with
  | None => inr (mkOutputTokenLimits 0 false)
  | Some (inl err) => refuse err
  | Some (inr limits) =>
      if Minimum limits <? 0
      then refuse (EOther "minimum output token limit cannot be negative" None)
      else inr limits
  end.

Definition containsModality (values : list string) (want : string) : bool :=
  existsb (fun value => EqualFold (TrimSpace value) want) values.

Definition AllowsInputModality (c : Capabilities) (modality : string) : bool :=
  match InputModalities c with [] => true | _ => containsModality (InputModalities c) modality end.

Fixpoint unsupported_media (modalities : list string) (errorSource : string)
    (media : list RenderedMedia) : option GoError :=
  match media with
  | [] => None
  | item :: rest =>
      let modality := InputModality item in
      if (modality <>? "") && negb (containsModality modalities modality)
      then Some (invalid_request errorSource "unsupported_input_modality"
                   ("The live model grant does not allow " +:+ modality
                    +:+ " input required by this agent request.") None)
      else unsupported_media modalities errorSource rest
  end.

Definition validateRequestModalities (bundle : Bundle) (client : Client) (errorSource : string)
    : option GoError :=
  let capabilities := client_Capabilities client in
  let input_error :=
    match InputModalities capabilities with
    | [] => None
    | modalities =>
        if negb (containsModality modalities InputModalityText)
        then Some (invalid_request errorSource "unsupported_input_modality"
               "The live model grant does not allow the text input required by this agent request."
               None)
        else unsupported_media modalities errorSource (RenderedMediaOf bundle)
    end in
  match input_error with
  | Some err => Some err
  | None =>
      match OutputModalities capabilities with
      | [] => None
      | modalities =>
          if negb (containsModality modalities InputModalityText)
          then Some (invalid_request errorSource "unsupported_output_modality"
               "The live model grant does not allow the text output required by this agent runtime."
               None)
          else None
      end
  end.

Definition prepareRequest (client : Client) (input : PrepareForSendInput)
    : GoError + PreparedRequest :=
  match client_Prepare client (Context_ input) (Policy input) with
  | inl err => inl err
  | inr prepared =>
      if Nat.eqb (String.length (Body prepared)) 0
      then inl (invalid_request (ErrorSource input) "empty_prepared_request"
                  "The configured model produced an empty provider request." None)
      else if InputTokenEstimate prepared <=? 0
      then inr (mkPreparedRequest (Body prepared)
                  (EstimatePreparedRequest (Body prepared) (RenderedMediaOf (Context_ input)))
                  (InputBudget prepared) (MaxOutputTokens prepared))
      else inr prepared
  end.

(** The end of [PrepareForSend]: the allowance and the budget are recorded. *)
Definition assessed (prepared : PreparedRequest) (usable allowance : Z) : PreparedRequest :=
  mkPreparedRequest (Body prepared) (InputTokenEstimate prepared)
    (mkInputBudget (InputTokenEstimate prepared) usable) allowance.

Definition PrepareForSend (client : option Client) (input : PrepareForSendInput)
    : GoError + PreparedRequest :=
  match client with
  | None => inl (EOther "model client is required" None)
  | Some client =>
  match OutputTokenLimitsForClient client (ErrorSource input) with
  | inl err => inl err
  | inr limits =>
  match Validate limits (rp_MaxOutputTokens (Policy input)) (ErrorSource input) with
  | Some err => inl err
  | None =>
  match validateRequestModalities (Context_ input) client (ErrorSource input) with
  | Some err => inl err
  | None =>
      let capabilities := client_Capabilities client in
      let window := modelWindowForRequest capabilities (Policy input) in
      let reserve := Z.max (OutputReserveTokens window) (Minimum limits) in
      let reserve :=
        if ReserveFullOutputAllowance input then rp_MaxOutputTokens (Policy input) else reserve in
      let window := mkModelWindow (ContextTokens window) reserve (SafetyMarginTokens window) in
      if (wrap64 (wrap64 (ContextWindowTokens capabilities - SafetyMarginTokens window)
                  - Minimum limits) <=? 0) && (0 <? Minimum limits)
      then inl (invalid_request (ErrorSource input) InvalidOutputTokenConfigurationCode
             ("The configured context window cannot accommodate the provider's minimum output allowance. "
              +:+ "Increase the context window or reduce the configured thinking budget.") None)
      else
        match prepareRequest client input with
        | inl err => inl err
        | inr prepared =>
            let usable := UsableInputTokens window in
            let remaining :=
              wrap64 (wrap64 (ContextWindowTokens capabilities - SafetyMarginTokens window)
                      - InputTokenEstimate prepared) in
            if negb (ReserveFullOutputAllowance input) && (0 <? rp_MaxOutputTokens (Policy input))
               && (InputTokenEstimate prepared <=? usable)
               && (remaining <? rp_MaxOutputTokens (Policy input))
            then
              let usable := InputTokenEstimate prepared in
              let input := with_allowance remaining input in
              match prepareRequest client input with
              | inl err => inl err
              | inr prepared => inr (assessed prepared usable remaining)
              end
            else inr (assessed prepared usable (rp_MaxOutputTokens (Policy input)))
        end
  end
  end
  end
  end.
End Admission.
Arguments Client : clear implicits.
Arguments PrepareForSendInput : clear implicits.

(** ** Bounds *)

(** Token counts far below the range of [int64]. *)
Definition small (z : Z) : Prop := 0 <= z <= 2 ^ 60.
Global Instance small_dec z : Decision (small z).
Proof. unfold small. apply _. Defined.

Ltac int64 := unfold is_int64, int64_min, int64_max, small in *; lia.

Lemma margin_range c :
  0 <= DefaultSafetyMarginTokens c <= 8192 /\ (0 <= c -> 4 * DefaultSafetyMarginTokens c <= c).
Proof.
  unfold DefaultSafetyMarginTokens. case_match; bsimpl; [lia|].
  rewrite Z.quot_div_nonneg by lia. pose proof (Z.div_pos c 20). pose proof (Z.mul_div_le c 20).
  destruct ((4096 <=? c) && (c / 20 <? 1024)) eqn:E; bsimpl; case_match; bsimpl; lia.
Qed.

Lemma usable_spec c r m :
  small c -> small m -> small r -> UsableInputTokens (mkModelWindow c r m) = Z.max 0 (c - r - m).
Proof.
  intros Hc Hm Hr. unfold UsableInputTokens. simpl.
  rewrite (wrap64_id (c - r)) by int64. rewrite wrap64_id by int64. case_match; bsimpl; lia.
Qed.

Lemma small_margin c : small (DefaultSafetyMarginTokens c).
Proof. pose proof (margin_range c). unfold small. lia. Qed.

Lemma reserve_small caps policy :
  small (ContextWindowTokens caps) -> 0 <= rp_MaxOutputTokens policy ->
  small (OutputReserveTokens (modelWindowForRequest caps policy)).
Proof.
  intros Hc Hm. unfold modelWindowForRequest, normalOutputHeadroomTokens, small in *. simpl.
  rewrite Z.quot_div_nonneg by lia. pose proof (Z.div_pos (ContextWindowTokens caps) 2).
  case_match; bsimpl; lia.
Qed.

Section Fit.
Context {Bundle : Type} (RenderedMediaOf : Bundle -> list RenderedMedia) {JC : JsonCodec}.
Implicit Types (client : Client Bundle) (input : PrepareForSendInput Bundle).

Definition window_of client : Z := ContextWindowTokens (client_Capabilities client).

(** The allowance a prepared request carries shares the window with its input. *)
Definition fits_window client (p : PreparedRequest) : Prop :=
  InputTokenEstimate p + MaxOutputTokens p + DefaultSafetyMarginTokens (window_of client)
  <= window_of client.

(** The body is the one the client prepared for the recorded allowance. *)
Definition prepared_with client input (p : PreparedRequest) : Prop :=
  exists q, client_Prepare client (Context_ input)
              (set_MaxOutputTokens (MaxOutputTokens p) (Policy input)) = inr q /\ Body q = Body p.

Lemma set_MaxOutputTokens_id policy : set_MaxOutputTokens (rp_MaxOutputTokens policy) policy = policy.
Proof. by destruct policy. Qed.

Lemma prepareRequest_body client input p :
  prepareRequest RenderedMediaOf client input = inr p ->
  exists q, client_Prepare client (Context_ input) (Policy input) = inr q /\ Body q = Body p.
Proof. unfold prepareRequest. intros H. repeat case_match; simplify_eq; eauto. Qed.

Lemma limits_nonneg client source limits :
  OutputTokenLimitsForClient client source = inr limits -> 0 <= Minimum limits.
Proof.
  unfold OutputTokenLimitsForClient. intros H. repeat case_match; simplify_eq; bsimpl; simpl; lia.
Qed.

Lemma prepare_fits client input limits p :
  small (window_of client) -> small (rp_MaxOutputTokens (Policy input)) ->
  0 < rp_MaxOutputTokens (Policy input) ->
  OutputTokenLimitsForClient client (ErrorSource input) = inr limits -> small (Minimum limits) ->
  PrepareForSend RenderedMediaOf (Some client) input = inr p -> Fits (InputBudget p) = true ->
  fits_window client p /\ prepared_with client input p
  /\ Minimum limits <= MaxOutputTokens p <= rp_MaxOutputTokens (Policy input)
  /\ EstimatedInputTokens (InputBudget p) = InputTokenEstimate p.
Proof.
  intros Hc Hm Hpos Hlim Hmin H Hfit. unfold PrepareForSend in H. rewrite Hlim in H.
  destruct (Validate limits _ _) eqn:Hval; [done|].
  destruct (validateRequestModalities _ _ _); [done|].
  assert (Minimum limits <= rp_MaxOutputTokens (Policy input)) as Hle.
  { unfold Validate in Hval. repeat case_match; try done; bcases; lia. }
  pose proof (reserve_small (client_Capabilities client) (Policy input) Hc ltac:(lia)) as Hrs.
  cbv zeta in H. cbn [ContextTokens SafetyMarginTokens modelWindowForRequest] in H.
  set (r0 := OutputReserveTokens _) in *. clearbody r0.
  change (ContextWindowTokens (client_Capabilities client)) with (window_of client) in *.
  unfold fits_window, prepared_with. set (c := window_of client) in *. clearbody c.
  pose proof (small_margin c) as Hsm. set (m := DefaultSafetyMarginTokens c) in *. clearbody m.
  case_match; [done|].
  destruct (prepareRequest RenderedMediaOf client input) as [|q] eqn:Hq; [done|].
  rewrite (usable_spec c _ m) in H by (try done; destruct (ReserveFullOutputAllowance input); int64).
  unfold Fits in Hfit. destruct (_ && (_ <? rp_MaxOutputTokens _)) eqn:Hlow.
  - destruct (prepareRequest RenderedMediaOf client (with_allowance _ _)) as [|q'] eqn:Hq'; [done|].
    simplify_eq. apply prepareRequest_body in Hq'. cbn [assessed Body InputTokenEstimate
      InputBudget MaxOutputTokens EstimatedInputTokens UsableTokens] in *.
    bsimpl. rewrite (wrap64_id (c - m)) in * by int64.
    destruct (ReserveFullOutputAllowance input); [done|].
    rewrite wrap64_id in * by int64. split_and!; try lia; done.
  - simplify_eq. apply prepareRequest_body in Hq. cbn [assessed Body InputTokenEstimate
      InputBudget MaxOutputTokens EstimatedInputTokens UsableTokens] in *.
    rewrite set_MaxOutputTokens_id. bsimpl.
    split_and!; try lia; try done.
    destruct (ReserveFullOutputAllowance input); cbn [negb andb] in Hlow; [lia|].
    rewrite (proj2 (Z.ltb_lt _ _)), (proj2 (Z.leb_le _ _)) in Hlow by done.
    cbn [andb] in Hlow. bsimpl. rewrite (wrap64_id (c - m)) in * by int64.
    rewrite wrap64_id in * by int64. lia.
Qed.
End Fit.

(** ** Properties *)


(** A client without a token estimate of its own, and an allowance that has to
    shrink: the margin of a 10,000-token window is 1,024. *)
Definition sample_codec : JsonCodec :=
  {| unmarshal_any := fun _ => None; marshal_any := fun _ => None |}.

Definition sample_capabilities : Capabilities :=
  mkCapabilities 10000 (Some 9000) 0 "" None false "" [] ["Text "; "image"] [].

Definition sample_client : Client (list RenderedMedia) :=
  mkClient sample_capabilities (Some (inr (mkOutputTokenLimits 1000 true)))
    (fun _ _ => inr (mkPreparedRequest "{}" 0 (mkInputBudget 0 0) 0)).

(** Two images: the first with the adapter's estimate, the second with the default
    one; 4,784 + 700 + 1 tokens in all. *)
Definition sample_media : list RenderedMedia :=
  [mkRenderedMedia "image" "abc" "inline" false 700; mkRenderedMedia "image" "def" "url" false 0].

Definition sample_input : PrepareForSendInput (list RenderedMedia) :=
  mkPrepareForSendInput sample_media (RequestPolicyFromCapabilities sample_capabilities) "agent" false.

(** Without the images the estimate is small and the allowance gets the rest. *)
Definition text_input : PrepareForSendInput (list RenderedMedia) :=
  mkPrepareForSendInput [] (RequestPolicyFromCapabilities sample_capabilities) "agent" false.


(** The default window is usable: for any context size the safety margin is
    at most a quarter of it and at most 8,192 tokens, and together with the normal
    output headroom leaves at least a quarter of the context to the input, whatever
    the allowance of the policy. *)
Theorem default_window_leaves_input caps policy :
  small (ContextWindowTokens caps) -> 0 <= rp_MaxOutputTokens policy ->
  4 * DefaultSafetyMarginTokens (ContextWindowTokens caps) <= ContextWindowTokens caps
  /\ DefaultSafetyMarginTokens (ContextWindowTokens caps) <= 8192
  /\ ContextWindowTokens caps - 3 <= 4 * UsableInputTokensForRequest caps policy.
Proof.
  intros Hc Hp. pose proof (margin_range (ContextWindowTokens caps)) as [Hm Hq].
  assert (0 <= ContextWindowTokens caps) as H0 by (unfold small in Hc; lia). specialize (Hq H0).
  split_and!; [lia|lia|]. pose proof (reserve_small caps policy Hc Hp) as Hr.
  unfold UsableInputTokensForRequest.
  change (modelWindowForRequest caps policy) with
    (mkModelWindow (ContextWindowTokens caps)
       (OutputReserveTokens (modelWindowForRequest caps policy))
       (DefaultSafetyMarginTokens (ContextWindowTokens caps))).
  rewrite usable_spec; [|done|apply small_margin|done].
  assert (2 * OutputReserveTokens (modelWindowForRequest caps policy) <= ContextWindowTokens caps).
  { unfold modelWindowForRequest. simpl. rewrite Z.quot_div_nonneg by lia.
    pose proof (Z.mul_div_le (ContextWindowTokens caps) 2). case_match; lia. }
  lia.
Qed.

Lemma default_window_leaves_input_witness :
  10000 - 3 <= 4 * UsableInputTokensForRequest sample_capabilities
                     (RequestPolicyFromCapabilities sample_capabilities).
Proof.
  apply (default_window_leaves_input sample_capabilities
           (RequestPolicyFromCapabilities sample_capabilities));
    apply (bool_decide_unpack _); vm_compute; exact I.
Defined.
