(* ===== verification/Sha256.v ===== *)
(** * SHA-256

    The hash of Go's [crypto/sha256], used by the header of a process output file:
    padding, message schedule and compression over 32-bit words, executable, with
    the published test vectors. *)
From S2P Require Import Prelude.
From Stdlib Require Import Ascii.
From stdpp Require Import options.
Local Open Scope Z_scope.

Notation Bytes := (list ascii).

Definition byte_of (z : Z) : ascii := ascii_of_N (Z.to_N (z mod 256)).
Definition of_byte (c : ascii) : Z := Z.of_N (N_of_ascii c).

(** [n] bytes of [z], the most significant first, and back. *)
Fixpoint big_endian (n : nat) (z : Z) : Bytes :=
  match n with
  | O => []
  | S n' => byte_of (Z.shiftr z (8 * Z.of_nat n')) :: big_endian n' z
  end.
Definition from_big_endian (l : Bytes) : Z := fold_left (fun acc c => acc * 256 + of_byte c) l 0.

Module Sha256.

(** ** 32-bit words *)

Definition word (z : Z) : Z := z mod 2 ^ 32.
Definition add (l : list Z) : Z := word (fold_left Z.add l 0).
Definition rotr (n x : Z) : Z := word (Z.lor (Z.shiftr x n) (Z.shiftl x (32 - n))).
Definition xor3 (a b c : Z) : Z := Z.lxor a (Z.lxor b c).
Definition big0 (x : Z) : Z := xor3 (rotr 2 x) (rotr 13 x) (rotr 22 x).
Definition big1 (x : Z) : Z := xor3 (rotr 6 x) (rotr 11 x) (rotr 25 x).
Definition small0 (x : Z) : Z := xor3 (rotr 7 x) (rotr 18 x) (Z.shiftr x 3).
Definition small1 (x : Z) : Z := xor3 (rotr 17 x) (rotr 19 x) (Z.shiftr x 10).
Definition ch (x y z : Z) : Z := Z.lxor (Z.land x y) (Z.land (word (Z.lnot x)) z).
Definition maj (x y z : Z) : Z := xor3 (Z.land x y) (Z.land x z) (Z.land y z).

(** The constants are the first 32 bits of the fractional parts of the cube roots, and
    of the square roots, of the first primes. *)
Definition primes : list Z :=
  List.filter (fun p => forallb (fun d => (p <=? d) || negb (p mod d =? 0)) (seqZ 2 20)) (seqZ 2 310).
(** The cube root of [z], rounded down, bit by bit from [2 ^ n]. *)
Fixpoint cbrt (n : nat) (z root : Z) : Z :=
  match n with
  | O => root
  | S n' =>
      let next := root + 2 ^ Z.of_nat n' in
      cbrt n' z (if next * next * next <=? z then next else root)
  end.
Definition K : list Z := Eval vm_compute in map (fun p => word (cbrt 40 (p * 2 ^ 96) 0)) (take 64 primes).
Definition H : list Z := Eval vm_compute in map (fun p => word (Z.sqrt (p * 2 ^ 64))) (take 8 primes).

Record State : Type := mkState { a : Z; b : Z; c : Z; d : Z; e : Z; f : Z; g : Z; h : Z }.

Definition initial : State :=
  let at_ i := nth i H 0 in
  mkState (at_ 0%nat) (at_ 1%nat) (at_ 2%nat) (at_ 3%nat) (at_ 4%nat) (at_ 5%nat) (at_ 6%nat) (at_ 7%nat).

(** ** One block *)

(** The next schedule word from the sixteen before it, newest first. *)
Definition next_word (recent : list Z) : Z :=
  add [small1 (nth 1 recent 0); nth 6 recent 0; small0 (nth 14 recent 0); nth 15 recent 0].
Fixpoint extend (n : nat) (recent : list Z) : list Z :=
  match n with O => recent | S n' => extend n' (next_word recent :: recent) end.
Definition schedule (block : list Z) : list Z := rev (extend 48 (rev block)).

Definition round (s : State) (kw : Z * Z) : State :=
  let t1 := add [h s; big1 (e s); ch (e s) (f s) (g s); kw.1; kw.2] in
  let t2 := add [big0 (a s); maj (a s) (b s) (c s)] in
  mkState (add [t1; t2]) (a s) (b s) (c s) (add [d s; t1]) (e s) (f s) (g s).

Definition compress (s : State) (block : list Z) : State :=
  let r := fold_left round (zip K (schedule block)) s in
  mkState (add [a s; a r]) (add [b s; b r]) (add [c s; c r]) (add [d s; d r])
          (add [e s; e r]) (add [f s; f r]) (add [g s; g r]) (add [h s; h r]).

(** ** The message *)

Definition padding (n : nat) : Bytes :=
  byte_of 128 :: replicate (Z.to_nat ((55 - Z.of_nat n) mod 64)) (byte_of 0)
    ++ big_endian 8 (8 * Z.of_nat n).

Fixpoint words (l : Bytes) : list Z :=
  match l with
  | w :: x :: y :: z :: l' => from_big_endian [w; x; y; z] :: words l'
  | _ => []
  end.
Fixpoint blocks (fuel : nat) (l : list Z) : list (list Z) :=
  match fuel with
  | O => []
  | S fuel' => take 16 l :: blocks fuel' (drop 16 l)
  end.

Definition digest (s : State) : Bytes :=
  mjoin (map (big_endian 4) [a s; b s; c s; d s; e s; f s; g s; h s]).

(** [sha256.Sum256] *)
Definition Sum256 (data : Bytes) : Bytes :=
  let l := words (data ++ padding (length data)) in
  digest (fold_left compress (blocks (length l / 16) l) initial).

End Sha256.
#[global] Arguments Sha256.Sum256 _ : simpl never.

Lemma length_big_endian n z : length (big_endian n z) = n.
Proof. induction n; simpl; congruence. Qed.

Lemma length_Sum256 data : length (Sha256.Sum256 data) = 32%nat.
Proof. unfold Sha256.Sum256, Sha256.digest. generalize (fold_left Sha256.compress). done. Qed.

(** The published vectors, one block and two. *)
Example sha256_abc :
  from_big_endian (Sha256.Sum256 (String.list_ascii_of_string "abc"))
  = 0xba7816bf8f01cfea414140de5dae2223b00361a396177a9cb410ff61f20015ad.
Proof. vm_compute. reflexivity. Qed.
Example sha256_two_blocks :
  from_big_endian (Sha256.Sum256
    (String.list_ascii_of_string "abcdbcdecdefdefgefghfghighijhijkijkljklmklmnlmnomnopnopq"))
  = 0x248d6a61d20638b8e5c026930c3e6039a33ce45964ff2167f6ecedd419db06c1.
Proof. vm_compute. reflexivity. Qed.

(** ** Big-endian integers round trip *)

Lemma of_byte_range c : 0 <= of_byte c < 256.
Proof. unfold of_byte. pose proof (N_ascii_bounded c). lia. Qed.

Lemma of_byte_of z : of_byte (byte_of z) = z mod 256.
Proof.
  unfold of_byte, byte_of. pose proof (Z.mod_pos_bound z 256).
  rewrite N_ascii_embedding; lia.
Qed.

Lemma byte_of_byte c : byte_of (of_byte c) = c.
Proof.
  unfold byte_of. rewrite Z.mod_small by apply of_byte_range.
  unfold of_byte. by rewrite N2Z.id, ascii_N_embedding.
Qed.

Lemma from_big_endian_acc l acc :
  fold_left (fun acc c => acc * 256 + of_byte c) l acc
  = acc * 256 ^ Z.of_nat (length l) + from_big_endian l.
Proof.
  unfold from_big_endian. revert acc. induction l as [|c l IH]; intros acc; cbn [fold_left length]; [simpl; lia|].
  rewrite IH, (IH (0 * 256 + of_byte c)). rewrite Nat2Z.inj_succ, Z.pow_succ_r by lia. ring.
Qed.

Lemma from_big_endian_cons c l :
  from_big_endian (c :: l) = of_byte c * 256 ^ Z.of_nat (length l) + from_big_endian l.
Proof. unfold from_big_endian at 1. cbn [fold_left]. by rewrite from_big_endian_acc. Qed.

Lemma from_big_endian_range l : 0 <= from_big_endian l < 256 ^ Z.of_nat (length l).
Proof.
  induction l as [|c l IH]; [done|]. rewrite from_big_endian_cons. simpl length.
  rewrite Nat2Z.inj_succ, Z.pow_succ_r by lia. pose proof (of_byte_range c). nia.
Qed.

Lemma big_endian_mod n z : from_big_endian (big_endian n z) = z mod 256 ^ Z.of_nat n.
Proof.
  induction n as [|n IH]; [by rewrite Z.mod_1_r|]. cbn [big_endian].
  rewrite from_big_endian_cons, length_big_endian, IH, of_byte_of, Z.shiftr_div_pow2 by lia.
  rewrite Z.pow_mul_r by lia. change (2 ^ 8) with 256.
  rewrite Nat2Z.inj_succ, Z.pow_succ_r by lia.
  rewrite (Z.mul_comm 256), (Z.rem_mul_r z) by lia. lia.
Qed.

Lemma big_endian_add k m n z : (n <= m)%nat -> big_endian n (k * 256 ^ Z.of_nat m + z) = big_endian n z.
Proof.
  induction n as [|n IH]; intros Hn; [done|]. cbn [big_endian]. f_equal; [|apply IH; lia].
  unfold byte_of. do 2 f_equal. rewrite !Z.shiftr_div_pow2 by lia.
  rewrite Z.pow_mul_r by lia. change (2 ^ 8) with 256.
  replace (Z.of_nat m) with (Z.succ (Z.of_nat (m - S n)) + Z.of_nat n) by lia.
  rewrite Z.pow_add_r, Z.pow_succ_r, Z.mul_assoc, Z.div_add_l by lia.
  by rewrite Z.mul_assoc, (Z.mul_comm k), <- Z.mul_assoc, Z.add_comm, Z.mul_comm, Z.mod_add.
Qed.

Lemma from_big_endian_round_trip l : big_endian (length l) (from_big_endian l) = l.
Proof.
  induction l as [|c l IH]; [done|]. cbn [length big_endian].
  rewrite from_big_endian_cons, big_endian_add, IH by done. f_equal.
  rewrite Z.shiftr_div_pow2 by lia. rewrite Z.pow_mul_r by lia. change (2 ^ 8) with 256.
  rewrite Z.div_add_l, Z.div_small by (pose proof (from_big_endian_range l); lia).
  by rewrite Z.add_0_r, byte_of_byte.
Qed.
