(* ===== verification/LocalStore.v ===== *)
(** * The file system of the daemon and its atomic writes

    [src/internal/machinedaemon/localstore/store.go] with the system calls under
    it.  A directory maps names to inodes; an inode keeps its bytes and how many
    of them have been synced.  Every system call consumes one entry of a schedule
    of faults, so a theorem for all schedules covers every combination of failing
    calls; a crash between two calls is the schedule that fails all later ones,
    followed by [crash].  File modes are decimal: 384 is 0600, 448 is 0700, 63 is
    0077. *)
From S2P Require Import Prelude Sha256.
From Stdlib Require Import Ascii.
From stdpp Require Import options.
Local Open Scope Z_scope.

(** ** Errors *)

Inductive Error : Type :=
  | ENew (msg : string)
  | EWrap (context : string) (err : Error)
  | EJoin (errs : list Error)
  | ESys (errno : Z)
  | EEOF
  | EUnexpectedEOF
  | EShortWrite.

(** [errors.Join]: nil when every argument is nil. *)
Definition ErrorsJoin (errs : list (option Error)) : option Error :=
  match omap id errs with
  | [] => None
  | l => Some (EJoin l)
  end.

Definition wrapped (context : string) (err : option Error) : option Error := EWrap context <$> err.

(** ** The state of the file system *)

Inductive FileKind : Type := Regular | Directory | Symlink.
#[export] Instance FileKind_eq_dec : EqDecision FileKind. Proof. solve_decision. Defined.

Record Inode : Type := mkInode
  { kind : FileKind; perm : Z; uid : Z; data : Bytes; synced : nat }.

(** A name in the directory: a path, or a temporary name [os.CreateTemp] made for
    that path. *)
Inductive Entry : Type := Path (path : string) | Temp (path : string) (n : nat).
#[export] Instance Entry_eq_dec : EqDecision Entry. Proof. solve_decision. Defined.
#[export] Instance Entry_countable : Countable Entry.
Proof.
  refine (inj_countable'
    (fun e => match e with Path p => inl p | Temp p n => inr (p, n) end)
    (fun x => match x with inl p => Path p | inr (p, n) => Temp p n end) _).
  by intros [].
Defined.

(** What a system call meets: failure after [done] bytes of a transfer, or a write
    that stops after [done] bytes without an error. *)
Inductive Fault : Type := Fail (errno : Z) (done : nat) | Short (done : nat).

Record FS : Type := mkFS
  { inodes : gmap nat Inode
  ; dir : gmap Entry nat
  ; durable : gmap Entry nat
  ; parent : option (FileKind * Z)
  ; next : nat
  ; euid : Z
  ; faults : list (option Fault) }.

Definition with_inodes (f : gmap nat Inode -> gmap nat Inode) (w : FS) : FS :=
  mkFS (f (inodes w)) (dir w) (durable w) (parent w) (next w) (euid w) (faults w).
Definition with_dir (f : gmap Entry nat -> gmap Entry nat) (w : FS) : FS :=
  mkFS (inodes w) (f (dir w)) (durable w) (parent w) (next w) (euid w) (faults w).
Definition with_faults (l : list (option Fault)) (w : FS) : FS :=
  mkFS (inodes w) (dir w) (durable w) (parent w) (next w) (euid w) l.
Definition with_parent (p : option (FileKind * Z)) (w : FS) : FS :=
  mkFS (inodes w) (dir w) (durable w) p (next w) (euid w) (faults w).

(** ** A state monad *)

Definition M (S A : Type) : Type := S -> A * S.
Notation Sys := (M FS).

#[export] Instance M_ret S : MRet (M S) := fun A a s => (a, s).
#[export] Instance M_bind S : MBind (M S) := fun A B f m s => let '(a, s') := m s in f a s'.

Definition modify {S} (f : S -> S) : M S unit := fun s => (tt, f s).
Definition get {S A} (f : S -> A) : M S A := fun s => (f s, s).

(** [if err := m; err != nil { onErr }; rest] *)
Definition if_err {S A} (m : M S (option Error)) (onErr : Error -> M S A) (rest : M S A) : M S A :=
  err ← m; match err with Some e => onErr e | None => rest end.
(** [x, err := m; if err != nil { onErr }; rest x] *)
Definition or_err {S A B} (m : M S (Error + B)) (onErr : Error -> M S A) (rest : B -> M S A) : M S A :=
  r ← m; match r with inl e => onErr e | inr x => rest x end.

(** ** System calls *)

Definition pop : Sys (option Fault) := fun w =>
  match faults w with
  | [] => (None, w)
  | f :: l => (f, with_faults l w)
  end.

(** A call that only succeeds or fails. *)
Definition syscall {A} (body : Sys (Error + A)) : Sys (Error + A) :=
  f ← pop;
  match f with
  | Some (Fail errno _) => mret (inl (ESys errno))
  | _ => body
  end.
Definition syscall_ (body : Sys (option Error)) : Sys (option Error) :=
  f ← pop;
  match f with
  | Some (Fail errno _) => mret (Some (ESys errno))
  | _ => body
  end.

Definition ENOENT : Error := ESys 2.
Definition ENOTDIR : Error := ESys 20.
Definition EBADF : Error := ESys 9.

(** [os.FileInfo]: the inode a name or a descriptor leads to. *)
Record FileInfo : Type := mkInfo { ino : nat; node : Inode }.
Definition InfoSize (info : FileInfo) : Z := Z.of_nat (length (data (node info))).
Definition SameFile (x y : FileInfo) : bool := ino x ==? ino y.

Definition info_of (i : nat) (w : FS) : Error + FileInfo :=
  match inodes w !! i with
  | Some n => inr (mkInfo i n)
  | None => inl ENOENT
  end.
Definition lookup_path (path : string) (w : FS) : Error + FileInfo :=
  match dir w !! Path path with
  | Some i => info_of i w
  | None => inl ENOENT
  end.

Definition Lstat (path : string) : Sys (Error + FileInfo) := syscall (get (lookup_path path)).
(** A descriptor is the inode it was opened on, which outlives its name. *)
Definition OpenFile (path : string) : Sys (Error + nat) :=
  syscall (get (fun w => match lookup_path path w with inl e => inl e | inr i => inr (ino i) end)).
Definition Stat (file : nat) : Sys (Error + FileInfo) := syscall (get (info_of file)).
Definition Close (file : nat) : Sys (option Error) := syscall_ (mret None).

(** [file.ReadAt(data, off)] with [len(data) = n]: fewer bytes come with an error. *)
Definition ReadAt (file : nat) (n off : Z) : Sys (Bytes * option Error) :=
  f ← pop;
  match f with
  | Some (Fail errno _) => mret ([], Some (ESys errno))
  | _ =>
      i ← get (info_of file);
      match i with
      | inl e => mret ([], Some EBADF)
      | inr info =>
          if off <? 0 then mret ([], Some (ENew "negative offset"))
          else
            let got := take (Z.to_nat n) (drop (Z.to_nat off) (data (node info))) in
            mret (got, if Z.of_nat (length got) <? n then Some EEOF else None)
      end
  end.

Definition append_to (file : nat) (p : Bytes) : FS -> FS :=
  with_inodes (alter (fun n => mkInode (kind n) (perm n) (uid n) (data n ++ p) (synced n)) file).

(** [file.Write(p)]: an output file is opened for appending, a temporary one is
    written from its start by its only writer, so bytes always go to the end. *)
Definition FWrite (file : nat) (p : Bytes) : Sys (Z * option Error) :=
  f ← pop;
  let '(n, err) :=
    match f with
    | None => (length p, None)
    | Some (Fail errno k) => (k `min` length p, Some (ESys errno))
    | Some (Short k) => (k `min` length p, None)
    end%nat in
  modify (append_to file (take n p));;
  mret (Z.of_nat n, err).

Definition sync_inode (file : nat) : FS -> FS :=
  with_inodes (alter (fun n => mkInode (kind n) (perm n) (uid n) (data n) (length (data n))) file).
Definition Fsync (file : nat) : Sys (option Error) :=
  syscall_ (modify (sync_inode file);; mret None).

Definition FChmod (file : nat) (mode : Z) : Sys (option Error) :=
  syscall_ (modify (with_inodes
    (alter (fun n => mkInode (kind n) mode (uid n) (data n) (synced n)) file));; mret None).

Definition create (path : string) (w : FS) : FS :=
  mkFS (<[next w := mkInode Regular 384 (euid w) [] 0]> (inodes w))
       (<[Temp path (next w) := next w]> (dir w)) (durable w) (parent w) (S (next w)) (euid w) (faults w).
(** [os.CreateTemp(dir, "."+base+".tmp-*")]: mode 0600, a name that did not exist. *)
Definition CreateTemp (path : string) : Sys (Error + (nat * Entry)) :=
  syscall (n ← get next; modify (create path);; mret (inr (n, Temp path n))).
Definition Remove (name : Entry) : Sys (option Error) :=
  syscall_ (i ← get (fun w => dir w !! name);
    match i with
    | Some _ => modify (with_dir (delete name));; mret None
    | None => mret (Some ENOENT)
    end).
Definition Rename (old new : Entry) : Sys (option Error) :=
  syscall_ (i ← get (fun w => dir w !! old);
    match i with
    | Some i => modify (with_dir (fun d => <[new := i]> (delete old d)));; mret None
    | None => mret (Some ENOENT)
    end).

(** The parent directory. *)
Definition MkdirAll (mode : Z) : Sys (option Error) :=
  syscall_ (p ← get parent;
    match p with
    | None => modify (with_parent (Some (Directory, mode)));; mret None
    | Some (Regular, _) => mret (Some ENOTDIR)
    | Some _ => mret None
    end).
Definition LstatDir : Sys (Error + FileKind) :=
  syscall (get (fun w => match parent w with Some (k, _) => inr k | None => inl ENOENT end)).
Definition ChmodDir (mode : Z) : Sys (option Error) :=
  syscall_ (p ← get parent;
    match p with
    | Some (k, _) => modify (with_parent (Some (k, mode)));; mret None
    | None => mret (Some ENOENT)
    end).
Definition sync_dir (w : FS) : FS :=
  mkFS (inodes w) (dir w) (dir w) (parent w) (next w) (euid w) (faults w).

(** ** localstore *)

(** [SyncFile], [syncFile]: the descriptor is never nil here. *)
Definition SyncFile : nat -> Sys (option Error) := Fsync.

(** [SyncDir], [syncDirBestEffort] of sync_unix.go: open the directory, sync it. *)
Definition SyncDir : Sys (option Error) :=
  if_err (syscall_ (mret None)) (fun e => mret (Some e)) (syscall_ (modify sync_dir;; mret None)).

(** [validatePrivateFile] of sync_unix.go. *)
Definition validatePrivateFile (owner : Z) (n : Inode) : option Error :=
  if Z.land (perm n) 63 =? 0 then
    if uid n =? owner then None else Some (ENew "file is not owned by the current user")
  else Some (ENew "permissions allow group or other access").

Definition ValidatePrivateFile (path : string) : Sys (option Error) :=
  or_err (Lstat path) (fun e => mret (Some e)) (fun info =>
  if (kind (node info) ==? Symlink) || (kind (node info) <>? Regular)
  then mret (Some (ENew ("private file must be a regular non-symlink: " +:+ path)))
  else owner ← get euid; mret (validatePrivateFile owner (node info))).

Definition ValidatePrivateFileInfo (info : FileInfo) : Sys (option Error) :=
  if kind (node info) <>? Regular then mret (Some (ENew "private file must be regular"))
  else owner ← get euid; mret (validatePrivateFile owner (node info)).

Definition validateDir : Sys (option Error) :=
  or_err LstatDir (fun e => mret (Some (EWrap "stat parent dir" e))) (fun k =>
  mret (match k with
        | Symlink => Some (ENew "parent dir must not be a symlink")
        | Directory => None
        | Regular => Some (ENew "parent path is not a directory")
        end)).

Definition ensurePrivateDir : Sys (option Error) :=
  if_err validateDir (fun e => mret (Some e)) (
  if_err (ChmodDir 448) (fun e => mret (Some (EWrap "chmod parent dir" e))) (
  mret None)).

Definition EnsurePrivateDir : Sys (option Error) :=
  if_err (MkdirAll 448) (fun e => mret (Some (EWrap "create private dir" e))) ensurePrivateDir.

(** The body of [writeFileAtomic] once the temporary file exists, in two parts; the
    flag tells whether the rename happened. *)
Definition abandon (tmp : nat) (context : string) (e : Error) : Sys (bool * option Error) :=
  Close tmp;; mret (false, Some (EWrap context e)).

Definition commit_temp (path : string) (tmp : nat) (tmpPath : Entry) : Sys (bool * option Error) :=
  if_err (SyncFile tmp) (abandon tmp "sync temp file") (
  if_err (Close tmp) (fun e => mret (false, Some (EWrap "close temp file" e))) (
  if_err (Rename tmpPath (Path path)) (fun e => mret (false, Some (EWrap "replace target" e))) (
  if_err SyncDir (fun e => mret (true, Some e)) (
  mret (true, None))))).

Definition publish (path : string) (mode : Z) (write : nat -> Sys (option Error))
    (tmp : nat) (tmpPath : Entry) : Sys (bool * option Error) :=
  if_err (FChmod tmp mode) (abandon tmp "chmod temp file") (
  if_err (write tmp) (abandon tmp "write temp file") (
  commit_temp path tmp tmpPath)).

Definition writeFileAtomic (path : string) (mode : Z) (privateParent : bool)
    (write : nat -> Sys (option Error)) : Sys (bool * option Error) :=
  if path ==? "" then mret (false, Some (ENew "path is required"))
  else
    let mode := if mode =? 0 then 384 else mode in
    let refuse (context : string) (e : Error) : Sys (bool * option Error) := mret (false, Some (EWrap context e)) in
    if_err (MkdirAll 448) (refuse "create parent dir") (
    if_err validateDir (fun e => mret (false, Some e)) (
    if_err (if privateParent then ChmodDir 448 else mret None) (refuse "chmod parent dir") (
    or_err (CreateTemp path) (refuse "create temp file") (fun '(tmp, tmpPath) =>
    '(published, err) ← publish path mode write tmp tmpPath;
    _ ← (if published : bool then mret None else Remove tmpPath);
    mret (published, err))))).

Definition WriteFileAtomicFunc (path : string) (mode : Z) (write : nat -> Sys (option Error))
    : Sys (bool * option Error) :=
  writeFileAtomic path mode true write.

Definition write_body (body : Bytes) (file : nat) : Sys (option Error) :=
  '(_, err) ← FWrite file body; mret err.

Definition WriteFileAtomic (path : string) (body : Bytes) (mode : Z) : Sys (option Error) :=
  '(_, err) ← writeFileAtomic path mode true (write_body body); mret err.

Definition WriteFileAtomicPreservingParentMode (path : string) (body : Bytes) (mode : Z)
    : Sys (option Error) :=
  '(_, err) ← writeFileAtomic path mode false (write_body body); mret err.

(** ** Inversion of the monad *)

Lemma M_bind_inv {S A B} (m : M S A) (f : A -> M S B) s r :
  (m ≫= f) s = r -> exists a s1, m s = (a, s1) /\ f a s1 = r.
Proof. unfold mbind, M_bind. destruct (m s) as [a s1]. eauto. Qed.

Lemma M_get_bind {S A B} (f : S -> A) (k : A -> M S B) s : (get f ≫= k) s = k (f s) s.
Proof. done. Qed.

Section Inversion.
Context {S A B : Type}.

Lemma if_err_inv (m : M S (option Error)) (onErr : Error -> M S A) rest s r :
  if_err m onErr rest s = r ->
  (exists e s1, m s = (Some e, s1) /\ onErr e s1 = r) \/ (exists s1, m s = (None, s1) /\ rest s1 = r).
Proof. intros (a & s1 & Hm & Hr)%M_bind_inv. destruct a; eauto. Qed.

Lemma or_err_inv (m : M S (Error + B)) (onErr : Error -> M S A) rest s r :
  or_err m onErr rest s = r ->
  (exists e s1, m s = (inl e, s1) /\ onErr e s1 = r)
  \/ (exists b s1, m s = (inr b, s1) /\ rest b s1 = r).
Proof. intros (a & s1 & Hm & Hr)%M_bind_inv. destruct a; eauto. Qed.
End Inversion.

(** One step into a monadic equation. *)
Ltac m_step :=
  match goal with
  | H : mret _ _ = _ |- _ => unfold mret, M_ret in H; simplify_eq
  | H : (_ ≫= _) _ = _ |- _ => apply M_bind_inv in H as (? & ? & ? & H); simplify_eq/=
  | H : modify _ _ = _ |- _ => unfold modify in H; simplify_eq
  | H : get _ _ = _ |- _ => unfold get in H; simplify_eq
  end.
Ltac m_inv := repeat (m_step; simplify_eq/=).

(** ** File systems equal up to the schedule and the parent directory *)

Definition unscheduled (w : FS) : FS := with_parent None (with_faults [] w).
Definition fs_equiv (w w' : FS) : Prop := unscheduled w = unscheduled w'.
#[export] Instance FS_equiv : Equiv FS := fs_equiv.
#[export] Instance FS_equivalence : Equivalence (≡@{FS}).
Proof. split; unfold equiv, FS_equiv, fs_equiv; repeat intro; congruence. Qed.

#[export] Instance inodes_proper : Proper ((≡@{FS}) ==> (=)) inodes.
Proof. intros [] [] H. by injection H. Qed.
#[export] Instance dir_proper : Proper ((≡@{FS}) ==> (=)) dir.
Proof. intros [] [] H. by injection H. Qed.
#[export] Instance durable_proper : Proper ((≡@{FS}) ==> (=)) durable.
Proof. intros [] [] H. by injection H. Qed.
#[export] Instance next_proper : Proper ((≡@{FS}) ==> (=)) next.
Proof. intros [] [] H. by injection H. Qed.
#[export] Instance euid_proper : Proper ((≡@{FS}) ==> (=)) euid.
Proof. intros [] [] H. by injection H. Qed.
#[export] Instance append_to_proper file p : Proper ((≡@{FS}) ==> (≡@{FS})) (append_to file p).
Proof. intros [] [] H. injection H as -> -> -> -> ->. done. Qed.
#[export] Instance sync_inode_proper file : Proper ((≡@{FS}) ==> (≡@{FS})) (sync_inode file).
Proof. intros [] [] H. injection H as -> -> -> -> ->. done. Qed.

Lemma with_faults_equiv l w : with_faults l w ≡ w.
Proof. done. Qed.

Lemma equiv_with_faults (w w' : FS) : w ≡ w' -> w' = with_parent (parent w') (with_faults (faults w') w).
Proof. destruct w, w'. intros H. injection H as -> -> -> -> ->. done. Qed.
Lemma with_parent_equiv p w : with_parent p w ≡ w.
Proof. done. Qed.

(** Replace a file system by its equal up to the schedule, keeping the older one. *)
Ltac fs_equal :=
  repeat match goal with
  | H : ?w ≡@{FS} ?w' |- _ =>
      first [ is_var w'; apply equiv_with_faults in H; generalize dependent (faults w'); generalize dependent (parent w'); intros; subst w'
            | is_var w; symmetry in H; apply equiv_with_faults in H;
              generalize dependent (faults w); generalize dependent (parent w); intros; subst w ]
  end; simpl in *.

Lemma pop_equiv w f w' : pop w = (f, w') -> w' ≡ w.
Proof. unfold pop. destruct (faults w); intros; simplify_eq; by rewrite ?with_faults_equiv. Qed.

Lemma syscall_inv {A} (body : Sys (Error + A)) w r w' :
  syscall body w = (r, w') -> exists w1, w1 ≡ w /\ ((exists n, r = inl (ESys n) /\ w' = w1) \/ body w1 = (r, w')).
Proof.
  intros (f & w1 & Hp & H)%M_bind_inv. exists w1. split; [by eapply pop_equiv|].
  destruct f as [[]|]; m_inv; eauto.
Qed.
Lemma syscall__inv body w r w' :
  syscall_ body w = (r, w') -> exists w1, w1 ≡ w /\ ((exists n, r = Some (ESys n) /\ w' = w1) \/ body w1 = (r, w')).
Proof.
  intros (f & w1 & Hp & H)%M_bind_inv. exists w1. split; [by eapply pop_equiv|].
  destruct f as [[]|]; m_inv; eauto.
Qed.

(** Without faults a call does its work. *)
Lemma syscall_ok {A} (body : Sys (Error + A)) w : faults w = [] -> syscall body w = body w.
Proof. intros H. unfold syscall, mbind, M_bind, pop. by rewrite H. Qed.
Lemma syscall__ok body w : faults w = [] -> syscall_ body w = body w.
Proof. intros H. unfold syscall_, mbind, M_bind, pop. by rewrite H. Qed.
Lemma M_bind_ok {S A B} (m : M S A) (f : A -> M S B) s a s1 : m s = (a, s1) -> (m ≫= f) s = f a s1.
Proof. intros H. unfold mbind, M_bind. by rewrite H. Qed.
Lemma or_err_ok {S A B} (m : M S (Error + B)) (k : Error -> M S A) rest s b s1 :
  m s = (inr b, s1) -> or_err m k rest s = rest b s1.
Proof. intros H. unfold or_err. by rewrite (M_bind_ok _ _ _ _ _ H). Qed.
Lemma if_err_ok {S A} (m : M S (option Error)) (k : Error -> M S A) rest s s1 :
  m s = (None, s1) -> if_err m k rest s = rest s1.
Proof. intros H. unfold if_err. by rewrite (M_bind_ok _ _ _ _ _ H). Qed.
Lemma ReadAt_ok f x n off w : faults w = [] -> inodes w !! f = Some x -> 0 <= off ->
  n <= Z.of_nat (length (take (Z.to_nat n) (drop (Z.to_nat off) (data x)))) ->
  ReadAt f n off w = ((take (Z.to_nat n) (drop (Z.to_nat off) (data x)), None), w).
Proof.
  intros Hf Hx Ho Hn. unfold ReadAt. erewrite M_bind_ok by (unfold pop; by rewrite Hf).
  cbv iota. rewrite M_get_bind. unfold info_of. rewrite Hx. rewrite (proj2 (Z.ltb_ge off 0)) by done.
  unfold mret, M_ret. simpl. by rewrite (proj2 (Z.ltb_ge _ n)).
Qed.

(** Calls that only look. *)
Lemma syscall_get {A} (f : FS -> Error + A) w r w' : syscall (get f) w = (r, w') -> w' ≡ w.
Proof. intros (w1 & ? & [(? & -> & ->)|?])%syscall_inv; m_inv; done. Qed.
Lemma Lstat_equiv q w r w' : Lstat q w = (r, w') -> w' ≡ w.
Proof. apply syscall_get. Qed.
Lemma OpenFile_equiv q w r w' : OpenFile q w = (r, w') -> w' ≡ w.
Proof. apply syscall_get. Qed.
Lemma Stat_equiv q w r w' : Stat q w = (r, w') -> w' ≡ w.
Proof. apply syscall_get. Qed.
Lemma LstatDir_equiv w r w' : LstatDir w = (r, w') -> w' ≡ w.
Proof. apply syscall_get. Qed.
Lemma Close_equiv f w r w' : Close f w = (r, w') -> w' ≡ w.
Proof. intros (w1 & ? & [(? & -> & ->)|?])%syscall__inv; m_inv; done. Qed.

Lemma ReadAt_inv f n off w b err w' :
  ReadAt f n off w = ((b, err), w') -> w' ≡ w /\
  ((b = [] /\ is_Some err)
   \/ exists i, inodes w !! f = Some i /\ 0 <= off
        /\ b = take (Z.to_nat n) (drop (Z.to_nat off) (data i))
        /\ err = if Z.of_nat (length b) <? n then Some EEOF else None).
Proof.
  intros (fault & w1 & Hw%pop_equiv & H)%M_bind_inv.
  assert (fault = None \/ (exists k, fault = Some (Short k)) \/ exists e k, fault = Some (Fail e k))
    as [-> | [[k ->]|(e & k & ->)]] by (destruct fault as [[]|]; eauto); [| |m_inv; eauto].
  all: rewrite M_get_bind in H; unfold info_of in H;
    destruct (inodes w1 !! f) as [i|] eqn:Hi; rewrite Hw in Hi; simpl in H; [|m_inv; eauto];
    destruct (off <? 0) eqn:?; bsimpl; m_inv; eauto 10.
Qed.

Lemma FWrite_inv f p w n err w' :
  FWrite f p w = ((n, err), w') -> exists k, n = Z.of_nat k /\ (k <= length p)%nat
    /\ w' ≡ append_to f (take k p) w.
Proof.
  intros (fault & w1 & Hw%pop_equiv & H)%M_bind_inv.
  destruct fault as [[e k|k]|]; m_inv; eexists; (split; [done|]); (split; [lia|]); by rewrite Hw.
Qed.

Lemma append_to_app f p q w : append_to f q (append_to f p w) = append_to f (p ++ q) w.
Proof.
  unfold append_to, with_inodes. simpl. f_equal. apply map_eq. intros i.
  destruct (decide (f = i)) as [->|Hi]; [|by rewrite !lookup_alter_ne].
  rewrite !lookup_alter_eq. destruct (inodes w !! i); [|done]. simpl. by rewrite (assoc_L (++)).
Qed.
Lemma append_to_nil f w : append_to f [] w = w.
Proof.
  destruct w. unfold append_to, with_inodes. simpl. f_equal. apply alter_id.
  intros [] _. simpl. by rewrite (right_id_L [] (++)).
Qed.

(** ** Atomic replacement *)

(** Names lead to inodes that exist, and new inodes are fresh. *)
Record store_wf (w : FS) : Prop :=
  { dir_bound e i : dir w !! e = Some i -> (i < next w)%nat
  ; durable_bound e i : durable w !! e = Some i -> (i < next w)%nat
  ; inodes_bound i n : inodes w !! i = Some n -> (i < next w)%nat }.

#[export] Instance store_wf_proper : Proper ((≡@{FS}) ==> iff) store_wf.
Proof.
  assert (forall w w' : FS, w ≡ w' -> store_wf w -> store_wf w') as H.
  { intros w w' E [H1 H2 H3]. fs_equal. by split. }
  intros w w' E. split; apply H; done.
Qed.

(** [w1] is [w] with a temporary file for [path], whose inode is [x]. *)
Record draft (w : FS) (path : string) (x : Inode) (w1 : FS) : Prop :=
  { draft_inodes : inodes w1 = <[next w := x]> (inodes w)
  ; draft_dir : dir w1 = <[Temp path (next w) := next w]> (dir w)
  ; draft_durable : durable w1 = durable w
  ; draft_next : next w1 = S (next w)
  ; draft_euid : euid w1 = euid w }.

Lemma draft_equiv w path x w1 w2 : draft w path x w1 -> w2 ≡ w1 -> draft w path x w2.
Proof. intros [] E. split; rewrite E; done. Qed.

Lemma draft_append w path x w1 p : draft w path x w1 ->
  draft w path (mkInode (kind x) (perm x) (uid x) (data x ++ p) (synced x)) (append_to (next w) p w1).
Proof.
  intros [Hi]. split; try done. simpl. rewrite Hi. by rewrite alter_insert_eq.
Qed.
Lemma draft_sync w path x w1 : draft w path x w1 ->
  draft w path (mkInode (kind x) (perm x) (uid x) (data x) (length (data x))) (sync_inode (next w) w1).
Proof. intros [Hi]. split; try done. simpl. rewrite Hi. by rewrite alter_insert_eq. Qed.

Lemma Fsync_inv f w err w' : Fsync f w = (err, w') ->
  (exists e, err = Some e /\ w' ≡ w) \/ (err = None /\ w' ≡ sync_inode f w).
Proof.
  intros (w1 & E & [(n & -> & ->)|H])%syscall__inv; [by left; eauto|].
  m_inv. right. by rewrite E.
Qed.

Lemma FChmod_draft w path x mode w1 err w' :
  draft w path x w1 -> FChmod (next w) mode w1 = (err, w') ->
  (exists e, err = Some e /\ w' ≡ w1)
  \/ (err = None /\ draft w path (mkInode (kind x) mode (uid x) (data x) (synced x)) w').
Proof.
  intros D (w2 & E & [(n & -> & ->)|H])%syscall__inv; [by left; eauto|].
  right. eapply draft_equiv in D as [Hi]; [|exact E]. m_inv.
  split; [done|]. split; try done. simpl. rewrite Hi. by rewrite alter_insert_eq.
Qed.

Lemma SyncDir_inv w err w' : SyncDir w = (err, w') ->
  inodes w' = inodes w /\ dir w' = dir w /\ next w' = next w /\ euid w' = euid w
  /\ durable w' = (if err then durable w else dir w).
Proof.
  intros [(e & w1 & H & H')|(w1 & H & H')]%if_err_inv;
    apply syscall__inv in H as (w2 & E & [(n & Hn & Hw)|H]); m_inv; rewrite ?E; try done.
  apply syscall__inv in H' as (w3 & E' & [(n & -> & ->)|H']).
  - rewrite E', E. done.
  - m_inv. by rewrite E', E.
Qed.

(** What happens to the file: the outcome of [writeFileAtomic] on [path]. *)
Record replaced (path : string) (mode : Z) (full : Bytes) (w : FS) (published : bool)
    (err : option Error) (w' : FS) : Prop :=
  { replaced_wf : store_wf w'
  ; replaced_inodes i : (i < next w)%nat -> inodes w' !! i = inodes w !! i
  ; replaced_next : (next w <= next w')%nat
  ; replaced_euid : euid w' = euid w
  ; replaced_others q : q ≠ path -> dir w' !! Path q = dir w !! Path q
  ; replaced_published : published = true ->
      dir w' !! Path path = Some (next w)
      /\ inodes w' !! next w = Some (mkInode Regular mode (euid w) full (length full))
      /\ durable w' = (if err then durable w else dir w')
  ; replaced_refused : published = false ->
      is_Some err /\ dir w' !! Path path = dir w !! Path path /\ durable w' = durable w }.

(** A writer that only appends to its file, and all of [full] when it succeeds, in
    any file system that has the inodes of [w]. *)
Definition writes (w : FS) (full : Bytes) (write : nat -> Sys (option Error)) : Prop :=
  forall x w1 err w2,
    inodes w1 = <[next w := x]> (inodes w) ->
    write (next w) w1 = (err, w2) ->
    exists ext, w2 ≡ append_to (next w) ext w1 /\ (err = None -> ext = full).

Lemma draft_refused w path mode full x w1 err :
  store_wf w -> draft w path x w1 -> is_Some err -> replaced path mode full w false err w1.
Proof.
  intros [Hd Hdur Hino] [Hi1 Hd1 Hdur1 Hn1 He1] Herr. split; try done.
  - split; rewrite ?Hi1, ?Hd1, ?Hdur1, Hn1; intros e i.
    + intros [[? ?]|[? ?%Hd]]%lookup_insert_Some; subst; lia.
    + intros ?%Hdur. lia.
    + intros [[? ?]|[? ?%Hino]]%lookup_insert_Some; subst; lia.
  - intros i Hi. rewrite Hi1, lookup_insert_ne by lia. done.
  - lia.
  - intros q Hq. by rewrite Hd1, lookup_insert_ne.
  - intros _. split_and!; [done| |done]. by rewrite Hd1, lookup_insert_ne.
Qed.

Lemma replaced_equiv path mode full w published err w1 w2 :
  replaced path mode full w published err w1 -> w2 ≡ w1 -> replaced path mode full w published err w2.
Proof. intros H E. fs_equal. destruct H as [[]]. split; done. Qed.

Lemma Remove_refused w path mode full name err w1 r w2 :
  (forall q, name ≠ Path q) ->
  replaced path mode full w false err w1 -> Remove name w1 = (r, w2) ->
  replaced path mode full w false err w2.
Proof.
  intros Hname R (w3 & E & H)%syscall__inv. eapply replaced_equiv in R; [|exact E].
  destruct H as [(n & -> & ->)|H]; [done|].
  destruct R as [[Hd Hdur Hino] ? ? ? Ho _ Hr]. destruct (Hr eq_refl) as (? & ? & ?).
  assert (forall q, delete name (dir w3) !! Path q = dir w3 !! Path q) as Hq.
  { intros q. by rewrite lookup_delete_ne. }
  rewrite M_get_bind in H. destruct (dir w3 !! name); m_inv; [|by split].
  split; simpl; try done.
  - split; simpl; intros e i; [intros [_ ?]%lookup_delete_Some|..]; eauto.
  - intros q ?. rewrite Hq. eauto.
  - intros _. rewrite Hq. done.
Qed.

Section Publish.
Context (w : FS) (path : string) (Hwf : store_wf w).

Lemma draft_fails y w3 w4 e r context : draft w path y w3 ->
  abandon (next w) context e w3 = (r, w4) ->
  r = (false, Some (EWrap context e)) /\ draft w path y w4.
Proof.
  intros D H. unfold abandon in H. m_inv.
  match goal with H : Close _ _ = _ |- _ => apply Close_equiv in H end.
  split; [done|]. by eapply draft_equiv.
Qed.

Lemma Rename_draft x w1 err w2 : draft w path x w1 ->
  Rename (Temp path (next w)) (Path path) w1 = (err, w2) ->
  (is_Some err /\ draft w path x w2)
  \/ (err = None /\ inodes w2 = <[next w := x]> (inodes w)
      /\ dir w2 = <[Path path := next w]> (delete (Temp path (next w)) (dir w))
      /\ durable w2 = durable w /\ next w2 = S (next w) /\ euid w2 = euid w).
Proof.
  intros D (w3 & E & H)%syscall__inv. eapply draft_equiv in D; [|exact E].
  destruct H as [(n & -> & ->)|H]; [by left; eauto|]. destruct D as [Hi Hd Hdur Hn He].
  rewrite M_get_bind, Hd, lookup_insert_eq in H. m_inv. right.
  rewrite Hd, delete_insert_eq. done.
Qed.

Lemma renamed_replaced mode full x w1 w2 err : 
  inodes w1 = <[next w := x]> (inodes w) ->
  dir w1 = <[Path path := next w]> (delete (Temp path (next w)) (dir w)) ->
  durable w1 = durable w -> next w1 = S (next w) -> euid w1 = euid w ->
  x = mkInode Regular mode (euid w) full (length full) ->
  SyncDir w1 = (err, w2) -> replaced path mode full w true err w2.
Proof using Hwf.
  intros Hi1 Hd1 Hdur1 Hn1 He1 Hx (Hi & Hd & Hn & He & Hdur)%SyncDir_inv.
  rewrite Hi1 in Hi. rewrite Hd1 in Hd. rewrite Hn1 in Hn. rewrite He1 in He. rewrite Hdur1 in Hdur.
  destruct Hwf as [Bd Bdur Bi].
  assert (forall e i, dir w2 !! e = Some i -> (i < next w2)%nat) as Hbound.
  { intros e i. rewrite Hd, Hn.
    intros [[? ?]|[? [? ?%Bd]%lookup_delete_Some]]%lookup_insert_Some; subst; lia. }
  split; try done.
  - split; [done|..]; rewrite ?Hi, Hn; intros e i.
    + rewrite Hdur. destruct err; [intros ?%Bdur; lia|]. rewrite Hd1, <- Hd.
      intros ?%Hbound. lia.
    + intros [[? ?]|[? ?%Bi]]%lookup_insert_Some; subst; lia.
  - intros i Hlt. rewrite Hi, lookup_insert_ne by lia. done.
  - lia.
  - intros q Hq. rewrite Hd, lookup_insert_ne, lookup_delete_ne by congruence. done.
  - intros _. rewrite Hd, Hi, !lookup_insert_eq. split_and!; [done|by rewrite Hx|].
    rewrite Hdur, Hd1. done.
Qed.

Lemma commit_temp_spec x w1 published err w2 :
  draft w path x w1 -> kind x = Regular -> uid x = euid w ->
  commit_temp path (next w) (Temp path (next w)) w1 = ((published, err), w2) ->
  replaced path (perm x) (data x) w published err w2.
Proof using Hwf.
  intros D Hk Hu H.
  assert (forall y w3 e, draft w path y w3 -> replaced path (perm x) (data x) w false (Some e) w3) as Hrefused
    by (intros; by eapply draft_refused).
  apply if_err_inv in H as [(e & w3 & Hop & H)|(w3 & Hop & H)];
    apply Fsync_inv in Hop as [(e' & He & E)|(He & E)]; try done; simplify_eq.
  { eapply draft_fails in H as [? ?]; [|by eapply draft_equiv]. simplify_eq. eauto. }
  eapply draft_sync in D. eapply draft_equiv in D; [|exact E].
  apply if_err_inv in H as [(e & w4 & Hop & H)|(w4 & Hop & H)]; apply Close_equiv in Hop;
    (eapply draft_equiv in D; [|exact Hop]).
  { m_inv. eauto. }
  apply if_err_inv in H as [(e & w5 & Hren & H)|(w5 & Hren & H)];
    eapply Rename_draft in Hren as [[Hs D']|(? & Hi & Hd & Hdur & Hn & He)]; try done.
  { m_inv. eauto. }
  apply if_err_inv in H as [(e & w6 & Hs & H)|(w6 & Hs & H)]; m_inv;
    eapply renamed_replaced; eauto; by rewrite Hk, Hu.
Qed.

Lemma publish_spec mode full write x w1 published err w2 :
  writes w full write -> draft w path x w1 -> data x = [] -> kind x = Regular -> uid x = euid w ->
  publish path mode write (next w) (Temp path (next w)) w1 = ((published, err), w2) ->
  replaced path mode full w published err w2.
Proof using Hwf.
  intros Hwrite D Hdata Hkind Huid H.
  assert (forall y w3 e, draft w path y w3 -> replaced path mode full w false (Some e) w3) as Hrefused
    by (intros; by eapply draft_refused).
  apply if_err_inv in H as [(e & w3 & Hop & H)|(w3 & Hop & H)];
    eapply FChmod_draft in Hop as [(e' & He & E)|(He & D1)]; try done; simplify_eq.
  { eapply draft_fails in H as [? ?]; [|by eapply draft_equiv]. simplify_eq. eauto. }
  apply if_err_inv in H as [(e & w4 & Hop & H)|(w4 & Hop & H)];
    destruct (Hwrite _ _ _ _ (draft_inodes _ _ _ _ D1) Hop) as (ext & E & Hext).
  all: eapply draft_append in D1; eapply draft_equiv in D1; [|exact E].
  { eapply draft_fails in H as [? ?]; [|done]. simplify_eq. eauto. }
  rewrite Hext in * by done. rewrite Hdata in D1.
  by eapply (commit_temp_spec _ _ _ _ _ D1) in H.
Qed.
End Publish.

Lemma MkdirAll_equiv mode w err w' : MkdirAll mode w = (err, w') -> w' ≡ w.
Proof.
  intros (w1 & E & [(n & -> & ->)|H])%syscall__inv; [done|]. rewrite M_get_bind in H.
  destruct (parent w1) as [[[] ?]|]; m_inv; by rewrite ?with_parent_equiv.
Qed.
Lemma ChmodDir_equiv mode w err w' : ChmodDir mode w = (err, w') -> w' ≡ w.
Proof.
  intros (w1 & E & [(n & -> & ->)|H])%syscall__inv; [done|]. rewrite M_get_bind in H.
  destruct (parent w1) as [[]|]; m_inv; by rewrite ?with_parent_equiv.
Qed.
Lemma validateDir_equiv w err w' : validateDir w = (err, w') -> w' ≡ w.
Proof. intros [(? & w1 & ?%LstatDir_equiv & ?)|(? & w1 & ?%LstatDir_equiv & ?)]%or_err_inv; by m_inv. Qed.

Lemma CreateTemp_inv path w r w' : CreateTemp path w = (r, w') ->
  (exists e, r = inl e /\ w' ≡ w)
  \/ (r = inr (next w, Temp path (next w)) /\ draft w path (mkInode Regular 384 (euid w) [] 0) w').
Proof.
  intros (w1 & E & [(n & -> & ->)|H])%syscall_inv; [by left; eauto|]. rewrite M_get_bind in H.
  m_inv. right. fs_equal. split; [done|]. by split.
Qed.

Lemma draft_of_equiv w1 w path x w2 : w1 ≡ w -> draft w1 path x w2 -> draft w path x w2.
Proof. intros E []. fs_equal. by split. Qed.

Lemma equiv_refused path mode full w err w' :
  store_wf w -> w' ≡ w -> is_Some err -> replaced path mode full w false err w'.
Proof. intros [] E Herr. fs_equal. by split. Qed.

(** [writeFileAtomic] either publishes all of [full], synced, or leaves the target as
    it was and reports an error; no existing inode changes. *)
Lemma writeFileAtomic_spec path mode privateParent write full w published err w' :
  mode ≠ 0 -> store_wf w -> writes w full write ->
  writeFileAtomic path mode privateParent write w = ((published, err), w') ->
  replaced path mode full w published err w'.
Proof.
  intros Hmode Hwf Hwrite H. unfold writeFileAtomic in H.
  destruct (bool_decide (path = "")); [m_inv; by eapply equiv_refused|].
  apply Z.eqb_neq in Hmode. rewrite Hmode in H.
  apply if_err_inv in H as [(e & w1 & E%MkdirAll_equiv & H)|(w1 & E%MkdirAll_equiv & H)];
    [m_inv; by eapply equiv_refused|].
  apply if_err_inv in H as [(e & w2 & E'%validateDir_equiv & H)|(w2 & E'%validateDir_equiv & H)];
    rewrite E in E'; [m_inv; by eapply equiv_refused|]. clear E.
  assert (forall r w3, (if privateParent then ChmodDir 448 else mret None) w2 = (r, w3) -> w3 ≡ w) as Hchmod.
  { intros r w3 Hc. rewrite <- E'. destruct privateParent; [by eapply ChmodDir_equiv|by m_inv]. }
  apply if_err_inv in H as [(e & w3 & E%Hchmod & H)|(w3 & E%Hchmod & H)];
    [m_inv; by eapply equiv_refused|]. clear E' Hchmod.
  apply or_err_inv in H as [(e & w4 & Hc & H)|([tmp tmpPath] & w4 & Hc & H)];
    apply CreateTemp_inv in Hc as [(e' & ? & E')|(? & D)]; simplify_eq.
  { m_inv. eapply equiv_refused; [done|by rewrite E', E|done]. }
  apply M_bind_inv in H as ([pub e] & w5 & Hp & H). apply M_bind_inv in H as (r & w6 & Hr & H). m_inv.
  eapply draft_of_equiv in D; [|exact E]. 
  assert (next w3 = next w /\ euid w3 = euid w) as [En Eu] by (by rewrite E).
  rewrite En in Hp, Hr. rewrite Eu in D. clear E En Eu.
  eapply publish_spec in Hp; [|done..]. destruct published; [by m_inv|].
  by eapply Remove_refused in Hr.
Qed.
