(* ===== verification/OutputFile.v ===== *)
(** * Captured process output

    [src/internal/machinedaemon/output_file.go].  The bytes a process writes are
    kept in one file: a header with the stream offset of its first byte, then the
    bytes.  [Write] appends until the file would exceed the limit by a quarter and
    then replaces the file by one that holds the newest [limit] bytes; syncs are
    batched by size and by a timer; the first failure is remembered and stops the
    capture; [Slice] and [readProcessOutputSnapshot] read by cursor. *)
From S2P Require Import Prelude GoStrings DaemonProtocol Sha256 LocalStore.
From Stdlib Require Import Ascii List.
From stdpp Require Import list options.
Local Open Scope Z_scope.

Notation "x [+] y" := (wrap64 (x + y)) (at level 50, left associativity) : go_scope.
Notation "x [-] y" := (wrap64 (x - y)) (at level 50, left associativity) : go_scope.

Definition lenZ (p : Bytes) : Z := Z.of_nat (length p).

Definition processOutputHeaderSize : Z := 32.
Definition processOutputSyncBytes : Z := 1024 * 1024.
Definition processOutputMagic : Bytes := String.list_ascii_of_string "OMNOUT01".
Definition defaultProcessOutputBufferBytes : Z := 100 * 1024 * 1024.

(** ** The header *)

Definition encodeProcessOutputHeader (baseOffset : Z) : Error + Bytes :=
  if baseOffset <? 0 then inl (ENew "process output cursor range is invalid")
  else
    let start := processOutputMagic ++ big_endian 8 baseOffset in
    inr (start ++ take 16 (Sha256.Sum256 start)).

Definition decodeProcessOutputHeader (header : Bytes) (dataLength : Z) : Error + Z :=
  if lenZ header <>? processOutputHeaderSize
  then inl (ENew "process output header has an invalid size")
  else if take 8 header <>? processOutputMagic
  then inl (ENew "process output header has an invalid format")
  else if drop 16 header <>? take 16 (Sha256.Sum256 (take 16 header))
  then inl (ENew "process output header checksum is invalid")
  else
    let base := from_big_endian (take 8 (drop 8 header)) in
    if (int64_max <? base) || (dataLength <? 0) || (int64_max [-] base <? dataLength)
    then inl (ENew "process output cursor range is invalid")
    else inr base.

(** ** Writing and copying *)

(** [writeFull]: every iteration consumes a byte or stops, so [S (length data)]
    iterations are enough. *)
Fixpoint write_full (fuel : nat) (file : nat) (data : Bytes) : Sys (option Error) :=
  match fuel with
  | O => mret None
  | S fuel' =>
      if bool_decide (data = []) then mret None
      else
        '(written, err) ← FWrite file data;
        let data := if 0 <? written then drop (Z.to_nat written) data else data in
        match err with
        | Some e => mret (Some e)
        | None =>
            if written =? 0 then mret (Some EUnexpectedEOF)
            else write_full fuel' file data
        end
  end.
Definition writeFull (file : nat) (data : Bytes) : Sys (option Error) :=
  write_full (S (length data)) file data.

(** [io.CopyN(destination, io.NewSectionReader(source, offset, n), n)]: chunks of the
    copy buffer, the write's error before the read's, [io.EOF] when the source ends
    early, no error once all [n] bytes are written.  Each chunk that is not the last has a byte at least. *)
Definition copy_buffer : Z := 32 * 1024.
Fixpoint copy_n (fuel : nat) (destination source : nat) (offset n : Z) : Sys (option Error) :=
  match fuel with
  | O => mret None
  | S fuel' =>
      if n <=? 0 then mret None
      else
        '(chunk, readErr) ← ReadAt source (Z.min n copy_buffer) offset;
        '(written, writeErr) ← (if bool_decide (chunk = []) then mret (0, None)
                                else FWrite destination chunk);
        match writeErr with
        | Some e => mret (if n =? written then None else Some e)
        | None =>
            if written <>? lenZ chunk then mret (Some EShortWrite)
            else
              match readErr with
              | Some EEOF => mret (if n =? lenZ chunk then None else Some EEOF)
              | Some e => mret (Some e)
              | None => copy_n fuel' destination source (offset + lenZ chunk) (n - lenZ chunk)
              end
        end
  end.
Definition CopyN (destination source : nat) (offset n : Z) : Sys (option Error) :=
  copy_n (S (Z.to_nat n)) destination source offset n.

Definition fill_replacement (header : Bytes) (dataLength : Z)
    (writeData : nat -> Sys (option Error)) (file : nat) : Sys (option Error) :=
  if_err (writeFull file header)
    (fun e => mret (Some (EWrap "write process output header" e))) (
  if_err (writeData file) (fun e => mret (Some e)) (
  or_err (Stat file)
    (fun e => mret (Some (EWrap "inspect process output replacement" e))) (fun info =>
  if InfoSize info <>? processOutputHeaderSize [+] dataLength
  then mret (Some (ENew "process output replacement has the wrong number of data bytes"))
  else mret None))).

Definition replaceProcessOutputFile (path : string) (baseOffset dataLength : Z)
    (writeData : nat -> Sys (option Error)) : Sys (bool * option Error) :=
  if (baseOffset <? 0) || (dataLength <? 0) || (int64_max [-] baseOffset <? dataLength)
  then mret (false, Some (ENew "process output cursor range is invalid"))
  else
    match encodeProcessOutputHeader baseOffset with
    | inl e => mret (false, Some e)
    | inr header => WriteFileAtomicFunc path 384 (fill_replacement header dataLength writeData)
    end.

Definition writeProcessOutputFile (path : string) (data : Bytes) (baseOffset : Z)
    : Sys (option Error) :=
  '(_, err) ← replaceProcessOutputFile path baseOffset (lenZ data) (fun file => writeFull file data);
  mret err.

(** ** Opening *)

(** [openProcessOutputFile] once the file is open; [fail] closes it. *)
Definition inspect_output (path : string) (expected : FileInfo) (file : nat)
    : Sys (Error + (nat * Z * Z)) :=
  let fail (e : Error) : Sys (Error + (nat * Z * Z)) := Close file;; mret (inl e) in
  or_err (Stat file) fail (fun actual =>
  if negb (SameFile expected actual) then fail (ENew "process output file changed while opening")
  else if InfoSize actual <? processOutputHeaderSize
  then fail (ENew "process output header is truncated")
  else
    '(header, err) ← ReadAt file processOutputHeaderSize 0;
    match err with
    | Some e => fail (EWrap "read process output header" e)
    | None =>
        let dataLength := InfoSize actual [-] processOutputHeaderSize in
        match decodeProcessOutputHeader header dataLength with
        | inl e => fail e
        | inr baseOffset =>
            or_err (Lstat path) fail (fun latest =>
            if negb (SameFile latest actual)
            then fail (ENew "process output file changed after opening")
            else if_err (ValidatePrivateFile path) fail
                   (mret (inr (file, baseOffset, baseOffset [+] dataLength))))
        end
    end).

Definition openProcessOutputFile (path : string) : Sys (Error + (nat * Z * Z)) :=
  let refuse (e : Error) : Sys (Error + (nat * Z * Z)) := mret (inl e) in
  if path ==? "" then refuse (ENew "process output path is required")
  else
    or_err (Lstat path) refuse (fun expected =>
    if_err (ValidatePrivateFile path) refuse (
    or_err (OpenFile path) refuse (inspect_output path expected))).

Definition mismatch : Error := ENew "process output file does not match the live cursor range".

Definition openProcessOutputAppendFile (path : string) (baseOffset endOffset : Z)
    : Sys (Error + nat) :=
  if (baseOffset <? 0) || (endOffset <? baseOffset)
  then mret (inl (ENew "process output append range is invalid"))
  else
    or_err (openProcessOutputFile path) (fun e => mret (inl e)) (fun '(file, actualBase, actualEnd) =>
    if (actualBase <>? baseOffset) || (actualEnd <>? endOffset)
    then Close file;; mret (inl mismatch)
    else mret (inr file)).

(** ** Reading *)

(** Output, start, next and truncated, or the error. *)
Definition Read : Type := string * Z * Z * bool.

(** The read itself: all of [readLength] bytes, whatever error comes with fewer. *)
Definition read_exactly (file : nat) (offset readLength : Z) : Sys (Error + Bytes) :=
  if 0 <? readLength then
    '(data, err) ← ReadAt file readLength offset;
    match err with
    | None => mret (if lenZ data <>? readLength then inl EUnexpectedEOF else inr data)
    | Some EEOF =>
        mret (if lenZ data =? readLength then inr data else inl (EWrap "read process output" EEOF))
    | Some e => mret (inl (EWrap "read process output" e))
    end
  else mret (inr []).

Definition readProcessOutputRange (file : option nat) (baseOffset endOffset cursor maxBytes : Z)
    : Sys (Error + Read) :=
  match file with
  | None => mret (inl (ENew "process output read range is invalid"))
  | Some file =>
  if (baseOffset <? 0) || (endOffset <? baseOffset)
  then mret (inl (ENew "process output read range is invalid"))
  else
    let maxBytes := if maxBytes <=? 0 then DefaultObservationBytes else maxBytes in
    let cursor := if cursor <? 0 then 0 else cursor in
    let truncated := cursor <? baseOffset in
    let cursor := if cursor <? baseOffset then baseOffset else cursor in
    if endOffset <? cursor then mret (inr ("", cursor, cursor, truncated))
    else
      let start := cursor in
      let available := endOffset [-] start in
      let readLength := if maxBytes <? available then maxBytes else available in
      if (readLength <? 0) || (int64_max <? readLength)
      then mret (inl (ENew "process output read length is invalid"))
      else
        or_err (read_exactly file (processOutputHeaderSize [+] start [-] baseOffset) readLength)
          (fun e => mret (inl e)) (fun data =>
        let next := start [+] readLength in
        mret (inr (ToValidUTF8 (String.string_of_list_ascii data) "?", start, next,
                   truncated || (next <? endOffset))))
  end.

(** [readProcessOutputSnapshot]: [path] is the file [localstore.OutputBufferFileName]
    under the root, which is given. *)
Definition readProcessOutputSnapshot (path : string) (cursor maxBytes : Z) : Sys (Error + Read) :=
  or_err (OpenFile path) (fun e => mret (inl e)) (fun file =>
  let close (r : Error + Read) : Sys (Error + Read) := Close file;; mret r in
  or_err (Stat file) (fun e => close (inl e)) (fun info =>
  if_err (ValidatePrivateFileInfo info) (fun e => close (inl e)) (
  if InfoSize info <? processOutputHeaderSize
  then close (inl (ENew "process output header is truncated"))
  else
    '(header, err) ← ReadAt file processOutputHeaderSize 0;
    match err with
    | Some e => close (inl (EWrap "read process output header" e))
    | None =>
        let dataLength := InfoSize info [-] processOutputHeaderSize in
        match decodeProcessOutputHeader header dataLength with
        | inl e => close (inl e)
        | inr baseOffset =>
            r ← readProcessOutputRange (Some file) baseOffset (baseOffset [+] dataLength)
                  cursor maxBytes;
            close r
        end
    end))).

(** ** The capture *)

(** [syncTimer] is the generation the pending timer was armed with.  The interval
    only says when the callback runs; [syncFile] and [replaceFile] are nil outside
    tests, which selects [localstore.SyncFile] and [replaceProcessOutputFile]. *)
Record processOutput : Type := mkOutput
  { baseOffset : Z
  ; endOffset : Z
  ; limit : Z
  ; path : string
  ; file : option nat
  ; unsyncedBytes : Z
  ; syncBytes : Z
  ; syncTimer : option Z
  ; syncGeneration : Z
  ; stickyErr : option Error
  ; closed : bool }.

Definition set_limit (x : Z) (o : processOutput) : processOutput :=
  mkOutput (baseOffset o) (endOffset o) x (path o) (file o) (unsyncedBytes o) (syncBytes o)
    (syncTimer o) (syncGeneration o) (stickyErr o) (closed o).
Definition set_range (base end_ unsynced : Z) (o : processOutput) : processOutput :=
  mkOutput base end_ (limit o) (path o) (file o) unsynced (syncBytes o)
    (syncTimer o) (syncGeneration o) (stickyErr o) (closed o).
Definition set_file (x : option nat) (o : processOutput) : processOutput :=
  mkOutput (baseOffset o) (endOffset o) (limit o) (path o) x (unsyncedBytes o) (syncBytes o)
    (syncTimer o) (syncGeneration o) (stickyErr o) (closed o).
Definition set_unsynced (x : Z) (o : processOutput) : processOutput :=
  set_range (baseOffset o) (endOffset o) x o.
Definition set_timer (x : option Z) (generation : Z) (o : processOutput) : processOutput :=
  mkOutput (baseOffset o) (endOffset o) (limit o) (path o) (file o) (unsyncedBytes o) (syncBytes o)
    x generation (stickyErr o) (closed o).
Definition set_sticky (x : option Error) (o : processOutput) : processOutput :=
  mkOutput (baseOffset o) (endOffset o) (limit o) (path o) (file o) (unsyncedBytes o) (syncBytes o)
    (syncTimer o) (syncGeneration o) x (closed o).
Definition set_closed (o : processOutput) : processOutput :=
  mkOutput (baseOffset o) (endOffset o) (limit o) (path o) (file o) (unsyncedBytes o) (syncBytes o)
    (syncTimer o) (syncGeneration o) (stickyErr o) true.

(** The operations run under the mutex: on the capture and the file system. *)
Definition Locked (A : Type) : Type := M (processOutput * FS) A.
Definition out : Locked processOutput := get fst.
Definition update (f : processOutput -> processOutput) : Locked unit :=
  modify (fun s => (f s.1, s.2)).
Definition sys {A} (m : Sys A) : Locked A :=
  fun s => let '(a, w) := m s.2 in (a, (s.1, w)).

Definition rememberErrorLocked (err : option Error) : Locked (option Error) :=
  match err with
  | None => mret None
  | Some e =>
      o ← out;
      let joined := ErrorsJoin [stickyErr o; Some e] in
      update (set_sticky joined);; mret joined
  end.

Definition next_generation (g : Z) : Z := (g + 1) mod 2 ^ 64.

Definition stopSyncTimerLocked : Locked unit :=
  update (fun o => set_timer None (next_generation (syncGeneration o)) o).

Definition syncLocked : Locked (option Error) :=
  o ← out;
  match file o with
  | None => mret None
  | Some f =>
      if unsyncedBytes o =? 0 then mret None
      else
        if_err (sys (SyncFile f)) (fun e => mret (Some (EWrap "sync process output" e))) (
        update (set_unsynced 0);; mret None)
  end.

Definition openLocked : Locked (option Error) :=
  o ← out;
  match file o with
  | Some _ => mret None
  | None =>
      or_err (sys (openProcessOutputAppendFile (path o) (baseOffset o) (endOffset o)))
        (fun e => mret (Some e)) (fun f => update (set_file (Some f));; mret None)
  end.

Definition scheduleOrSyncLocked : Locked (option Error) :=
  o ← out;
  if (unsyncedBytes o =? 0) || bool_decide (file o = None) then mret None
  else
    let threshold := if syncBytes o <=? 0 then processOutputSyncBytes else syncBytes o in
    if threshold <=? unsyncedBytes o then
      stopSyncTimerLocked;;
      if_err syncLocked (fun e => rememberErrorLocked (Some e)) (mret None)
    else
      match syncTimer o with
      | Some _ => mret None
      | None =>
          let generation := next_generation (syncGeneration o) in
          update (set_timer (Some generation) generation);; mret None
      end.

(** The callback of [time.AfterFunc], armed with [generation]; it may run after the
    timer was stopped. *)
Definition syncTimerFired (generation : Z) : Locked unit :=
  o ← out;
  if (syncGeneration o <>? generation) || bool_decide (syncTimer o = None) then mret tt
  else
    update (set_timer None (syncGeneration o));;
    if closed o || bool_decide (stickyErr o ≠ None) || (unsyncedBytes o =? 0) then mret tt
    else if_err syncLocked (fun e => rememberErrorLocked (Some e);; mret tt) (mret tt).

(** The writer [compactLocked] hands to the replacement: the tail of the old file,
    the tail of [p], then the old file is closed. *)
Definition copy_kept (source : nat) (stored fromExisting fromNew : Z) (p : Bytes) (destination : nat)
    : Sys (option Error) :=
  copyErr ← (if 0 <? fromExisting
             then CopyN destination source (processOutputHeaderSize [+] stored [-] fromExisting)
                    fromExisting
             else mret None);
  writeErr ← (if bool_decide (copyErr = None) && (0 <? fromNew)
              then writeFull destination (drop (Z.to_nat (lenZ p - fromNew)) p)
              else mret None);
  closeErr ← Close source;
  mret (ErrorsJoin [copyErr; writeErr; closeErr]).

(** [compactLocked] from the call of [replaceFile].  When [copy_kept] did not run the
    deferred function closes [source] and discards the outcome, which has no effect
    on this state. *)
Definition replace_kept (source : nat) (stored keep newBase newEnd fromExisting fromNew : Z)
    (p : Bytes) : Locked (Z * option Error) :=
  o ← out;
  '(published, err) ← sys (replaceProcessOutputFile (path o) newBase keep
                             (copy_kept source stored fromExisting fromNew p));
  (if published : bool then update (set_range newBase newEnd 0) else mret tt);;
  match err with
  | Some e =>
      let written := if published : bool then lenZ p else 0 in
      sticky ← rememberErrorLocked (Some (EWrap "compact process output" e));
      mret (written, sticky)
  | None =>
      if_err openLocked (fun e =>
        sticky ← rememberErrorLocked (Some (EWrap "reopen compacted process output" e));
        mret (lenZ p, sticky)) (
      mret (lenZ p, None))
  end.

Definition compactLocked (p : Bytes) : Locked (Z * option Error) :=
  o ← out;
  let stored := endOffset o [-] baseOffset o in
  if (stored <? 0) || (int64_max [-] stored <? lenZ p) || (int64_max [-] endOffset o <? lenZ p)
  then mret (0, Some (ENew "process output cursor range is invalid"))
  else
    let total := stored [+] lenZ p in
    let keep := if total <? limit o then total else limit o in
    let newEnd := endOffset o [+] lenZ p in
    let newBase := newEnd [-] keep in
    let fromNew := if keep <? lenZ p then keep else lenZ p in
    let fromExisting := keep [-] fromNew in
    let fail (e : Error) : Locked (Z * option Error) :=
      sticky ← rememberErrorLocked (Some e); mret (0, sticky) in
    stopSyncTimerLocked;;
    if_err openLocked fail (
    o ← out;
    match file o with
    | None => mret (0, None)
    | Some source =>
        if_err syncLocked (fun e => sys (Close source);; update (set_file None);; fail e) (
        update (set_file None);;
        replace_kept source stored keep newBase newEnd fromExisting fromNew p)
    end).

(** The append branch of [Write]. *)
Definition appendLocked (p : Bytes) : Locked (Z * option Error) :=
  let fail (n : Z) (e : Error) : Locked (Z * option Error) :=
    sticky ← rememberErrorLocked (Some e); mret (n, sticky) in
  if_err openLocked (fail 0) (
  o ← out;
  match file o with
  | None => mret (0, None)
  | Some f =>
      '(n, writeErr) ← sys (FWrite f p);
      (if 0 <? n
       then update (fun o => set_range (baseOffset o) (endOffset o [+] n) (unsyncedBytes o [+] n) o)
       else mret tt);;
      let writeErr := match writeErr with
                      | None => if n <>? lenZ p then Some EShortWrite else None
                      | Some e => Some e
                      end in
      match writeErr with
      | Some e => fail n e
      | None => if_err scheduleOrSyncLocked (fun e => mret (n, Some e)) (mret (n, None))
      end
  end).

Definition compactAt (lim : Z) : Z :=
  let extra := if lim ÷ 4 <? 1 then 1 else lim ÷ 4 in
  if extra <=? int64_max [-] lim then lim [+] extra else int64_max.

Definition Write (p : Bytes) : Locked (Z * option Error) :=
  o ← out;
  if closed o then mret (0, Some (ENew "process output is closed"))
  else if bool_decide (stickyErr o ≠ None) then mret (0, stickyErr o)
  else if bool_decide (p = []) then mret (0, None)
  else
    (if limit o <=? 0 then update (set_limit defaultProcessOutputBufferBytes) else mret tt);;
    o ← out;
    if (baseOffset o <? 0) || (endOffset o <? baseOffset o) || (int64_max [-] endOffset o <? lenZ p)
    then mret (0, Some (ENew "process output cursor range is invalid"))
    else
      let stored := endOffset o [-] baseOffset o in
      if (int64_max [-] stored <? lenZ p) || (compactAt (limit o) <? stored [+] lenZ p)
      then compactLocked p
      else appendLocked p.

(** [processOutput.Close] *)
Definition CloseOutput : Locked (option Error) :=
  o ← out;
  if closed o then mret (stickyErr o)
  else
    stopSyncTimerLocked;;
    closeErr ←
      match file o with
      | None => mret None
      | Some f =>
          syncErr ← syncLocked;
          fileErr ← sys (Close f);
          update (set_file None);;
          mret (match syncErr, fileErr with
                | None, None => None
                | Some e, None => ErrorsJoin [None; Some e]
                | None, Some e => ErrorsJoin [None; Some (EWrap "close process output" e)]
                | Some e, Some e' =>
                    ErrorsJoin [ErrorsJoin [None; Some e]; Some (EWrap "close process output" e')]
                end)
      end;
    update set_closed;;
    rememberErrorLocked closeErr;;
    o ← out;
    mret (stickyErr o).

(** [Slice]: output, start, next, truncated, error. *)
Definition Sliced : Type := string * Z * Z * bool * option Error.

Definition slice_failed (e : Error) : Locked Sliced :=
  sticky ← rememberErrorLocked (Some e); mret ("", 0, 0, true, sticky).

(** The read of the open file and what [Slice] makes of it. *)
Definition slice_open_file (f : nat) (cursor maxBytes : Z) : Locked Sliced :=
  o ← out;
  or_err (sys (readProcessOutputRange (Some f) (baseOffset o) (endOffset o) cursor maxBytes))
    slice_failed (fun '(output, start, next, truncated) =>
  mret (output, start, next, truncated || bool_decide (stickyErr o ≠ None), stickyErr o)).

Definition Slice (cursor maxBytes : Z) : Locked Sliced :=
  o ← out;
  if path o ==? "" then slice_failed (ENew "process output path is required")
  else
    match file o with
    | Some f => slice_open_file f cursor maxBytes
    | None =>
        or_err (sys (openProcessOutputFile (path o))) slice_failed (fun '(f, base, end_) =>
        if (base <>? baseOffset o) || (end_ <>? endOffset o)
        then sys (Close f);; slice_failed mismatch
        else r ← slice_open_file f cursor maxBytes; sys (Close f);; mret r)
    end.
