(* ===== verification/OutputProofs.v ===== *)
(** * Captured output: the operations of the file

    The header round trip, and what [writeFull], [io.CopyN], the replacement of the
    file, opening and reading do to the file system under every schedule of faults. *)
From S2P Require Import Prelude GoStrings DaemonProtocol Sha256 LocalStore OutputFile.
From Stdlib Require Import Ascii List.
From stdpp Require Import list options.
Local Open Scope Z_scope.

(** The wraparounds of a sum collapse. *)
Lemma wrap64_sub_l a b : wrap64 (wrap64 a - b) = wrap64 (a - b).
Proof.
  unfold wrap64. f_equal.
  replace ((a + 2 ^ 63) mod 2 ^ 64 - 2 ^ 63 - b + 2 ^ 63) with ((a + 2 ^ 63) mod 2 ^ 64 + - b) by lia.
  rewrite Z.add_mod_idemp_l by done. f_equal. lia.
Qed.

(** ** The header *)

Definition header (base : Z) : Bytes :=
  let start := processOutputMagic ++ big_endian 8 base in start ++ take 16 (Sha256.Sum256 start).

#[global] Arguments header _ : simpl never.


Lemma length_header base : length (header base) = 32%nat.
Proof.
  unfold header. rewrite !length_app, length_take, length_Sum256, length_big_endian. done.
Qed.

Lemma encode_header base : 0 <= base -> encodeProcessOutputHeader base = inr (header base).
Proof. intros H. unfold encodeProcessOutputHeader. destruct (base <? 0) eqn:E; bsimpl; [lia|done]. Qed.

Lemma header_fields base :
  take 8 (header base) = processOutputMagic
  /\ take 8 (drop 8 (header base)) = big_endian 8 base
  /\ drop 16 (header base) = take 16 (Sha256.Sum256 (take 16 (header base))).
Proof.
  unfold header. set (m := processOutputMagic). set (b := big_endian 8 base).
  assert (length m = 8%nat) as Hm by done. assert (length b = 8%nat) as Hb by apply length_big_endian.
  clearbody m b.
  split_and!.
  - rewrite <- app_assoc, take_app_le by lia. rewrite take_ge by lia. done.
  - rewrite <- app_assoc, drop_app_ge, Hm by lia. change (8 - 8)%nat with 0%nat.
    rewrite drop_0, take_app_le, take_ge by lia. done.
  - rewrite drop_app_ge, length_app, Hm, Hb by (rewrite length_app; lia).
    change (16 - (8 + 8))%nat with 0%nat. rewrite drop_0, (take_app_le (m ++ b)), (take_ge (m ++ b)) by (rewrite length_app; lia). done.
Qed.

Lemma decode_header base len : 0 <= base -> 0 <= len -> base + len <= int64_max ->
  decodeProcessOutputHeader (header base) len = inr base.
Proof.
  intros Hb Hl Hs. destruct (header_fields base) as (Hmagic & Hbase & Hsum).
  unfold decodeProcessOutputHeader, lenZ. rewrite length_header, Hmagic, Hbase, Hsum, big_endian_mod.
  rewrite Z.mod_small by (unfold int64_max in Hs; simpl; lia).
  rewrite !bool_decide_true by done. simpl.
  rewrite wrap64_id by (unfold is_int64, int64_min, int64_max in *; lia).
  rewrite !(proj2 (Z.ltb_ge _ _)) by lia. done.
Qed.

(** A header that decodes is the one that is written for its offset. *)
Lemma decode_header_inv h len base : decodeProcessOutputHeader h len = inr base ->
  h = header base /\ 0 <= base /\ 0 <= len /\ base + len <= int64_max.
Proof.
  unfold decodeProcessOutputHeader, lenZ. intros H.
  split_match_in H; simplify_eq; bsimpl.
  pose proof (from_big_endian_range (take 8 (drop 8 h))) as Hr.
  rewrite wrap64_id in * by (unfold is_int64, int64_min, int64_max in *; lia).
  split; [|lia]. assert (length h = 32%nat) as Hlen by (unfold processOutputHeaderSize in *; lia).
  assert (length (take 8 (drop 8 h)) = 8%nat) as Hl8 by (rewrite length_take, length_drop; lia).
  unfold header. pose proof (from_big_endian_round_trip (take 8 (drop 8 h))) as Hrt.
  rewrite Hl8 in Hrt. rewrite Hrt. clear Hrt.
  assert (processOutputMagic ++ take 8 (drop 8 h) = take 16 h) as ->.
  { rewrite <- (take_drop 8 (take 16 h)). f_equal; [by rewrite take_take|].
    by rewrite take_drop_commute. }
  rewrite <- (take_drop 16 h) at 1. f_equal. done.
Qed.

#[global] Opaque header.

(** ** Writers *)

Lemma write_full_spec fuel f bs w err w' :
  (length bs < fuel)%nat -> write_full fuel f bs w = (err, w') ->
  exists k, w' ≡ append_to f (take k bs) w /\ (err = None -> take k bs = bs).
Proof.
  revert bs w. induction fuel as [|fuel IH]; intros bs w Hfuel H; [lia|]. cbn [write_full] in H.
  destruct (bool_decide (bs = [])) eqn:Hb; bsimpl.
  { m_inv. exists 0%nat. by rewrite append_to_nil. }
  apply M_bind_inv in H as ([n e] & w1 & Hw & H). apply FWrite_inv in Hw as (k & -> & Hk & E).
  destruct e as [e|]; [m_inv; by exists k|].
  destruct (Z.of_nat k =? 0) eqn:Hk0; bsimpl; [m_inv; by exists k|].
  rewrite (proj2 (Z.ltb_lt _ _)), Nat2Z.id in H by lia.
  apply IH in H as (k' & E' & Hdone); [|rewrite length_drop; lia].
  exists (k + k')%nat. rewrite E, append_to_app in E'.
  assert (take k bs ++ take k' (drop k bs) = take (k + k') bs) as Happ.
  { by rewrite <- (take_drop k (take (k + k') bs)), take_take, Nat.min_l, take_drop_commute by lia. }
  rewrite Happ in E'. split; [done|]. intros He. rewrite <- Happ, Hdone by done. apply take_drop.
Qed.
Lemma writeFull_spec f bs w err w' : writeFull f bs w = (err, w') ->
  exists ext, w' ≡ append_to f ext w /\ (err = None -> ext = bs).
Proof. intros (k & ? & ?)%write_full_spec; eauto; lia. Qed.

Lemma FWrite_full_spec f p w n w' : FWrite f p w = ((n, None), w') -> n = lenZ p ->
  w' ≡ append_to f p w.
Proof. intros (k & -> & ? & E)%FWrite_inv Hn. unfold lenZ in Hn. by rewrite take_ge in E by lia. Qed.

Lemma append_to_lookup_ne f g p w : f ≠ g -> inodes (append_to f p w) !! g = inodes w !! g.
Proof. intros H. simpl. by rewrite lookup_alter_ne. Qed.

Definition slice (off n : Z) (bs : Bytes) : Bytes := take (Z.to_nat n) (drop (Z.to_nat off) bs).

Lemma slice_app off m n bs : 0 <= off -> 0 <= m <= n ->
  slice off m bs ++ slice (off + m) (n - m) bs = slice off n bs.
Proof.
  intros Ho Hm. unfold slice. rewrite Z2Nat.inj_add by lia. rewrite <- drop_drop.
  rewrite <- (take_drop (Z.to_nat m) (take (Z.to_nat n) _)), take_take, Nat.min_l by lia.
  f_equal. rewrite take_drop_commute. do 2 f_equal. lia.
Qed.

Lemma ReadAt_chunk src x off n w chunk re w1 :
  inodes w !! src = Some x -> 0 <= n -> ReadAt src n off w = ((chunk, re), w1) ->
  w1 ≡ w /\ lenZ chunk <= n /\ (chunk = [] \/ chunk = slice off n (data x))
  /\ (re = None -> lenZ chunk = n /\ chunk = slice off n (data x)).
Proof.
  intros Hx Hn [E Hread]%ReadAt_inv. split; [done|]. unfold lenZ.
  destruct Hread as [[-> [? ->]]|(i & Hi & _ & -> & ->)]; [simpl; split_and!; auto; done || lia|].
  simplify_eq. rewrite length_take. split_and!; [lia|by right|].
  match goal with |- (if ?b then _ else _) = None -> _ => destruct b eqn:Hlt end; [done|].
  intros _. apply Z.ltb_ge in Hlt. split; [lia|done].
Qed.

Lemma copy_n_spec fuel d src x off n w err w' :
  d ≠ src -> inodes w !! src = Some x -> 0 <= off -> (Z.to_nat n < fuel)%nat ->
  copy_n fuel d src off n w = (err, w') ->
  exists ext, w' ≡ append_to d ext w /\ (err = None -> ext = slice off n (data x)).
Proof.
  intros Hne. revert off n w. induction fuel as [|fuel IH]; intros off n w Hx Hoff Hfuel H; [lia|].
  cbn [copy_n] in H. destruct (n <=? 0) eqn:Hn; bsimpl.
  { m_inv. exists []. rewrite append_to_nil. split; [done|]. unfold slice. by rewrite Z2Nat.nonpos. }
  apply M_bind_inv in H as ([chunk re] & w1 & Hr & H).
  assert (1 <= Z.min n copy_buffer <= n) as Hm by (unfold copy_buffer; lia).
  set (m := Z.min n copy_buffer) in *. clearbody m.
  apply (ReadAt_chunk _ _ _ _ _ _ _ _ Hx) in Hr as (E & Hlen & Hchunk & Hfull); [|lia].
  apply M_bind_inv in H as ([written we] & w2 & Hw & H).
  assert (exists k, written = Z.of_nat k /\ (k <= length chunk)%nat
            /\ w2 ≡ append_to d (take k chunk) w) as (k & -> & Hk & E2).
  { destruct (bool_decide (chunk = [])) eqn:?; bsimpl.
    - m_inv. exists 0%nat. rewrite append_to_nil. auto.
    - apply FWrite_inv in Hw as (k & -> & ? & E2). rewrite E in E2. eauto. }
  assert (Z.of_nat k = n -> take k chunk = slice off n (data x)) as Hall.
  { intros. unfold lenZ in *. rewrite take_ge by lia. assert (m = n) as <- by lia.
    destruct Hchunk as [->|]; [simpl in *; lia|done]. }
  destruct we as [e|].
  { m_inv. eexists. split; [exact E2|]. destruct (n =? Z.of_nat k) eqn:?; bsimpl; [auto|done]. }
  destruct (Z.of_nat k <>? lenZ chunk) eqn:?; bsimpl; [m_inv; by eexists|].
  rewrite take_ge in * by (unfold lenZ in *; lia).
  destruct re as [e|].
  { eexists. destruct e; m_inv; (split; [exact E2|]); try done.
    destruct (n =? lenZ chunk) eqn:?; bsimpl; [intros _; apply Hall; lia|done]. }
  destruct (Hfull eq_refl) as [Hl ->]. rewrite Hl in H. apply IH in H as (ext & E' & Hext); [|..|lia|lia].
  2: { rewrite E2, append_to_lookup_ne by done. done. }
  eexists. rewrite E2, append_to_app in E'. split; [exact E'|].
  intros He. rewrite Hext by done. apply slice_app; lia.
Qed.

Lemma CopyN_spec d src x off n w err w' :
  d ≠ src -> inodes w !! src = Some x -> 0 <= off -> CopyN d src off n w = (err, w') ->
  exists ext, w' ≡ append_to d ext w /\ (err = None -> ext = slice off n (data x)).
Proof. intros Hne Hx Hoff. by apply copy_n_spec; [..|lia]. Qed.

(** ** Replacing the file *)

Lemma fill_replacement_writes w base len body writeData :
  writes w body writeData ->
  writes w (header base ++ body) (fill_replacement (header base) len writeData).
Proof.
  intros Hbody x w1 err w2 Hi H. unfold fill_replacement in H.
  apply if_err_inv in H as [(e & w3 & Hw & H)|(w3 & Hw & H)];
    apply writeFull_spec in Hw as (ext & E & Hext); [m_inv; by exists ext|].
  rewrite (Hext eq_refl) in E. clear Hext ext.
  assert (inodes w3 = <[next w := mkInode (kind x) (perm x) (uid x) (data x ++ header base) (synced x)]> (inodes w)) as Hi3.
  { rewrite E. simpl. by rewrite Hi, alter_insert_eq. }
  apply if_err_inv in H as [(e & w4 & Hw & H)|(w4 & Hw & H)];
    apply (Hbody _ _ _ _ Hi3) in Hw as (ext & E4 & Hext); rewrite E, append_to_app in E4.
  { m_inv. by eexists. }
  rewrite (Hext eq_refl) in E4. exists (header base ++ body). split; [|done].
  apply or_err_inv in H as [(e & w5 & Hs%Stat_equiv & H)|(info & w5 & Hs%Stat_equiv & H)];
    [m_inv; by rewrite Hs|].
  destruct (_ <>? _); m_inv; by rewrite Hs.
Qed.

Lemma replaceProcessOutputFile_spec path base len body writeData w published err w' :
  store_wf w -> 0 <= base -> writes w body writeData ->
  replaceProcessOutputFile path base len writeData w = ((published, err), w') ->
  replaced path 384 (header base ++ body) w published err w'.
Proof.
  intros Hwf Hb Hw H. unfold replaceProcessOutputFile in H.
  destruct (_ || _); [m_inv; by eapply equiv_refused|]. rewrite encode_header in H by done.
  eapply writeFileAtomic_spec in H; [done..|]. by apply fill_replacement_writes.
Qed.

(** [compactLocked]'s writer: [keep] bytes, the tail of the old data and of [p]. *)
Lemma copy_kept_writes w src x stored fromExisting fromNew p :
  store_wf w -> inodes w !! src = Some x ->
  0 <= fromExisting <= stored -> 0 <= fromNew <= lenZ p -> stored <= 2 ^ 62 ->
  writes w (slice (32 + stored - fromExisting) fromExisting (data x)
            ++ drop (Z.to_nat (lenZ p - fromNew)) p)
    (copy_kept src stored fromExisting fromNew p).
Proof.
  intros Hwf Hx He Hn Hst y w1 err w2 Hi H.
  assert (next w ≠ src) as Hne by (apply inodes_bound in Hx; [lia|done]).
  assert (inodes w1 !! src = Some x) as Hx1 by (rewrite Hi, lookup_insert_ne; done).
  apply M_bind_inv in H as (copyErr & w3 & Hc & H).
  apply M_bind_inv in H as (writeErr & w4 & Hw & H).
  apply M_bind_inv in H as (closeErr & w5 & Hcl%Close_equiv & H). m_inv.
  assert (exists ext, w3 ≡ append_to (next w) ext w1
    /\ (copyErr = None -> ext = slice (32 + stored - fromExisting) fromExisting (data x)))
    as (ext & E & Hext).
  { destruct (0 <? fromExisting) eqn:?; bsimpl.
    - unfold processOutputHeaderSize in Hc.
      rewrite (wrap64_id (32 + stored)), wrap64_id in Hc by (unfold is_int64, int64_min, int64_max; lia).
      eapply CopyN_spec in Hc; [done..|lia].
    - m_inv. exists []. rewrite append_to_nil. split; [done|]. intros _.
      assert (fromExisting = 0) as -> by lia. done. }
  assert (exists ext', w4 ≡ append_to (next w) ext' w3
    /\ (copyErr = None -> writeErr = None -> ext' = drop (Z.to_nat (lenZ p - fromNew)) p))
    as (ext' & E' & Hext').
  { destruct (bool_decide (copyErr = None) && (0 <? fromNew)) eqn:?.
    - apply writeFull_spec in Hw as (ext' & ? & ?). eauto.
    - m_inv. exists []. rewrite append_to_nil. split; [done|]. intros. bcases; [done|].
      assert (fromNew = 0) as -> by lia. rewrite drop_ge; [done|]. unfold lenZ. lia. }
  exists (ext ++ ext'). rewrite Hcl, E', E, append_to_app. split; [done|].
  destruct copyErr, writeErr, closeErr; try done. intros _. by rewrite Hext, Hext'.
Qed.

(** ** Opening and reading *)

(** A file that only its owner can use. *)
Definition private (owner : Z) (x : Inode) : Prop :=
  kind x = Regular /\ Z.land (perm x) 63 = 0 /\ uid x = owner.

Lemma ValidatePrivateFile_equiv q w r w' : ValidatePrivateFile q w = (r, w') -> w' ≡ w.
Proof.
  intros [(? & w1 & E%Lstat_equiv & H)|(info & w1 & E%Lstat_equiv & H)]%or_err_inv; [by m_inv|].
  destruct (_ || _); by m_inv.
Qed.

(** What a reader at [cursor] is promised: the retained bytes from [start] on, at
    most [maxBytes] of them, and whether something before or after is missing. *)
Definition observe (base : Z) (body : Bytes) (cursor maxBytes : Z) : Read :=
  let size := if maxBytes <=? 0 then DefaultObservationBytes else maxBytes in
  let stop := base + lenZ body in
  let start := Z.max base cursor in
  let skipped := Z.max 0 cursor <? base in
  if stop <? start then ("", start, start, skipped)
  else
    let n := Z.min size (stop - start) in
    (ToValidUTF8 (String.string_of_list_ascii (slice (start - base) n body)) "?",
     start, start + n, skipped || (start + n <? stop)).

Lemma slice_header base body k n : 0 <= k -> slice (32 + k) n (header base ++ body) = slice k n body.
Proof.
  intros Hk. unfold slice. f_equal. rewrite Z2Nat.inj_add by lia.
  rewrite drop_app_ge; rewrite length_header; [f_equal|]; lia.
Qed.

Lemma slice_length k n body : 0 <= k -> 0 <= n -> k + n <= lenZ body -> lenZ (slice k n body) = n.
Proof. intros. unfold lenZ, slice in *. rewrite length_take, length_drop. lia. Qed.

Section KnownFile.
Context (q : string) (i : nat) (x : Inode) (base : Z) (body : Bytes).
Hypothesis (Hdata : data x = header base ++ body).
Hypothesis (Hrange : 0 <= base /\ base + lenZ body <= int64_max /\ lenZ body + 32 <= int64_max).

Lemma known_size : InfoSize (mkInfo i x) = 32 + lenZ body.
Proof using Hdata.
  unfold InfoSize, lenZ. simpl. rewrite Hdata, length_app, length_header. lia.
Qed.
Lemma known_length : InfoSize (mkInfo i x) [-] processOutputHeaderSize = lenZ body.
Proof using Hdata Hrange.
  rewrite known_size. unfold processOutputHeaderSize.
  rewrite wrap64_id by (unfold is_int64, int64_min, int64_max, lenZ in *; lia). lia.
Qed.
Lemma known_header : slice 0 processOutputHeaderSize (data x) = header base.
Proof using Hdata.
  unfold slice. rewrite Hdata. change (Z.to_nat 0) with 0%nat. rewrite drop_0.
  change (Z.to_nat processOutputHeaderSize) with 32%nat.
  rewrite take_app_le, take_ge; rewrite ?length_header; done.
Qed.
Lemma known_full : processOutputHeaderSize <= lenZ (slice 0 processOutputHeaderSize (data x)).
Proof using Hdata. rewrite known_header. unfold lenZ. by rewrite length_header. Qed.
Lemma known_decode : decodeProcessOutputHeader (header base) (lenZ body) = inr base.
Proof using Hrange. apply decode_header; unfold lenZ in *; lia. Qed.
Lemma known_end : base [+] lenZ body = base + lenZ body.
Proof using Hrange. apply wrap64_id. unfold is_int64, int64_min, int64_max, lenZ in *. lia. Qed.

Context (w : FS).
Hypothesis (Hdir : dir w !! Path q = Some i) (Hino : inodes w !! i = Some x).

Lemma inspect_output_spec expected w1 r w' :
  w1 ≡ w -> inspect_output q expected i w1 = (r, w') ->
  w' ≡ w /\ ((exists e, r = inl e) \/ r = inr (i, base, base + lenZ body)).
Proof using Hdata Hrange Hino.
  intros E H. unfold inspect_output in H.
  assert (forall w2 e r w', w2 ≡ w -> (Close i;; mret (inl e) : Sys (Error + (nat * Z * Z))) w2 = (r, w') ->
    w' ≡ w /\ ((exists e, r = inl e) \/ r = inr (i, base, base + lenZ body))) as Hfail.
  { intros w2 e r' w'' E' H'. m_inv.
    match goal with H : Close _ _ = _ |- _ => apply Close_equiv in H; rewrite E' in H end. eauto. }
  apply or_err_inv in H as [(e & w2 & Hop & H)|(actual & w2 & Hop & H)];
    pose proof (Stat_equiv _ _ _ _ Hop) as E2; rewrite E in E2; [eauto|].
  apply syscall_inv in Hop as (w3 & E3 & [(? & ? & ?)|Hop]); [done|].
  assert (inodes w3 = inodes w) as Ei by (by rewrite E3, E).
  unfold get, info_of in Hop. rewrite Ei, Hino in Hop. simplify_eq/=.
  destruct (negb (SameFile expected _)); [eauto|].
  destruct (_ <? processOutputHeaderSize) eqn:?; [eauto|].
  apply M_bind_inv in H as ([h e] & w4 & Hop & H).
  apply (ReadAt_chunk i x) in Hop as (E4 & _ & _ & Hh); [|by rewrite E2|done]. rewrite E2 in E4.
  destruct e as [e|]; [eauto|]. destruct (Hh eq_refl) as [_ ->].
  rewrite known_length, known_header, known_decode, known_end in H.
  apply or_err_inv in H as [(e & w5 & Hop%Lstat_equiv & H)|(latest & w5 & Hop%Lstat_equiv & H)];
    rewrite E4 in Hop; [eauto|].
  destruct (negb (SameFile latest _)); [eauto|].
  apply if_err_inv in H as [(e & w6 & Hv%ValidatePrivateFile_equiv & H)|(w6 & Hv%ValidatePrivateFile_equiv & H)];
    rewrite Hop in Hv; [eauto|]. m_inv. eauto.
Qed.

Lemma openProcessOutputFile_spec w1 r w' :
  w1 ≡ w -> openProcessOutputFile q w1 = (r, w') ->
  w' ≡ w /\ ((exists e, r = inl e) \/ r = inr (i, base, base + lenZ body)).
Proof using Hdata Hrange Hino Hdir.
  intros E H. unfold openProcessOutputFile in H. destruct (q ==? ""); [m_inv; eauto|].
  apply or_err_inv in H as [(e & w2 & Hop%Lstat_equiv & H)|(expected & w2 & Hop%Lstat_equiv & H)];
    rewrite E in Hop; [m_inv; eauto|].
  apply if_err_inv in H as [(e & w3 & Hv%ValidatePrivateFile_equiv & H)|(w3 & Hv%ValidatePrivateFile_equiv & H)];
    rewrite Hop in Hv; [m_inv; eauto|].
  apply or_err_inv in H as [(e & w4 & Ho & H)|(f & w4 & Ho & H)];
    pose proof (OpenFile_equiv _ _ _ _ Ho) as E4; rewrite Hv in E4; [m_inv; eauto|].
  apply syscall_inv in Ho as (w5 & E5 & [(? & ? & ?)|Ho]); [done|].
  assert (inodes w5 = inodes w /\ dir w5 = dir w) as [Ei Ed] by (by rewrite E5, Hv).
  unfold get, lookup_path, info_of in Ho. rewrite Ed, Hdir, Ei, Hino in Ho. injection Ho as <- <-.
  by eapply inspect_output_spec.
Qed.

(** Without faults the file opens. *)
Lemma openProcessOutputFile_complete :
  q ≠ "" -> faults w = [] -> private (euid w) x ->
  openProcessOutputFile q w = (inr (i, base, base + lenZ body), w).
Proof using Hdata Hrange Hino Hdir.
  intros Hq Hf (Hk & Hp & Hu).
  assert (lookup_path q w = inr (mkInfo i x)) as Hl by (unfold lookup_path, info_of; by rewrite Hdir, Hino).
  assert (Lstat q w = (inr (mkInfo i x), w)) as Hlstat
    by (unfold Lstat; rewrite syscall_ok by done; unfold get; by rewrite Hl).
  assert (ValidatePrivateFile q w = (None, w)) as Hvalid.
  { unfold ValidatePrivateFile. rewrite (or_err_ok _ _ _ _ _ _ Hlstat). cbn [node]. rewrite Hk.
    change ((Regular ==? Symlink) || (Regular <>? Regular)) with false. cbv iota.
    rewrite M_get_bind. unfold validatePrivateFile. by rewrite Hp, Hu, !Z.eqb_refl. }
  assert (OpenFile q w = (inr i, w)) as Hopen
    by (unfold OpenFile; rewrite syscall_ok by done; unfold get; by rewrite Hl).
  assert (Stat i w = (inr (mkInfo i x), w)) as Hstat
    by (unfold Stat; rewrite syscall_ok by done; unfold get, info_of; by rewrite Hino).
  unfold openProcessOutputFile. rewrite bool_decide_false by done.
  rewrite (or_err_ok _ _ _ _ _ _ Hlstat), (if_err_ok _ _ _ _ _ Hvalid).
  rewrite (or_err_ok _ _ _ _ _ _ Hopen). unfold inspect_output. rewrite (or_err_ok _ _ _ _ _ _ Hstat).
  unfold SameFile. cbn [ino]. rewrite (bool_decide_true (i = i)) by done. cbn [negb]. cbv iota.
  rewrite known_length.
  assert ((InfoSize (mkInfo i x) <? processOutputHeaderSize) = false) as ->
    by (rewrite known_size; apply Z.ltb_ge; unfold processOutputHeaderSize, lenZ; lia).
  rewrite (M_bind_ok _ _ _ _ _ (ReadAt_ok i x processOutputHeaderSize 0 w Hf Hino ltac:(done) known_full)).
  fold (slice 0 processOutputHeaderSize (data x)). rewrite known_header, known_decode, known_end.
  rewrite (or_err_ok _ _ _ _ _ _ Hlstat). cbn [ino]. rewrite (bool_decide_true (i = i)) by done. cbn [negb]. cbv iota.
  by rewrite (if_err_ok _ _ _ _ _ Hvalid).
Qed.

Lemma read_exactly_spec off n w1 r w' :
  w1 ≡ w -> 0 <= n -> read_exactly i off n w1 = (r, w') ->
  w' ≡ w /\ ((exists e, r = inl e) \/ r = inr (slice off n (data x))).
Proof using Hino.
  clear Hdata Hrange. intros E Hn H. unfold read_exactly in H. destruct (0 <? n) eqn:Hpos; bsimpl.
  2: { m_inv. assert (n = 0) as -> by lia. eauto. }
  apply M_bind_inv in H as ([b e] & w2 & Hr & H).
  apply (ReadAt_chunk i x) in Hr as (E2 & _ & Hb & Hfull); [|by rewrite E|done]. rewrite E in E2.
  destruct e as [[]|]; m_inv; split; eauto.
  - destruct (lenZ b =? n) eqn:?; bsimpl; [|eauto]. destruct Hb as [->| ->]; [|eauto].
    unfold lenZ in *. simpl in *. lia.
  - destruct (Hfull eq_refl) as [Hl ->]. rewrite Hl, bool_decide_true by done. eauto.
Qed.

Lemma read_exactly_complete off n :
  faults w = [] -> 0 <= off -> 0 <= n -> off + n <= lenZ (data x) ->
  read_exactly i off n w = (inr (slice off n (data x)), w).
Proof using Hino.
  clear Hdata Hrange. intros Hf Hoff Hn Hlen. unfold read_exactly. destruct (0 <? n) eqn:Hpos; bsimpl.
  2: { assert (n = 0) as -> by lia. done. }
  pose proof (slice_length off n (data x) Hoff Hn Hlen) as Hsl.
  rewrite (M_bind_ok _ _ _ _ _ (ReadAt_ok i x n off w Hf Hino Hoff ltac:(unfold lenZ, slice in Hsl; lia))).
  fold (slice off n (data x)). rewrite Hsl, bool_decide_true by done. done.
Qed.

(** The clamping of the cursor and the length, once nothing can overflow. *)
Lemma readProcessOutputRange_eq cursor maxBytes w1 :
  readProcessOutputRange (Some i) base (base + lenZ body) cursor maxBytes w1 =
    (let size := if maxBytes <=? 0 then DefaultObservationBytes else maxBytes in
     let stop := base + lenZ body in
     let start := Z.max base cursor in
     let skipped := Z.max 0 cursor <? base in
     if stop <? start then mret (inr ("", start, start, skipped))
     else
       let n := Z.min size (stop - start) in
       or_err (read_exactly i (32 + (start - base)) n) (fun e => mret (inl e)) (fun data =>
       mret (inr (ToValidUTF8 (String.string_of_list_ascii data) "?", start, start + n,
                  skipped || (start + n <? stop))))) w1.
Proof using Hrange.
  unfold readProcessOutputRange. cbv zeta. assert (0 <= lenZ body) by (unfold lenZ; lia).
  rewrite (proj2 (Z.ltb_ge base 0)), (proj2 (Z.ltb_ge (base + lenZ body) base)) by lia. cbn [orb].
  set (size := if maxBytes <=? 0 then DefaultObservationBytes else maxBytes) in *.
  assert (0 < size) as Hsize by (unfold size, DefaultObservationBytes; destruct (maxBytes <=? 0) eqn:?; bsimpl; lia).
  clearbody size.
  assert ((if (if cursor <? 0 then 0 else cursor) <? base then base else if cursor <? 0 then 0 else cursor)
          = Z.max base cursor) as -> by (destruct (cursor <? 0) eqn:?, (_ <? base) eqn:?; bsimpl; lia).
  assert ((if cursor <? 0 then 0 else cursor) = Z.max 0 cursor) as ->
    by (destruct (cursor <? 0) eqn:?; bsimpl; lia).
  set (start := Z.max base cursor) in *. assert (base <= start) as Hs by lia. clearbody start.
  destruct (base + lenZ body <? start) eqn:Hbeyond; bsimpl; [done|].
  rewrite (wrap64_id (base + lenZ body - start)) by (unfold is_int64, int64_min, int64_max in *; lia).
  assert ((if size <? base + lenZ body - start then size else base + lenZ body - start)
          = Z.min size (base + lenZ body - start)) as -> by (destruct (size <? _) eqn:?; bsimpl; lia).
  set (n := Z.min size (base + lenZ body - start)) in *.
  assert (0 <= n <= base + lenZ body - start) as Hn by lia. clearbody n.
  rewrite (proj2 (Z.ltb_ge n 0)), (proj2 (Z.ltb_ge int64_max n)) by lia. cbn [orb].
  unfold processOutputHeaderSize.
  rewrite wrap64_sub_l, (wrap64_id (32 + start - base)), (wrap64_id (start + n))
    by (unfold is_int64, int64_min, int64_max in *; lia).
  by replace (32 + start - base) with (32 + (start - base)) by lia.
Qed.

Lemma readProcessOutputRange_spec cursor maxBytes w1 r w' :
  w1 ≡ w -> readProcessOutputRange (Some i) base (base + lenZ body) cursor maxBytes w1 = (r, w') ->
  w' ≡ w /\ ((exists e, r = inl e) \/ r = inr (observe base body cursor maxBytes)).
Proof using Hdata Hrange Hino.
  intros E H. rewrite readProcessOutputRange_eq in H. unfold observe. cbv zeta in *.
  destruct (base + lenZ body <? Z.max base cursor) eqn:Hbeyond; bsimpl; [m_inv; eauto|].
  apply or_err_inv in H as [(e & w2 & Hr & H)|(b & w2 & Hr & H)]; apply read_exactly_spec in Hr as [E2 Hr];
    try done; try (unfold DefaultObservationBytes in *; destruct (maxBytes <=? 0) eqn:?; bsimpl; lia);
    m_inv; [eauto|].
  destruct Hr as [[]|Hr]; [done|]. injection Hr as ->. split; [done|]. right.
  rewrite Hdata, slice_header by lia. done.
Qed.

Lemma readProcessOutputRange_complete cursor maxBytes : faults w = [] ->
  readProcessOutputRange (Some i) base (base + lenZ body) cursor maxBytes w
  = (inr (observe base body cursor maxBytes), w).
Proof using Hdata Hrange Hino.
  intros Hf. rewrite readProcessOutputRange_eq. unfold observe. cbv zeta.
  destruct (base + lenZ body <? Z.max base cursor) eqn:Hbeyond; bsimpl; [done|].
  assert (lenZ (data x) = 32 + lenZ body) as Hlen
    by (unfold lenZ; rewrite Hdata, length_app, length_header; lia).
  erewrite or_err_ok; [|apply read_exactly_complete; [done|lia| |lia]].
  - rewrite Hdata, slice_header by lia. done.
  - unfold DefaultObservationBytes. destruct (maxBytes <=? 0) eqn:?; bsimpl; lia.
Qed.
End KnownFile.
