(* ===== verification/OutputCapture.v ===== *)
(** * Captured output: the invariant of the capture

    [captured] relates the offsets, the open file and the file system to the stream
    of all bytes accepted so far; [scheduled] says that bytes that are not synced yet
    have a timer.  Every operation keeps both, whatever calls fail. *)
From S2P Require Import Prelude GoStrings DaemonProtocol Sha256 LocalStore OutputFile OutputProofs.
From Stdlib Require Import Ascii List.
From stdpp Require Import list options.
Local Open Scope Z_scope.

(** The file [x] holds the bytes [b, e) of the stream [s]. *)
Record holds (owner : Z) (s : Bytes) (x : Inode) (b e : Z) : Prop :=
  { holds_private : private owner x
  ; holds_range : 0 <= b /\ b <= e /\ e <= lenZ s /\ e - b <= 2 ^ 61
  ; holds_data : data x = header b ++ slice b (e - b) s }.

Record captured (s : Bytes) (o : processOutput) (w : FS) (i : nat) (x : Inode) : Prop :=
  { cap_wf : store_wf w
  ; cap_path : path o ≠ ""
  ; cap_limit : 0 < limit o <= 2 ^ 60
  ; cap_end : endOffset o = lenZ s
  ; cap_max : lenZ s <= int64_max
  ; cap_retained : endOffset o - baseOffset o <= compactAt (limit o)
  ; cap_recent : baseOffset o = 0 \/ limit o <= endOffset o - baseOffset o
  ; cap_dir : dir w !! Path (path o) = Some i
  ; cap_inode : inodes w !! i = Some x
  ; cap_holds : holds (euid w) s x (baseOffset o) (endOffset o)
  ; cap_file f : file o = Some f -> f = i
  ; cap_unsynced : 0 <= unsyncedBytes o <= endOffset o - baseOffset o
  ; cap_synced : 32 + (endOffset o - baseOffset o) - unsyncedBytes o <= Z.of_nat (synced x)
  ; cap_durable : exists j y b e,
      durable w !! Path (path o) = Some j /\ inodes w !! j = Some y /\ holds (euid w) s y b e
      /\ (j = i \/ (length (data y) <= synced y)%nat)
  ; cap_healthy : stickyErr o = None ->
      durable w !! Path (path o) = Some i /\ (file o = None -> unsyncedBytes o = 0) }.

Definition threshold (o : processOutput) : Z :=
  if syncBytes o <=? 0 then processOutputSyncBytes else syncBytes o.

Record scheduled (o : processOutput) : Prop :=
  { timer_current g : syncTimer o = Some g -> g = syncGeneration o
  ; timer_armed : stickyErr o = None -> 0 < unsyncedBytes o ->
      closed o = false /\ is_Some (syncTimer o) /\ unsyncedBytes o < threshold o }.

(** ** Arithmetic of the retention *)

Lemma compactAt_value lim : 0 < lim <= 2 ^ 60 -> compactAt lim = lim + Z.max 1 (lim ÷ 4).
Proof.
  intros H. unfold compactAt. assert (0 <= lim ÷ 4 <= lim) by (split; [apply Z.quot_pos|apply Z.quot_le_upper_bound]; lia).
  destruct (lim ÷ 4 <? 1) eqn:?; bsimpl;
    rewrite !wrap64_id by (unfold is_int64, int64_min, int64_max; lia);
    rewrite (proj2 (Z.leb_le _ _)) by (unfold int64_max; lia); lia.
Qed.
Lemma compactAt_bounds lim : 0 < lim <= 2 ^ 60 -> lim < compactAt lim <= 2 ^ 61.
Proof.
  intros H. rewrite compactAt_value by done.
  assert (0 <= lim ÷ 4 <= lim) by (split; [apply Z.quot_pos|apply Z.quot_le_upper_bound]; lia). lia.
Qed.

(** ** Slices of a growing stream *)

Lemma lenZ_app s t : lenZ (s ++ t) = lenZ s + lenZ t.
Proof. unfold lenZ. rewrite length_app. lia. Qed.
Lemma lenZ_nonneg s : 0 <= lenZ s.
Proof. unfold lenZ. lia. Qed.

Lemma slice_prefix b n s t : 0 <= b -> 0 <= n -> b + n <= lenZ s -> slice b n (s ++ t) = slice b n s.
Proof.
  intros. unfold slice, lenZ in *. rewrite drop_app_le by lia. rewrite take_app_le; [done|].
  rewrite length_drop. lia.
Qed.
Lemma slice_to_end b s : 0 <= b <= lenZ s -> slice b (lenZ s - b) s = drop (Z.to_nat b) s.
Proof. intros. unfold slice, lenZ in *. rewrite take_ge; [done|]. rewrite length_drop. lia. Qed.
Lemma drop_app_lenZ b s t : 0 <= b <= lenZ s -> drop (Z.to_nat b) (s ++ t) = drop (Z.to_nat b) s ++ t.
Proof. intros. unfold lenZ in *. by rewrite drop_app_le by lia. Qed.

Lemma holds_app owner s t x b e : holds owner s x b e -> holds owner (s ++ t) x b e.
Proof.
  intros [Hp Hr Hd]. split; [done|rewrite lenZ_app; pose proof (lenZ_nonneg t); lia|].
  by rewrite slice_prefix by lia.
Qed.

Lemma holds_length owner s x b e : holds owner s x b e -> Z.of_nat (length (data x)) = 32 + (e - b).
Proof.
  intros [Hp Hr Hd]. rewrite Hd, length_app, length_header.
  assert (lenZ (slice b (e - b) s) = e - b) as H by (apply slice_length; lia). unfold lenZ in H. lia.
Qed.

(** ** What keeps the invariant *)

Lemma captured_equiv s o w i x w' : captured s o w i x -> w' ≡ w -> captured s o w' i x.
Proof. intros [[]] E. fs_equal. split; [by split|..]; done. Qed.

(** Fields of the bookkeeping may change: the timer, the error, [closed], the file. *)
Lemma captured_update s o w i x o' :
  captured s o w i x ->
  baseOffset o' = baseOffset o -> endOffset o' = endOffset o -> limit o' = limit o -> path o' = path o ->
  unsyncedBytes o' = unsyncedBytes o -> (forall f, file o' = Some f -> f = i) ->
  (stickyErr o' = None -> stickyErr o = None /\ (file o' = None -> unsyncedBytes o = 0)) ->
  captured s o' w i x.
Proof.
  intros [] Hb He Hl Hp Hu Hf Hs. split; rewrite ?Hb, ?He, ?Hl, ?Hp, ?Hu; try done.
  intros (? & ?)%Hs. split; [naive_solver|done].
Qed.

Lemma captured_sync s o w i x :
  captured s o w i x ->
  captured s (set_unsynced 0 o) (sync_inode i w) i
    (mkInode (kind x) (perm x) (uid x) (data x) (length (data x))).
Proof.
  intros C. pose proof (holds_length _ _ _ _ _ (cap_holds _ _ _ _ _ C)) as Hlen. destruct C.
  assert (forall y b e, holds (euid w) s y b e ->
    holds (euid w) s (mkInode (kind y) (perm y) (uid y) (data y) (length (data y))) b e) as Hh
    by (intros y b e [? ? ?]; by split).
  split; simpl; try done; try lia.
  - destruct cap_wf0 as [Hd Hdur Hi]. split; simpl; try done.
    intros k n [(-> & ? & ? & _)|(? & ?)]%lookup_alter_Some; eauto.
  - rewrite lookup_alter_eq, cap_inode0. done.
  - auto.
  - destruct cap_durable0 as (j & y & b & e & Hd & Hy & Hholds & Hsync).
    destruct (decide (j = i)) as [->|Hne]; [|exists j, y, b, e; by rewrite lookup_alter_ne].
    exists i, (mkInode (kind y) (perm y) (uid y) (data y) (length (data y))), b, e.
    rewrite lookup_alter_eq, Hy. auto.
  - intros Hs. naive_solver.
Qed.

Lemma captured_append s o w i x t :
  captured s o w i x -> file o = Some i ->
  lenZ s + lenZ t <= int64_max -> endOffset o - baseOffset o + lenZ t <= compactAt (limit o) ->
  captured (s ++ t) (set_range (baseOffset o) (endOffset o + lenZ t) (unsyncedBytes o + lenZ t) o)
    (append_to i t w) i (mkInode (kind x) (perm x) (uid x) (data x ++ t) (synced x)).
Proof.
  intros [] Hfile Hmax Hroom. pose proof (lenZ_nonneg t) as Ht.
  pose proof (compactAt_bounds _ cap_limit0).
  assert (holds (euid w) (s ++ t) (mkInode (kind x) (perm x) (uid x) (data x ++ t) (synced x))
            (baseOffset o) (endOffset o + lenZ t)) as Hh.
  { destruct cap_holds0 as [Hp Hr Hd]. split; [done|rewrite lenZ_app; lia|]. simpl.
    rewrite Hd, <- (assoc_L (++)). f_equal. rewrite cap_end0.
    rewrite <- lenZ_app, !slice_to_end, drop_app_lenZ by (rewrite ?lenZ_app; lia). done. }
  split; simpl; try done; try lia.
  - destruct cap_wf0 as [Hd Hdur Hi]. split; simpl; try done.
    intros k n [(-> & ? & ? & _)|(? & ?)]%lookup_alter_Some; eauto.
  - by rewrite lenZ_app, cap_end0.
  - rewrite lenZ_app. lia.
  - by rewrite lookup_alter_eq, cap_inode0.
  - destruct cap_durable0 as (j & y & b & e & Hd & Hy & Hholds & Hsync).
    destruct (decide (j = i)) as [->|Hne].
    + exists i. eexists _, _, _. rewrite lookup_alter_eq, cap_inode0. split_and!; [done..|by left].
    + exists j, y, b, e. rewrite lookup_alter_ne by done. split_and!; try done. by apply holds_app.
  - intros Hs. destruct (cap_healthy0 Hs). split; [done|]. by rewrite Hfile.
Qed.

(** A replacement that did not happen. *)
Lemma captured_refused s o w i x mode full err w' :
  captured s o w i x -> replaced (path o) mode full w false err w' -> captured s o w' i x.
Proof.
  intros [] [Rwf Rino Rnext Reuid Roth Rpub Rref]. destruct Rref as (_ & Hd & Hdur); [done|].
  assert (i < next w)%nat as Hi by (by eapply inodes_bound).
  split; rewrite ?Reuid, ?Hd, ?Hdur; try done.
  - by rewrite Rino.
  - destruct cap_durable0 as (j & y & b & e & Hj & Hy & ?). exists j, y, b, e.
    rewrite Rino by (by eapply inodes_bound). done.
Qed.

(** A replacement that holds the newest [limit] bytes of the longer stream. *)
Lemma captured_published s t o w i x body err w' o' :
  captured s o w i x -> unsyncedBytes o = 0 ->
  lenZ s + lenZ t <= int64_max -> limit o <= lenZ body -> lenZ body <= compactAt (limit o) ->
  lenZ body <= lenZ s + lenZ t ->
  body = slice (lenZ (s ++ t) - lenZ body) (lenZ body) (s ++ t) ->
  replaced (path o) 384 (header (lenZ (s ++ t) - lenZ body) ++ body) w true err w' ->
  o' = set_range (lenZ (s ++ t) - lenZ body) (lenZ (s ++ t)) 0 o ->
  (forall f, file o = Some f -> f = next w) -> (stickyErr o = None -> err = None) ->
  exists x', captured (s ++ t) o' w' (next w) x'.
Proof.
  intros [] Hu Hmax Hlim Hcap Htot Hbody [Rwf Rino Rnext Reuid Roth Rpub Rref] -> Hfile Herr.
  destruct Rpub as (Hd & Hi & Hdur); [done|]. eexists.
  set (base := lenZ (s ++ t) - lenZ body) in *.
  assert (lenZ (s ++ t) = lenZ s + lenZ t) as Hst by apply lenZ_app.
  pose proof (compactAt_bounds _ cap_limit0).
  assert (lenZ (s ++ t) - base = lenZ body) as Hdiff by (unfold base; lia).
  assert (holds (euid w) (s ++ t) (mkInode Regular 384 (euid w) (header base ++ body) (length (header base ++ body)))
            base (lenZ (s ++ t))) as Hh.
  { split; [done|unfold base; pose proof (lenZ_nonneg body); lia|]. simpl. by rewrite Hdiff, Hbody at 1. }
  split; simpl; rewrite ?Reuid, ?Hdiff; try done; try lia; try (by right).
  - cbn [synced]. rewrite length_app, length_header. unfold lenZ in *. lia.
  - rewrite Hdur. destruct err as [err|].
    + destruct cap_durable0 as (j & y & b & e & Hj & Hy & Hholds & Hsync). exists j, y, b, e.
      rewrite Rino by (by eapply inodes_bound). split_and!; try done; [by apply holds_app|].
      destruct Hsync as [->|]; right; [|done]. simplify_eq.
      pose proof (holds_length _ _ _ _ _ cap_holds0). lia.
    + rewrite Hd. eexists _, _, _, _. split_and!; eauto.
  - intros Hs. rewrite (Herr Hs) in *. rewrite Hdur, Hd. done.
Qed.

(** ** The locked helpers *)

Ltac int64 := unfold is_int64, int64_min, int64_max in *; lia.

Lemma sys_inv {A} (m : Sys A) o w a s' : sys m (o, w) = (a, s') -> exists w', m w = (a, w') /\ s' = (o, w').
Proof. unfold sys. simpl. destruct (m w) as [b w']. intros. simplify_eq. eauto. Qed.
Lemma out_bind {B} (k : processOutput -> Locked B) o w : (out ≫= k) (o, w) = k o (o, w).
Proof. done. Qed.
Lemma ret_bind {A B} (a : A) (k : A -> Locked B) st : (mret a ≫= k) st = k a st.
Proof. done. Qed.
Lemma update_bind {B} f (k : Locked B) o w : (update f;; k) (o, w) = k (f o, w).
Proof. done. Qed.

Lemma remember_spec e o w r s' : rememberErrorLocked (Some e) (o, w) = (r, s') ->
  exists e', r = Some e' /\ s' = (set_sticky (Some e') o, w).
Proof.
  unfold rememberErrorLocked. rewrite out_bind. unfold ErrorsJoin. simpl.
  destruct (stickyErr o); simpl; rewrite update_bind; intros; m_inv; eauto.
Qed.

Lemma remember_pair_spec {A} (n : A) e o w r s' :
  (sticky ← rememberErrorLocked (Some e); mret (n, sticky)) (o, w) = (r, s') ->
  exists e', r = (n, Some e') /\ s' = (set_sticky (Some e') o, w).
Proof.
  intros (a & s1 & H & Hr)%M_bind_inv. apply remember_spec in H as (e' & -> & ->). m_inv. eauto.
Qed.

(** Once an error is remembered nothing more is promised of the schedule. *)
Lemma captured_sticky s o w i x e :
  captured s o w i x -> captured s (set_sticky (Some e) o) w i x.
Proof. intros C. eapply captured_update; eauto; [apply C|done]. Qed.
Lemma scheduled_sticky o e : (forall g, syncTimer o = Some g -> g = syncGeneration o) ->
  scheduled (set_sticky (Some e) o).
Proof. intros H. by split. Qed.

Lemma captured_ranges s o w i x : captured s o w i x ->
  0 <= baseOffset o /\ baseOffset o <= endOffset o /\ endOffset o <= int64_max
  /\ endOffset o - baseOffset o + 32 <= int64_max /\ endOffset o = lenZ s /\ endOffset o - baseOffset o <= 2 ^ 61.
Proof.
  intros []. destruct cap_holds0 as [_ Hr _]. pose proof (compactAt_bounds _ cap_limit0). int64.
Qed.

Section Known.
Context (s : Bytes) (o : processOutput) (w : FS) (i : nat) (x : Inode) (C : captured s o w i x).

Lemma open_captured w1 r w' : w1 ≡ w -> openProcessOutputFile (path o) w1 = (r, w') ->
  w' ≡ w /\ ((exists e, r = inl e) \/ r = inr (i, baseOffset o, endOffset o)).
Proof using C.
  intros E H. pose proof (captured_ranges _ _ _ _ _ C). destruct C. destruct cap_holds0 as [Hp Hr Hd].
  assert (lenZ (slice (baseOffset o) (endOffset o - baseOffset o) s) = endOffset o - baseOffset o) as Hl
    by (apply slice_length; lia).
  eapply (openProcessOutputFile_spec _ _ _ _ _ Hd) in H as [? H]; [|lia|done..].
  split; [done|]. rewrite Hl in H. by replace (baseOffset o + (endOffset o - baseOffset o)) with (endOffset o) in H by lia.
Qed.

Lemma open_append_captured r w' :
  openProcessOutputAppendFile (path o) (baseOffset o) (endOffset o) w = (r, w') ->
  w' ≡ w /\ ((exists e, r = inl e) \/ r = inr i).
Proof using C.
  unfold openProcessOutputAppendFile. intros H. destruct ((_ <? 0) || _); [m_inv; eauto|].
  apply or_err_inv in H as [(e & w1 & H & Hr)|([[f b] e] & w1 & H & Hr)];
    apply open_captured in H as [E Hopen]; try done; [m_inv; eauto|].
  destruct Hopen as [[]|]; simplify_eq. rewrite !bool_decide_true in Hr by done.
  cbn [negb orb] in Hr. m_inv. eauto.
Qed.

Lemma openLocked_spec err s' : openLocked (o, w) = (err, s') ->
  exists w', w' ≡ w /\ ((exists e, err = Some e /\ s' = (o, w')) \/ (err = None /\ s' = (set_file (Some i) o, w'))).
Proof using C.
  unfold openLocked. rewrite out_bind. destruct (file o) as [f|] eqn:Hf.
  { intros H. m_inv. exists w. split; [done|]. right. rewrite <- (cap_file _ _ _ _ _ C f Hf).
    destruct o. simpl in *. by subst. }
  intros [(e & s1 & H & H')|(f & s1 & H & H')]%or_err_inv; apply sys_inv in H as (w1 & H & ->);
    apply open_append_captured in H as [E Hr]; exists w1; (split; [done|]).
  - m_inv. eauto.
  - rewrite update_bind in H'. m_inv. destruct Hr as [[]|]; simplify_eq. auto.
Qed.

Lemma syncLocked_spec err s' : file o = Some i -> syncLocked (o, w) = (err, s') ->
  (exists e w', err = Some e /\ s' = (o, w') /\ w' ≡ w)
  \/ (err = None /\ exists w' x', s' = (set_unsynced 0 o, w') /\ captured s (set_unsynced 0 o) w' i x').
Proof using C.
  intros Hf. unfold syncLocked. rewrite out_bind, Hf. destruct (unsyncedBytes o =? 0) eqn:Hu; bsimpl.
  { intros H. m_inv. right. split; [done|]. exists w, x.
    assert (set_unsynced 0 o = o) as -> by (destruct o; simpl in *; by subst). done. }
  intros [(e & s1 & H & H')|(s1 & H & H')]%if_err_inv; apply sys_inv in H as (w1 & H & ->);
    apply Fsync_inv in H as [(e' & ? & E)|(? & E)]; simplify_eq.
  - m_inv. left. eauto.
  - rewrite update_bind in H'. m_inv. right. split; [done|]. eexists _, _. split; [done|].
    eapply captured_equiv; [by apply captured_sync|done].
Qed.
End Known.

(** ** The timer *)

(** The state after an operation: the stream, its file, and the schedule. *)
Definition sound (s : Bytes) (st : processOutput * FS) : Prop :=
  (exists i x, captured s st.1 st.2 i x) /\ scheduled st.1.

Lemma sound_remember s o w i x e st :
  captured s o w i x -> (forall g, syncTimer o = Some g -> g = syncGeneration o) ->
  st = (set_sticky (Some e) o, w) -> sound s st.
Proof.
  intros C Ht ->. split; [|by apply scheduled_sticky]. exists i, x. by apply captured_sticky.
Qed.

Lemma captured_timer s o w i x t g : captured s o w i x -> captured s (set_timer t g o) w i x.
Proof. intros C. eapply captured_update; eauto; [apply C|]. intros Hs. split; [done|]. by apply C. Qed.

Lemma scheduleOrSyncLocked_spec s o w i x err st :
  captured s o w i x -> file o = Some i -> closed o = false ->
  (forall g, syncTimer o = Some g -> g = syncGeneration o) ->
  scheduleOrSyncLocked (o, w) = (err, st) -> sound s st /\ (is_Some err -> stickyErr st.1 ≠ None).
Proof.
  intros C Hf Hcl Ht. unfold scheduleOrSyncLocked. rewrite out_bind, Hf. rewrite bool_decide_false by done.
  rewrite orb_false_r. fold (threshold o). intros H.
  destruct (unsyncedBytes o =? 0) eqn:Hu; bsimpl.
  { m_inv. split; [|by intros []]. split; [by exists i, x|]. split; simpl; [done|]. intros. lia. }
  destruct (threshold o <=? unsyncedBytes o) eqn:Hth; bsimpl.
  - unfold stopSyncTimerLocked in H. rewrite update_bind in H. set (o1 := set_timer _ _ o) in *.
    assert (captured s o1 w i x) as C1 by (by apply captured_timer).
    apply if_err_inv in H as [(e & st1 & H & H')|(st1 & H & H')];
      apply (syncLocked_spec s o1 w i x C1) in H as [(e' & w1 & ? & -> & E)|(? & w1 & x' & -> & C2)];
      try done; simplify_eq.
    + apply remember_spec in H' as (e'' & -> & ->). split; [|done].
      eapply sound_remember; [by eapply captured_equiv|done|done].
    + m_inv. split; [|by intros []]. split; [by eexists _, _|]. split; simpl; [done|]. intros. lia.
  - destruct (syncTimer o) as [g|] eqn:Hg.
    + m_inv. split; [|by intros []]. split; [by exists i, x|]. split; simpl; [by rewrite Hg|]. rewrite Hg. eauto.
    + rewrite update_bind in H. m_inv. split; [|by intros []].
      split; [exists i, x; by apply captured_timer|]. split; simpl; [|by eauto]. by intros g [= ->].
Qed.

Lemma syncTimerFired_spec s o w g r st :
  sound s (o, w) -> syncTimerFired g (o, w) = (r, st) -> sound s st.
Proof.
  intros [(i & x & C) [Ht Ha]]. unfold syncTimerFired. rewrite out_bind. intros H.
  destruct (_ || _) eqn:Hg; [m_inv; split; eauto; by split|]. rewrite update_bind in H.
  set (o1 := set_timer None (syncGeneration o) o) in *.
  assert (captured s o1 w i x) as C1 by (by apply captured_timer).
  destruct (closed o || _ || _) eqn:Hidle.
  { m_inv. split; [by exists i, x|]. split; [done|]. simpl in *. intros Hs Hu. exfalso.
    destruct (Ha Hs Hu) as [Hc _]. rewrite Hc, Hs in Hidle. simpl in Hidle. bsimpl. lia. }
  bsimpl. assert (stickyErr o = None) as Hs by (apply dec_stable; tauto).
  assert (file o1 = Some i) as Hf.
  { destruct (file o) as [f|] eqn:Hf; [rewrite (cap_file _ _ _ _ _ C f Hf) in Hf; done|].
    destruct (cap_healthy _ _ _ _ _ C Hs) as [_ ?]. naive_solver. }
  apply if_err_inv in H as [(e & st1 & H & H')|(st1 & H & H')];
    apply (syncLocked_spec s o1 w i x C1) in H as [(e' & w1 & ? & -> & E)|(? & w1 & x' & -> & C2)];
    try done; simplify_eq.
  - apply M_bind_inv in H' as (? & ? & H' & Hr). apply remember_spec in H' as (e'' & -> & ->). m_inv.
    eapply sound_remember; [by eapply captured_equiv|done|done].
  - m_inv. split; [by eexists _, _|]. split; simpl; [done|]. intros. lia.
Qed.

(** ** Compaction *)

Lemma kept_bytes owner s x b p fe fn :
  holds owner s x b (lenZ s) -> 0 <= fe <= lenZ s - b -> 0 <= fn <= lenZ p -> (0 < fe -> fn = lenZ p) ->
  slice (32 + (lenZ s - b) - fe) fe (data x) ++ drop (Z.to_nat (lenZ p - fn)) p
  = slice (lenZ (s ++ p) - (fe + fn)) (fe + fn) (s ++ p).
Proof.
  intros [_ Hr Hd] Hfe Hfn Himp. rewrite Hd, slice_to_end by lia.
  replace (32 + (lenZ s - b) - fe) with (32 + (lenZ s - b - fe)) by lia. rewrite slice_header by lia.
  pose proof (lenZ_app s p) as Happ. set (u := lenZ (s ++ p)) in *.
  replace (fe + fn) with (u - (u - (fe + fn))) at 2 by lia. subst u.
  rewrite slice_to_end by lia.
  assert (slice (lenZ s - b - fe) fe (drop (Z.to_nat b) s) = drop (Z.to_nat (lenZ s - fe)) s) as ->.
  { unfold slice. rewrite drop_drop, take_ge; [f_equal; lia|]. rewrite length_drop. unfold lenZ in *. lia. }
  destruct (decide (0 < fe)) as [Hpos|Hzero].
  - rewrite (Himp Hpos) in *. replace (lenZ p - lenZ p) with 0 by lia. simpl drop at 2.
    rewrite <- drop_app_lenZ by lia. do 2 f_equal. lia.
  - assert (fe = 0) as -> by lia. unfold lenZ in *. rewrite (drop_ge s), drop_app_ge by lia.
    simpl. f_equal. lia.
Qed.

Section Compaction.
Context (s p : Bytes) (o : processOutput) (w : FS) (i : nat) (x : Inode) (C : captured s o w i x).
Context (Hfile : file o = None) (Hunsynced : unsyncedBytes o = 0) (Htimer : syncTimer o = None).
Context (Hmax : lenZ s + lenZ p <= int64_max).
Context (Hfull : compactAt (limit o) < endOffset o - baseOffset o + lenZ p).

Let fn : Z := Z.min (limit o) (lenZ p).

Let newEnd : Z := lenZ s + lenZ p.
Let body : Bytes := slice (newEnd - limit o) (limit o) (s ++ p).

Lemma body_length : lenZ body = limit o.
Proof using C Hfull.
  pose proof (captured_ranges _ _ _ _ _ C) as (? & ? & ? & ? & ? & ?).
  pose proof (compactAt_bounds _ (cap_limit _ _ _ _ _ C)). pose proof (cap_limit _ _ _ _ _ C).
  unfold body, newEnd. apply slice_length; rewrite ?lenZ_app; lia.
Qed.

Lemma copy_kept_body :
  writes w body (copy_kept i (endOffset o - baseOffset o) (limit o - fn) fn p).
Proof using C Hfull.
  pose proof (captured_ranges _ _ _ _ _ C) as (Hb & Hbe & He & Hs & Hend & Hst).
  pose proof (cap_limit _ _ _ _ _ C) as Hlim. pose proof (compactAt_bounds _ Hlim) as Hcap.
  pose proof (lenZ_nonneg p). pose proof (cap_holds _ _ _ _ _ C) as Hh. rewrite Hend in Hh.
  assert (slice (32 + (lenZ s - baseOffset o) - (limit o - fn)) (limit o - fn) (data x)
          ++ drop (Z.to_nat (lenZ p - fn)) p = body) as <-.
  { rewrite (kept_bytes _ _ _ _ _ _ _ Hh) by (unfold fn; lia). unfold body, newEnd.
    rewrite lenZ_app. by replace (limit o - fn + fn) with (limit o) by lia. }
  rewrite Hend. apply copy_kept_writes; [apply C|apply C|unfold fn; lia..].
Qed.

(** The file after the rename, for a capture that remembers the error if there is one. *)
Lemma kept_published o1 rerr w1 :
  replaced (path o) 384 (header (newEnd - limit o) ++ body) w true rerr w1 ->
  (o1 = o /\ rerr = None \/ exists e, o1 = set_sticky (Some e) o) ->
  exists x', captured (s ++ p) (set_range (newEnd - limit o) newEnd 0 o1) w1 (next w) x'.
Proof using C Hfile Hunsynced Hmax Hfull.
  intros H Ho. pose proof (captured_ranges _ _ _ _ _ C) as (Hb & Hbe & He & Hs & Hend & Hst).
  pose proof (cap_limit _ _ _ _ _ C) as Hlim. pose proof (compactAt_bounds _ Hlim) as Hcap.
  assert (captured s o1 w i x /\ limit o1 = limit o /\ path o1 = path o /\ file o1 = None
          /\ unsyncedBytes o1 = 0 /\ (stickyErr o1 = None -> rerr = None))
    as (C1 & Hl & Hpath & Hf & Hu & Hsticky).
  { destruct Ho as [[-> ->]|[e ->]]; [done|]. split_and!; try done. by apply captured_sticky. }
  pose proof body_length as Hbl. assert (newEnd = lenZ (s ++ p)) as Hne by (by rewrite lenZ_app).
  assert (lenZ (s ++ p) - lenZ body = newEnd - limit o) as Hbase by lia.
  rewrite <- Hpath, <- Hbase in H. rewrite <- Hbase, Hne.
  eapply (captured_published s p o1 w i x body rerr); eauto; try (rewrite ?Hl; lia).
  - rewrite Hbase, Hbl. done.
  - by rewrite Hf.
Qed.

Lemma replace_kept_spec n err st :
  replace_kept i (endOffset o - baseOffset o) (limit o) (newEnd - limit o) newEnd
    (limit o - fn) fn p (o, w) = ((n, err), st) ->
  ((n = 0 /\ is_Some err /\ sound s st) \/ (n = lenZ p /\ sound (s ++ p) st))
  /\ (is_Some err -> stickyErr st.1 ≠ None).
Proof using C Hfile Hunsynced Htimer Hmax Hfull.
  pose proof (captured_ranges _ _ _ _ _ C) as (Hb & Hbe & He & Hs & Hend & Hst).
  pose proof (cap_limit _ _ _ _ _ C) as Hlim. pose proof (compactAt_bounds _ Hlim) as Hcap.
  unfold replace_kept. rewrite out_bind. intros ([published rerr] & st1 & H & Hrest)%M_bind_inv.
  apply sys_inv in H as (w1 & H & ->).
  eapply (replaceProcessOutputFile_spec _ _ _ body) in H; [|apply C|unfold newEnd; lia|apply copy_kept_body].
  destruct published.
  - rewrite update_bind in Hrest. destruct rerr as [e|].
    + apply remember_pair_spec in Hrest as (e' & [= -> ->] & ->). split; [|done]. right. split; [done|].
      destruct (kept_published (set_sticky (Some e') o) _ _ H) as (x' & C'); [eauto|].
      split; [by exists (next w), x'|]. apply scheduled_sticky. simpl. by rewrite Htimer.
    + destruct (kept_published o _ _ H) as (x' & C'); [by auto|]. set (o1 := set_range _ _ _ o) in *.
      apply if_err_inv in Hrest as [(e & st2 & Hopen & Hr)|(st2 & Hopen & Hr)];
        apply (openLocked_spec _ _ _ _ _ C') in Hopen as (w2 & E & [(e' & ? & ->)|[? ->]]); simplify_eq.
      * apply remember_pair_spec in Hr as (e'' & [= -> ->] & ->). split; [|done]. right. split; [done|].
        eapply sound_remember; [by eapply captured_equiv| |done]. simpl. by rewrite Htimer.
      * m_inv. split; [|by intros []]. right. split; [done|].
        assert (captured (s ++ p) o1 w2 (next w) x') as C2 by (by eapply captured_equiv).
        split; [exists (next w), x'; eapply captured_update; [exact C2|done..| |]|].
        -- by intros f [= ->].
        -- intros Hno. split; [done|]. done.
        -- split; simpl; [by rewrite Htimer|]. intros. lia.
  - m_inv. pose proof (replaced_refused _ _ _ _ _ _ _ H eq_refl) as ([e ->] & _).
    apply remember_pair_spec in Hrest as (e' & [= -> ->] & ->). split; [|done]. left. split_and!; [done..|].
    eapply sound_remember; [by eapply captured_refused| |done]. by rewrite Htimer.
Qed.
End Compaction.

(** ** The operations *)

(** What a call that offers [p] may do: accept a prefix, all of it unless it reports
    an error, and remember the error it reports. *)
Definition accepts (s p : Bytes) (r : Z * option Error) (st : processOutput * FS) : Prop :=
  0 <= r.1 <= lenZ p /\ sound (s ++ take (Z.to_nat r.1) p) st /\ (r.2 = None -> r.1 = lenZ p).

Lemma accepts_none s p e st : sound s st -> accepts s p (0, Some e) st.
Proof. intros H. split; [pose proof (lenZ_nonneg p); simpl; lia|]. simpl. by rewrite app_nil_r. Qed.
Lemma accepts_all s p e st : sound (s ++ p) st -> accepts s p (lenZ p, e) st.
Proof.
  intros H. split; [pose proof (lenZ_nonneg p); simpl; lia|]. simpl.
  rewrite take_ge by (unfold lenZ; lia). done.
Qed.

Lemma captured_opened s o w i x : captured s o w i x -> captured s (set_file (Some i) o) w i x.
Proof. intros C. eapply captured_update; eauto; [by intros f [= ->]|done]. Qed.

Lemma set_file_some o i : file o = Some i -> set_file (Some i) o = o.
Proof. destruct o. simpl. by intros ->. Qed.

(** The arithmetic of [compactLocked] once nothing can overflow. *)
Lemma compactLocked_eq s o w i x p :
  captured s o w i x -> lenZ s + lenZ p <= int64_max ->
  compactAt (limit o) < endOffset o - baseOffset o + lenZ p ->
  compactLocked p (o, w) =
    (let fn := Z.min (limit o) (lenZ p) in
     let fail (e : Error) : Locked (Z * option Error) :=
       sticky ← rememberErrorLocked (Some e); mret (0, sticky) in
     stopSyncTimerLocked;;
     if_err openLocked fail (
     o' ← out;
     match file o' with
     | None => mret (0, None)
     | Some source =>
         if_err syncLocked (fun e => sys (Close source);; update (set_file None);; fail e) (
         update (set_file None);;
         replace_kept source (endOffset o - baseOffset o) (limit o)
           (lenZ s + lenZ p - limit o) (lenZ s + lenZ p) (limit o - fn) fn p)
     end)) (o, w).
Proof.
  intros C Hmax Hfull. pose proof (captured_ranges _ _ _ _ _ C) as (Hb & Hbe & He & Hs & Hend & Hst).
  pose proof (cap_limit _ _ _ _ _ C) as Hlim. pose proof (compactAt_bounds _ Hlim) as Hcap.
  pose proof (lenZ_nonneg p) as Hp. unfold compactLocked. rewrite out_bind.
  rewrite (wrap64_id (endOffset o - baseOffset o)) by int64.
  rewrite (wrap64_id (int64_max - _)), (wrap64_id (int64_max - endOffset o)), (wrap64_id (endOffset o - baseOffset o + _)),
    (wrap64_id (endOffset o + _)) by int64.
  rewrite (proj2 (Z.ltb_ge _ 0)), (proj2 (Z.ltb_ge (int64_max - _) _)), (proj2 (Z.ltb_ge (int64_max - _) _)) by lia.
  cbn [orb]. rewrite (proj2 (Z.ltb_ge (_ + _) (limit o))) by lia.
  assert ((if limit o <? lenZ p then limit o else lenZ p) = Z.min (limit o) (lenZ p)) as ->
    by (destruct (limit o <? lenZ p) eqn:?; bsimpl; lia).
  rewrite (wrap64_id (endOffset o + lenZ p - limit o)), (wrap64_id (limit o - _)) by int64.
  by rewrite Hend.
Qed.

Lemma compactLocked_spec s o w i x p r st :
  captured s o w i x -> lenZ s + lenZ p <= int64_max ->
  compactAt (limit o) < endOffset o - baseOffset o + lenZ p ->
  compactLocked p (o, w) = (r, st) -> accepts s p r st.
Proof.
  intros C Hmax Hfull. rewrite (compactLocked_eq s o w i x) by done. cbv zeta.
  unfold stopSyncTimerLocked. rewrite update_bind. set (o1 := set_timer _ _ o).
  assert (captured s o1 w i x) as C1 by (by apply captured_timer). intros H.
  apply if_err_inv in H as [(e & st1 & H & Hr)|(st1 & H & Hr)];
    apply (openLocked_spec _ _ _ _ _ C1) in H as (w1 & E & [(e' & ? & ->)|[? ->]]); simplify_eq;
    (eapply captured_equiv in C1; [|exact E]).
  { apply remember_pair_spec in Hr as (e & -> & ->). apply accepts_none. by eapply sound_remember. }
  apply captured_opened in C1. rewrite out_bind in Hr. cbn [file set_file] in Hr.
  apply if_err_inv in Hr as [(e & st1 & H & Hr)|(st1 & H & Hr)];
    apply (syncLocked_spec _ _ _ _ _ C1) in H as [(e' & w2 & ? & -> & E2)|(? & w2 & x2 & -> & C2)]; try done; simplify_eq.
  - apply M_bind_inv in Hr as (cerr & st1 & Hc & Hr). apply sys_inv in Hc as (w3 & Hc%Close_equiv & ->).
    rewrite update_bind in Hr. apply remember_pair_spec in Hr as (e & -> & ->). apply accepts_none.
    rewrite E2 in Hc. split; [|by apply scheduled_sticky].
    exists i, x. eapply captured_update; [by eapply captured_equiv|done..].
  - rewrite update_bind in Hr. destruct r as [n err].
    eapply (replace_kept_spec s p (set_file None (set_unsynced 0 (set_file (Some i) o1))) w2 i x2) in Hr as [Hr _];
      try done.
    + destruct Hr as [(-> & [e ->] & Hr)|(-> & Hr)]; [by apply accepts_none|by apply accepts_all].
    + eapply captured_update; [exact C2|done..|]. intros Hn. done.
Qed.

Lemma FWrite_count f p w n err w' : FWrite f p w = ((n, err), w') ->
  exists k, n = Z.of_nat k /\ n = lenZ (take k p) /\ n <= lenZ p /\ w' ≡ append_to f (take k p) w.
Proof.
  intros (k & -> & Hk & E)%FWrite_inv. exists k. unfold lenZ. rewrite length_take. split_and!; try done; lia.
Qed.

Lemma count_bind {B} n (m : Locked B) o w :
  0 <= n -> is_int64 (endOffset o + n) -> is_int64 (unsyncedBytes o + n) ->
  ((if 0 <? n then update (fun o => set_range (baseOffset o) (endOffset o [+] n) (unsyncedBytes o [+] n) o)
    else mret tt);; m) (o, w)
  = m (set_range (baseOffset o) (endOffset o + n) (unsyncedBytes o + n) o, w).
Proof.
  intros Hn He Hu. destruct (0 <? n) eqn:?; bsimpl.
  - rewrite update_bind, !wrap64_id by done. done.
  - assert (n = 0) as -> by lia. rewrite !Z.add_0_r. by destruct o.
Qed.

Lemma appendLocked_spec s o w i x p r st :
  captured s o w i x -> scheduled o -> closed o = false -> lenZ s + lenZ p <= int64_max ->
  endOffset o - baseOffset o + lenZ p <= compactAt (limit o) ->
  appendLocked p (o, w) = (r, st) -> accepts s p r st.
Proof.
  intros C Hsch Hcl Hmax Hroom. pose proof (captured_ranges _ _ _ _ _ C) as (Hb & Hbe & He & Hs & Hend & Hst).
  pose proof (compactAt_bounds _ (cap_limit _ _ _ _ _ C)). pose proof (cap_limit _ _ _ _ _ C).
  pose proof (cap_unsynced _ _ _ _ _ C) as Hu. unfold appendLocked. intros H'.
  apply if_err_inv in H' as [(e & st1 & H' & Hr)|(st1 & H' & Hr)];
    apply (openLocked_spec _ _ _ _ _ C) in H' as (w1 & E & [(e' & ? & ->)|[? ->]]); simplify_eq;
    (eapply captured_equiv in C; [|exact E]).
  { apply remember_pair_spec in Hr as (e & -> & ->). apply accepts_none.
    eapply sound_remember; [done|apply Hsch|done]. }
  apply captured_opened in C. set (o1 := set_file (Some i) o) in *. rewrite out_bind in Hr.
  change (file o1) with (Some i) in Hr. cbv iota in Hr.
  apply M_bind_inv in Hr as ([n we] & st1 & Hw & Hr). apply sys_inv in Hw as (w2 & Hw & ->).
  apply FWrite_count in Hw as (k & Hk & Hn & Hle & E2).
  eapply (captured_append _ _ _ _ _ (take k p)) in C; [|done|lia|simpl in *; lia].
  eapply captured_equiv in C; [|exact E2]. rewrite <- Hn in C.
  set (o2 := set_range (baseOffset o1) (endOffset o1 + n) (unsyncedBytes o1 + n) o1) in *.
  rewrite (count_bind n) in Hr by (unfold o1; simpl in *; int64). fold o2 in Hr.
  assert (forall e, (sticky ← rememberErrorLocked (Some e); mret (n, sticky)) (o2, w2) = (r, st) -> accepts s p r st) as Hfail.
  { intros e (e' & -> & ->)%remember_pair_spec. split; [simpl; lia|]. split; [|done]. simpl. rewrite Hk, Nat2Z.id.
    eapply sound_remember; [done|apply Hsch|done]. }
  destruct we as [e|]; [by eapply Hfail|].
  destruct (n <>? lenZ p) eqn:Hshort; [by eapply Hfail|]. bsimpl. clear Hfail.
  assert (take k p = p) as Hall by (apply take_ge; unfold lenZ in *; lia). rewrite Hall in *.
  apply if_err_inv in Hr as [(e & st1 & Hr' & Hr)|(st1 & Hr' & Hr)];
    (eapply scheduleOrSyncLocked_spec in Hr' as [? _]; [|exact C|done|done|apply Hsch]); m_inv;
    rewrite Hshort; by apply accepts_all.
Qed.

(** A refused [Write] leaves everything as it was. *)
Definition refuses (o : processOutput) : Prop := closed o = true \/ stickyErr o ≠ None.

Lemma Write_spec s o w p r st :
  sound s (o, w) -> Write p (o, w) = (r, st) ->
  0 <= r.1 <= lenZ p /\ sound (s ++ take (Z.to_nat r.1) p) st
  /\ (r.2 = None -> r.1 = lenZ p) /\ (refuses o -> r.1 = 0 /\ st = (o, w)).
Proof.
  intros [(i & x & C) Hsch] H. cbn [fst snd] in C, Hsch. pose proof (captured_ranges _ _ _ _ _ C) as (Hb & Hbe & He & Hs & Hend & Hst).
  pose proof (cap_limit _ _ _ _ _ C) as Hlim. pose proof (lenZ_nonneg p) as Hp.
  assert (forall e, r = (0, Some e) -> st = (o, w) ->
    0 <= r.1 <= lenZ p /\ sound (s ++ take (Z.to_nat r.1) p) st
    /\ (r.2 = None -> r.1 = lenZ p) /\ (refuses o -> r.1 = 0 /\ st = (o, w))) as Hrefuse.
  { intros e -> ->. destruct (accepts_none s p e (o, w)) as (? & ? & ?); [split; eauto|]. done. }
  unfold Write in H. rewrite out_bind in H.
  destruct (closed o) eqn:Hclosed; [m_inv; eauto|].
  destruct (stickyErr o) as [e|] eqn:Hsticky; [rewrite bool_decide_true in H by done; m_inv; eauto|].
  rewrite bool_decide_false in H by auto.
  assert (~ refuses o) as Hnot by (intros [?|?]; congruence).
  destruct (bool_decide (p = [])) eqn:Hempty; bsimpl.
  { m_inv. simpl. split_and!; try done. split; [exists i, x; by rewrite app_nil_r|done]. }
  rewrite (proj2 (Z.leb_gt (limit o) 0)) in H by lia.
  rewrite ret_bind, out_bind in H.
  rewrite (wrap64_id (int64_max - endOffset o)), (wrap64_id (endOffset o - baseOffset o)),
    (wrap64_id (int64_max - (endOffset o - baseOffset o))) in H by int64.
  rewrite (proj2 (Z.ltb_ge (baseOffset o) 0)), (proj2 (Z.ltb_ge (endOffset o) (baseOffset o))) in H by lia.
  cbn [orb] in H. destruct (int64_max - endOffset o <? lenZ p) eqn:Hover; bsimpl; [m_inv; eauto|].
  rewrite (wrap64_id (endOffset o - baseOffset o + lenZ p)) in H by int64.
  rewrite (proj2 (Z.ltb_ge (int64_max - (endOffset o - baseOffset o)) (lenZ p))) in H by lia. cbn [orb] in H.
  assert (accepts s p r st) as (? & ? & ?); [|done].
  destruct (compactAt (limit o) <? _) eqn:Hroom; bsimpl.
  - eapply compactLocked_spec; [exact C|lia..|exact H].
  - eapply appendLocked_spec; [exact C|exact Hsch|done|lia..|exact H].
Qed.

(** The end of [Close]: the file is gone, the error of closing is remembered. *)
Lemma close_finish s closeErr o w i x r st :
  captured s o w i x -> syncTimer o = None ->
  (closeErr = None -> stickyErr o = None -> unsyncedBytes o = 0) ->
  (update set_closed;; rememberErrorLocked closeErr;; o ← out; mret (stickyErr o)) (set_file None o, w)
    = (r, st) ->
  sound s st /\ closed st.1 = true /\ r = stickyErr st.1
  /\ (stickyErr st.1 = None -> file st.1 = None /\ unsyncedBytes st.1 = 0).
Proof.
  intros C Ht Hz. rewrite update_bind. intros (rr & s3 & Hrem & H)%M_bind_inv.
  destruct closeErr as [e|].
  - apply remember_spec in Hrem as (e' & -> & ->). rewrite out_bind in H. m_inv. split_and!; try done.
    split; [|apply scheduled_sticky; simpl; by rewrite Ht].
    exists i, x. by eapply captured_update; [exact C|done..].
  - unfold rememberErrorLocked, mret, M_ret in Hrem. simplify_eq. rewrite out_bind in H. m_inv. split_and!; try done; [|by auto].
    split; [exists i, x; eapply captured_update; [exact C|done..|by auto]|].
    split; simpl; [by rewrite Ht|]. intros Hs Hu. rewrite Hz in Hu by done. lia.
Qed.

Lemma CloseOutput_spec s o w r st :
  sound s (o, w) -> CloseOutput (o, w) = (r, st) ->
  sound s st /\ closed st.1 = true /\ r = stickyErr st.1
  /\ (closed o = false -> stickyErr st.1 = None -> file st.1 = None /\ unsyncedBytes st.1 = 0).
Proof.
  intros [(i & x & C) Hsch]. cbn [fst snd] in C, Hsch. unfold CloseOutput. rewrite out_bind.
  destruct (closed o) eqn:Hclosed; [intros H; m_inv; split_and!; try done; split; eauto|].
  unfold stopSyncTimerLocked. rewrite update_bind. set (o1 := set_timer _ _ o).
  assert (captured s o1 w i x) as C1 by (by apply captured_timer).
  intros (closeErr & s2 & Hc & H)%M_bind_inv. destruct (file o) as [f|] eqn:Hf.
  2: { unfold mret at 1, M_ret at 1 in Hc. simplify_eq. assert (o1 = set_file None o1) as Ho by (unfold o1; destruct o; simpl in *; by subst).
       rewrite Ho in H. eapply close_finish in H as (? & ? & ? & ?); eauto. intros _ Hs. by apply C. }
  assert (f = i) as -> by (by apply C).
  apply M_bind_inv in Hc as (syncErr & s3 & Hsync & Hc).
  apply M_bind_inv in Hc as (fileErr & s4 & Hcl & Hc).
  apply (syncLocked_spec _ _ _ _ _ C1) in Hsync as [(e' & w2 & -> & -> & E2)|(-> & w2 & x2 & -> & C2)]; [| |done].
  all: apply sys_inv in Hcl as (w3 & E3%Close_equiv & ->); rewrite update_bind in Hc; unfold mret, M_ret in Hc; simplify_eq.
  - rewrite E2 in E3. eapply captured_equiv in C1; [|exact E3].
    eapply close_finish in H as (? & ? & ? & ?); eauto. by destruct fileErr.
  - eapply captured_equiv in C2; [|exact E3]. eapply close_finish in H as (? & ? & ? & ?); eauto.
Qed.

(** ** Reading *)

Lemma read_captured s o w i x cursor maxBytes w1 r w' :
  captured s o w i x -> w1 ≡ w ->
  readProcessOutputRange (Some i) (baseOffset o) (endOffset o) cursor maxBytes w1 = (r, w') ->
  w' ≡ w /\ ((exists e, r = inl e)
             \/ r = inr (observe (baseOffset o) (drop (Z.to_nat (baseOffset o)) s) cursor maxBytes)).
Proof.
  intros C E H. pose proof (captured_ranges _ _ _ _ _ C) as (? & ? & ? & ? & Hend & ?).
  destruct (cap_holds _ _ _ _ _ C) as [_ Hr Hd]. rewrite Hend, slice_to_end in Hd by lia.
  assert (lenZ (drop (Z.to_nat (baseOffset o)) s) = endOffset o - baseOffset o) as Hl
    by (unfold lenZ in *; rewrite length_drop; lia).
  replace (endOffset o) with (baseOffset o + lenZ (drop (Z.to_nat (baseOffset o)) s)) in H by lia.
  eapply readProcessOutputRange_spec in H; [exact H|exact Hd|lia|apply C|done].
Qed.

(** [Slice] either fails, and remembers why, or gives what a reader is promised. *)
Definition promised (s : Bytes) (o : processOutput) (cursor maxBytes : Z) : Sliced :=
  let '(output, start, next, truncated) :=
    observe (baseOffset o) (drop (Z.to_nat (baseOffset o)) s) cursor maxBytes in
  (output, start, next, truncated || bool_decide (stickyErr o ≠ None), stickyErr o).

Lemma slice_open_file_spec s o w i x w1 cursor maxBytes r st :
  captured s o w i x -> w1 ≡ w -> slice_open_file i cursor maxBytes (o, w1) = (r, st) ->
  exists w2, w2 ≡ w /\
  ((exists e, r = ("", 0, 0, true, Some e) /\ st = (set_sticky (Some e) o, w2))
   \/ (r = promised s o cursor maxBytes /\ st = (o, w2))).
Proof.
  intros C E H. unfold slice_open_file in H. rewrite out_bind in H.
  apply or_err_inv in H as [(e & st1 & H & Hr)|([[[output start] next'] truncated] & st1 & H & Hr)];
    apply sys_inv in H as (w2 & H & ->); eapply read_captured in H as [E2 Hread]; eauto;
    exists w2; (split; [done|]).
  - apply remember_pair_spec in Hr as (e' & -> & ->). eauto.
  - m_inv. right. destruct Hread as [[]|Hread]; [done|]. injection Hread as Hread.
    unfold promised. by rewrite <- Hread.
Qed.

Lemma Slice_spec s o w cursor maxBytes r st :
  sound s (o, w) -> Slice cursor maxBytes (o, w) = (r, st) -> sound s st /\
  ((exists e, r = ("", 0, 0, true, Some e) /\ stickyErr st.1 = Some e)
   \/ (r = promised s o cursor maxBytes /\ st.1 = o)).
Proof.
  intros [(i & x & C) Hsch]. cbn [fst snd] in C, Hsch. unfold Slice. rewrite out_bind.
  rewrite bool_decide_false by apply C. intros H.
  enough (exists w2, w2 ≡ w /\ ((exists e, r = ("", 0, 0, true, Some e) /\ st = (set_sticky (Some e) o, w2))
           \/ (r = promised s o cursor maxBytes /\ st = (o, w2)))) as (w2 & E & [(e & -> & ->)|[-> ->]]).
  { split; [|by eauto]. eapply sound_remember; [by eapply captured_equiv|apply Hsch|done]. }
  { split; [|by auto]. split; [|done]. exists i, x. by eapply captured_equiv. }
  destruct (file o) as [f|] eqn:Hf.
  { rewrite (cap_file _ _ _ _ _ C f Hf) in H. by eapply slice_open_file_spec. }
  apply or_err_inv in H as [(e & st1 & H & Hr)|([[f b] e] & st1 & H & Hr)];
    apply sys_inv in H as (w1 & H & ->); eapply open_captured in H as [E Hopen]; eauto.
  { apply remember_pair_spec in Hr as (e' & -> & ->). eauto 10. }
  destruct Hopen as [[]|Hopen]; [done|]. injection Hopen as -> -> ->.
  rewrite !bool_decide_true in Hr by done. cbn [negb orb] in Hr.
  apply M_bind_inv in Hr as (r' & st1 & H & Hr). eapply slice_open_file_spec in H as (w2 & E2 & Hres); eauto.
  apply M_bind_inv in Hr as (? & st2 & Hc & Hr). destruct st1 as [o1 w3].
  apply sys_inv in Hc as (w4 & E4%Close_equiv & ->). unfold mret, M_ret in Hr.
  exists w4. destruct Hres as [(e & -> & [= -> ->])|[-> [= -> ->]]]; rewrite E2 in E4;
    simplify_eq; eauto.
Qed.

(** Without faults [Slice] always delivers. *)
Lemma Slice_complete s o w cursor maxBytes :
  sound s (o, w) -> faults w = [] -> Slice cursor maxBytes (o, w) = (promised s o cursor maxBytes, (o, w)).
Proof.
  intros [(i & x & C) _] Hf. cbn [fst snd] in C.
  pose proof (captured_ranges _ _ _ _ _ C) as (? & ? & ? & ? & Hend & ?).
  destruct (cap_holds _ _ _ _ _ C) as [Hp Hr Hd]. rewrite Hend, slice_to_end in Hd by lia.
  set (body := drop (Z.to_nat (baseOffset o)) s) in *.
  assert (baseOffset o + lenZ body = endOffset o) as Hl
    by (unfold body, lenZ in *; rewrite length_drop; lia).
  assert (slice_open_file i cursor maxBytes (o, w) = (promised s o cursor maxBytes, (o, w))) as Hslice.
  { unfold slice_open_file. rewrite out_bind. erewrite or_err_ok.
    2: { unfold sys. cbn [fst snd]. rewrite <- Hl. erewrite readProcessOutputRange_complete; [done|..]; eauto; [lia|apply C]. }
    unfold promised. fold body. by destruct (observe _ _ _ _) as [[[]]]. }
  unfold Slice. rewrite out_bind, bool_decide_false by apply C.
  destruct (file o) as [f|] eqn:Hfile; [by rewrite (cap_file _ _ _ _ _ C f Hfile)|].
  erewrite or_err_ok.
  2: { unfold sys. cbn [fst snd]. erewrite (openProcessOutputFile_complete _ _ _ _ _ Hd); eauto; [lia|apply C..]. }
  rewrite Hl, !bool_decide_true by done. cbn [negb orb].
  rewrite (M_bind_ok _ _ _ _ _ Hslice). unfold sys, Close, mbind, M_bind. rewrite syscall__ok by done. done.
Qed.
