(* ===== verification/OutputProperties.v ===== *)
(** * Captured output: properties

    Histories of a capture: any sequence of writes, reads, timer callbacks and the
    close, each under its own schedule of failing system calls, from the file
    [prepareLocalRunner] creates; and what a crash leaves of it. *)
From S2P Require Import Prelude GoStrings DaemonProtocol Sha256 LocalStore OutputFile OutputProofs OutputCapture.
From Stdlib Require Import Ascii List.
From stdpp Require Import list options.
Local Open Scope Z_scope.

(** ** Histories *)

(** The part of [prepareLocalRunner] that prepares the capture. *)
Definition prepareOutput (path : string) : Sys (Error + processOutput) :=
  if_err EnsurePrivateDir (fun e => mret (inl e)) (
  let output := mkOutput 0 0 defaultProcessOutputBufferBytes path None 0 0 None 0 None false in
  if_err (writeProcessOutputFile path [] 0) (fun e => mret (inl e)) (
  mret (inr output))).

Inductive Event : Type :=
  | EvWrite (p : Bytes)
  | EvSlice (cursor maxBytes : Z)
  | EvTimer (generation : Z)
  | EvClose.

(** One event, with the faults its system calls will meet: the bytes it accepted and
    the new state. *)
Definition happen (ev : Event) (l : list (option Fault)) (st : processOutput * FS)
    : Bytes * (processOutput * FS) :=
  let st := (st.1, with_faults l st.2) in
  match ev with
  | EvWrite p => let '((n, _), st') := Write p st in (take (Z.to_nat n) p, st')
  | EvSlice cursor maxBytes => ([], (Slice cursor maxBytes st).2)
  | EvTimer generation => ([], (syncTimerFired generation st).2)
  | EvClose => ([], (CloseOutput st).2)
  end.

Fixpoint history (evs : list (Event * list (option Fault))) (st : processOutput * FS)
    : Bytes * (processOutput * FS) :=
  match evs with
  | [] => ([], st)
  | (ev, l) :: evs' =>
      let '(accepted, st1) := happen ev l st in
      let '(rest, st2) := history evs' st1 in
      (accepted ++ rest, st2)
  end.

Lemma sound_faults s o w l : sound s (o, w) -> sound s (o, with_faults l w).
Proof. intros [(i & x & C) H]. split; [|done]. exists i, x. by eapply captured_equiv. Qed.

Lemma happen_sound s st ev l a st' :
  sound s st -> happen ev l st = (a, st') -> sound (s ++ a) st'.
Proof.
  destruct st as [o w]. intros H%(sound_faults s o w l) Hh. unfold happen in Hh. cbn [fst snd] in Hh.
  destruct ev as [p|c m|g|].
  - destruct (Write p _) as [[n e] st1] eqn:Hw. eapply Write_spec in Hw as (_ & Hs & _); [|exact H]. by simplify_eq.
  - destruct (Slice c m _) as [r st1] eqn:Hw. eapply Slice_spec in Hw as [Hs _]; [|exact H]. simplify_eq/=.
    by rewrite app_nil_r.
  - destruct (syncTimerFired g _) as [r st1] eqn:Hw. eapply syncTimerFired_spec in Hw; [|exact H]. simplify_eq/=.
    by rewrite app_nil_r.
  - destruct (CloseOutput _) as [r st1] eqn:Hw. eapply CloseOutput_spec in Hw as [Hs _]; [|exact H]. simplify_eq/=.
    by rewrite app_nil_r.
Qed.

Lemma history_sound s evs st rest st' :
  sound s st -> history evs st = (rest, st') -> sound (s ++ rest) st'.
Proof.
  revert s st rest. induction evs as [|[ev l] evs IH]; intros s st rest H Hh; simpl in Hh.
  { simplify_eq. by rewrite app_nil_r. }
  destruct (happen ev l st) as [a st1] eqn:H1. destruct (history evs st1) as [rest1 st2] eqn:H2.
  simplify_eq. rewrite (assoc_L (++)). eapply IH; [|exact H2]. by eapply happen_sound.
Qed.

Lemma prepareOutput_sound path w o w' :
  store_wf w -> path ≠ "" -> prepareOutput path w = (inr o, w') -> sound [] (o, w').
Proof.
  intros Hwf Hp H.
  apply if_err_inv in H as [(e & w1 & H1 & H)|(w1 & H1 & H)]; [by m_inv|].
  assert (w1 ≡ w) as E.
  { apply if_err_inv in H1 as [(e & w2 & ? & ?)|(w2 & E2%MkdirAll_equiv & H1)]; [by m_inv|].
    apply if_err_inv in H1 as [(e & w3 & ? & ?)|(w3 & E3%validateDir_equiv & H1)]; [by m_inv|].
    apply if_err_inv in H1 as [(e & w4 & ? & ?)|(w4 & E4%ChmodDir_equiv & H1)]; m_inv.
    by rewrite E4, E3. }
  rewrite <- E in Hwf. clear E H1.
  apply if_err_inv in H as [(e & w2 & H1 & H)|(w2 & H1 & H)]; [by m_inv|]. m_inv.
  apply M_bind_inv in H1 as ([published err] & w3 & H1 & H). m_inv.
  eapply (replaceProcessOutputFile_spec _ _ _ []) in H1; [|done..|].
  2: { intros x w4 err w5 Hi Hw. by eapply writeFull_spec. }
  destruct published; [|by destruct (replaced_refused _ _ _ _ _ _ _ H1 eq_refl) as ([] & _)].
  destruct (replaced_published _ _ _ _ _ _ _ H1 eq_refl) as (Hd & Hi & Hdur).
  rewrite app_nil_r in Hi. pose proof (replaced_euid _ _ _ _ _ _ _ H1) as Hu.
  assert (holds (euid w') [] (mkInode Regular 384 (euid w1) (header 0) (length (header 0))) 0 0) as Hh
    by (split; [by rewrite Hu|done|by rewrite app_nil_r]).
  split; [|by split].
  exists (next w1). eexists. split; cbn [fst snd]; simpl; try done; rewrite ?Hdur; try done.
  - apply H1.
  - by left.
  - eexists _, _, 0, 0. rewrite Hd, Hi. split_and!; [done..| |by left]. done.
Qed.

(** ** The path, the limit and the sync threshold never change *)

Definition fixed (q : string) (o : processOutput) : Prop :=
  path o = q /\ limit o = defaultProcessOutputBufferBytes /\ syncBytes o = 0.
Definition keeps {A} (q : string) (m : Locked A) : Prop :=
  forall o w a st, fixed q o -> m (o, w) = (a, st) -> fixed q st.1.

Lemma keeps_ret {A} q (a : A) : keeps q (mret a).
Proof. intros o w a' st H Hm. by m_inv. Qed.
Lemma keeps_bind {A B} q (m : Locked A) (k : A -> Locked B) :
  keeps q m -> (forall a, keeps q (k a)) -> keeps q (m ≫= k).
Proof.
  intros Hm Hk o w b st H (a & [o1 w1] & H1 & H2)%M_bind_inv. eapply Hk, H2. by eapply Hm in H1.
Qed.
Lemma keeps_out {B} q (k : processOutput -> Locked B) : (forall o, fixed q o -> keeps q (k o)) -> keeps q (out ≫= k).
Proof. intros Hk o w b st H. rewrite out_bind. by apply Hk. Qed.
Lemma keeps_sys {A} q (m : Sys A) : keeps q (sys m).
Proof. intros o w a st H (w' & _ & ->)%sys_inv. done. Qed.
Lemma keeps_if_err {A} q (m : Locked (option Error)) (onErr : Error -> Locked A) rest :
  keeps q m -> (forall e, keeps q (onErr e)) -> keeps q rest -> keeps q (if_err m onErr rest).
Proof. intros. apply keeps_bind; [done|]. by intros []. Qed.
Lemma keeps_or_err {A B} q (m : Locked (Error + B)) (onErr : Error -> Locked A) rest :
  keeps q m -> (forall e, keeps q (onErr e)) -> (forall b, keeps q (rest b)) -> keeps q (or_err m onErr rest).
Proof. intros. apply keeps_bind; [done|]. by intros []. Qed.

Lemma keeps_update q f : (forall o, fixed q o -> fixed q (f o)) -> keeps q (update f).
Proof. intros Hf o w a st H Hm. unfold update, modify in Hm. simplify_eq/=. auto. Qed.

Create HintDb keeps.
#[export] Hint Resolve keeps_ret keeps_sys : keeps.
#[export] Hint Extern 0 (fixed _ (_ _)) => (unfold fixed in *; simpl; done) : keeps.

(** Follows the shape of a definition. *)
Ltac keeps_step :=
  match goal with
  | |- keeps _ (out ≫= _) => apply keeps_out; intros ? ?
  | |- keeps _ (if_err _ _ _) => apply keeps_if_err; intros
  | |- keeps _ (or_err _ _ _) => apply keeps_or_err; intros
  | |- keeps _ (update _) => apply keeps_update; intros ? [? ?]; by split
  | |- keeps _ (_ ≫= _) => apply keeps_bind; intros
  | |- keeps _ (match ?x with _ => _ end) => destruct x eqn:?
  | |- _ => solve [auto with keeps]
  end.
Ltac keeps := repeat keeps_step.

Lemma keeps_remember q err : keeps q (rememberErrorLocked err).
Proof. unfold rememberErrorLocked. keeps. Qed.
#[export] Hint Resolve keeps_remember : keeps.
Lemma keeps_stop q : keeps q stopSyncTimerLocked.
Proof. unfold stopSyncTimerLocked. keeps. Qed.
Lemma keeps_sync q : keeps q syncLocked.
Proof. unfold syncLocked. keeps. Qed.
Lemma keeps_open q : keeps q openLocked.
Proof. unfold openLocked. keeps. Qed.
#[export] Hint Resolve keeps_stop keeps_sync keeps_open : keeps.
Lemma keeps_schedule q : keeps q scheduleOrSyncLocked.
Proof. unfold scheduleOrSyncLocked. keeps. Qed.
Lemma keeps_replace q src a b c d e f p : keeps q (replace_kept src a b c d e f p).
Proof. unfold replace_kept. keeps. Qed.
#[export] Hint Resolve keeps_schedule keeps_replace : keeps.
Lemma keeps_compact q p : keeps q (compactLocked p).
Proof. unfold compactLocked. keeps. Qed.
Lemma keeps_append q p : keeps q (appendLocked p).
Proof. unfold appendLocked. keeps. Qed.
#[export] Hint Resolve keeps_compact keeps_append : keeps.
Lemma keeps_Write q p : keeps q (Write p).
Proof.
  unfold Write. apply keeps_out. intros o (Hq & Hl & _). rewrite Hl. cbn [Z.leb]. keeps.
Qed.
Lemma keeps_Close q : keeps q CloseOutput.
Proof. unfold CloseOutput. keeps. Qed.
Lemma keeps_Slice q c m : keeps q (Slice c m).
Proof. unfold Slice, slice_open_file, slice_failed. keeps. Qed.
Lemma keeps_fired q g : keeps q (syncTimerFired g).
Proof. unfold syncTimerFired. keeps. Qed.

Lemma history_fixed q evs st s st' : fixed q st.1 -> history evs st = (s, st') -> fixed q st'.1.
Proof.
  revert st s. induction evs as [|[ev l] evs IH]; intros st s H Hh; simpl in Hh; [by simplify_eq|].
  destruct (happen ev l st) as [a st1] eqn:H1. destruct (history evs st1) as [rest st2] eqn:H2.
  simplify_eq. eapply IH, H2. destruct ev; simpl in H1.
  - destruct (Write _ _) as [[n e] st2] eqn:E. simplify_eq. by eapply keeps_Write in E.
  - destruct (Slice _ _ _) as [r st2] eqn:E. simplify_eq. by eapply keeps_Slice in E.
  - destruct (syncTimerFired _ _) as [r st2] eqn:E. simplify_eq. by eapply keeps_fired in E.
  - destruct (CloseOutput _) as [r st2] eqn:E. simplify_eq. by eapply keeps_Close in E.
Qed.

(** ** After a crash *)

(** The machine stops: of every name either the synced directory or the current one
    survives, of every file the synced bytes and perhaps some that follow. *)
Record crash (w w' : FS) : Prop :=
  { crash_names e : dir w' !! e = dir w !! e \/ dir w' !! e = durable w !! e
  ; crash_bytes i x : inodes w !! i = Some x -> exists k, (synced x <= k)%nat
      /\ inodes w' !! i = Some (mkInode (kind x) (perm x) (uid x) (take k (data x)) (length (take k (data x))))
  ; crash_owner : euid w' = euid w
  ; crash_restart : faults w' = [] }.

Lemma holds_cut owner s x b e k :
  holds owner s x b e -> (32 <= k)%nat ->
  let e' := Z.min e (b + (Z.of_nat k - 32)) in
  holds owner s (mkInode (kind x) (perm x) (uid x) (take k (data x)) (length (take k (data x)))) b e'.
Proof.
  intros [Hp Hr Hd] Hk e'. split; [done|unfold e'; lia|]. cbn [data]. rewrite Hd, take_app_ge, length_header
    by (rewrite length_header; lia). f_equal. unfold slice. rewrite take_take. f_equal. unfold e'. lia.
Qed.

Lemma crash_open s o w i x w2 :
  captured s o w i x -> crash w w2 ->
  exists f b e y, openProcessOutputFile (path o) w2 = (inr (f, b, e), w2)
    /\ inodes w2 !! f = Some y /\ holds (euid w2) s y b e
    /\ (stickyErr o = None -> lenZ s - e <= unsyncedBytes o).
Proof.
  intros C [Hnames Hbytes Howner Hrestart].
  pose proof (captured_ranges _ _ _ _ _ C) as (? & ? & ? & ? & Hend & ?).
  assert (exists f b e y, dir w2 !! Path (path o) = Some f /\ inodes w2 !! f = Some y
    /\ holds (euid w2) s y b e /\ (stickyErr o = None -> lenZ s - e <= unsyncedBytes o)
    /\ e - b + 32 <= int64_max) as (f & b & e & y & Hd & Hy & Hh & Hlost & Hsize).
  { rewrite Howner. pose proof (cap_holds _ _ _ _ _ C) as Hh. pose proof (cap_unsynced _ _ _ _ _ C).
    pose proof (cap_synced _ _ _ _ _ C).
    destruct (Hbytes _ _ (cap_inode _ _ _ _ _ C)) as (k & Hk & Hcut).
    assert (32 <= k)%nat as Hk32 by lia. pose proof (holds_cut _ _ _ _ _ k Hh Hk32) as Hcuth.
    pose proof (holds_length _ _ _ _ _ Hh) as Hlen.
    destruct (cap_durable _ _ _ _ _ C) as (j & z & b & e & Hj & Hz & Hzh & Hsync).
    destruct (decide (dir w2 !! Path (path o) = Some i)) as [Hi|Hi].
    { exists i, (baseOffset o). eexists _, _. split_and!; [done..| |lia]. intros _. lia. }
    destruct (Hnames (Path (path o))) as [Hn|Hn]; rewrite Hn in *; [by destruct Hi; apply C|].
    destruct Hsync as [->|Hsync]; [done|].
    destruct (Hbytes _ _ Hz) as (k' & Hk' & Hcut').
    assert (take k' (data z) = data z) as Hall by (apply take_ge; lia). rewrite Hall in Hcut'.
    exists j, b, e. eexists. split_and!; [done|exact Hcut'|by destruct Hzh| |].
    - intros Hs. destruct Hi. rewrite Hj. by destruct (cap_healthy _ _ _ _ _ C Hs) as [<- _].
    - destruct Hzh. int64. }
  exists f, b, e, y. split_and!; try done. destruct Hh as [Hp Hr Hdata].
  assert (lenZ (slice b (e - b) s) = e - b) as He by (apply slice_length; lia).
  assert (openProcessOutputFile (path o) w2 = (inr (f, b, b + lenZ (slice b (e - b) s)), w2)) as ->.
  { apply (openProcessOutputFile_complete _ _ _ _ _ Hdata); try done; [|apply C].
    pose proof (cap_max _ _ _ _ _ C). split_and!; lia. }
  rewrite He. do 3 f_equal. lia.
Qed.

(** ** Properties *)

(** The states of captures: a file prepared in a well-formed file system, then any
    history, with the bytes it accepted. *)
Inductive reached (q : string) (s : Bytes) (o : processOutput) (w : FS) : Prop :=
  | reached_intro w0 o0 w1 evs :
      store_wf w0 -> q ≠ "" -> prepareOutput q w0 = (inr o0, w1) ->
      history evs (o0, w1) = (s, (o, w)) -> reached q s o w.

Lemma reached_sound q s o w : reached q s o w -> sound s (o, w) /\ fixed q o.
Proof.
  intros [w0 o0 w1 evs Hwf Hq Hp Hh]. pose proof (prepareOutput_sound _ _ _ _ Hwf Hq Hp) as H0.
  split; [by apply (history_sound [] evs (o0, w1))|].
  apply (history_fixed q) in Hh; [done|]. cbn [fst].
  apply if_err_inv in Hp as [(e & w2 & _ & Hp)|(w2 & _ & Hp)]; [by m_inv|].
  apply if_err_inv in Hp as [(e & w3 & _ & Hp)|(w3 & _ & Hp)]; m_inv. done.
Qed.

(** The file never holds more than the limit and a quarter of it (one byte at
    least), and once bytes have been dropped it still holds the newest [limit]
    ones. *)
Lemma capture_is_bounded q s o w :
  reached q s o w ->
  endOffset o - baseOffset o <= defaultProcessOutputBufferBytes + defaultProcessOutputBufferBytes ÷ 4
  /\ Z.min (lenZ s) defaultProcessOutputBufferBytes <= endOffset o - baseOffset o.
Proof.
  intros [[(i & x & C) _] (_ & Hl & _)]%reached_sound. cbn [fst snd] in *.
  pose proof (cap_retained _ _ _ _ _ C) as Hr. rewrite Hl, compactAt_value in Hr by done.
  pose proof (cap_recent _ _ _ _ _ C) as Hn. rewrite Hl in Hn. pose proof (cap_end _ _ _ _ _ C).
  split; [|lia]. change (Z.max 1 _) with (defaultProcessOutputBufferBytes ÷ 4) in Hr. done.
Qed.

(** C33: After any history of writes, reads, timer callbacks and closes, whatever
    system calls failed on the way, the output file holds exactly the tail of the
    stream of accepted bytes from the base offset on (no gap, no duplicate, no byte
    of a failed write), the end offset is the length of that stream, and a slice
    read without faults returns the promised bytes at every cursor; under faults it
    returns those or reports the error it remembers.  The file never holds more than
    the limit and a quarter of it, and the newest [limit] bytes are always in it. *)
Theorem capture_refines_stream q s o w :
  reached q s o w ->
  endOffset o = lenZ s /\ 0 <= baseOffset o <= endOffset o
  /\ Z.min (lenZ s) defaultProcessOutputBufferBytes <= endOffset o - baseOffset o
     <= defaultProcessOutputBufferBytes + defaultProcessOutputBufferBytes ÷ 4
  /\ (exists i x, dir w !! Path q = Some i /\ inodes w !! i = Some x
        /\ data x = header (baseOffset o) ++ drop (Z.to_nat (baseOffset o)) s)
  /\ (forall cursor maxBytes,
        (Slice cursor maxBytes (o, with_faults [] w)).1 = promised s o cursor maxBytes)
  /\ (forall cursor maxBytes l r st,
        Slice cursor maxBytes (o, with_faults l w) = (r, st) ->
        r = promised s o cursor maxBytes
        \/ exists e, r = ("", 0, 0, true, Some e) /\ stickyErr st.1 = Some e).
Proof.
  intros Hreached. destruct (capture_is_bounded _ _ _ _ Hreached) as [Hmax Hmin].
  apply reached_sound in Hreached as [H (Hq & _)]. pose proof H as [(i & x & C) _]. cbn [fst snd] in C.
  pose proof (captured_ranges _ _ _ _ _ C) as (? & ? & ? & ? & Hend & ?).
  destruct (cap_holds _ _ _ _ _ C) as [_ Hr Hd]. rewrite Hend, slice_to_end in Hd by lia.
  split_and!; try done.
  - exists i, x. rewrite <- Hq. split_and!; [apply C|apply C|done].
  - intros c m. rewrite (Slice_complete s); [done|by apply sound_faults|done].
  - intros c m l r st Hs. destruct (Slice_spec _ _ _ _ _ _ _ (sound_faults _ _ _ l H) Hs) as [_ [?|[? _]]]; auto.
Qed.

(** A capture of a few bytes in which one write fails halfway, then a read. *)
Definition empty_disk : FS := mkFS ∅ ∅ ∅ None 0 501 [].
Definition example_events : list (Event * list (option Fault)) :=
  [ (EvWrite (String.list_ascii_of_string "hello "), []);
    (EvSlice 0 0, []);
    (EvWrite (String.list_ascii_of_string "world"), [Some (Fail 28 3)]) ].
Definition example_start : processOutput * FS :=
  match prepareOutput "out" empty_disk with
  | (inr o, w) => (o, w)
  | (inl _, w) => (mkOutput 0 0 0 "" None 0 0 None 0 None false, w)
  end.
Definition example_end : Bytes * (processOutput * FS) := history example_events example_start.

Lemma empty_disk_wf : store_wf empty_disk.
Proof. by split. Qed.
Lemma example_reached : reached "out" example_end.1 example_end.2.1 example_end.2.2.
Proof.
  apply (reached_intro _ _ _ _ empty_disk example_start.1 example_start.2 example_events);
    [apply empty_disk_wf|done|by vm_compute|by vm_compute].
Qed.

Lemma capture_refines_stream_witness :
  reached "out" example_end.1 example_end.2.1 example_end.2.2
  /\ endOffset example_end.2.1 = lenZ example_end.1
  /\ String.string_of_list_ascii example_end.1 = "hello wor".
Proof.
  split; [exact example_reached|]. split; [|vm_compute; reflexivity].
  exact (proj1 (capture_refines_stream _ _ _ _ example_reached)).
Defined.

(** C34: A crash at any moment leaves a file that opens again and holds a contiguous
    part of the accepted stream; while no error was reported, all accepted bytes but
    those still unsynced, less than the sync threshold, are in it. *)
Theorem crash_keeps_synced_output q s o w w' :
  reached q s o w -> crash w w' ->
  exists f b e x, openProcessOutputFile q w' = (inr (f, b, e), w') /\ inodes w' !! f = Some x
    /\ 0 <= b <= e /\ e <= lenZ s /\ data x = header b ++ slice b (e - b) s
    /\ (stickyErr o = None -> lenZ s - e <= unsyncedBytes o < processOutputSyncBytes).
Proof.
  intros [[(i & x & C) Hsch] (Hq & _ & Hsb)]%reached_sound Hc. cbn [fst snd] in *.
  destruct (crash_open _ _ _ _ _ _ C Hc) as (f & b & e & y & Ho & Hy & Hh & Hlost). rewrite Hq in Ho.
  exists f, b, e, y. destruct Hh as [Hp Hr Hd]. split_and!; try done; try lia. intros Hs. split; [auto|].
  destruct (decide (0 < unsyncedBytes o)) as [Hpos|]; [|unfold processOutputSyncBytes; lia].
  destruct (timer_armed _ Hsch Hs Hpos) as (_ & _ & Hlt). unfold threshold in Hlt. rewrite Hsb in Hlt. done.
Qed.

Definition crashed (w : FS) : FS :=
  mkFS ((fun x => mkInode (kind x) (perm x) (uid x) (take (synced x) (data x)) (length (take (synced x) (data x))))
          <$> inodes w) (durable w) (durable w) (parent w) (next w) (euid w) [].
Lemma crashed_crash w : crash w (crashed w).
Proof.
  split; try done; [by right|]. intros i x Hx. exists (synced x). split; [done|].
  simpl. by rewrite lookup_fmap, Hx.
Qed.

Lemma crash_keeps_synced_output_witness :
  reached "out" example_end.1 example_end.2.1 example_end.2.2
  /\ exists f b e x, openProcessOutputFile "out" (crashed example_end.2.2) = (inr (f, b, e), crashed example_end.2.2)
       /\ inodes (crashed example_end.2.2) !! f = Some x
       /\ 0 <= b <= e /\ e <= lenZ example_end.1 /\ data x = header b ++ slice b (e - b) example_end.1
       /\ (stickyErr example_end.2.1 = None ->
           lenZ example_end.1 - e <= unsyncedBytes example_end.2.1 < processOutputSyncBytes).
Proof.
  split; [exact example_reached|].
  exact (crash_keeps_synced_output _ _ _ _ _ example_reached (crashed_crash _)).
Defined.

(** A header decodes to an offset exactly when it is the header that is written
    for that offset and the data that follows keeps the cursor within 64 bits. *)
Theorem header_round_trip h len base :
  decodeProcessOutputHeader h len = inr base <->
  encodeProcessOutputHeader base = inr h /\ 0 <= len /\ base + len <= int64_max.
Proof.
  split.
  - intros (-> & Hb & Hl & Hm)%decode_header_inv. by rewrite encode_header.
  - intros (He & Hl & Hm). assert (0 <= base) as Hb.
    { unfold encodeProcessOutputHeader in He. destruct (base <? 0) eqn:?; bsimpl; [done|lia]. }
    rewrite encode_header in He by done. injection He as <-. by apply decode_header.
Qed.

Lemma timer_syncs o w i g :
  file o = Some i -> syncTimer o = Some g -> g = syncGeneration o -> closed o = false ->
  stickyErr o = None -> unsyncedBytes o ≠ 0 -> faults w = [] ->
  syncTimerFired g (o, w) = (tt, (set_unsynced 0 (set_timer None g o), sync_inode i w)).
Proof.
  intros Hf Ht -> Hc Hs Hu Hw. unfold syncTimerFired. rewrite out_bind, Ht.
  rewrite bool_decide_true, bool_decide_false by done. cbn [negb orb]. rewrite update_bind.
  rewrite Hc, Hs, (proj2 (Z.eqb_neq _ 0)) by done. cbn [orb]. rewrite bool_decide_false by auto. cbn [orb].
  erewrite if_err_ok; [done|]. unfold syncLocked. rewrite out_bind. cbn [file set_timer unsyncedBytes].
  rewrite Hf, (proj2 (Z.eqb_neq _ 0)) by done.
  rewrite (if_err_ok _ _ _ _ (set_timer None (syncGeneration o) o, sync_inode i w)); [done|].
  unfold sys, SyncFile, Fsync. cbn [fst snd]. by rewrite syscall__ok.
Qed.

(** C35: While no error was reported, accepted bytes that are not synced have a timer
    of the current generation, and its callback, when the sync succeeds, leaves every
    accepted byte of the file synced. *)
Theorem pending_output_is_synced q s o w :
  reached q s o w -> stickyErr o = None -> 0 < unsyncedBytes o ->
  exists g i x, syncTimer o = Some g
    /\ (let st := (syncTimerFired g (o, with_faults [] w)).2 in
        unsyncedBytes st.1 = 0 /\ stickyErr st.1 = None
        /\ dir st.2 !! Path q = Some i /\ inodes st.2 !! i = Some x
        /\ data x = header (baseOffset o) ++ drop (Z.to_nat (baseOffset o)) s
        /\ synced x = length (data x)).
Proof.
  intros [[(i & x & C) Hsch] (Hq & _)]%reached_sound Hs Hu. cbn [fst snd] in *.
  destruct (timer_armed _ Hsch Hs Hu) as (Hclosed & [g Hg] & _).
  pose proof (timer_current _ Hsch _ Hg) as Hgen.
  assert (file o = Some i) as Hf.
  { destruct (file o) as [f|] eqn:Hf; [by rewrite (cap_file _ _ _ _ _ C f Hf)|].
    destruct (cap_healthy _ _ _ _ _ C Hs) as [_ Hz]. rewrite Hz in Hu by done. lia. }
  pose proof (captured_ranges _ _ _ _ _ C) as (? & ? & ? & ? & Hend & ?).
  destruct (cap_holds _ _ _ _ _ C) as [_ Hr Hd]. rewrite Hend, slice_to_end in Hd by lia.
  exists g, i. eexists. split; [done|]. rewrite (timer_syncs o _ i g) by (done || lia).
  cbn [fst snd]. simpl. rewrite <- Hq, lookup_alter_eq, (cap_inode _ _ _ _ _ C). simpl.
  split_and!; [done|done|apply C|done|done|done].
Qed.

Definition pending_end : Bytes * (processOutput * FS) := history (take 2 example_events) example_start.
Lemma pending_reached : reached "out" pending_end.1 pending_end.2.1 pending_end.2.2.
Proof.
  apply (reached_intro _ _ _ _ empty_disk example_start.1 example_start.2 (take 2 example_events));
    [apply empty_disk_wf|done|by vm_compute|by vm_compute].
Qed.

Lemma pending_output_is_synced_witness :
  stickyErr pending_end.2.1 = None /\ unsyncedBytes pending_end.2.1 = 6
  /\ exists g i x, syncTimer pending_end.2.1 = Some g
    /\ (let st := (syncTimerFired g (pending_end.2.1, with_faults [] pending_end.2.2)).2 in
        unsyncedBytes st.1 = 0 /\ stickyErr st.1 = None
        /\ dir st.2 !! Path "out" = Some i /\ inodes st.2 !! i = Some x
        /\ data x = header (baseOffset pending_end.2.1) ++ drop (Z.to_nat (baseOffset pending_end.2.1)) pending_end.1
        /\ synced x = length (data x)).
Proof.
  split; [vm_compute; reflexivity|]. split; [vm_compute; reflexivity|].
  apply (pending_output_is_synced "out" pending_end.1 pending_end.2.1 pending_end.2.2 pending_reached);
    vm_compute; reflexivity.
Defined.

(** The limit of a capture is the source's, so a small one shows the compaction: the
    eleventh byte replaces the file by its newest eight. *)
Example compaction_keeps_newest :
  let small := mkOutput 0 0 8 "out" None 0 0 None 0 None false in
  let '(s, (o, w)) := history
    [ (EvWrite (String.list_ascii_of_string "0123456789"), []);
      (EvWrite (String.list_ascii_of_string "abc"), []) ] (small, example_start.2) in
  (baseOffset o, endOffset o, (Slice 0 0 (o, w)).1) = (5, 13, ("56789abc", 5, 13, true, None)).
Proof. vm_compute. reflexivity. Qed.
