(* ===== verification/PublicID.v ===== *)
(** * Public identifiers

    [src/internal/publicid/publicid.go]: a typed identifier is the prefix of its
    kind, an underscore and the 26 characters of the base32 encoding of a UUID.
    The base32 encoding is Go's [encoding/base32] with a lower-case alphabet and no
    padding, group by group. *)
From S2P Require Import Prelude Sha256.
From Stdlib Require Import Ascii List.
From stdpp Require Import list options.
Local Open Scope Z_scope.

(** ** Digits in a base *)

Fixpoint digits (b : Z) (n : nat) (z : Z) : list Z :=
  match n with
  | O => []
  | S n' => (z / b ^ Z.of_nat n') mod b :: digits b n' z
  end.
Definition from_digits (b : Z) (l : list Z) : Z := fold_left (fun acc d => acc * b + d) l 0.

(** ** base32 *)

(** [encodeStd] in lower case. *)
Definition char32 (v : Z) : ascii :=
  byte_of (if v <? 26 then 97 + v else 24 + v).
Definition value32 (c : ascii) : option Z :=
  let z := of_byte c in
  if (97 <=? z) && (z <=? 122) then Some (z - 97)
  else if (50 <=? z) && (z <=? 55) then Some (z - 24)
  else None.

(** A group of at most five bytes and its characters: 1, 2, 3, 4, 5 bytes give 2, 4,
    5, 7, 8 characters, the last one filled with zero bits. *)
Definition group_chars (bytes : nat) : nat :=
  match bytes with 1 => 2 | 2 => 4 | 3 => 5 | 4 => 7 | 5 => 8 | _ => 0 end%nat.
Definition group_bytes (chars : nat) : nat :=
  match chars with 2 => 1 | 4 => 2 | 5 => 3 | 7 => 4 | 8 => 5 | _ => 0 end%nat.
Definition fill (bytes chars : nat) : Z := 5 * Z.of_nat chars - 8 * Z.of_nat bytes.

Definition encode_group (g : Bytes) : Bytes :=
  let k := group_chars (length g) in
  map char32 (digits 32 k (from_big_endian g * 2 ^ fill (length g) k)).
Definition decode_group (cs : Bytes) : option Bytes :=
  vs ← mapM value32 cs;
  let n := group_bytes (length cs) in
  Some (big_endian n (from_digits 32 vs / 2 ^ fill n (length cs))).

(** [encoding.EncodeToString] *)
Fixpoint EncodeToString (l : Bytes) : Bytes :=
  match l with
  | [] => []
  | a :: b :: c :: d :: e :: l' => encode_group [a; b; c; d; e] ++ EncodeToString l'
  | _ => encode_group l
  end.

Fixpoint decode_groups (l : Bytes) : option Bytes :=
  match l with
  | [] => Some []
  | a :: b :: c :: d :: e :: f :: g :: h :: l' =>
      x ← decode_group [a; b; c; d; e; f; g; h];
      y ← decode_groups l';
      Some (x ++ y)
  | _ => decode_group l
  end.

(** [encoding.DecodeString]: newlines are removed first.  (Byte 255, which a decoder
    without padding takes for padding, is refused here like any byte that is not of
    the alphabet; it never yields the sixteen bytes of an identifier.) *)
Definition newline (c : ascii) : bool := (of_byte c =? 10) || (of_byte c =? 13).
Definition DecodeString (l : Bytes) : option Bytes := decode_groups (List.filter (fun c => negb (newline c)) l).

(** ** Kinds *)

(** A [Kind] is its string. *)
Definition kindPrefixes : list (string * string) :=
  [ ("organization", "org"); ("installation", "inst"); ("user", "usr"); ("actor", "actr");
    ("project", "proj"); ("agent", "agt"); ("agent_config", "acfg"); ("agent_profile", "aprf");
    ("cron_trigger", "cron"); ("integration_install", "iin"); ("integration_target", "itgt");
    ("agent_event", "evt"); ("agent_input", "ain"); ("agent_machine_binding", "amb");
    ("agent_turn", "trn"); ("agent_interaction", "int"); ("model_call_context", "mcc");
    ("context_checkpoint", "ccp"); ("tool_call", "tcl"); ("machine_pool", "mpo"); ("machine", "mch");
    ("machine_daemon_token", "mdt"); ("daemon_runtime", "drt"); ("project_machine_grant", "pmg");
    ("project_machine_pool_grant", "pmpg"); ("process", "prc"); ("process_action", "pac");
    ("artifact", "art"); ("personal_access_token", "pat"); ("org_invitation", "oinv");
    ("secret", "sec"); ("secret_grant", "sgr"); ("model_provider_config", "mpc");
    ("configured_model", "mdl"); ("configured_model_revision", "mrev");
    ("project_model_grant", "pmog"); ("skill", "skl"); ("skill_revision", "skr");
    ("skill_grant", "skg"); ("org_api_key", "oak"); ("mcp_oauth_flow", "moaf");
    ("integration_oauth_flow", "ioaf") ].

(** The map lookup [kindPrefixes[kind]]. *)
Fixpoint prefix_in (table : list (string * string)) (kind : string) : option string :=
  match table with
  | (name, prefix) :: rest => if name ==? kind then Some prefix else prefix_in rest kind
  | [] => None
  end.
Definition Prefix (kind : string) : option string := prefix_in kindPrefixes kind.

Inductive IdError : Type :=
  | ErrMalformed
  | ErrNilUUID
  | WrongPrefixError (want got : Bytes)
  | UnknownKind (kind : string).

Definition nil_uuid : Bytes := replicate 16 (byte_of 0).

Definition bytes (s : string) : Bytes := String.list_ascii_of_string s.
Definition underscore : ascii := "_"%char.

(** A [uuid.UUID] is an array of sixteen bytes. *)
Definition Encode (kind : string) (id : Bytes) : IdError + Bytes :=
  if id ==? nil_uuid then inl ErrNilUUID
  else
    match Prefix kind with
    | None => inl (UnknownKind kind)
    | Some prefix => inr (bytes prefix ++ underscore :: EncodeToString id)
    end.

(** [strings.Cut(value, "_")] *)
Fixpoint cut (l : Bytes) : option (Bytes * Bytes) :=
  match l with
  | [] => None
  | c :: l' =>
      if c ==? underscore then Some ([], l')
      else '(before, after) ← cut l'; Some (c :: before, after)
  end.

Definition Decode (kind : string) (value : Bytes) : IdError + Bytes :=
  match Prefix kind with
  | None => inl (UnknownKind kind)
  | Some prefix =>
      match cut value with
      | None => inl ErrMalformed
      | Some (got, token) =>
          if (got ==? []) || (token ==? []) then inl ErrMalformed
          else if got <>? bytes prefix then inl (WrongPrefixError (bytes prefix) got)
          else if negb (length token =? 26)%nat then inl ErrMalformed
          else
            match DecodeString token with
            | None => inl ErrMalformed
            | Some raw =>
                if negb (length raw =? 16)%nat || (EncodeToString raw <>? token) then inl ErrMalformed
                else if raw ==? nil_uuid then inl ErrNilUUID
                else inr raw
            end
      end
  end.

(** ** Digits round trip *)

Section Digits.
Context (b : Z) (Hb : 1 < b).

Lemma length_digits n z : length (digits b n z) = n.
Proof. induction n; simpl; congruence. Qed.

Lemma from_digits_acc l acc :
  fold_left (fun acc d => acc * b + d) l acc = acc * b ^ Z.of_nat (length l) + from_digits b l.
Proof using Hb.
  unfold from_digits. revert acc. induction l as [|c l IH]; intros acc; cbn [fold_left length]; [simpl; lia|].
  rewrite IH, (IH (0 * b + c)). rewrite Nat2Z.inj_succ, Z.pow_succ_r by lia. ring.
Qed.

Lemma from_digits_cons d l : from_digits b (d :: l) = d * b ^ Z.of_nat (length l) + from_digits b l.
Proof using Hb. unfold from_digits at 1. cbn [fold_left]. by rewrite from_digits_acc. Qed.

Lemma from_digits_digits n z : from_digits b (digits b n z) = z mod b ^ Z.of_nat n.
Proof using Hb.
  induction n as [|n IH]; [by rewrite Z.mod_1_r|]. cbn [digits].
  rewrite from_digits_cons, length_digits, IH. rewrite Nat2Z.inj_succ, Z.pow_succ_r by lia.
  rewrite (Z.mul_comm b), Z.rem_mul_r by lia. lia.
Qed.

Lemma digits_range n z : Forall (fun d => 0 <= d < b) (digits b n z).
Proof using Hb. induction n; simpl; constructor; [apply Z.mod_pos_bound; lia|done]. Qed.
End Digits.

Lemma value_char v : 0 <= v < 32 -> value32 (char32 v) = Some v.
Proof.
  intros Hv. unfold value32, char32. rewrite of_byte_of.
  destruct (v <? 26) eqn:E; bsimpl; rewrite Z.mod_small by lia.
  - rewrite (proj2 (Z.leb_le _ _)), (proj2 (Z.leb_le _ _)) by lia. cbn [andb]. f_equal. lia.
  - rewrite andb_comm, (proj2 (Z.leb_gt 97 _)), andb_false_r by lia.
    rewrite (proj2 (Z.leb_le _ _)), (proj2 (Z.leb_le _ _)) by lia. cbn [andb]. f_equal. lia.
Qed.

Lemma char_not_newline v : 0 <= v < 32 -> newline (char32 v) = false.
Proof.
  intros Hv. unfold newline, char32. rewrite of_byte_of.
  destruct (v <? 26) eqn:E; bsimpl; rewrite Z.mod_small by lia;
    rewrite !(proj2 (Z.eqb_neq _ _)) by lia; done.
Qed.

(** ** base32 round trip *)

Lemma mapM_value_char l : Forall (fun d => 0 <= d < 32) l -> mapM value32 (map char32 l) = Some l.
Proof. induction 1 as [|d l Hd Hl IH]; simpl; [done|]. by rewrite value_char, IH by done. Qed.

Lemma group_round_trip g : (length g <= 5)%nat -> decode_group (encode_group g) = Some g.
Proof.
  intros Hg. unfold decode_group, encode_group. rewrite mapM_value_char by (by apply digits_range).
  simpl. rewrite length_map, length_digits.
  assert (group_bytes (group_chars (length g)) = length g) as Hn
    by (destruct (length g) as [|[|[|[|[|[|]]]]]]; [done..|lia]).
  assert (8 * Z.of_nat (length g) <= 5 * Z.of_nat (group_chars (length g))) as Hk
    by (destruct (length g) as [|[|[|[|[|[|]]]]]]; [done..|lia]).
  rewrite Hn, from_digits_digits by done. f_equal.
  pose proof (from_big_endian_range g) as Hr. change 256 with (2 ^ 8) in Hr. rewrite <- Z.pow_mul_r in Hr by lia.
  rewrite Z.mod_small.
  - rewrite Z.div_mul by (apply Z.pow_nonzero; unfold fill; lia). apply from_big_endian_round_trip.
  - change 32 with (2 ^ 5). rewrite <- Z.pow_mul_r by lia.
    replace (5 * Z.of_nat (group_chars (length g)))
      with (8 * Z.of_nat (length g) + fill (length g) (group_chars (length g))) by (unfold fill; lia).
    rewrite Z.pow_add_r by (unfold fill; lia).
    assert (0 < 2 ^ fill (length g) (group_chars (length g))) by (apply Z.pow_pos_nonneg; unfold fill; lia). nia.
Qed.

Lemma length_encode_group g : length (encode_group g) = group_chars (length g).
Proof. unfold encode_group. by rewrite length_map, length_digits. Qed.

Lemma EncodeToString_clean l : Forall (fun c => newline c = false) (EncodeToString l).
Proof.
  assert (forall g, Forall (fun c => newline c = false) (encode_group g)) as Hg.
  { intros g. apply Forall_map. eapply Forall_impl; [by apply digits_range|]. intros v. apply char_not_newline. }
  induction l as [l IH] using (induction_ltof1 _ (@length ascii)); unfold ltof in IH.
  destruct l as [|x1 [|x2 [|x3 [|x4 [|x5 l]]]]]; cbn [EncodeToString]; auto.
  apply Forall_app. split; [done|]. apply IH. simpl. lia.
Qed.

Lemma decode_groups_app g l : length g = 8%nat ->
  decode_groups (g ++ l) = (x ← decode_group g; y ← decode_groups l; Some (x ++ y)).
Proof. intros Hg. do 8 (destruct g as [|? g]; [done|]). by destruct g. Qed.

Lemma decode_groups_short g : (length g < 8)%nat -> decode_groups g = if g ==? [] then Some [] else decode_group g.
Proof. intros Hg. do 8 (destruct g as [|? g]; [done|]). simpl in Hg. lia. Qed.

Lemma decode_encode l : decode_groups (EncodeToString l) = Some l.
Proof.
  assert (forall g, (1 <= length g <= 4)%nat -> decode_groups (encode_group g) = Some g) as Hg.
  { intros g Hl. rewrite decode_groups_short, group_round_trip
      by (rewrite ?length_encode_group; destruct (length g) as [|[|[|[|[|]]]]]; simpl; lia).
    rewrite bool_decide_false; [done|]. intros H%(f_equal length). rewrite length_encode_group in H.
    destruct (length g) as [|[|[|[|[|]]]]]; simpl in H; lia. }
  induction l as [l IH] using (induction_ltof1 _ (@length ascii)); unfold ltof in IH.
  destruct l as [|x1 [|x2 [|x3 [|x4 [|x5 l]]]]]; cbn [EncodeToString]; try (apply Hg; simpl; lia); [done|].
  rewrite decode_groups_app by (by rewrite length_encode_group).
  rewrite group_round_trip by (simpl; lia). simpl. rewrite IH by (simpl; lia). done.
Qed.

Lemma decode_encode_string l : DecodeString (EncodeToString l) = Some l.
Proof.
  unfold DecodeString. transitivity (decode_groups (EncodeToString l)); [|apply decode_encode]. f_equal.
  pose proof (EncodeToString_clean l) as H. induction H as [|c l' Hc _ IH]; simpl; [done|]. by rewrite Hc, IH.
Qed.

Lemma EncodeToString_16 l : length l = 16%nat -> length (EncodeToString l) = 26%nat.
Proof.
  intros Hl. do 16 (destruct l as [|? l]; [done|]). destruct l; [|done].
  cbn [EncodeToString]. rewrite !length_app, !length_encode_group. done.
Qed.

(** ** Prefixes *)

Definition well_formed_prefix (p : string) : bool :=
  negb (bool_decide (bytes p = [])) && forallb (fun c => negb (c ==? underscore)) (bytes p).

Lemma prefix_In table kind prefix : prefix_in table kind = Some prefix -> In (kind, prefix) table.
Proof.
  induction table as [|[name p] rest IH]; simpl; [done|].
  destruct (name ==? kind) eqn:E; bsimpl; intros; simplify_eq; auto.
Qed.

Lemma prefix_well_formed kind prefix : Prefix kind = Some prefix -> well_formed_prefix prefix = true.
Proof.
  intros H%prefix_In. assert (forallb (fun kv => well_formed_prefix kv.2) kindPrefixes = true) as Hall by done.
  rewrite forallb_forall in Hall. exact (Hall _ H).
Qed.

Lemma prefixes_distinct : NoDup (map snd kindPrefixes).
Proof. apply (bool_decide_unpack _). by vm_compute. Qed.

Lemma prefix_injective k1 k2 p : Prefix k1 = Some p -> Prefix k2 = Some p -> k1 = k2.
Proof.
  intros H1%prefix_In%list_elem_of_In H2%prefix_In%list_elem_of_In.
  apply list_elem_of_lookup in H1 as [i H1]. apply list_elem_of_lookup in H2 as [j H2].
  assert (i = j) as ->.
  { eapply (NoDup_lookup _ _ _ p prefixes_distinct); rewrite list_lookup_fmap; by rewrite ?H1, ?H2. }
  congruence.
Qed.

Lemma cut_app p t : forallb (fun c => negb (c ==? underscore)) p = true ->
  cut (p ++ underscore :: t) = Some (p, t).
Proof.
  induction p as [|c p IH]; simpl; [done|]. destruct (c ==? underscore) eqn:E; [done|]. simpl.
  intros H. by rewrite IH.
Qed.

Lemma cut_inv l p t : cut l = Some (p, t) -> l = p ++ underscore :: t.
Proof.
  revert p. induction l as [|c l IH]; intros p; simpl; [done|].
  destruct (c ==? underscore) eqn:E; bsimpl; [by intros; simplify_eq|].
  destruct (cut l) as [[p' t']|]; simpl; [|done]. intros. simplify_eq. simpl. f_equal. by apply IH.
Qed.

(** ** Properties *)

Lemma Decode_inv kind value id : Decode kind value = inr id ->
  exists prefix, Prefix kind = Some prefix /\ value = bytes prefix ++ underscore :: EncodeToString id
    /\ length id = 16%nat /\ id ≠ nil_uuid.
Proof.
  unfold Decode. destruct (Prefix kind) as [prefix|]; [|done].
  destruct (cut value) as [[got token]|] eqn:Hcut; [|done]. apply cut_inv in Hcut.
  intros H. repeat case_match; simplify_eq; bsimpl. subst.
  exists prefix. split_and!; try done. by apply Nat.eqb_eq.
Qed.

(** Decoding is the inverse of encoding. *)
Lemma decode_iff_encode kind value id :
  Decode kind value = inr id <-> Encode kind id = inr value /\ length id = 16%nat.
Proof.
  split.
  - intros (prefix & Hp & -> & Hl & Hn)%Decode_inv. split; [|done].
    unfold Encode. by rewrite bool_decide_false, Hp.
  - unfold Encode, Decode. intros [H Hl]. destruct (id ==? nil_uuid) eqn:Hn; [done|].
    destruct (Prefix kind) as [prefix|] eqn:Hp; [|done]. injection H as <-.
    apply prefix_well_formed in Hp. unfold well_formed_prefix in Hp. bsimpl.
    rewrite cut_app, decode_encode_string by done. rewrite (bool_decide_false (bytes prefix = [])) by done.
    pose proof (EncodeToString_16 id Hl) as Hlen. rewrite bool_decide_false by (by intros E; rewrite E in Hlen).
    rewrite bool_decide_true, Hlen, Hl by done. simpl. rewrite !bool_decide_true by done. simpl.
    by rewrite bool_decide_false.
Qed.

(** One string never decodes for two kinds, and never to two UUIDs. *)
Lemma decode_typed k1 k2 value id1 id2 :
  Decode k1 value = inr id1 -> Decode k2 value = inr id2 -> k1 = k2 /\ id1 = id2.
Proof.
  intros (p1 & Hp1 & Hv1 & _)%Decode_inv (p2 & Hp2 & Hv2 & _)%Decode_inv.
  pose proof (prefix_well_formed _ _ Hp1) as Hw1. pose proof (prefix_well_formed _ _ Hp2) as Hw2.
  unfold well_formed_prefix in Hw1, Hw2. bsimpl.
  apply (f_equal cut) in Hv1, Hv2. rewrite cut_app in Hv1, Hv2 by done. rewrite Hv1 in Hv2.
  injection Hv2 as Hp Ht. apply (f_equal String.string_of_list_ascii) in Hp.
  unfold bytes in Hp. rewrite !String.string_of_list_ascii_of_string in Hp. subst.
  split; [by eapply prefix_injective|].
  apply (f_equal DecodeString) in Ht. rewrite !decode_encode_string in Ht. by injection Ht.
Qed.

(** C39: An identifier decodes to a UUID exactly when it is the encoding of that UUID
    for the same kind, so that encoding and decoding are inverse, decoding accepts one
    spelling only and the nil UUID has none; and identifiers are typed: one string
    never decodes for two kinds. *)
Theorem public_id_round_trip kind value id :
  (Decode kind value = inr id <-> Encode kind id = inr value /\ length id = 16%nat)
  /\ forall kind' id', Encode kind id = inr value -> length id = 16%nat ->
       Decode kind' value = inr id' -> kind' = kind /\ id' = id.
Proof.
  split; [apply decode_iff_encode|]. intros kind' id' He Hl H'.
  assert (Decode kind value = inr id) as H by (by apply decode_iff_encode).
  exact (decode_typed _ _ _ _ _ H' H).
Qed.

Definition example_uuid : Bytes := big_endian 16 0x019535d93df779fbb466fa907fa17f9e.
Lemma public_id_round_trip_witness :
  match Encode "agent" example_uuid with
  | inr value => Decode "agent" value = inr example_uuid
  | inl _ => False
  end.
Proof.
  apply (proj1 (public_id_round_trip "agent"
    (match Encode "agent" example_uuid with inr value => value | inl _ => [] end) example_uuid)).
  split; vm_compute; reflexivity.
Defined.

Example public_id_example :
  String.string_of_list_ascii <$> (match Encode "agent" example_uuid with inr v => Some v | inl _ => None end)
  = Some "agt_agktlwj56547xndg7kih7il7ty".
Proof. vm_compute. reflexivity. Qed.
