(* ===== verification/ToolPermission.v ===== *)
(** * Interaction forms and tool permissions

    [src/internal/interactionform/form.go], [src/internal/toolpermission] and
    [src/internal/jsoncanonical]: the questions an agent asks before a tool call,
    the normalisation of the answers, and the decision they lead to.  A JSON text is
    its string; [encoding/json] and the schema validator are the class [JsonText]. *)
From S2P Require Import Prelude GoStrings.
From Stdlib Require Import Ascii.
From stdpp Require Import options.
Local Open Scope Z_scope.

(** ** JSON *)

(** What follows the first value of a decoder. *)
Inductive Rest : Type := AtEOF | AnotherValue | Garbage.

Class JsonText : Type := {
  json_any : Type;
  (** a decoder with [UseNumber]: the first value, and what the second [Decode] meets *)
  decode_value : string -> option (json_any * Rest);
  (** [json.Marshal] of such a value *)
  marshal_value : json_any -> option string;
  (** [Compile] and [Validate] of the schema package: the schema's and the value's
      verdict *)
  schema_compiles : string -> bool;
  schema_accepts : string -> string -> bool
}.

Section Permission.
Context {json : JsonText}.

(** Errors carry their text, without the numbers in it. *)
Inductive FormError : Type := FormErr (msg : string) | FormErrAt (msg : string) (at_ : list Z).

Definition jsoncanonical_decode (raw : string) : option json_any :=
  match decode_value raw with
  | Some (value, AtEOF) => Some value
  | _ => None
  end.

(** [jsoncanonical.Normalize] *)
Definition Normalize (raw : string) : option string :=
  value ← jsoncanonical_decode raw; marshal_value value.

(** ** Forms *)

Record ContextItem : Type := mkContextItem { ci_Label : string; ci_Value : string }.
Record Option_ : Type := mkOption { o_Label : string; o_AllowsText : bool }.
Record Question : Type := mkQuestion { q_Prompt : string; q_Multiple : bool; q_Options : list Option_ }.
Record Form : Type := mkForm
  { f_Title : string; f_Context : list ContextItem; f_Questions : list Question }.
Record Answer : Type := mkAnswer { a_OptionIndices : list Z; a_Text : string }.
(** [interactionform.Resolution] *)
Record FormResolution : Type := mkFormResolution { r_Answers : list Answer }.

#[local] Notation "'try' x := e 'in' k" :=
  (match e with inl err => inl err | inr x => k end) (at level 200, x pattern, k at level 200).

Fixpoint validate_context (l : list ContextItem) : FormError + list ContextItem :=
  match l with
  | [] => inr []
  | item :: l' =>
      let item := mkContextItem (TrimSpace (ci_Label item)) (TrimSpace (ci_Value item)) in
      if (ci_Label item ==? "") || (ci_Value item ==? "")
      then inl (FormErr "interaction form context requires labels and values")
      else try l'' := validate_context l' in inr (item :: l'')
  end.

Fixpoint validate_options (q i : Z) (l : list Option_) : FormError + list Option_ :=
  match l with
  | [] => inr []
  | option :: l' =>
      let option := mkOption (TrimSpace (o_Label option)) (o_AllowsText option) in
      if o_Label option ==? ""
      then inl (FormErrAt "interaction form question option requires a label" [q; i])
      else try l'' := validate_options q (i + 1) l' in inr (option :: l'')
  end.

Fixpoint validate_questions (q : Z) (l : list Question) : FormError + list Question :=
  match l with
  | [] => inr []
  | question :: l' =>
      let prompt := TrimSpace (q_Prompt question) in
      if prompt ==? "" then inl (FormErrAt "interaction form question requires a prompt" [q])
      else
        match q_Options question with
        | [] => inl (FormErrAt "interaction form question requires at least one option" [q])
        | options =>
            try options' := validate_options q 0 options in
            try l'' := validate_questions (q + 1) l' in
            inr (mkQuestion prompt (q_Multiple question) options' :: l'')
        end
  end.

(** [Form.Validate]: the trimmed form, or the error. *)
Definition FormValidate (value : Form) : FormError + Form :=
  let title := TrimSpace (f_Title value) in
  if title ==? "" then inl (FormErr "interaction form title is required")
  else
    try context := validate_context (f_Context value) in
    match f_Questions value with
    | [] => inl (FormErr "interaction form requires at least one question")
    | questions =>
        try questions' := validate_questions 0 questions in
        inr (mkForm title context questions')
    end.

(** [interactionform.New]; the copies are values here. *)
Definition NewForm (title : string) (contextItems : list ContextItem) (questions : list Question)
    : FormError + Form :=
  FormValidate (mkForm title contextItems questions).

(** The loop over the selected indices: [selected] is the set built so far. *)
Fixpoint select_indices (at_ : Z) (options : Z) (selected : list Z) (l : list Z) : FormError + list Z :=
  match l with
  | [] => inr selected
  | optionIndex :: l' =>
      if (optionIndex <? 0) || (options <=? optionIndex)
      then inl (FormErrAt "interaction form question has no such option" [at_; optionIndex])
      else if bool_decide (optionIndex ∈ selected)
      then inl (FormErrAt "interaction form question selects an option more than once" [at_; optionIndex])
      else select_indices at_ options (optionIndex :: selected) l'
  end.

(** The loop over the question's options, in their order: the chosen indices and
    whether one of them accepts text. *)
Fixpoint order_indices (i : Z) (selected : list Z) (options : list Option_) : list Z * bool :=
  match options with
  | [] => ([], false)
  | option :: rest =>
      let '(indices, allowsText) := order_indices (i + 1) selected rest in
      if bool_decide (i ∈ selected) then (i :: indices, o_AllowsText option || allowsText)
      else (indices, allowsText)
  end.

Definition normalize_answer (at_ : Z) (question : Question) (answer : Answer) : FormError + Answer :=
  let text := TrimSpace (a_Text answer) in
  if bool_decide (a_OptionIndices answer = [])
  then inl (FormErrAt "interaction answer requires at least one selected option" [at_])
  else if negb (q_Multiple question) && negb (length (a_OptionIndices answer) =? 1)%nat
  then inl (FormErrAt "interaction form question requires exactly one option" [at_])
  else
    try selected := select_indices at_ (Z.of_nat (length (q_Options question))) [] (a_OptionIndices answer) in
    let '(indices, allowsText) := order_indices 0 selected (q_Options question) in
    if negb allowsText && (text <>? "")
    then inl (FormErrAt "interaction form question selected options do not accept text" [at_])
    else inr (mkAnswer indices text).

Fixpoint normalize_answers (at_ : Z) (questions : list Question) (answers : list Answer)
    : FormError + list Answer :=
  match questions, answers with
  | question :: questions', answer :: answers' =>
      try answer' := normalize_answer at_ question answer in
      try rest := normalize_answers (at_ + 1) questions' answers' in
      inr (answer' :: rest)
  | _, _ => inr []
  end.

Definition NormalizeResolution (value : Form) (resolution : FormResolution) : FormError + FormResolution :=
  try value := FormValidate value in
  if negb (length (r_Answers resolution) =? length (f_Questions value))%nat
  then inl (FormErrAt "interaction resolution requires exactly as many answers"
              [Z.of_nat (length (f_Questions value))])
  else
    try answers := normalize_answers 0 (f_Questions value) (r_Answers resolution) in
    inr (mkFormResolution answers).

(** ** Permission modes *)

Definition ModeAlwaysAllow : string := "always_allow".
Definition ModeAlwaysAsk : string := "always_ask".
Definition ModeAlwaysDeny : string := "always_deny".

Record Selection : Type := mkSelection { s_Mode : string; s_Parameters : string }.
Record ModeDescriptor : Type := mkModeDescriptor
  { d_Name : string; d_Label : string; d_Description : string; d_ParametersSchema : string }.

(** A JSON text that is empty but for spaces stands for the empty object. *)
Definition or_empty_object (raw : string) : string := if TrimSpace raw ==? "" then "{}" else raw.

Definition NormalizeSelection (selection : Selection) : FormError + Selection :=
  let mode := TrimSpace (s_Mode selection) in
  if mode ==? "" then inl (FormErr "permission mode is required")
  else
    match Normalize (or_empty_object (s_Parameters selection)) with
    | None => inl (FormErr "permission parameters must be valid JSON")
    | Some parameters => inr (mkSelection mode parameters)
    end.

Definition FindMode (descriptors : list ModeDescriptor) (name : string) : option ModeDescriptor :=
  List.find (fun d => d_Name d ==? name) descriptors.

(** [jsonschema.Validate] *)
Definition schema_Validate (schema value : string) : bool :=
  negb (TrimSpace schema ==? "") && schema_compiles schema && schema_accepts schema value.

Definition ValidateSelection (selection : Selection) (descriptors : list ModeDescriptor)
    : FormError + Selection :=
  try normalized := NormalizeSelection selection in
  match FindMode descriptors (s_Mode normalized) with
  | None => inl (FormErr "unsupported permission mode")
  | Some descriptor =>
      if schema_Validate (d_ParametersSchema descriptor) (s_Parameters normalized)
      then inr normalized
      else inl (FormErr "permission mode parameters")
  end.

Fixpoint validate_descriptors (seen : list string) (l : list ModeDescriptor) : option FormError :=
  match l with
  | [] => None
  | d :: l' =>
      if d_Name d ==? "" then Some (FormErr "permission mode name is required")
      else if bool_decide (d_Name d ∈ seen)
      then Some (FormErr "permission mode is declared more than once")
      else if TrimSpace (d_Label d) ==? "" then Some (FormErr "permission mode label is required")
      else if TrimSpace (d_Description d) ==? "" then Some (FormErr "permission mode description is required")
      else if (TrimSpace (d_ParametersSchema d) ==? "") || negb (schema_compiles (d_ParametersSchema d))
      then Some (FormErr "permission mode parameters schema")
      else validate_descriptors (d_Name d :: seen) l'
  end.
Definition ValidateModeDescriptors (descriptors : list ModeDescriptor) : option FormError :=
  match descriptors with
  | [] => Some (FormErr "at least one permission mode is required")
  | _ => validate_descriptors [] descriptors
  end.

(** ** Permission requests *)

Definition AllowOptionIndex : Z := 0.
Definition DenyOptionIndex : Z := 1.

Record Authorization : Type := mkAuthorization { au_ToolName : string; au_Input : string }.
Record Request : Type := mkRequest
  { rq_Permission : Selection; rq_Authorization : Authorization; rq_Form : Form }.
Inductive Decision : Type := DecisionAllow | DecisionDeny.
(** [toolpermission.Resolution] *)
Record Resolution : Type := mkResolution { res_Decision : Decision; res_Reason : string }.

Definition NewAuthorization (toolName input : string) : FormError + Authorization :=
  let toolName := TrimSpace toolName in
  if toolName ==? "" then inl (FormErr "tool name is required")
  else
    match Normalize (or_empty_object input) with
    | None => inl (FormErr "canonicalize authorized input")
    | Some canonicalInput => inr (mkAuthorization toolName canonicalInput)
    end.

Definition validateAlwaysAskRequest (request : Request) : option FormError :=
  match f_Questions (rq_Form request) with
  | [question] =>
      match q_Options question with
      | [allow; deny] =>
          if q_Multiple question || (o_Label allow <>? "Allow") || o_AllowsText allow
             || (o_Label deny <>? "Deny") || negb (o_AllowsText deny)
          then Some (FormErr "always_ask permission interaction form is invalid")
          else None
      | _ => Some (FormErr "always_ask permission interaction form is invalid")
      end
  | _ => Some (FormErr "always_ask permission requires exactly one question")
  end.

Definition resolveAlwaysAskRequest (response : FormResolution) : FormError + Resolution :=
  match r_Answers response with
  | [answer] =>
      match a_OptionIndices answer with
      | [optionIndex] =>
          if optionIndex =? AllowOptionIndex then inr (mkResolution DecisionAllow "")
          else if optionIndex =? DenyOptionIndex
          then inr (mkResolution DecisionDeny
                      (if a_Text answer ==? "" then "tool call was denied" else a_Text answer))
          else inl (FormErrAt "always_ask permission does not support option" [optionIndex])
      | _ => inl (FormErr "always_ask permission requires exactly one selected option")
      end
  | _ => inl (FormErr "always_ask permission requires exactly one answer")
  end.

(** [interactionModes]: the validation and the resolution of a mode. *)
Definition interactionModes (mode : string)
    : option ((Request -> option FormError) * (FormResolution -> FormError + Resolution)) :=
  if mode ==? ModeAlwaysAsk then Some (validateAlwaysAskRequest, resolveAlwaysAskRequest) else None.

(** [Request.Validate] *)
Definition RequestValidate (request : Request) : FormError + Request :=
  try authorization := NewAuthorization (au_ToolName (rq_Authorization request))
                         (au_Input (rq_Authorization request)) in
  try permission := NormalizeSelection (rq_Permission request) in
  match interactionModes (s_Mode permission) with
  | None => inl (FormErr "permission mode does not support an interaction")
  | Some (validate, _) =>
      try form := FormValidate (rq_Form request) in
      let request := mkRequest permission authorization form in
      match validate request with
      | Some e => inl e
      | None => inr request
      end
  end.

Definition NewRequest (descriptor : ModeDescriptor) (selection : Selection)
    (authorization : Authorization) (value : Form) : FormError + Request :=
  try selection := ValidateSelection selection [descriptor] in
  RequestValidate (mkRequest selection authorization value).

Definition NewAllowDenyForm (title : string) (contextItems : list ContextItem) : FormError + Form :=
  NewForm title contextItems
    [mkQuestion "Allow this tool call?" false [mkOption "Allow" false; mkOption "Deny" true]].

Definition Resolve (request : Request) (response : FormResolution) : FormError + Resolution :=
  try request := RequestValidate request in
  try normalized := NormalizeResolution (rq_Form request) response in
  match interactionModes (s_Mode (rq_Permission request)) with
  | None => inl (FormErr "")
  | Some (_, resolve) => resolve normalized
  end.

(** [permissionChallenge] of harness/tools/permission_modes.go. *)
Definition permissionChallenge (callName : string) (descriptor : ModeDescriptor) (selection : Selection)
    (authorizationInput : string) (contextItems : list ContextItem) : FormError + Request :=
  try authorization := NewAuthorization callName authorizationInput in
  let contextItems :=
    match contextItems with
    | [] =>
        let input := TrimSpace (au_Input authorization) in
        if negb (input ==? "") && negb (input ==? "{}") then [mkContextItem "Input" input] else []
    | _ => contextItems
    end in
  try value := NewAllowDenyForm ("Permission requested for " +:+ callName) contextItems in
  NewRequest descriptor selection authorization value.

End Permission.

(** ** Validation is idempotent *)

Ltac split_cases :=
  repeat match goal with
  | H : (if ?b then _ else _) = inr _ |- _ => destruct b eqn:?; [done|]
  | H : match ?e with inl _ => _ | inr _ => _ end = inr _ |- _ => destruct e eqn:?; [done|]
  end.

Lemma validate_context_stable l l' : validate_context l = inr l' -> validate_context l' = inr l'.
Proof.
  revert l'. induction l as [|item l IH]; intros l' H; cbn [validate_context] in H; [by simplify_eq|].
  split_cases. simplify_eq. cbn [validate_context ci_Label ci_Value] in *. rewrite !TrimSpace_stable.
  match goal with H : _ || _ = false |- _ => rewrite H end. by rewrite (IH _ eq_refl).
Qed.

Lemma validate_options_stable q i l l' : validate_options q i l = inr l' -> validate_options q i l' = inr l'.
Proof.
  revert i l'. induction l as [|o l IH]; intros i l' H; cbn [validate_options] in H; [by simplify_eq|].
  split_cases. simplify_eq. cbn [validate_options o_Label o_AllowsText] in *. rewrite !TrimSpace_stable.
  match goal with H : bool_decide _ = false |- _ => rewrite H end.
  match goal with H : validate_options _ _ _ = inr _ |- _ => by rewrite (IH _ _ H) end.
Qed.

Lemma validate_options_nonempty q i o l l' : validate_options q i (o :: l) = inr l' -> l' ≠ [].
Proof. cbn [validate_options]. intros H. split_cases. by simplify_eq. Qed.

Lemma validate_questions_stable q l l' : validate_questions q l = inr l' -> validate_questions q l' = inr l'.
Proof.
  revert q l'. induction l as [|x l IH]; intros q l' H; cbn [validate_questions] in H; [by simplify_eq|].
  split_cases. destruct (q_Options x) as [|o os] eqn:Ho; [done|]. split_cases. simplify_eq.
  cbn [validate_questions q_Prompt q_Options q_Multiple]. rewrite TrimSpace_stable.
  match goal with H : bool_decide _ = false |- _ => rewrite H end.
  match goal with H : validate_options _ _ _ = inr ?l |- _ =>
    pose proof (validate_options_nonempty _ _ _ _ _ H); apply validate_options_stable in H;
    destruct l; [done|]; rewrite H end.
  match goal with H : validate_questions _ _ = inr _ |- _ => by rewrite (IH _ _ H) end.
Qed.

Lemma FormValidate_stable f g : FormValidate f = inr g -> FormValidate g = inr g.
Proof.
  unfold FormValidate. intros H. split_cases. destruct (f_Questions f) as [|q qs] eqn:Hq; [done|].
  split_cases. simplify_eq. cbn [f_Title f_Context f_Questions]. rewrite TrimSpace_stable.
  match goal with H : bool_decide _ = false |- _ => rewrite H end.
  match goal with H : validate_context _ = inr _ |- _ => rewrite (validate_context_stable _ _ H) end.
  match goal with H : validate_questions _ _ = inr ?l |- _ =>
    rename H into Hqs; rename l into qs' end.
  destruct qs'; [|by rewrite (validate_questions_stable _ _ _ Hqs)].
  cbn [validate_questions] in Hqs. split_cases. destruct (q_Options q); [done|]. by split_cases.
Qed.

(** ** Selected options *)

Lemma select_indices_inv at_ n selected l selected' :
  select_indices at_ n selected l = inr selected' ->
  selected' = rev l ++ selected /\ Forall (fun i => 0 <= i < n) l
  /\ (NoDup selected -> NoDup selected').
Proof.
  revert selected. induction l as [|i l IH]; intros selected H; cbn [select_indices] in H.
  { simplify_eq. by auto. }
  split_cases. apply IH in H as (-> & Hl & Hnd). bsimpl. split_and!.
  - simpl. by rewrite <- (assoc_L (++)).
  - constructor; [lia|done].
  - intros Hs. apply Hnd. by constructor.
Qed.

Lemma select_indices_total at_ n selected l :
  Forall (fun i => 0 <= i < n) l -> NoDup (rev l ++ selected) ->
  select_indices at_ n selected l = inr (rev l ++ selected).
Proof.
  revert selected. induction l as [|i l IH]; intros selected Hl Hnd; cbn [select_indices]; [done|].
  inversion_clear Hl as [|? ? Hi Hl']. simpl in Hnd. rewrite <- (assoc_L (++)) in Hnd.
  rewrite (proj2 (Z.ltb_ge i 0)), (proj2 (Z.leb_gt n i)) by lia. cbn [orb].
  rewrite bool_decide_false; [|by apply NoDup_app in Hnd as (_ & _ & [? _]%NoDup_cons)].
  rewrite (IH (i :: selected)) by done. simpl. by rewrite <- (assoc_L (++)).
Qed.

Lemma order_indices_spec i selected options indices allowsText :
  order_indices i selected options = (indices, allowsText) ->
  StronglySorted Z.lt indices
  /\ (forall x, x ∈ indices <-> x ∈ selected /\ i <= x < i + Z.of_nat (length options)).
Proof.
  revert i indices allowsText. induction options as [|o rest IH]; intros i indices allowsText H; simpl in H.
  { simplify_eq. split; [constructor|]. intros x. rewrite elem_of_nil. simpl. split; [done|lia]. }
  destruct (order_indices (i + 1) selected rest) as [indices' allows'] eqn:E.
  destruct (IH _ _ _ E) as [Hs Hin]. destruct (bool_decide (i ∈ selected)) eqn:Hi; bsimpl; simplify_eq.
  - split.
    + constructor; [done|]. apply Forall_forall. intros x Hx%Hin. lia.
    + intros x. rewrite elem_of_cons, Hin. simpl. split; [intros [->|]; [split; [done|lia]|split; [tauto|lia]]|].
      intros [Hx Hr]. destruct (decide (x = i)); [by left|]. right. split; [done|lia].
  - split; [done|]. intros x. rewrite Hin. simpl. split; [intros [? ?]; split; [done|lia]|].
    intros [Hx Hr]. split; [done|]. assert (x ≠ i) by (by intros ->). lia.
Qed.

Lemma order_indices_ext i selected selected' options :
  (forall x, x ∈ selected <-> x ∈ selected') ->
  order_indices i selected options = order_indices i selected' options.
Proof.
  intros Hx. revert i. induction options as [|o rest IH]; intros i; simpl; [done|].
  by rewrite IH, (bool_decide_ext _ _ (Hx i)).
Qed.

Lemma sorted_NoDup l : StronglySorted Z.lt l -> NoDup l.
Proof.
  induction 1 as [|x l Hs IH Hx]; constructor; [|done]. intros Hin. rewrite Forall_forall in Hx.
  specialize (Hx _ Hin). lia.
Qed.

(** The relation between an answer and its normal form. *)
Definition normal_form (a a' : Answer) : Prop :=
  a_OptionIndices a' ≡ₚ a_OptionIndices a /\ StronglySorted Z.lt (a_OptionIndices a')
  /\ a_Text a' = TrimSpace (a_Text a).

Lemma normalize_answer_spec at_ q a a' :
  normalize_answer at_ q a = inr a' -> normal_form a a' /\ normalize_answer at_ q a' = inr a'.
Proof.
  unfold normalize_answer. intros H. destruct (bool_decide (a_OptionIndices a = [])) eqn:He; [done|].
  destruct (negb _ && _) eqn:Hm; [done|].
  destruct (select_indices _ _ _ _) as [|selected] eqn:Hsel; [done|].
  destruct (order_indices 0 selected (q_Options q)) as [indices allows] eqn:Ho.
  destruct (negb allows && _) eqn:Ht; [done|]. injection H as <-.
  apply select_indices_inv in Hsel as (Hrev & Hrange & Hnd). rewrite (right_id_L [] (++)) in Hrev. subst selected.
  specialize (Hnd ltac:(constructor)). destruct (order_indices_spec _ _ _ _ _ Ho) as [Hs Hin].
  assert (forall x, x ∈ indices <-> x ∈ rev (a_OptionIndices a)) as Hsame.
  { intros x. rewrite Hin. split; [tauto|]. intros Hx. split; [done|].
    rewrite <- Permutation_rev in Hx. rewrite Forall_forall in Hrange. specialize (Hrange _ Hx). lia. }
  assert (indices ≡ₚ a_OptionIndices a) as Hperm.
  { rewrite (Permutation_rev (a_OptionIndices a)). apply NoDup_Permutation; [by apply sorted_NoDup|done|done]. }
  split; [by split|]. cbn [a_OptionIndices a_Text].
  rewrite bool_decide_false by (intros ->; apply Permutation_nil_l in Hperm; bsimpl; congruence).
  pose proof (Permutation_length Hperm) as Hlen. rewrite Hlen, Hm. rewrite select_indices_total.
  - rewrite (right_id_L [] (++)). rewrite (order_indices_ext _ _ (rev (a_OptionIndices a))), Ho.
    + by rewrite TrimSpace_stable, Ht.
    + intros x. rewrite <- Permutation_rev. apply Hsame.
  - by rewrite Hperm.
  - rewrite (right_id_L [] (++)), <- Permutation_rev. by apply sorted_NoDup.
Qed.

Lemma normalize_answers_spec at_ qs l l' :
  length l = length qs -> normalize_answers at_ qs l = inr l' ->
  Forall2 normal_form l l' /\ normalize_answers at_ qs l' = inr l'.
Proof.
  revert at_ l l'. induction qs as [|q qs IH]; intros at_ [|a l] l' Hl H; try done; cbn [normalize_answers] in H.
  { simplify_eq. by split. }
  destruct (normalize_answer at_ q a) as [|a'] eqn:Ha; [done|].
  destruct (normalize_answers (at_ + 1) qs l) as [|rest] eqn:Hr; [done|]. simplify_eq.
  apply normalize_answer_spec in Ha as [Hn Ha]. apply IH in Hr as [Hf Hr]; [|simpl in Hl; lia].
  split; [by constructor|]. cbn [normalize_answers]. by rewrite Ha, Hr.
Qed.

(** ** Properties *)

(** A normalised resolution is canonical: normalising it again changes nothing;
    every answer selects the same options as the one given, each once and in the
    order of the question, with its text trimmed. *)
Theorem normalized_resolution_is_canonical form r n :
  NormalizeResolution form r = inr n ->
  NormalizeResolution form n = inr n /\ Forall2 normal_form (r_Answers r) (r_Answers n).
Proof.
  unfold NormalizeResolution. intros H. destruct (FormValidate form) as [|form'] eqn:Hf; [done|].
  destruct (negb _) eqn:Hlen; [done|]. apply negb_false_iff, Nat.eqb_eq in Hlen.
  destruct (normalize_answers 0 _ _) as [|answers] eqn:Ha; [done|]. injection H as <-.
  apply normalize_answers_spec in Ha as [Hn Ha]; [|done]. split; [|done]. cbn [r_Answers].
  pose proof (Forall2_length _ _ _ Hn) as Hl. rewrite <- Hl, Hlen, Nat.eqb_refl. cbn [negb]. by rewrite Ha.
Qed.

Definition example_form : Form :=
  mkForm " Deploy " [] [mkQuestion "Services?" true [mkOption "API" false; mkOption "Worker" false; mkOption "Other" true]].
Definition example_resolution : FormResolution := mkFormResolution [mkAnswer [2; 0] " Scheduler "].
Lemma normalized_resolution_is_canonical_witness :
  NormalizeResolution example_form example_resolution = inr (mkFormResolution [mkAnswer [0; 2] "Scheduler"])
  /\ NormalizeResolution example_form (mkFormResolution [mkAnswer [0; 2] "Scheduler"])
     = inr (mkFormResolution [mkAnswer [0; 2] "Scheduler"]).
Proof.
  assert (NormalizeResolution example_form example_resolution
          = inr (mkFormResolution [mkAnswer [0; 2] "Scheduler"])) as H by (vm_compute; reflexivity).
  split; [exact H|]. exact (proj1 (normalized_resolution_is_canonical _ _ _ H)).
Defined.

Section Decisions.
Context {json : JsonText}.

(** The only form a valid request carries. *)
Lemma valid_request_form request valid :
  RequestValidate request = inr valid ->
  TrimSpace (s_Mode (rq_Permission request)) = ModeAlwaysAsk
  /\ s_Mode (rq_Permission valid) = ModeAlwaysAsk
  /\ FormValidate (rq_Form valid) = inr (rq_Form valid)
  /\ exists prompt, f_Questions (rq_Form valid)
       = [mkQuestion prompt false [mkOption "Allow" false; mkOption "Deny" true]].
Proof.
  unfold RequestValidate. intros H. destruct (NewAuthorization _ _) as [|authorization]; [done|].
  destruct (NormalizeSelection _) as [|permission] eqn:Hp; [done|].
  unfold NormalizeSelection in Hp. destruct (TrimSpace _ ==? "") eqn:?; [done|].
  destruct (Normalize _); [|done]. injection Hp as <-. cbn [s_Mode] in H. unfold interactionModes in H.
  destruct (_ ==? ModeAlwaysAsk) eqn:Hmode; [|done]. bsimpl.
  destruct (FormValidate _) as [|form] eqn:Hf; [done|]. apply FormValidate_stable in Hf.
  destruct (validateAlwaysAskRequest _) eqn:Hv; [done|]. injection H as <-.
  unfold validateAlwaysAskRequest in Hv. cbn [rq_Form rq_Permission s_Mode] in *. split_and!; try done.
  destruct (f_Questions form) as [|[prompt multiple [|[l1 t1] [|[l2 t2] []]]] []]; try done.
  cbn in Hv. destruct (_ || _) eqn:Hc in Hv; [done|]. bsimpl. subst. by exists prompt.
Qed.

(** The decision an answer leads to. *)
Definition decision_of (answer : Answer) : option Resolution :=
  let text := TrimSpace (a_Text answer) in
  match a_OptionIndices answer with
  | [optionIndex] =>
      if optionIndex =? AllowOptionIndex then
        if text ==? "" then Some (mkResolution DecisionAllow "") else None
      else if optionIndex =? DenyOptionIndex
      then Some (mkResolution DecisionDeny (if text ==? "" then "tool call was denied" else text))
      else None
  | _ => None
  end.

Lemma ask_answer prompt answer :
  match normalize_answer 0 (mkQuestion prompt false [mkOption "Allow" false; mkOption "Deny" true]) answer with
  | inl _ => decision_of answer = None
  | inr answer' => exists res, decision_of answer = Some res
      /\ resolveAlwaysAskRequest (mkFormResolution [answer']) = inr res
  end.
Proof.
  destruct answer as [l text]. unfold normalize_answer, decision_of. cbn [a_OptionIndices a_Text q_Multiple q_Options].
  destruct l as [|x [|y l]]; [done| |done]. cbn [length Nat.eqb negb andb]. rewrite bool_decide_false by done.
  change (Z.of_nat 2) with 2. unfold AllowOptionIndex, DenyOptionIndex.
  destruct (x =? 0) eqn:H0; [|destruct (x =? 1) eqn:H1]; bsimpl; subst.
  - assert (select_indices 0 2 [] [0] = inr [0]) as -> by (vm_compute; reflexivity).
    assert (order_indices 0 [0] [mkOption "Allow" false; mkOption "Deny" true] = ([0], false)) as ->
      by (vm_compute; reflexivity).
    destruct (TrimSpace text ==? "") eqn:Ht; cbn; [|done]. eauto.
  - assert (select_indices 0 2 [] [1] = inr [1]) as -> by (vm_compute; reflexivity).
    assert (order_indices 0 [1] [mkOption "Allow" false; mkOption "Deny" true] = ([1], true)) as ->
      by (vm_compute; reflexivity).
    cbn. eauto.
  - cbn [select_indices]. destruct ((x <? 0) || (2 <=? x)) eqn:Hx; [done|]. bsimpl. lia.
Qed.

(** C40: A valid permission request is decided by the one answer to its one question
    and by nothing else: it is allowed exactly when the single selected option is
    [Allow] and no text comes with it, denied exactly when it is [Deny], with the
    trimmed text as the reason; any other response is an error. *)
Theorem permission_decision_is_exact request valid response res :
  RequestValidate request = inr valid ->
  Resolve request response = inr res <->
  exists answer, r_Answers response = [answer] /\ decision_of answer = Some res.
Proof.
  intros Hvalid. unfold Resolve. rewrite Hvalid.
  destruct (valid_request_form _ _ Hvalid) as (_ & -> & Hf & prompt & Hq).
  unfold NormalizeResolution. rewrite Hf, Hq. cbn [length]. unfold interactionModes.
  rewrite bool_decide_true by done. destruct response as [[|answer [|? l]]]; cbn [r_Answers length Nat.eqb negb].
  - split; [done|]. by intros (? & ? & _).
  - cbn [normalize_answers]. pose proof (ask_answer prompt answer) as Hask.
    destruct (normalize_answer _ _ _) as [e|answer'].
    + split; [done|]. intros (a & [= <-] & Ha). congruence.
    + destruct Hask as (res' & Hd & Hr). rewrite Hr. split.
      * intros [= <-]. eauto.
      * intros (a & [= <-] & Ha). congruence.
  - split; [done|]. by intros (? & ? & _).
Qed.
End Decisions.

(** A package that takes any text for one value. *)
Definition plain_json : JsonText :=
  {| json_any := string; decode_value raw := Some (raw, AtEOF); marshal_value v := Some v;
     schema_compiles _ := true; schema_accepts _ _ := true |}.

Definition example_request : FormError + Request :=
  @permissionChallenge plain_json "run_command"
    (mkModeDescriptor ModeAlwaysAsk "Always ask" "Ask" "{}") (mkSelection " always_ask " "")
    "ls" [].

Lemma permission_decision_is_exact_witness :
  match example_request with
  | inr request =>
      @RequestValidate plain_json request = inr request
      /\ (@Resolve plain_json request (mkFormResolution [mkAnswer [0] " "]) = inr (mkResolution DecisionAllow "")
          <-> exists answer, [mkAnswer [0] " "] = [answer]
                /\ decision_of answer = Some (mkResolution DecisionAllow ""))
  | inl _ => False
  end.
Proof.
  split; [vm_compute; reflexivity|].
  eapply (@permission_decision_is_exact plain_json _ _ (mkFormResolution [mkAnswer [0] " "])).
  vm_compute. reflexivity.
Defined.
