(* ===== verification/ProcessCmd.v ===== *)
(** * Shell commands and action payloads

    Models [internal/processcmd/processcmd.go] (which argument vector runs a shell
    command, input/output modes) and the payload decoders of
    [internal/processaction/processaction.go].  [encoding/json] is the class
    [PayloadCodec]; the checks of the decoders themselves are written out. *)
From S2P Require Import Prelude GoStrings DaemonProtocol.
From stdpp Require Import options.
Local Open Scope Z_scope.

(** ** processcmd *)

Definition ShellSelector : Type := string.
Definition ShellDefault : ShellSelector := "default".
Definition ShellSH : ShellSelector := "sh".
Definition ShellBash : ShellSelector := "bash".
Definition ShellZSH : ShellSelector := "zsh".
Definition ShellPowerShell : ShellSelector := "powershell".
Definition ShellPWSH : ShellSelector := "pwsh".
Definition ShellCMD : ShellSelector := "cmd".

Definition IOMode : Type := string.
Definition IOModePipe : IOMode := "pipe".
Definition IOModePTY : IOMode := "pty".

Definition ShellSelector_Valid (selector : ShellSelector) : bool :=
  bool_decide (selector ∈ [ShellDefault; ShellSH; ShellBash; ShellZSH; ShellPWSH;
                           ShellPowerShell; ShellCMD]).

Definition NUL_byte : Ascii.ascii := Ascii.zero.
Fixpoint contains_byte (a : Ascii.ascii) (s : string) : bool :=
  match s with
  | EmptyString => false
  | String b s' => Ascii.eqb a b || contains_byte a s'
  end.

Definition NormalizeShellCommand (command : string) (shell : ShellSelector)
    : string + (string * ShellSelector) :=
  if TrimSpace command ==? "" then inl "command is required"
  else if contains_byte NUL_byte command then inl "command cannot contain NUL bytes"
  else
    let shell := if shell ==? "" then ShellDefault else shell in
    if TrimSpace shell ==? "" then inl "shell selector cannot be blank"
    else if TrimSpace shell <>? shell
    then inl "shell selector cannot contain leading or trailing whitespace"
    else if contains_byte NUL_byte shell then inl "shell selector cannot contain NUL bytes"
    else if negb (ShellSelector_Valid shell) then inl "unsupported shell selector"
    else inr (command, shell).

Definition NormalizeIOMode (value : IOMode) : string + IOMode :=
  if value ==? "" then inr IOModePipe
  else if (value ==? IOModePipe) || (value ==? IOModePTY) then inr value
  else inl "unsupported io_mode".

Definition command_slot : string := "${command}".

Definition ShellArgvTemplate (shell : ShellSelector) (goos : string) : string + list string :=
  let shell := if shell ==? "" then ShellDefault else shell in
  let cmd := ["cmd.exe"; "/d"; "/s"; "/c"; command_slot] in
  let powershell exe := [exe; "-NoLogo"; "-NoProfile"; "-NonInteractive"; "-Command"; command_slot] in
  if shell ==? ShellDefault then
    inr (if goos ==? "windows" then cmd else ["/bin/sh"; "-c"; command_slot])
  else if shell ==? ShellSH then inr ["/bin/sh"; "-c"; command_slot]
  else if shell ==? ShellBash then inr ["bash"; "-c"; command_slot]
  else if shell ==? ShellZSH then inr ["zsh"; "-c"; command_slot]
  else if shell ==? ShellPWSH then inr (powershell "pwsh")
  else if shell ==? ShellPowerShell then inr (powershell "powershell.exe")
  else if shell ==? ShellCMD then inr cmd
  else inl "unsupported shell selector".

Definition ResolveShellCommand (command : string) (shell : ShellSelector) (goos : string)
    : string + list string :=
  match NormalizeShellCommand command shell with
  | inl e => inl e
  | inr (command, shell) =>
      match ShellArgvTemplate shell goos with
      | inl e => inl e
      | inr template =>
          inr ((fun item => if item ==? command_slot then command else item) <$> template)
      end
  end.

(** ** processaction payloads *)

Record WritePayload : Type := mkWritePayload { wp_CloseStdin : bool; wp_Data : string }.
Record ReadPayload : Type := mkReadPayload {
  rd_Cursor : option Z;
  rd_MaxBytes : Z;
  rd_WaitMS : Z
}.

(** [unmarshal_fields] is [json.Unmarshal] into a map of raw values ([Some None] for
    [null]); [decode_*] are [Decoder.Decode] with unknown fields refused, with the
    rest of the input; [only_space] tells that decoding the rest gives [io.EOF]. *)
Class PayloadCodec : Type := {
  unmarshal_fields : string -> option (option (list (string * string)));
  decode_write : string -> option (WritePayload * string);
  decode_read : string -> option (ReadPayload * string);
  decode_empty : string -> option (unit * string);
  only_space : string -> bool
}.

Section Payloads.
Context {PC : PayloadCodec}.

Definition decodeObject {T} (decode : string -> option (T * string)) (raw : string) : string + T :=
  match unmarshal_fields raw with
  | None => inl "json"
  | Some None => inl "payload must be a JSON object"
  | Some (Some fields) =>
      if existsb (fun nv => TrimSpace nv.2 ==? "null") fields
      then inl "payload field cannot be null"
      else
        match decode raw with
        | None => inl "json"
        | Some (dst, rest) =>
            if only_space rest then inr dst else inl "payload must contain one JSON object"
        end
  end.

Definition DecodeWritePayload (raw : string) : string + WritePayload :=
  match decodeObject decode_write raw with
  | inl e => inl e
  | inr payload =>
      if (wp_Data payload ==? "") && negb (wp_CloseStdin payload)
      then inl "write payload requires non-empty data or close_stdin=true"
      else if MaxWriteBytes <? Z.of_nat (String.length (wp_Data payload))
      then inl "write data is too long"
      else inr payload
  end.

Definition DecodeReadPayload (raw : string) : string + ReadPayload :=
  match decodeObject decode_read raw with
  | inl e => inl e
  | inr payload =>
      if match rd_Cursor payload with Some c => c <? 0 | None => false end
      then inl "cursor cannot be negative"
      else if (rd_MaxBytes payload <? 0) || (MaxObservationBytes <? rd_MaxBytes payload)
      then inl "max_bytes is out of range"
      else if (rd_WaitMS payload <? 0) || (MaxWaitMilliseconds <? rd_WaitMS payload)
      then inl "wait_ms is out of range"
      else inr payload
  end.

Definition ObservationBytes (payload : ReadPayload) : Z :=
  if rd_MaxBytes payload =? 0 then DefaultObservationBytes else rd_MaxBytes payload.

Definition DecodeEmptyPayload (raw : string) : string + unit := decodeObject decode_empty raw.
End Payloads.

(** ** What the callers rely on *)

Definition templates : list (list string) :=
  [["cmd.exe"; "/d"; "/s"; "/c"]; ["/bin/sh"; "-c"]; ["bash"; "-c"]; ["zsh"; "-c"];
   ["pwsh"; "-NoLogo"; "-NoProfile"; "-NonInteractive"; "-Command"];
   ["powershell.exe"; "-NoLogo"; "-NoProfile"; "-NonInteractive"; "-Command"]].

Lemma ShellArgvTemplate_shape shell goos template :
  ShellArgvTemplate shell goos = inr template ->
  exists fixed, template = fixed ++ [command_slot] /\ fixed ∈ templates.
Proof.
  unfold ShellArgvTemplate, templates. intros H.
  repeat (case_match; simplify_eq/=); try done;
    match goal with |- exists f, ?l = _ /\ _ => exists (removelast l) end;
    (split; [reflexivity|apply (bool_decide_unpack _); vm_compute; exact I]).
Qed.

(** A resolved command is one argument of its own, the last one; the rest of the
    vector is one of a few fixed lists and depends on the selector and the platform
    only. *)
Lemma ResolveShellCommand_argv command shell goos argv :
  ResolveShellCommand command shell goos = inr argv ->
  exists fixed, argv = fixed ++ [command] /\ fixed ∈ templates
    /\ ShellArgvTemplate shell goos = inr (fixed ++ [command_slot]).
Proof.
  unfold ResolveShellCommand. intros H.
  destruct (NormalizeShellCommand command shell) as [|[command' shell']] eqn:E; [done|].
  assert (command' = command /\ ShellArgvTemplate shell' goos = ShellArgvTemplate shell goos)
    as [-> Hsame].
  { unfold NormalizeShellCommand in E. repeat (case_match; simplify_eq/=; try done); split; try done.
    bsimpl. by subst. }
  rewrite Hsame in H. destruct (ShellArgvTemplate shell goos) as [|template] eqn:Et; [done|].
  simplify_eq. destruct (ShellArgvTemplate_shape _ _ _ Et) as (fixed & -> & Hin).
  exists fixed. split_and!; [|done|done]. rewrite fmap_app. simpl.
  f_equal. clear -Hin. unfold templates in Hin.
  repeat (apply elem_of_cons in Hin as [->|Hin]; [reflexivity|]). by apply elem_of_nil in Hin.
Qed.
