(* ===== verification/DaemonMessages.v ===== *)
(** * The messages of the daemon socket

    Models [Message], its [MarshalJSON] and [UnmarshalJSON] in
    [internal/daemonprotocol/protocol.go]: which payload a message of each type
    carries, which messages have no encoding, and what reading a message back gives.

    [encoding/json] is the class [Json], one instance per payload type: [json_Marshal],
    and [json_Decode] (one [Decoder.Decode], with the rest of the input).  A value
    survives its own encoding when its strings are valid UTF-8 and its raw messages
    compact; [json_plain] stands for that. *)
From S2P Require Import Prelude GoStrings DaemonProtocol ProcessCmd.
From Stdlib Require Import Ascii.
From stdpp Require Import options.
Local Open Scope Z_scope.

(** ** Types *)

Inductive MessageType : Type :=
  | MessageHeartbeat
  | MessageHeartbeatAck
  | MessageProcessOffer
  | MessageProcessAccept
  | MessageProcessAcceptAck
  | MessageProcessTerminate
  | MessageActionOffer
  | MessageActionAccept
  | MessageActionAcceptAck
  | MessageReport
  | MessageReportAck
  | MessageError
  | MessageRuntimeEnded
  | MessageSkillOffer
  | MessageSkillReport
  | MessageOther (s : string).

Global Instance MessageType_eq_dec : EqDecision MessageType.
Proof. solve_decision. Defined.

Definition ErrorCodeProcessOfferUnavailable : string := "process_offer_unavailable".
Definition ErrorCodeActionOfferUnavailable : string := "action_offer_unavailable".
Definition ErrorCodeMachineDecommissioned : string := "machine_decommissioned".
Definition ErrorCodeAuthorizationRevoked : string := "authorization_revoked".

Record ProcessOffer : Type := mkProcessOffer {
  po_ProcessID : string;
  po_PreparationError : string;
  po_IOMode : IOMode;
  po_Command : string;
  po_ShellSelector : ShellSelector;
  po_Cwd : string;
  po_Env : list (string * string);
  po_WaitMs : Z;
  po_TimeoutSeconds : Z
}.

Record ActionOffer : Type := mkActionOffer {
  ao_ProcessID : string;
  ao_ProcessActionID : string;
  ao_ActionKind : Kind;
  ao_Seq : Z;
  ao_Payload : string
}.

Record ActionGrant : Type := mkActionGrant {
  ag_ProcessID : string;
  ag_ProcessActionID : string;
  ag_ProcessState : ProcessState;
  ag_DefaultOutputCursor : Z
}.

Inductive SkillState : Type :=
  | SkillStateReady | SkillStateFailed | SkillStateTimeout | SkillStateUnreachable
  | SkillStateOther (s : string).

Record SkillOffer : Type := mkSkillOffer {
  so_RequestID : string;
  so_SkillID : string;
  so_RevisionID : string;
  so_DownloadToken : string;
  so_DownloadExpiresAt : Z;
  so_Digest : string
}.

Record SkillReport : Type := mkSkillReport {
  sk_RequestID : string;
  sk_SkillID : string;
  sk_State : SkillState;
  sk_ErrorCode : string;
  sk_Error : string
}.

(** [ProcessAssignment] with its [Process] ([runtime_types.go]): what a supervisor is
    given of an offer. *)
Record ProcessAssignment : Type := mkAssignment {
  as_ID : string;
  as_Command : string;
  as_ShellSelector : ShellSelector;
  as_Cwd : string;
  as_IOMode : IOMode;
  as_Env : list (string * string);
  as_PreparationError : string;
  as_WaitMs : Z;
  as_TimeoutSeconds : Z
}.

(** [supervisorIdentityBootstrap] ([runner_subprocess.go]): what a supervisor reads when
    it starts. *)
Record supervisorIdentityBootstrap : Type := mkIdentity {
  sb_OmnaraHome : string;
  sb_InstallationID : string;
  sb_MachineID : string;
  sb_ProcessID : string;
  sb_SupervisorInstanceID : string;
  sb_SupervisorToken : string
}.

(** [uuid.Nil], the zero value of [DaemonInstanceID]. *)
Definition uuid_Nil : string := "00000000-0000-0000-0000-000000000000".

Record Message : Type := mkMessage {
  m_Type : MessageType;
  m_ProcessID : string;
  m_ProcessActionID : string;
  m_ReportID : string;
  m_ProcessOffer : option ProcessOffer;
  m_ActionOffer : option ActionOffer;
  m_ActionGrant : option ActionGrant;
  m_SkillOffer : option SkillOffer;
  m_SkillReport : option SkillReport;
  m_Event : option ReportedEvent;
  m_DaemonInstanceID : string;
  m_ObservedPlatform : string;
  m_NextHeartbeatAfterMS : Z;
  m_AckStatus : AckStatus;
  m_ErrorCode : string;
  m_Error : string
}.

(** [Message{Type: t}] with the fields that single messages set. *)
Definition message (t : MessageType) : Message :=
  mkMessage t "" "" "" None None None None None None uuid_Nil "" 0 (AckStatusOther "") "" "".
Definition process_message (t : MessageType) (processID : string) : Message :=
  mkMessage t processID "" "" None None None None None None uuid_Nil "" 0 (AckStatusOther "") "" "".
Definition action_message (t : MessageType) (processID actionID : string) : Message :=
  mkMessage t processID actionID "" None None None None None None uuid_Nil "" 0
    (AckStatusOther "") "" "".
Definition report_message (reportID : string) (event : option ReportedEvent) : Message :=
  mkMessage MessageReport "" "" reportID None None None None None event uuid_Nil "" 0
    (AckStatusOther "") "" "".
Definition report_ack_message (reportID : string) (status : AckStatus) (code err : string) : Message :=
  mkMessage MessageReportAck "" "" reportID None None None None None None uuid_Nil "" 0 status code err.
Definition skill_report_message (report : SkillReport) : Message :=
  mkMessage MessageSkillReport "" "" "" None None None None (Some report) None uuid_Nil "" 0
    (AckStatusOther "") "" "".

(** ** Payloads *)

Record envelope : Type := mkEnvelope { env_Type : MessageType; env_Payload : string }.
Record heartbeatPayload : Type := mkHeartbeat { hb_DaemonInstanceID : string; hb_ObservedPlatform : string }.
Record heartbeatAckPayload : Type := mkHeartbeatAck { ha_NextHeartbeatAfterMS : Z }.
Record processPayload : Type := mkProcessPayload { pp_ProcessID : string }.
Record actionPayload : Type := mkActionPayload { ap_ProcessID : string; ap_ProcessActionID : string }.
Record reportPayload : Type := mkReportPayload { rp_ReportID : string; rp_Event : option ReportedEvent }.
Record reportAckPayload : Type := mkReportAckPayload {
  ra_AckStatus : AckStatus; ra_ReportID : string; ra_ErrorCode : string; ra_Error : string }.
Record errorPayload : Type := mkErrorPayload {
  er_ErrorCode : string; er_Error : string; er_ProcessID : string; er_ProcessActionID : string }.
Record runtimeEndedPayload : Type := mkRuntimeEnded { re_ErrorCode : string; re_Error : string }.

Class Json (A : Type) : Type := {
  json_Marshal : A -> option string;
  json_Decode : string -> option (A * string);
  json_plain : A -> Prop
}.

(** What the round trip relies on: a plain value is read back from its encoding, with
    nothing left, and the encoding of a struct is an object. *)
Class JsonLaws (A : Type) `{!Json A} : Prop := {
  json_decode_marshal a s : json_plain a -> json_Marshal a = Some s -> json_Decode s = Some (a, "");
  json_object a s : json_Marshal a = Some s -> exists body, s = String "{"%char body /\ TrimSpace s = s
}.

(** All payload types. *)
Class MessageCodec : Type := {
  codec_envelope :: Json envelope;
  codec_heartbeat :: Json heartbeatPayload;
  codec_heartbeatAck :: Json heartbeatAckPayload;
  codec_process :: Json processPayload;
  codec_action :: Json actionPayload;
  codec_report :: Json reportPayload;
  codec_reportAck :: Json reportAckPayload;
  codec_error :: Json errorPayload;
  codec_runtimeEnded :: Json runtimeEndedPayload;
  codec_processOffer :: Json ProcessOffer;
  codec_actionOffer :: Json ActionOffer;
  codec_actionGrant :: Json ActionGrant;
  codec_skillOffer :: Json SkillOffer;
  codec_skillReport :: Json SkillReport;
  at_EOF : string -> bool                    (**r decoding the rest gives [io.EOF] *)
}.

Class MessageCodecLaws `{MC : MessageCodec} : Prop := {
  laws_heartbeat :: JsonLaws heartbeatPayload;
  laws_heartbeatAck :: JsonLaws heartbeatAckPayload;
  laws_process :: JsonLaws processPayload;
  laws_action :: JsonLaws actionPayload;
  laws_report :: JsonLaws reportPayload;
  laws_reportAck :: JsonLaws reportAckPayload;
  laws_error :: JsonLaws errorPayload;
  laws_runtimeEnded :: JsonLaws runtimeEndedPayload;
  laws_processOffer :: JsonLaws ProcessOffer;
  laws_actionOffer :: JsonLaws ActionOffer;
  laws_actionGrant :: JsonLaws ActionGrant;
  laws_skillOffer :: JsonLaws SkillOffer;
  laws_skillReport :: JsonLaws SkillReport;
  (** a payload that [json.Marshal] wrote is already compact *)
  laws_envelope {A} `{!Json A, !JsonLaws A} (a : A) t body s :
    json_Marshal a = Some body -> json_Marshal (mkEnvelope t body) = Some s ->
    json_Decode s = Some (mkEnvelope t body, "");
  laws_EOF : at_EOF "" = true
}.

Section Messages.
Context {MC : MessageCodec}.

(** [payloadForType]; the inner [None] is a failure of [json.Marshal]. *)
Definition payloadForType (m : Message) : string + string :=
  let marshal {A} `{!Json A} (payload : A) : string + string :=
    match json_Marshal payload with Some body => inr body | None => inl "json" end in
  let required {A} `{!Json A} (payload : option A) (what : string) : string + string :=
    match payload with Some p => marshal p | None => inl (what +:+ " payload is required") end in
  match m_Type m with
  | MessageHeartbeat => marshal (mkHeartbeat (m_DaemonInstanceID m) (m_ObservedPlatform m))
  | MessageHeartbeatAck => marshal (mkHeartbeatAck (m_NextHeartbeatAfterMS m))
  | MessageProcessOffer => required (m_ProcessOffer m) "process_offer"
  | MessageProcessAccept | MessageProcessAcceptAck | MessageProcessTerminate =>
      marshal (mkProcessPayload (m_ProcessID m))
  | MessageActionOffer => required (m_ActionOffer m) "action_offer"
  | MessageActionAccept => marshal (mkActionPayload (m_ProcessID m) (m_ProcessActionID m))
  | MessageActionAcceptAck => required (m_ActionGrant m) "action_accept_ack"
  | MessageReport => marshal (mkReportPayload (m_ReportID m) (m_Event m))
  | MessageReportAck =>
      marshal (mkReportAckPayload (m_AckStatus m) (m_ReportID m) (m_ErrorCode m) (m_Error m))
  | MessageError =>
      marshal (mkErrorPayload (m_ErrorCode m) (m_Error m) (m_ProcessID m) (m_ProcessActionID m))
  | MessageRuntimeEnded => marshal (mkRuntimeEnded (m_ErrorCode m) (m_Error m))
  | MessageSkillOffer => required (m_SkillOffer m) "skill_offer"
  | MessageSkillReport => required (m_SkillReport m) "skill_report"
  | MessageOther t => inl ("unsupported daemon protocol message type " +:+ t)
  end.

Definition Message_MarshalJSON (m : Message) : string + string :=
  if m_Type m ==? MessageOther "" then inl "daemon protocol message type is required"
  else
    match payloadForType m with
    | inl e => inl e
    | inr payload =>
        match json_Marshal (mkEnvelope (m_Type m) payload) with
        | Some data => inr data
        | None => inl "json"
        end
    end.

Definition decodeEnvelope {A} `{!Json A} (data : string) : string + A :=
  match json_Decode data with
  | None => inl "json"
  | Some (dst, rest) =>
      if at_EOF rest then inr dst else inl "daemon protocol payload contains multiple JSON values"
  end.

Definition messageFromEnvelope (env : envelope) : string + Message :=
  let t := env_Type env in
  let decode {A} `{!Json A} (f : A -> Message) : string + Message :=
    match decodeEnvelope (env_Payload env) with inl e => inl e | inr payload => inr (f payload) end in
  let fields := mkMessage t in
  match t with
  | MessageHeartbeat => decode (fun p : heartbeatPayload =>
      fields "" "" "" None None None None None None (hb_DaemonInstanceID p) (hb_ObservedPlatform p) 0
        (AckStatusOther "") "" "")
  | MessageHeartbeatAck => decode (fun p : heartbeatAckPayload =>
      fields "" "" "" None None None None None None uuid_Nil "" (ha_NextHeartbeatAfterMS p)
        (AckStatusOther "") "" "")
  | MessageProcessOffer => decode (fun p : ProcessOffer =>
      fields (po_ProcessID p) "" "" (Some p) None None None None None uuid_Nil "" 0
        (AckStatusOther "") "" "")
  | MessageProcessAccept | MessageProcessAcceptAck | MessageProcessTerminate =>
      decode (fun p : processPayload => process_message t (pp_ProcessID p))
  | MessageActionOffer => decode (fun p : ActionOffer =>
      fields (ao_ProcessID p) (ao_ProcessActionID p) "" None (Some p) None None None None uuid_Nil "" 0
        (AckStatusOther "") "" "")
  | MessageActionAccept => decode (fun p : actionPayload =>
      action_message t (ap_ProcessID p) (ap_ProcessActionID p))
  | MessageActionAcceptAck => decode (fun p : ActionGrant =>
      fields (ag_ProcessID p) (ag_ProcessActionID p) "" None None (Some p) None None None uuid_Nil "" 0
        (AckStatusOther "") "" "")
  | MessageReport => decode (fun p : reportPayload => report_message (rp_ReportID p) (rp_Event p))
  | MessageReportAck => decode (fun p : reportAckPayload =>
      report_ack_message (ra_ReportID p) (ra_AckStatus p) (ra_ErrorCode p) (ra_Error p))
  | MessageError => decode (fun p : errorPayload =>
      fields (er_ProcessID p) (er_ProcessActionID p) "" None None None None None None uuid_Nil "" 0
        (AckStatusOther "") (er_ErrorCode p) (er_Error p))
  | MessageRuntimeEnded => decode (fun p : runtimeEndedPayload =>
      fields "" "" "" None None None None None None uuid_Nil "" 0 (AckStatusOther "")
        (re_ErrorCode p) (re_Error p))
  | MessageSkillOffer => decode (fun p : SkillOffer =>
      fields "" "" "" None None None (Some p) None None uuid_Nil "" 0 (AckStatusOther "") "" "")
  | MessageSkillReport => decode skill_report_message
  | MessageOther _ => inr (message t)
  end.

Definition Message_UnmarshalJSON (data : string) : string + Message :=
  match decodeEnvelope data with
  | inl e => inl e
  | inr env =>
      if env_Type env ==? MessageOther "" then inl "daemon protocol message type is required"
      else if env_Payload env ==? "" then inl "daemon protocol payload is required"
      else
        match TrimSpace (env_Payload env) with
        | String "{"%char _ => messageFromEnvelope env
        | _ => inl "daemon protocol payload must be a JSON object"
        end
  end.

(** ** The round trip *)

(** What a message of its type carries: the other fields are dropped, and the
    identifiers of an offer or a grant are those of the payload. *)
Definition carried (m : Message) : Message :=
  let fields := mkMessage (m_Type m) in
  match m_Type m with
  | MessageHeartbeat => fields "" "" "" None None None None None None (m_DaemonInstanceID m)
      (m_ObservedPlatform m) 0 (AckStatusOther "") "" ""
  | MessageHeartbeatAck => fields "" "" "" None None None None None None uuid_Nil ""
      (m_NextHeartbeatAfterMS m) (AckStatusOther "") "" ""
  | MessageProcessOffer =>
      fields (default "" (po_ProcessID <$> m_ProcessOffer m)) "" "" (m_ProcessOffer m)
        None None None None None uuid_Nil "" 0 (AckStatusOther "") "" ""
  | MessageProcessAccept | MessageProcessAcceptAck | MessageProcessTerminate =>
      process_message (m_Type m) (m_ProcessID m)
  | MessageActionOffer =>
      fields (default "" (ao_ProcessID <$> m_ActionOffer m))
        (default "" (ao_ProcessActionID <$> m_ActionOffer m)) "" None (m_ActionOffer m)
        None None None None uuid_Nil "" 0 (AckStatusOther "") "" ""
  | MessageActionAccept => action_message (m_Type m) (m_ProcessID m) (m_ProcessActionID m)
  | MessageActionAcceptAck =>
      fields (default "" (ag_ProcessID <$> m_ActionGrant m))
        (default "" (ag_ProcessActionID <$> m_ActionGrant m)) "" None None (m_ActionGrant m)
        None None None uuid_Nil "" 0 (AckStatusOther "") "" ""
  | MessageReport => report_message (m_ReportID m) (m_Event m)
  | MessageReportAck => report_ack_message (m_ReportID m) (m_AckStatus m) (m_ErrorCode m) (m_Error m)
  | MessageError => fields (m_ProcessID m) (m_ProcessActionID m) "" None None None None None None
      uuid_Nil "" 0 (AckStatusOther "") (m_ErrorCode m) (m_Error m)
  | MessageRuntimeEnded => fields "" "" "" None None None None None None uuid_Nil "" 0
      (AckStatusOther "") (m_ErrorCode m) (m_Error m)
  | MessageSkillOffer => fields "" "" "" None None None (m_SkillOffer m) None None uuid_Nil "" 0
      (AckStatusOther "") "" ""
  | MessageSkillReport => fields "" "" "" None None None None (m_SkillReport m) None uuid_Nil "" 0
      (AckStatusOther "") "" ""
  | MessageOther _ => message (m_Type m)
  end.

(** The payload of the message survives its encoding. *)
Definition plain_message (m : Message) : Prop :=
  match m_Type m with
  | MessageHeartbeat => json_plain (mkHeartbeat (m_DaemonInstanceID m) (m_ObservedPlatform m))
  | MessageHeartbeatAck => json_plain (mkHeartbeatAck (m_NextHeartbeatAfterMS m))
  | MessageProcessOffer => forall p, m_ProcessOffer m = Some p -> json_plain p
  | MessageProcessAccept | MessageProcessAcceptAck | MessageProcessTerminate =>
      json_plain (mkProcessPayload (m_ProcessID m))
  | MessageActionOffer => forall p, m_ActionOffer m = Some p -> json_plain p
  | MessageActionAccept => json_plain (mkActionPayload (m_ProcessID m) (m_ProcessActionID m))
  | MessageActionAcceptAck => forall p, m_ActionGrant m = Some p -> json_plain p
  | MessageReport => json_plain (mkReportPayload (m_ReportID m) (m_Event m))
  | MessageReportAck =>
      json_plain (mkReportAckPayload (m_AckStatus m) (m_ReportID m) (m_ErrorCode m) (m_Error m))
  | MessageError =>
      json_plain (mkErrorPayload (m_ErrorCode m) (m_Error m) (m_ProcessID m) (m_ProcessActionID m))
  | MessageRuntimeEnded => json_plain (mkRuntimeEnded (m_ErrorCode m) (m_Error m))
  | MessageSkillOffer => forall p, m_SkillOffer m = Some p -> json_plain p
  | MessageSkillReport => forall p, m_SkillReport m = Some p -> json_plain p
  | MessageOther _ => True
  end.

(** Reading back an envelope around the encoding of [a]. *)
Lemma read_back {ML : MessageCodecLaws} {A} `{!Json A, !JsonLaws A} (a : A) t body data :
  t <> MessageOther "" -> json_Marshal a = Some body ->
  json_Marshal (mkEnvelope t body) = Some data ->
  Message_UnmarshalJSON data = messageFromEnvelope (mkEnvelope t body).
Proof.
  intros Ht Hb Hd. unfold Message_UnmarshalJSON, decodeEnvelope.
  rewrite (laws_envelope a t body data Hb Hd), laws_EOF. simpl.
  destruct (json_object a body Hb) as (rest & -> & Htrim).
  rewrite (bool_decide_eq_false_2 (t = _)) by done. simpl. by rewrite Htrim.
Qed.

Lemma decode_back {ML : MessageCodecLaws} {A} `{!Json A, !JsonLaws A} (a : A) body :
  json_plain a -> json_Marshal a = Some body -> decodeEnvelope body = inr a.
Proof.
  intros Hp Hb. unfold decodeEnvelope. by rewrite (json_decode_marshal a body Hp Hb), laws_EOF.
Qed.

Lemma message_read_back {ML : MessageCodecLaws} m data :
  plain_message m -> Message_MarshalJSON m = inr data ->
  Message_UnmarshalJSON data = inr (carried m).
Proof.
  unfold Message_MarshalJSON. case_bool_decide as Ht; [done|]. intros Hp H.
  destruct (payloadForType m) as [|body] eqn:Eb; [done|]. case_match eqn:Ed; simplify_eq.
  unfold payloadForType in Eb. unfold plain_message in Hp. unfold carried.
  destruct (m_Type m) eqn:Et; simpl in *; try done;
    repeat match goal with
    | H : match ?x with _ => _ end = inr body |- _ => destruct x eqn:?; [|done]
    | H : inr _ = inr body |- _ => injection H as ->
    end;
    match goal with H : @json_Marshal _ _ ?a = Some body |- _ => rewrite (read_back a _ body data Ht H Ed) end;
    unfold messageFromEnvelope; simpl;
    match goal with H : @json_Marshal _ _ ?a = Some body |- _ =>
      rewrite (decode_back a body); [reflexivity|auto|exact H] end.
Qed.
End Messages.


(** A codec that knows the acknowledgement of one heartbeat. *)
Definition no_json {A} : Json A := {|
  json_Marshal _ := None; json_Decode _ := None; json_plain _ := False |}.
Definition demo_codec : MessageCodec := {|
  codec_envelope := {|
    json_Marshal env :=
      if (env_Type env ==? MessageHeartbeatAck) && (env_Payload env ==? "{a}") then Some "{m}" else None;
    json_Decode s := if s ==? "{m}" then Some (mkEnvelope MessageHeartbeatAck "{a}", "") else None;
    json_plain _ := True |};
  codec_heartbeat := no_json;
  codec_heartbeatAck := {|
    json_Marshal p := if ha_NextHeartbeatAfterMS p =? 5000 then Some "{a}" else None;
    json_Decode s := if s ==? "{a}" then Some (mkHeartbeatAck 5000, "") else None;
    json_plain _ := True |};
  codec_process := no_json; codec_action := no_json; codec_report := no_json;
  codec_reportAck := no_json; codec_error := no_json; codec_runtimeEnded := no_json;
  codec_processOffer := no_json; codec_actionOffer := no_json; codec_actionGrant := no_json;
  codec_skillOffer := no_json; codec_skillReport := no_json;
  at_EOF s := s ==? "" |}.

Lemma no_json_laws {A} : @JsonLaws A no_json.
Proof. by split. Qed.

Lemma demo_codec_laws : @MessageCodecLaws demo_codec.
Proof.
  split; try apply no_json_laws; [| |reflexivity].
  - split; intros [n] s; simpl.
    + intros _. destruct (Z.eqb_spec n 5000); [|done]. intros [= <-]. by subst.
    + case_match; intros [= <-]. by eexists.
  - intros A J JL a t body s _. simpl. case_match eqn:E; intros [= <-]. bsimpl.
    by subst.
Qed.

Definition demo_heartbeat_ack : Message :=
  mkMessage MessageHeartbeatAck "ignored" "" "" None None None None None None uuid_Nil "" 5000
    (AckStatusOther "") "" "".

