(* ===== verification/RunnerEnv.v ===== *)
(** * The environment of supervisors and workloads

    Models [sanitizedRunnerEnv], [processRunnerEnv] and [workloadProcessEnv] of
    [internal/machinedaemon/runner_subprocess.go]: which variables of the daemon and
    of an assignment reach the supervisor and the command it runs.

    Variable names are folded with [strings.ToUpper].  The upper case of a rune
    outside ASCII is a table of package [unicode]; [upper_rune] stands for it, on
    encodings, and the theorems need nothing of it. *)
From Stdlib Require Import Ascii.
From S2P Require Import Prelude GoStrings.
From stdpp Require Import options.
Local Open Scope Z_scope.

Class Unicode : Type := { upper_rune : string -> string }.

(** ** [strings] *)

Definition upper (c : ascii) : ascii := if between 97 122 c then ascii_of_N (N_of_ascii c - 32) else c.

(** U+FFFD, which [strings.Map] writes for a byte that decodes to no rune. *)
Definition replacement_rune : string :=
  String (ascii_of_N 239) (String (ascii_of_N 191) (String (ascii_of_N 189) "")).

Section Environment.
Context {U : Unicode}.

Definition chars (l : list ascii) : string := String.string_of_list_ascii l.

Fixpoint ToUpper (s : string) : string :=
  match s with
  | "" => ""
  | String a s1 =>
      if rune1 a then String (upper a) (ToUpper s1)
      else
        match s1 with
        | "" => replacement_rune +:+ ToUpper s1
        | String b s2 =>
            if rune2 a b then upper_rune (chars [a; b]) +:+ ToUpper s2
            else
              match s2 with
              | "" => replacement_rune +:+ ToUpper s1
              | String c s3 =>
                  if rune3 a b c then upper_rune (chars [a; b; c]) +:+ ToUpper s3
                  else
                    match s3 with
                    | "" => replacement_rune +:+ ToUpper s1
                    | String d s4 =>
                        if rune4 a b c d then upper_rune (chars [a; b; c; d]) +:+ ToUpper s4
                        else replacement_rune +:+ ToUpper s1
                    end
              end
        end
  end.

(** [strings.Cut(entry, "=")] without its third result. *)
Fixpoint cut_equals (s : string) : string * string :=
  match s with
  | "" => ("", "")
  | String a rest =>
      if a ==? "="%char then ("", rest)
      else let '(name, value) := cut_equals rest in (String a name, value)
  end.

Definition HasPrefix (s prefix : string) : bool := String.prefix prefix s.

Definition string_le (x y : string) : Prop := String.leb x y = true.
Global Instance string_le_dec x y : Decision (string_le x y).
Proof. unfold string_le. apply _. Defined.

(** [slices.Sorted] *)
Definition sorted (l : list string) : list string := merge_sort string_le l.

(** ** runner_subprocess.go *)

Definition omnaraEnvironmentPrefix : string := "OMNARA_".
Definition omnaraHomeEnvironmentName : string := "OMNARA_HOME".

Definition allowed : list string :=
  ["HOME"; "USER"; "LOGNAME"; "SHELL"; "LANG"; "LC_ALL"; "LC_CTYPE"; "TERM"; "TMPDIR"; "TEMP"; "TMP";
   "SYSTEMROOT"; "WINDIR"; "COMSPEC"; "PATHEXT"; omnaraHomeEnvironmentName].

Definition sanitizedRunnerEnv (env : list string) (runnerPath : string) : list string :=
  List.filter (fun entry =>
    let upperKey := ToUpper (cut_equals entry).1 in
    (upperKey <>? "PATH") && bool_decide (upperKey ∈ allowed)) env
  ++ (if runnerPath <>? "" then ["PATH=" +:+ runnerPath] else []).

(** The first loop of [processRunnerEnv]: the canonical spelling of a name wins. *)
Definition add_base (byName : gmap string string) (entry : string) : gmap string string :=
  let name := (cut_equals entry).1 in
  let foldedName := ToUpper name in
  if bool_decide (byName !! foldedName = None) || (name ==? foldedName)
  then <[foldedName := entry]> byName else byName.

(** The second loop: a name that is there keeps its spelling. *)
Definition add_override (byName : gmap string string) (override : string * string) : gmap string string :=
  let foldedName := ToUpper override.1 in
  let name := match byName !! foldedName with
              | Some existing => (cut_equals existing).1
              | None => override.1
              end in
  <[foldedName := name +:+ "=" +:+ override.2]> byName.

Definition by_name (x y : string * string) : Prop := string_le x.1 y.1.
Global Instance by_name_dec x y : Decision (by_name x y).
Proof. unfold by_name. apply _. Defined.

Definition processRunnerEnv (base : list string) (runnerPath : string)
    (overrides : gmap string string) : list string :=
  let byName := fold_left add_base (sanitizedRunnerEnv base runnerPath) ∅ in
  let byName := fold_left add_override (merge_sort by_name (map_to_list overrides)) byName in
  sorted (map_to_list byName).*2.

(** The first loop of [workloadProcessEnv], for one entry. *)
Definition filter_base (entry : string) : option string :=
  let '(name, value) := cut_equals entry in
  let upperName := ToUpper name in
  if upperName ==? omnaraHomeEnvironmentName
  then Some (omnaraHomeEnvironmentName +:+ "=" +:+ value)
  else if HasPrefix upperName omnaraEnvironmentPrefix then None
  else Some entry.

Definition reserved (override : string * string) : Prop :=
  HasPrefix (ToUpper override.1) omnaraEnvironmentPrefix = true.
Global Instance reserved_dec o : Decision (reserved o).
Proof. unfold reserved. apply _. Defined.

Definition workloadProcessEnv (base : list string) (runnerPath : string)
    (overrides : gmap string string) : list string :=
  processRunnerEnv (omap filter_base base) runnerPath
    (filter (fun o => ~ reserved o) overrides).

(** ** Strings *)

Lemma HasPrefix_iff s p : HasPrefix s p = true <-> exists t, s = p +:+ t.
Proof.
  unfold HasPrefix. revert p. induction s as [|b s IH]; intros [|a p].
  - split; [by exists ""|done].
  - split; [done|]. intros (t & H). by rewrite app_cons in H.
  - split; [by exists (String b s)|done].
  - cbn [String.prefix]. destruct (ascii_dec a b) as [->|Hne].
    + rewrite IH. split; intros (t & H); exists t; [by rewrite H, app_cons|].
      rewrite app_cons in H. by injection H.
    + split; [done|]. intros (t & H). rewrite app_cons in H. by injection H as ->.
Qed.

Lemma HasPrefix_trans s p q : HasPrefix s p = true -> HasPrefix p q = true -> HasPrefix s q = true.
Proof.
  rewrite !HasPrefix_iff. intros (t & ->) (u & ->). exists (u +:+ t). by rewrite app_assoc.
Qed.

(** A byte of ASCII ends the runes before it. *)
Lemma equals_ends a b c :
  rune2 a "="%char = false /\ rune3 a "="%char b = false /\ rune3 a b "="%char = false
  /\ rune4 a "="%char b c = false /\ rune4 a b "="%char c = false /\ rune4 a b c "="%char = false.
Proof.
  assert (continues "="%char = false) as Hc by reflexivity.
  split_and!; apply not_true_is_false; intros H.
  - apply rune2_tail in H. congruence.
  - apply rune3_tail in H as [? _]. congruence.
  - apply rune3_tail in H as [_ ?]. congruence.
  - apply rune4_tail in H as (? & _). congruence.
  - apply rune4_tail in H as (_ & ? & _). congruence.
  - apply rune4_tail in H as (_ & _ & ?). congruence.
Qed.

Lemma ToUpper_cons a s1 :
  ToUpper (String a s1) =
    if rune1 a then String (upper a) (ToUpper s1)
    else
      match s1 with
      | "" => replacement_rune +:+ ToUpper s1
      | String b s2 =>
          if rune2 a b then upper_rune (chars [a; b]) +:+ ToUpper s2
          else
            match s2 with
            | "" => replacement_rune +:+ ToUpper s1
            | String c s3 =>
                if rune3 a b c then upper_rune (chars [a; b; c]) +:+ ToUpper s3
                else
                  match s3 with
                  | "" => replacement_rune +:+ ToUpper s1
                  | String d s4 =>
                      if rune4 a b c d then upper_rune (chars [a; b; c; d]) +:+ ToUpper s4
                      else replacement_rune +:+ ToUpper s1
                  end
            end
      end.
Proof. done. Qed.

(** Nothing changes for the bytes before an equals sign. *)
Ltac equals_ahead :=
  match goal with
  | |- context [rune2 ?a "="%char] => rewrite (proj1 (equals_ends a a a))
  | |- context [rune3 ?a "="%char ?b] => rewrite (proj1 (proj2 (equals_ends a b b)))
  | |- context [rune3 ?a ?b "="%char] => rewrite (proj1 (proj2 (proj2 (equals_ends a b b))))
  | |- context [rune4 ?a "="%char ?b ?c] => rewrite (proj1 (proj2 (proj2 (proj2 (equals_ends a b c)))))
  | |- context [rune4 ?a ?b "="%char ?c] => rewrite (proj1 (proj2 (proj2 (proj2 (proj2 (equals_ends a b c))))))
  | |- context [rune4 ?a ?b ?c "="%char] => rewrite (proj2 (proj2 (proj2 (proj2 (proj2 (equals_ends a b c))))))
  | |- context [match ?t with "" => _ | String _ _ => _ end] => is_var t; destruct t
  end.

Lemma ToUpper_app_equals s t : ToUpper (s +:+ String "="%char t) = ToUpper s +:+ String "="%char (ToUpper t).
Proof.
  induction s as [|a s IH] using string_wf_ind; [done|].
  assert (forall x c, (String.length c <= String.length s)%nat ->
    x +:+ ToUpper (c +:+ String "="%char t) = (x +:+ ToUpper c) +:+ String "="%char (ToUpper t)) as Hrest
    by (intros; by rewrite IH, !app_assoc).
  pose proof (Hrest replacement_rune s (Nat.le_refl _)) as Hbad. rewrite !app_cons.
  rewrite !(ToUpper_cons a).
  destruct (rune1 a) eqn:E1; [rewrite app_cons; f_equal; by apply IH|].
  destruct s as [|b s].
  { rewrite app_nil_l in *. repeat equals_ahead; exact Hbad. }
  rewrite !app_cons in *. destruct (rune2 a b) eqn:E2.
  { rewrite Hrest by (simpl; lia). done. }
  destruct s as [|c s].
  { rewrite app_nil_l in *. repeat equals_ahead; exact Hbad. }
  rewrite !app_cons in *. destruct (rune3 a b c) eqn:E3.
  { rewrite Hrest by (simpl; lia). done. }
  destruct s as [|d s].
  { rewrite app_nil_l in *. repeat equals_ahead; exact Hbad. }
  rewrite !app_cons in *. destruct (rune4 a b c d) eqn:E4; [|exact Hbad].
  rewrite Hrest by (simpl; lia). done.
Qed.

(** ** Where an entry comes from *)

Lemma cut_equals_spec s :
  (s = (cut_equals s).1 \/ s = (cut_equals s).1 +:+ String "="%char (cut_equals s).2)
  /\ forall t, cut_equals ((cut_equals s).1 +:+ String "="%char t) = ((cut_equals s).1, t).
Proof.
  induction s as [|a s [IH1 IH2]]; [split; [by left|done]|]. cbn [cut_equals].
  destruct (a ==? "="%char) eqn:E.
  { bsimpl. subst. split; [by right|done]. }
  destruct (cut_equals s) as [name value]. cbn [fst snd] in *. split.
  - destruct IH1 as [->|IH1]; [by left|right]. by rewrite app_cons, <- IH1.
  - intros t. rewrite app_cons. cbn [cut_equals]. by rewrite E, IH2.
Qed.

Lemma cut_name s t : cut_equals ((cut_equals s).1 +:+ String "="%char t) = ((cut_equals s).1, t).
Proof. apply cut_equals_spec. Qed.

(** The name of an entry made from a name that may itself hold an equals sign. *)
Lemma made_name n v : HasPrefix (ToUpper n) (ToUpper (cut_equals (n +:+ "=" +:+ v)).1) = true.
Proof.
  apply HasPrefix_iff. change ("=" +:+ v) with (String "="%char v).
  destruct (cut_equals_spec n) as [E H]. destruct (cut_equals n) as [x y]. cbn [fst snd] in *.
  destruct E as [->| ->].
  - rewrite H. exists "". by rewrite app_nil_r.
  - rewrite app_assoc, app_cons, H. cbn [fst]. rewrite ToUpper_app_equals. eauto.
Qed.

(** An entry of the daemon's own environment that may pass. *)
Inductive passes (env : list string) (runnerPath entry : string) : Prop :=
  | passes_allowed : entry ∈ env -> ToUpper (cut_equals entry).1 ∈ allowed -> passes env runnerPath entry
  | passes_path : runnerPath <> "" -> entry = "PATH=" +:+ runnerPath -> passes env runnerPath entry.

(** An entry that an assignment made. *)
Definition overridden (overrides : gmap string string) (k entry : string) : Prop :=
  exists n v name, overrides !! n = Some v /\ k = ToUpper n /\ entry = name +:+ "=" +:+ v.

Definition known (env : list string) (runnerPath : string) (overrides : gmap string string)
    (k entry : string) : Prop :=
  HasPrefix k (ToUpper (cut_equals entry).1) = true
  /\ (passes env runnerPath entry \/ overridden overrides k entry).

Lemma HasPrefix_refl s : HasPrefix s s = true.
Proof. apply HasPrefix_iff. exists "". by rewrite app_nil_r. Qed.

Lemma sanitized_passes env runnerPath entry :
  entry ∈ sanitizedRunnerEnv env runnerPath -> passes env runnerPath entry.
Proof.
  unfold sanitizedRunnerEnv. intros [H|H]%elem_of_app.
  - apply elem_of_filter_bool in H as [Hin Hf]. bsimpl. by apply passes_allowed.
  - case_bool_decide; simpl in H; [by apply elem_of_nil in H|]. apply list_elem_of_singleton in H.
    by apply passes_path.
Qed.

Lemma base_known env runnerPath overrides l byName :
  (forall e, e ∈ l -> passes env runnerPath e) -> map_Forall (known env runnerPath overrides) byName ->
  map_Forall (known env runnerPath overrides) (fold_left add_base l byName).
Proof.
  revert byName. induction l as [|e l IH]; intros byName Hl Hb; [done|]. simpl. apply IH.
  - intros x Hx. apply Hl. by right.
  - unfold add_base. case_match; [|done]. apply map_Forall_insert_2; [|done].
    split; [apply HasPrefix_refl|left; apply Hl; by left].
Qed.

Lemma override_known env runnerPath overrides l byName :
  (forall o, o ∈ l -> overrides !! o.1 = Some o.2) -> map_Forall (known env runnerPath overrides) byName ->
  map_Forall (known env runnerPath overrides) (fold_left add_override l byName).
Proof.
  revert byName. induction l as [|[n v] l IH]; intros byName Hl Hb; [done|]. simpl. apply IH.
  - intros x Hx. apply Hl. by right.
  - unfold add_override. cbn [fst snd].
    pose proof (Hl (n, v) (list_elem_of_here _ _)) as Hn. cbn [fst snd] in Hn.
    apply map_Forall_insert_2; [|done]. destruct (byName !! ToUpper n) as [existing|] eqn:E.
    + split; [|right; by exists n, v, (cut_equals existing).1].
      change ("=" +:+ v) with (String "="%char v). rewrite cut_name. apply (Hb _ _ E).
    + split; [apply made_name|right; by exists n, v, n].
Qed.

Lemma runner_env_known base runnerPath overrides entry :
  entry ∈ processRunnerEnv base runnerPath overrides ->
  exists k, known base runnerPath overrides k entry.
Proof.
  unfold processRunnerEnv, sorted. rewrite merge_sort_Permutation. intros H.
  apply list_elem_of_fmap in H as ([k e] & -> & H). exists k. apply elem_of_map_to_list in H.
  revert k e H. apply override_known.
  - intros [n v] Ho. rewrite merge_sort_Permutation in Ho. by apply elem_of_map_to_list in Ho.
  - apply base_known; [|apply map_Forall_empty]. intros x. apply sanitized_passes.
Qed.
Lemma filter_base_spec (base : list string) entry :
  entry ∈ omap filter_base base -> HasPrefix (ToUpper (cut_equals entry).1) omnaraEnvironmentPrefix = true ->
  exists b, b ∈ base /\ ToUpper (cut_equals b).1 = omnaraHomeEnvironmentName
    /\ entry = omnaraHomeEnvironmentName +:+ "=" +:+ (cut_equals b).2.
Proof.
  intros (b & Hb & H)%list_elem_of_omap Hp. unfold filter_base in H.
  destruct (cut_equals b) as [name value] eqn:E.
  destruct (ToUpper name ==? omnaraHomeEnvironmentName) eqn:E1; bsimpl.
  - exists b. rewrite E. by simplify_eq.
  - destruct (HasPrefix (ToUpper name) omnaraEnvironmentPrefix) eqn:E2; simplify_eq.
    rewrite E in Hp. cbn [fst] in Hp. congruence.
Qed.

(** C31: the environment of a command holds nothing of the control plane: a variable whose
    name begins with [OMNARA_], in whatever case, is [OMNARA_HOME] with the value the
    supervisor itself was given, never the assignment's; every other variable has a
    name on the list of harmless ones or was asked for by the assignment. *)
Theorem workload_environment_is_clean base runnerPath overrides entry :
  entry ∈ workloadProcessEnv base runnerPath overrides ->
  (HasPrefix (ToUpper (cut_equals entry).1) omnaraEnvironmentPrefix = true ->
   exists b, b ∈ base /\ ToUpper (cut_equals b).1 = omnaraHomeEnvironmentName
     /\ entry = omnaraHomeEnvironmentName +:+ "=" +:+ (cut_equals b).2)
  /\ (ToUpper (cut_equals entry).1 ∈ "PATH" :: allowed
      \/ exists n v, overrides !! n = Some v /\ HasPrefix (ToUpper n) (ToUpper (cut_equals entry).1) = true).
Proof.
  intros (k & Hk & Ho)%runner_env_known. destruct Ho as [[Hin Ha|_ ->]|(n & v & name & Hn & -> & ->)].
  - split; [by apply filter_base_spec|]. left. by right.
  - split; [done|]. left. by left.
  - apply map_lookup_filter_Some in Hn as [Hn Hr]. split; [|right; by eauto].
    intros Hp. destruct Hr. by eapply HasPrefix_trans.
Qed.
End Environment.

Definition ascii_only : Unicode := {| upper_rune := fun r => r |}.

Definition demo_base : list string :=
  ["Home=/root"; "OMNARA_TOKEN=secret"; "omnara_home=/srv"; "AWS_SECRET=x"; "PATH=/sbin"].
Definition demo_overrides : gmap string string :=
  {[ "OMNARA_HOME" := "/tmp"; "Omnara_Token" := "stolen"; "home" := "/work"; "DEBUG" := "1" ]}.
Definition demo_environment : list string :=
  workloadProcessEnv (U := ascii_only) demo_base "/bin" demo_overrides.

Lemma workload_environment_is_clean_witness :
  demo_environment = ["DEBUG=1"; "Home=/work"; "OMNARA_HOME=/srv"; "PATH=/bin"]
  /\ exists b, b ∈ demo_base /\ ToUpper (U := ascii_only) (cut_equals b).1 = omnaraHomeEnvironmentName
       /\ "OMNARA_HOME=/srv" = omnaraHomeEnvironmentName +:+ "=" +:+ (cut_equals b).2.
Proof.
  assert (demo_environment = ["DEBUG=1"; "Home=/work"; "OMNARA_HOME=/srv"; "PATH=/bin"]) as E
    by (vm_compute; reflexivity).
  split; [exact E|].
  assert ("OMNARA_HOME=/srv" ∈ demo_environment) as H by (rewrite E; right; right; left).
  assert (HasPrefix (ToUpper (U := ascii_only) (cut_equals "OMNARA_HOME=/srv").1)
    omnaraEnvironmentPrefix = true) as Hp by (vm_compute; reflexivity).
  exact (proj1 (workload_environment_is_clean (U := ascii_only) demo_base "/bin" demo_overrides
    "OMNARA_HOME=/srv" H) Hp).
Defined.
