(* ===== verification/ClientWorld.v ===== *)
(** * The daemon client and what surrounds it

    The state of [Client] ([internal/machinedaemon/runtime_types.go], client.go)
    and the primitives that [reconciliation.go] and [report_outbox.go] are written
    with: calls to the state database, lifetime locks ([localstore/lock.go]), the
    supervisor's control connection ([runner_ipc_client.go]), removal of files, and
    the table of running processes.

    A program is a function of the monad [M World].  The world holds the database,
    the objects behind Go's pointers (runtimes, runners, lock handles, numbered by
    allocation) and the replies of the environment.  Every call that leaves the
    daemon consumes one [Reply]: what other OS processes and goroutines did
    meanwhile ([rp_others], [rp_puts]) and how the call ended.  The theorems hold
    for all lists of replies; when the list is exhausted every call succeeds.

    The log records the calls in order.  It is not part of the program's state (no
    definition reads it); the theorems about ordering speak about it.

    An [error] is the list of the sentinels that [errors.Is] finds in it: wrapping
    keeps the list, [errors.Join] concatenates, a message without a sentinel is an
    [SText]. *)
From S2P Require Import Prelude GoStrings DaemonProtocol LocalPaths StateSchema StateQueries StateTx.
From S2P Require Import StateReport StateProcess StateAction StateTrace StateAudit LocalStore.
From stdpp Require Import options.
Local Open Scope Z_scope.

(** ** Errors *)

Inductive Sentinel : Type :=
  | SState (e : Err)                      (**r an error of the statedb package *)
  | SLockHeld                             (**r [localstore.ErrLockHeld] *)
  | SNotExist                             (**r [os.ErrNotExist] *)
  | SNoSpace | SQuota                     (**r [ENOSPC], [EDQUOT] *)
  | SRunnerIdentityMismatch
  | SRunnerStorageExhaustion
  | SStorageExhaustionTerminalReady
  | SLocalStateChanged                    (**r [errLocalStateChangedDuringRegistration] *)
  | SProbeUnavailable                     (**r [errLocalSupervisorProbeUnavailable] *)
  | SContext                              (**r the context ended *)
  | SStatus (code : Z)                    (**r [httpStatusError] *)
  | SInstanceSuperseded
  | SBindingMismatch
  | SMissingHeartbeat
  | SUnresolvedPreparation                (**r [errUnresolvedProcessPreparation] *)
  | SRuntimeUnregistered
  | SAuthorizationRevoked
  | SMachineDecommissioned
  | SIdleSleep                            (**r [errDaemonIdleSleep] *)
  | SExit (code : Z) (signal : string)   (**r [*exec.ExitError] *)
  | SProcessDone                          (**r [os.ErrProcessDone] *)
  | SText (message : string).

Global Instance Sentinel_eq_dec : EqDecision Sentinel.
Proof. solve_decision. Defined.

Definition error : Type := list Sentinel.

Definition errors_Is (err : error) (target : Sentinel) : bool := bool_decide (target ∈ err).

Definition errors_Join (errs : list (option error)) : option error :=
  match omap id errs with
  | [] => None
  | l => Some (concat l)
  end.

Definition failure (message : string) : error := [SText message].

Definition isStorageExhaustion (err : error) : bool :=
  errors_Is err SNoSpace || errors_Is err SQuota || errors_Is err (SState ErrFull)
  || errors_Is err SRunnerStorageExhaustion.

(** ** Objects *)

(** [ipcProcessRunner]; [rn_session] tells whether [reconciliation] is non-nil. *)
Record Runner : Type := mkRunner {
  rn_endpoint : string;
  rn_supervisorToken : string;
  rn_supervisorInstanceID : string;
  rn_done : bool;
  rn_storageFailureReady : bool;
  rn_session : bool
}.

Definition ready (rn : Runner) : Runner :=
  mkRunner (rn_endpoint rn) (rn_supervisorToken rn) (rn_supervisorInstanceID rn) (rn_done rn) true
    (rn_session rn).
Definition in_session (b : bool) (rn : Runner) : Runner :=
  mkRunner (rn_endpoint rn) (rn_supervisorToken rn) (rn_supervisorInstanceID rn) (rn_done rn)
    (rn_storageFailureReady rn) b.

(** [processRuntime]; the runner is a pointer. *)
Record Runtime : Type := mkRuntime {
  rt_processID : string;
  rt_supervisorInstanceID : string;
  rt_supervisorPID : Z;
  rt_runner : option nat;
  rt_cleanupOnly : bool;
  rt_storageFailureReporting : bool
}.

(** [localstore.Lock]; [lk_file] tells whether the file is open (and locked). *)
Record Lock : Type := mkLock { lk_file : bool; lk_path : string }.

(** [Config], the fields the modelled code reads. *)
Record Config : Type := mkConfig {
  cfg_OmnaraHome : string;
  cfg_ExpectedInstallationID : string;
  cfg_ExpectedMachineID : string;
  cfg_RetryInterval : Z;
  cfg_RunnerPath : string
}.

Record daemonBootstrap : Type := mkBootstrap { b_InstallationID : string; b_MachineID : string }.
Record DaemonRuntime : Type := mkDaemonRuntime { dr_ID : string; dr_NextHeartbeatAfterMS : Z }.

(** ** Claims and directives *)

Inductive ActionPosition : Type := ActionPositionEffectCommitted | ActionPositionTerminal.

Inductive ProcessDisposition : Type :=
  | ProcessDispositionClosePreparation
  | ProcessDispositionStart
  | ProcessDispositionRetain
  | ProcessDispositionRelease
  | ProcessDispositionOther (s : string).

Inductive ActionDisposition : Type :=
  | ActionDispositionApply
  | ActionDispositionRetain
  | ActionDispositionSettle
  | ActionDispositionRelease
  | ActionDispositionOther (s : string).

Record ProcessActionReconciliationClaim : Type := mkActionClaim {
  ac_ProcessActionID : string;
  ac_ActionKind : Kind;
  ac_Seq : Z;
  ac_Position : ActionPosition
}.

Record ProcessReconciliationClaim : Type := mkClaim {
  cl_ProcessID : string;
  cl_SupervisorInstanceID : string;
  cl_Phase : ProcessPhase;
  cl_SupervisorLive : bool;
  cl_ExecutionCommitted : bool;
  cl_ActionAdmissionClosed : bool;
  cl_ResolvedActionSeq : Z;
  cl_Actions : list ProcessActionReconciliationClaim
}.

Record ProcessActionReconciliationDirective : Type := mkActionDirective {
  ad_ProcessActionID : string;
  ad_ActionKind : Kind;
  ad_Seq : Z;
  ad_Payload : string;
  ad_Disposition : ActionDisposition
}.

Record ProcessReconciliationDirective : Type := mkDirective {
  pd_ProcessID : string;
  pd_SupervisorInstanceID : string;
  pd_Disposition : ProcessDisposition;
  pd_Actions : list ProcessActionReconciliationDirective
}.

Record ProcessAction : Type := mkProcessAction {
  pa_ActionKind : Kind;
  pa_Seq : Z;
  pa_Payload : string;
  pa_ID : string
}.

(** [localStartupState]; the maps to pointers hold their numbers. *)
Record localStartupState : Type := mkStartup {
  su_Claims : list ProcessReconciliationClaim;
  su_Runners : gmap string nat;
  su_Actions : list (string * ProcessAction);
  su_ForcedReports : gset string;
  su_stoppedLocks : gmap string nat;
  su_fencedRunners : gmap string nat
}.

Definition startup_empty : localStartupState := mkStartup [] ∅ [] ∅ ∅ ∅.

(** ** Calls that leave the daemon *)

Inductive Method : Type :=
  | MStatus | MStartOnce | MCloseUngranted
  | MTerminate (reason : string)
  | MBeginReconciliation | MEndReconciliation
  | MPrepare (payload : string).

Inductive Ext : Type :=
  | XRemoveAll (path : string)
  | XCleanup (endpoint : string)
  | XRemove (path : string)
  | XLstat (path : string)
  | XSyncDir (path : string)
  | XKill (group : Z)
  | XPost (path : string)
  | XPrivateDir (path : string)
  | XWriteFile (path body : string)
  | XOpen (path : string)
  | XSpawn (argv env : list string)
  | XKillSupervisor (pid : Z).

Inductive Event : Type :=
  | EDb (c : Call)                             (**r a write of this program *)
  | EOther (c : Call)                          (**r a write of somebody else *)
  | ELock (path : string) (r : error + nat)    (**r an attempt to take a lock *)
  | EUnlock (handle : nat)
  | EHandOver (handle : nat)                   (**r closed without unlocking *)
  | ERunner (runner : nat) (m : Method) (err : option error)
  | EExt (x : Ext) (err : option error).

(** [processStartOutcome] *)
Inductive processStartOutcome : Type :=
  | processStarted | processNotStarted | processAmbiguous | processOutcomeOther (s : string).

Record Reply : Type := mkReply {
  rp_others : list (Cmd * Faults);
  rp_puts : list (string * option (Runtime * option Runner));
  rp_faults : Faults;
  rp_err : option error;
  rp_flag : bool;
  rp_sleeps : nat;
  rp_pid : Z;
  rp_uuid : string;
  rp_order : list nat;
  rp_root : option FS;
  rp_start : processStartOutcome;
  rp_bootstrap : daemonBootstrap;
  rp_runtime : DaemonRuntime;
  rp_directives : list ProcessReconciliationDirective
}.

(** The reply of an environment in which nothing happens and nothing fails. *)
Definition calm : Reply :=
  mkReply [] [] [] None false 0 1 "" [] None processStarted (mkBootstrap "" "")
    (mkDaemonRuntime "" 0) [].

(** ** The world *)

Record World : Type := mkWorld {
  w_db : DB;
  w_cfg : Config;
  w_bootstrap : daemonBootstrap;
  w_state_open : bool;                    (**r [c.state != nil] *)
  w_activeRuntime : DaemonRuntime;
  w_processes : gmap string nat;
  w_runtimes : gmap nat Runtime;
  w_runners : gmap nat Runner;
  w_locks : gmap nat Lock;
  w_fresh : nat;
  w_startup : localStartupState;          (**r the registration in progress *)
  w_replies : list Reply;
  w_log : list Event
}.

Section Setters.
Implicit Types (w : World).

Definition set_db (x : DB) w : World :=
  mkWorld x (w_cfg w) (w_bootstrap w) (w_state_open w) (w_activeRuntime w) (w_processes w)
    (w_runtimes w) (w_runners w) (w_locks w) (w_fresh w) (w_startup w) (w_replies w) (w_log w).
Definition set_bootstrap (x : daemonBootstrap) w : World :=
  mkWorld (w_db w) (w_cfg w) x (w_state_open w) (w_activeRuntime w) (w_processes w)
    (w_runtimes w) (w_runners w) (w_locks w) (w_fresh w) (w_startup w) (w_replies w) (w_log w).
Definition set_state_open (x : bool) w : World :=
  mkWorld (w_db w) (w_cfg w) (w_bootstrap w) x (w_activeRuntime w) (w_processes w)
    (w_runtimes w) (w_runners w) (w_locks w) (w_fresh w) (w_startup w) (w_replies w) (w_log w).
Definition set_activeRuntime (x : DaemonRuntime) w : World :=
  mkWorld (w_db w) (w_cfg w) (w_bootstrap w) (w_state_open w) x (w_processes w)
    (w_runtimes w) (w_runners w) (w_locks w) (w_fresh w) (w_startup w) (w_replies w) (w_log w).
Definition set_processes (x : gmap string nat) w : World :=
  mkWorld (w_db w) (w_cfg w) (w_bootstrap w) (w_state_open w) (w_activeRuntime w) x
    (w_runtimes w) (w_runners w) (w_locks w) (w_fresh w) (w_startup w) (w_replies w) (w_log w).
Definition set_runtimes (x : gmap nat Runtime) w : World :=
  mkWorld (w_db w) (w_cfg w) (w_bootstrap w) (w_state_open w) (w_activeRuntime w) (w_processes w)
    x (w_runners w) (w_locks w) (w_fresh w) (w_startup w) (w_replies w) (w_log w).
Definition set_runners (x : gmap nat Runner) w : World :=
  mkWorld (w_db w) (w_cfg w) (w_bootstrap w) (w_state_open w) (w_activeRuntime w) (w_processes w)
    (w_runtimes w) x (w_locks w) (w_fresh w) (w_startup w) (w_replies w) (w_log w).
Definition set_locks (x : gmap nat Lock) w : World :=
  mkWorld (w_db w) (w_cfg w) (w_bootstrap w) (w_state_open w) (w_activeRuntime w) (w_processes w)
    (w_runtimes w) (w_runners w) x (w_fresh w) (w_startup w) (w_replies w) (w_log w).
Definition set_fresh (x : nat) w : World :=
  mkWorld (w_db w) (w_cfg w) (w_bootstrap w) (w_state_open w) (w_activeRuntime w) (w_processes w)
    (w_runtimes w) (w_runners w) (w_locks w) x (w_startup w) (w_replies w) (w_log w).
Definition set_startup (x : localStartupState) w : World :=
  mkWorld (w_db w) (w_cfg w) (w_bootstrap w) (w_state_open w) (w_activeRuntime w) (w_processes w)
    (w_runtimes w) (w_runners w) (w_locks w) (w_fresh w) x (w_replies w) (w_log w).
Definition set_replies (x : list Reply) w : World :=
  mkWorld (w_db w) (w_cfg w) (w_bootstrap w) (w_state_open w) (w_activeRuntime w) (w_processes w)
    (w_runtimes w) (w_runners w) (w_locks w) (w_fresh w) (w_startup w) x (w_log w).
Definition add_event (e : Event) w : World :=
  mkWorld (w_db w) (w_cfg w) (w_bootstrap w) (w_state_open w) (w_activeRuntime w) (w_processes w)
    (w_runtimes w) (w_runners w) (w_locks w) (w_fresh w) (w_startup w) (w_replies w)
    (w_log w ++ [e]).
End Setters.

Abbreviation IO := (M World).

Definition log (e : Event) : IO unit := modify (add_event e).

(** ** Control flow *)

(** [return err], [return x, err] *)
Class FromError (R : Type) : Type := raise : error -> R.
Global Instance FromError_option : FromError (option error) := Some.
Global Instance FromError_sum A : FromError (error + A) := inl.

(** [x, err := m; if err != nil { return err }; rest] *)
Definition or_raise {A R} `{!FromError R} (m : IO (error + A)) (rest : A -> IO R) : IO R :=
  r ← m; match r with inl e => mret (raise e) | inr x => rest x end.
(** [if err := m; err != nil { return err }; rest] *)
Definition check_raise {R} `{!FromError R} (m : IO (option error)) (rest : IO R) : IO R :=
  err ← m; match err with Some e => mret (raise e) | None => rest end.

Notation "x ⇠ y ; z" := (or_raise y (fun x => z))
  (at level 20, y at level 100, z at level 200, only parsing).
Notation "'must' y ; z" := (check_raise y z)
  (at level 20, y at level 100, z at level 200, only parsing).

(** [for _, x := range l { if err := body(x); err != nil { return err } }] *)
Fixpoint each {A} (body : A -> IO (option error)) (l : list A) : IO (option error) :=
  match l with
  | [] => mret None
  | x :: rest => must body x; each body rest
  end.

Fixpoint each_ {A} (body : A -> IO unit) (l : list A) : IO unit :=
  match l with
  | [] => mret tt
  | x :: rest => body x;; each_ body rest
  end.

(** Iterating over a Go map visits the entries in an unspecified order: [order]
    picks the next entry among the remaining ones. *)
Fixpoint shuffle {A} (order : list nat) (l : list A) : list A :=
  match order with
  | [] => l
  | k :: rest =>
      match l !! (k `mod` length l)%nat with
      | Some x => x :: shuffle rest (firstn (k `mod` length l) l ++ skipn (S (k `mod` length l)) l)
      | None => l
      end
  end.

Lemma shuffle_Permutation {A} order (l : list A) : shuffle order l ≡ₚ l.
Proof.
  revert l. induction order as [|k order IH]; intros l; simpl; [done|].
  destruct (l !! _) as [x|] eqn:E; [|done]. rewrite IH.
  apply take_drop_middle in E. rewrite <- E at 5. by rewrite Permutation_middle.
Qed.

(** ** Primitives *)

Section Primitives.
Context {RC : ReportCodec}.

(** What the others did before the reply arrived.  A sequence number they pass is
    a Go [int64]; only a registration opens reconciliation sessions. *)
Definition other_write (w : World) (cf : Cmd * Faults) : World :=
  if decide (wf_cmd cf.1) then
    let '(r, db) := run_cmd cf.1 cf.2 (w_db w) in
    add_event (EOther (mkCall cf.1 cf.2 r)) (set_db db w)
  else w.

Definition other_put (w : World) (put : string * option (Runtime * option Runner)) : World :=
  match put.2 with
  | None => set_processes (delete put.1 (w_processes w)) w
  | Some (rt, rn) =>
      let '(p, w1) :=
        match rn with
        | None => (None, w)
        | Some r => (Some (w_fresh w),
                     set_fresh (S (w_fresh w))
                       (set_runners (<[w_fresh w := in_session false r]> (w_runners w)) w))
        end in
      let rt' := mkRuntime (rt_processID rt) (rt_supervisorInstanceID rt) (rt_supervisorPID rt) p
                   (rt_cleanupOnly rt) (rt_storageFailureReporting rt) in
      set_processes (<[put.1 := w_fresh w1]> (w_processes w1))
        (set_fresh (S (w_fresh w1)) (set_runtimes (<[w_fresh w1 := rt']> (w_runtimes w1)) w1))
  end.

Definition next_reply : IO Reply := fun w =>
  match w_replies w with
  | [] => (calm, w)
  | rp :: rest =>
      (rp, fold_left other_put (rp_puts rp) (fold_left other_write (rp_others rp) (set_replies rest w)))
  end.

(** A read and a write of the state database. *)
Definition db_read {A} (op : Op A) : IO (error + A) :=
  rp ← next_reply;
  db ← get w_db;
  mret (match fst (op (rp_faults rp) db) with inl e => inl [SState e] | inr a => inr a end).

Definition db_write (c : string -> Cmd) : IO (error + Outcome) :=
  rp ← next_reply;
  db ← get w_db;
  let cmd := c (rp_uuid rp) in
  let '(r, db') := run_cmd cmd (rp_faults rp) db in
  modify (set_db db');;
  log (EDb (mkCall cmd (rp_faults rp) r));;
  mret (match r with inl e => inl [SState e] | inr o => inr o end).

(** A write of which only the error matters. *)
Definition db_do (c : Cmd) : IO (option error) :=
  r ← db_write (fun _ => c);
  mret (match r with inl e => Some e | inr _ => None end).

(** Files, sockets, signals. *)
Definition ext (x : Ext) : IO (option error) :=
  rp ← next_reply;
  log (EExt x (rp_err rp));;
  mret (rp_err rp).

(** [c.stateStore]: the cached store, or an attempt to open one. *)
Definition stateStore : IO (option error) :=
  opened ← get w_state_open;
  if opened : bool then mret None
  else
    home ← get (fun w => cfg_OmnaraHome (w_cfg w));
    if home ==? "" then mret (Some (failure "OMNARA_HOME is required for daemon state"))
    else
      rp ← next_reply;
      match rp_err rp with
      | Some e => mret (Some e)
      | None => modify (set_state_open true);; mret None
      end.

Definition localMachineBinding (w : World) : error + daemonBootstrap :=
  let b := w_bootstrap w in
  if (b_InstallationID b <>? "") && (b_MachineID b <>? "") then inr b
  else
    let cfg := w_cfg w in
    if (cfg_ExpectedInstallationID cfg <>? "") && (cfg_ExpectedMachineID cfg <>? "")
    then inr (mkBootstrap (cfg_ExpectedInstallationID cfg) (cfg_ExpectedMachineID cfg))
    else inl (failure "local machine binding is unavailable").

Definition text_error {A} (r : string + A) : error + A :=
  match r with inl msg => inl (failure msg) | inr a => inr a end.

Definition machineStore : IO (error + MachineStore) := fun w =>
  (match normalizeHome (cfg_OmnaraHome (w_cfg w)) with
   | inl msg => inl (failure msg)
   | inr home =>
       match localMachineBinding w with
       | inl e => inl e
       | inr b => text_error (Store_Machine home (b_InstallationID b) (b_MachineID b))
       end
   end, w).

(** The loop of [retryWhileStateDBBusy]: the context lets [sleeps] pauses pass. *)
Fixpoint while_busy (sleeps : nat) (operation : IO (option error)) : IO (option error) :=
  err ← operation;
  match err with
  | None => mret None
  | Some e =>
      if negb (errors_Is e (SState ErrBusy)) then mret (Some e)
      else match sleeps with
           | O => mret (Some [SContext])
           | S n => while_busy n operation
           end
  end.

Definition retryWhileStateDBBusy (operation : IO (option error)) : IO (option error) :=
  rp ← next_reply; while_busy (rp_sleeps rp) operation.

(** *** localstore/lock.go *)

(** Does the daemon hold the lock of [path] through one of its handles? *)
Definition held (path : string) (w : World) : Prop :=
  exists h, w_locks w !! h = Some (mkLock true path).

Definition held_b (path : string) (w : World) : bool :=
  existsb (fun hl : nat * Lock => lk_file hl.2 && (lk_path hl.2 ==? path)) (map_to_list (w_locks w)).

(** [TryAcquireLock] and [TryAcquireExistingLock].  The file may be missing, locked
    by another process or unusable; a second handle on a path the daemon has locked
    itself finds it locked. *)
Definition TryAcquire (path : string) : IO (error + nat) :=
  rp ← next_reply;
  mine ← get (held_b path);
  h ← get w_fresh;
  let r : error + nat :=
    if path ==? "" then inl (failure "lock path is required")
    else match rp_err rp with
         | Some e => inl e
         | None => if mine : bool then inl [SLockHeld] else inr h
         end in
  match r with
  | inl _ => mret tt
  | inr _ =>
      modify (fun w => set_fresh (S h) (set_locks (<[h := mkLock true path]> (w_locks w)) w))
  end;;
  log (ELock path r);;
  mret r.

(** The file of the handle is closed whatever the calls return. *)
Definition Release (l : nat) : IO (option error) :=
  lock ← get (fun w => w_locks w !! l);
  match lock with
  | Some (mkLock true path) =>
      rp ← next_reply;
      modify (fun w => set_locks (<[l := mkLock false path]> (w_locks w)) w);;
      log (EUnlock l);;
      mret (rp_err rp)
  | _ => mret None
  end.

(** The parent's copy is closed; the lock stays with the child that inherited it. *)
Definition RelinquishInherited (l : nat) : IO (option error) :=
  lock ← get (fun w => w_locks w !! l);
  match lock with
  | Some (mkLock true path) =>
      rp ← next_reply;
      modify (fun w => set_locks (<[l := mkLock false path]> (w_locks w)) w);;
      log (EHandOver l);;
      mret (rp_err rp)
  | _ => mret None
  end.

(** The number of the descriptor in the child. *)
Definition PrepareChildInheritance (l : nat) : IO (error + Z) :=
  lock ← get (fun w => w_locks w !! l);
  mret (match lock with
        | Some (mkLock true _) => inr 3
        | _ => inl (failure "lock is not held")
        end).

Definition forget_path (l : nat) : IO unit :=
  modify (fun w => set_locks (alter (fun k => mkLock (lk_file k) "") l (w_locks w)) w).

Definition ReleaseAndRemove (l : nat) : IO (option error) :=
  lock ← get (fun w => w_locks w !! l);
  match lock with
  | None => mret None
  | Some lock =>
      let path := lk_path lock in
      if path ==? "" then mret None
      else if negb (lk_file lock) then
        err ← ext (XLstat path);
        match err with
        | None => mret (Some (failure "lock cleanup lost ownership before removal"))
        | Some e =>
            if negb (errors_Is e SNotExist) then mret (Some e)
            else must ext (XSyncDir (Dir path)); forget_path l;; mret None
        end
      else
        must Release l;
        err ← ext (XRemove path);
        match err with
        | Some e =>
            if errors_Is e SNotExist then forget_path l;; mret None else mret (Some e)
        | None => must ext (XSyncDir (Dir path)); forget_path l;; mret None
        end
  end.

(** *** runner_ipc_client.go *)

Definition with_runner (r : nat) (f : Runner -> Runner) : IO unit :=
  modify (fun w => set_runners (alter f r (w_runners w)) w).

Definition note_ready (r : nat) (err : option error) : IO unit :=
  match err with
  | Some e => if errors_Is e SStorageExhaustionTerminalReady then with_runner r ready else mret tt
  | None => mret tt
  end.

(** [call]: over the reconciliation session if there is one. *)
Definition runner_call (r : nat) (m : Method) : IO (option error) :=
  rp ← next_reply;
  log (ERunner r m (rp_err rp));;
  note_ready r (rp_err rp);;
  mret (rp_err rp).

Definition Status (r : nat) : IO (option error) := runner_call r MStatus.
Definition CloseUngranted (r : nat) : IO (option error) := runner_call r MCloseUngranted.
Definition Terminate (r : nat) (reason : string) : IO (option error) :=
  runner_call r (MTerminate reason).

Definition StartOnce (r : nat) : IO (option error) :=
  rp ← next_reply;
  log (ERunner r MStartOnce (rp_err rp));;
  note_ready r (rp_err rp);;
  match rp_err rp with
  | Some e => mret (Some e)
  | None =>
      match rp_start rp with
      | processOutcomeOther _ => mret (Some (failure "supervisor returned an invalid start outcome"))
      | _ => mret None
      end
  end.

(** Only a reply of the supervisor can say that its terminal evidence is ready. *)
Definition BeginReconciliation (r : nat) : IO (option error) :=
  rn ← get (fun w => w_runners w !! r);
  if match rn with Some rn => rn_session rn | None => false end
  then mret (Some (failure "supervisor reconciliation is already active"))
  else
    rp ← next_reply;
    log (ERunner r MBeginReconciliation (rp_err rp));;
    match rp_err rp with
    | Some e =>
        if errors_Is e SStorageExhaustionTerminalReady
        then with_runner r ready;; with_runner r (in_session true);; mret None
        else mret (Some e)
    | None => with_runner r (in_session true);; mret None
    end.

Definition EndReconciliation (r : nat) : IO (option error) :=
  rn ← get (fun w => w_runners w !! r);
  if match rn with Some rn => rn_session rn | None => false end then
    rp ← next_reply;
    log (ERunner r MEndReconciliation (rp_err rp));;
    with_runner r (in_session false);;
    mret (rp_err rp)
  else mret None.

(** [IsDone]: the channel is closed by whoever waits for the supervisor. *)
Definition IsDone (r : nat) : IO bool :=
  rp ← next_reply;
  rn ← get (fun w => w_runners w !! r);
  let d := rp_flag rp || match rn with Some rn => rn_done rn | None => true end in
  with_runner r (fun rn => mkRunner (rn_endpoint rn) (rn_supervisorToken rn)
    (rn_supervisorInstanceID rn) d (rn_storageFailureReady rn) (rn_session rn));;
  mret d.

Definition markDone (r : nat) : IO unit :=
  with_runner r (fun rn => mkRunner (rn_endpoint rn) (rn_supervisorToken rn)
    (rn_supervisorInstanceID rn) true (rn_storageFailureReady rn) (rn_session rn)).

Definition storageExhaustionReady (r : nat) (w : World) : bool :=
  match w_runners w !! r with Some rn => rn_storageFailureReady rn | None => false end.

Definition new_runner (rn : Runner) : IO nat :=
  h ← get w_fresh;
  modify (fun w => set_fresh (S h) (set_runners (<[h := rn]> (w_runners w)) w));;
  mret h.

(** *** Runtimes and the process table *)

Definition new_runtime (rt : Runtime) : IO nat :=
  h ← get w_fresh;
  modify (fun w => set_fresh (S h) (set_runtimes (<[h := rt]> (w_runtimes w)) w));;
  mret h.

(** A pointer is never dangling; the default is not reached. *)
Definition runtime_at (p : nat) (w : World) : Runtime :=
  default (mkRuntime "" "" 0 None false false) (w_runtimes w !! p).

Definition with_runtime (p : nat) (f : Runtime -> Runtime) : IO unit :=
  modify (fun w => set_runtimes (alter f p (w_runtimes w)) w).

Definition drop_runner (rt : Runtime) : Runtime :=
  mkRuntime (rt_processID rt) (rt_supervisorInstanceID rt) (rt_supervisorPID rt) None
    (rt_cleanupOnly rt) (rt_storageFailureReporting rt).
Definition mark_cleanup (rt : Runtime) : Runtime :=
  mkRuntime (rt_processID rt) (rt_supervisorInstanceID rt) (rt_supervisorPID rt) (rt_runner rt)
    true (rt_storageFailureReporting rt).

(** [runtime.cleanupOnly || runtime.runner == nil || !runtime.runner.IsDone()] *)
Definition worth_keeping (p : nat) : IO bool :=
  rt ← get (runtime_at p);
  if rt_cleanupOnly rt then mret true
  else match rt_runner rt with
       | None => mret true
       | Some r => d ← IsDone r; mret (negb d)
       end.

Definition addProcess (p : nat) : IO unit :=
  rt ← get (runtime_at p);
  current ← get (fun w => w_processes w !! rt_processID rt);
  cur ← get (fun w => option_map (fun q => runtime_at q w) current);
  if match cur with
     | Some c => rt_cleanupOnly rt && negb (rt_cleanupOnly c)
                 && (rt_supervisorInstanceID c <>? rt_supervisorInstanceID rt)
     | None => false
     end
  then mret tt
  else
    keep ← worth_keeping p;
    if keep : bool
    then modify (fun w => set_processes (<[rt_processID rt := p]> (w_processes w)) w)
    else mret tt.

Fixpoint keep_running (entries : list (string * nat)) : IO (gmap string nat) :=
  match entries with
  | [] => mret ∅
  | (processID, p) :: rest =>
      keep ← worth_keeping p;
      replacement ← keep_running rest;
      mret (if keep : bool then <[processID := p]> replacement else replacement)
  end.

Definition range (f : World -> gmap string nat) : IO (list (string * nat)) :=
  rp ← next_reply;
  m ← get f;
  mret (shuffle (rp_order rp) (map_to_list m)).

Definition replaceProcesses : IO unit :=
  entries ← range (fun w => su_Runners (w_startup w));
  replacement ← keep_running entries;
  modify (set_processes replacement).

Definition removeProcessInstance (processID supervisorInstanceID : string) : IO unit :=
  modify (fun w =>
    match w_processes w !! processID with
    | Some p =>
        if rt_supervisorInstanceID (runtime_at p w) ==? supervisorInstanceID
        then set_processes (delete processID (w_processes w)) w
        else w
    | None => w
    end).

Definition localProcess (processID : string) : IO (option nat) :=
  next_reply;; get (fun w => w_processes w !! processID).

Definition cleanupProcesses : IO (list nat) :=
  entries ← range w_processes;
  get (fun w => List.filter (fun p => rt_cleanupOnly (runtime_at p w)) entries.*2).
End Primitives.
