(* ===== verification/Reconciliation.v ===== *)
(** * Reconciliation of local processes with the server

    Models [internal/machinedaemon/reconciliation.go], the clean-up loop
    [finalizeReleasedProcesses] of [report_outbox.go] and the registration loop of
    client.go.  On every (re)connection the daemon freezes its local state: each
    supervisor is either fenced by a control session or known to be stopped because
    the daemon holds its lifetime lock; it sends what the database says about each
    process, and carries out one directive per process.

    Supervisors and other goroutines run at the same time; see [Reply].  [json]
    encodings of report bodies are the operations of [ClientCodec]. *)
From S2P Require Import Prelude GoStrings DaemonProtocol LocalPaths StateSchema StateQueries StateTx.
From S2P Require Import StateReport StateProcess StateAction StateTrace StateAudit LocalStore OutputFile.
From S2P Require Import ClientWorld.
From Stdlib Require Import Ascii.
From stdpp Require Import options.
Local Open Scope Z_scope.

(** [strconv.Atoi] *)
Fixpoint digits (acc : Z) (s : string) : option Z :=
  match s with
  | EmptyString => Some acc
  | String a s' =>
      if between 48 57 a then digits (10 * acc + (byte a - 48)) s' else None
  end.
Definition Atoi (s : string) : option Z :=
  let number t := if t ==? "" then None else digits 0 t in
  let r := match s with
           | String a t =>
               if a ==? "-"%char then Z.opp <$> number t
               else if a ==? "+"%char then number t else number s
           | EmptyString => None
           end in
  match r with
  | Some n => if bool_decide (is_int64 n) then Some n else None
  | None => None
  end.

(** The result object of a recovered terminal report. *)
Record TerminalResult : Type := mkTerminalResult {
  tr_state : ProcessState;
  tr_done : bool;
  tr_output : string;
  tr_error : string;
  tr_cursor : Z;
  tr_next_cursor : Z;
  tr_truncated : bool
}.

Class ClientCodec : Type := {
  (** [json.Marshal(event)] *)
  marshal_event : ReportedEvent -> option string;
  (** [marshalJSON(map[string]any{...})] *)
  marshal_result : TerminalResult -> option string
}.

(** [process_control_unix.go] *)
Definition processContainmentKind : string := "process_group".

Definition supervisorIdentityBootstrapPrefix : string := "supervisor-".

Definition supervisorIdentityBootstrapFileName (processID supervisorInstanceID : string)
    : error + string :=
  let unsafe v := (v ==? ".") || (v ==? "..") || ContainsAny v [slash; backslash] in
  if (processID ==? "") || (supervisorInstanceID ==? "")
  then inl (failure "supervisor bootstrap identity is required")
  else if unsafe processID || unsafe supervisorInstanceID
  then inl (failure "supervisor bootstrap identity is not path-safe")
  else inr (supervisorIdentityBootstrapPrefix +:+ processID +:+ "-" +:+ supervisorInstanceID
            +:+ ".json").

(** ** The startup state *)

Definition on_startup (f : localStartupState -> localStartupState) : IO unit :=
  modify (fun w => set_startup (f (w_startup w)) w).

Definition with_claims (f : list ProcessReconciliationClaim -> list ProcessReconciliationClaim)
    (s : localStartupState) : localStartupState :=
  mkStartup (f (su_Claims s)) (su_Runners s) (su_Actions s) (su_ForcedReports s)
    (su_stoppedLocks s) (su_fencedRunners s).
Definition with_runners (f : gmap string nat -> gmap string nat) (s : localStartupState) :=
  mkStartup (su_Claims s) (f (su_Runners s)) (su_Actions s) (su_ForcedReports s)
    (su_stoppedLocks s) (su_fencedRunners s).
Definition with_actions (f : list (string * ProcessAction) -> list (string * ProcessAction))
    (s : localStartupState) :=
  mkStartup (su_Claims s) (su_Runners s) (f (su_Actions s)) (su_ForcedReports s)
    (su_stoppedLocks s) (su_fencedRunners s).
Definition with_forced (f : gset string -> gset string) (s : localStartupState) :=
  mkStartup (su_Claims s) (su_Runners s) (su_Actions s) (f (su_ForcedReports s))
    (su_stoppedLocks s) (su_fencedRunners s).
Definition with_stopped (f : gmap string nat -> gmap string nat) (s : localStartupState) :=
  mkStartup (su_Claims s) (su_Runners s) (su_Actions s) (su_ForcedReports s)
    (f (su_stoppedLocks s)) (su_fencedRunners s).
Definition with_fenced (f : gmap string nat -> gmap string nat) (s : localStartupState) :=
  mkStartup (su_Claims s) (su_Runners s) (su_Actions s) (su_ForcedReports s)
    (su_stoppedLocks s) (f (su_fencedRunners s)).

Section Reconciliation.
Context {RC : ReportCodec} {CC : ClientCodec}.

Definition releaseLocks : IO unit :=
  entries ← range (fun w => su_stoppedLocks (w_startup w));
  each_ (fun '(processID, lock) => Release lock;; on_startup (with_stopped (delete processID))) entries.

Definition releaseFences : IO unit :=
  entries ← range (fun w => su_fencedRunners (w_startup w));
  each_ (fun '(processID, runner) =>
    EndReconciliation runner;; on_startup (with_fenced (delete processID))) entries.

Definition releaseResources : IO unit := releaseFences;; releaseLocks.

Definition currentLocalProcessState (processID : string) : IO (error + option Process) :=
  must stateStore; db_read (Store_Process processID).

(** ** Inspection *)

(** [inspectLocalSupervisor] when the lock is held by somebody else. *)
Definition probe_supervisor (machine : MachineStore) (lockPath : string) (process : Process)
    : IO (error + (option nat * option nat * bool)) :=
  endpoint ⇠ mret (text_error (ControlEndpointPath machine (p_ProcessID process)));
  runner ← new_runner (mkRunner endpoint (p_SupervisorToken process)
             (p_SupervisorInstanceID process) false false false);
  probeErr ← BeginReconciliation runner;
  match probeErr with
  | None => mret (inr (Some runner, None, true))
  | Some probeErr =>
      if errors_Is probeErr SRunnerIdentityMismatch
      then mret (inl (SText "supervisor failed authentication" :: probeErr))
      else
        recheck ← TryAcquire lockPath;
        match recheck with
        | inr lock =>
            Release lock;;
            mret (inl (SLocalStateChanged :: probeErr))
        | inl recheckErr =>
            if errors_Is recheckErr SNotExist then mret (inl (SLocalStateChanged :: probeErr))
            else if errors_Is recheckErr SLockHeld then mret (inl (SProbeUnavailable :: probeErr))
            else mret (inl recheckErr)
        end
  end.

(** [inspectLocalSupervisor] when there is no lock file. *)
Definition inspect_missing_lock (lockPath : string) (process : Process)
    : IO (error + (option nat * option nat * bool)) :=
  if negb (p_LocalClosed process)
     && ((p_Phase process ==? ProcessAccepted) || (p_Phase process ==? ProcessTerminal))
  then
    found ⇠ currentLocalProcessState (p_ProcessID process);
    match found with
    | Some current =>
        if (p_SupervisorInstanceID current <>? p_SupervisorInstanceID process)
           || (p_Phase current <>? p_Phase process)
           || (negb (Bool.eqb (p_LocalClosed current) (p_LocalClosed process)))
        then mret (inl [SLocalStateChanged])
        else mret (inl (failure "process is missing its lifetime lock; stop the daemon and clear its local state"))
    | None => mret (inl [SLocalStateChanged])
    end
  else
    lock ⇠ TryAcquire lockPath;
    mret (inr (None, Some lock, false)).

Definition inspectLocalSupervisor (machine : MachineStore) (process : Process)
    : IO (error + (option nat * option nat * bool)) :=
  lockPath ⇠ mret (text_error (LifetimeLockPath machine (p_ProcessID process)));
  lock ← TryAcquire lockPath;
  match lock with
  | inr lock => mret (inr (None, Some lock, false))
  | inl err =>
      if errors_Is err SLockHeld then probe_supervisor machine lockPath process
      else if errors_Is err SNotExist then inspect_missing_lock lockPath process
      else mret (inl err)
  end.

(** ** The registration snapshot *)

Definition inspect_one (machine : MachineStore) (process : Process) : IO (option error) :=
  r ⇠ inspectLocalSupervisor machine process;
  let '(runner, lock, live) := r in
  match (live : bool), runner, lock with
  | true, Some runner, _ =>
      on_startup (with_fenced (insert (p_ProcessID process) runner));;
      rt ← new_runtime (mkRuntime (p_ProcessID process) (p_SupervisorInstanceID process) 0
                          (Some runner) false false);
      on_startup (with_runners (insert (p_ProcessID process) rt));;
      mret None
  | false, _, Some lock =>
      on_startup (with_stopped (insert (p_ProcessID process) lock));;
      mret None
  | _, _, _ => mret None
  end.

Definition sameSupervisorIdentity (before after : Process) : bool :=
  (p_ProcessID before ==? p_ProcessID after)
  && (p_SupervisorInstanceID before ==? p_SupervisorInstanceID after)
  && (p_SupervisorToken before ==? p_SupervisorToken after).

Fixpoint claim_actions (l : list ActionSnapshot) : error + list ProcessActionReconciliationClaim :=
  match l with
  | [] => inr []
  | x :: rest =>
      let action := as_Action x in
      let claim position :=
        match claim_actions rest with
        | inl e => inl e
        | inr claims =>
            inr (mkActionClaim (a_ID action) (a_Kind action) (a_Seq action) position :: claims)
        end in
      if as_Reported x then claim ActionPositionTerminal
      else if negb (a_EffectCommitted action)
      then inl (failure "action has neither effect nor terminal evidence")
      else claim ActionPositionEffectCommitted
  end.

Definition claim_one (local : ProcessSnapshot) : IO (option error) :=
  let process := ps_Process local in
  runners ← get (fun w => su_Runners (w_startup w));
  let live := bool_decide (is_Some (runners !! p_ProcessID process)) in
  on_startup (with_forced (union (list_to_set (ps_RejectedReportIDs local))));;
  match claim_actions (ps_Actions local) with
  | inl e => mret (Some e)
  | inr actions =>
      on_startup (with_claims (fun claims => claims ++
        [mkClaim (p_ProcessID process) (p_SupervisorInstanceID process) (p_Phase process) live
           (p_ExecCommitted process) (p_ActionAdmissionClosed process)
           (p_ResolvedActionSeq process) actions]));;
      mret None
  end.

Definition status_one (entry : string * nat) : IO (option error) :=
  statusErr ← Status entry.2;
  match statusErr with
  | None => mret None
  | Some e =>
      if errors_Is e SStorageExhaustionTerminalReady then mret None
      else mret (Some (SLocalStateChanged :: e))
  end.

Definition claim_le (a b : ProcessReconciliationClaim) : Prop :=
  String.le (cl_ProcessID a) (cl_ProcessID b).
Global Instance claim_le_dec a b : Decision (claim_le a b).
Proof. unfold claim_le. apply _. Defined.

Definition scan_processes (machine : MachineStore) (processes : list Process) : IO (option error) :=
  must each (inspect_one machine) processes;
  snapshot ⇠ db_read SnapshotForReconciliation;
  if negb (length snapshot =? length processes)%nat then mret (Some [SLocalStateChanged])
  else if negb (forallb (fun ba => sameSupervisorIdentity ba.1 ba.2)
                  (zip processes (ps_Process <$> snapshot)))
  then mret (Some [SLocalStateChanged])
  else
    must each claim_one snapshot;
    fenced ← range (fun w => su_fencedRunners (w_startup w));
    must each status_one fenced;
    on_startup (with_claims (merge_sort claim_le));;
    mret None.

Definition scanLocalProcessesForRegistrationOnce : IO (option error) :=
  on_startup (fun _ => startup_empty);;
  must stateStore;
  processes ⇠ db_read Store_Processes;
  machine ⇠ machineStore;
  err ← scan_processes machine processes;
  match err with
  | Some e => releaseResources;; mret (Some e)
  | None => mret None
  end.

(** The retry loop; [sleeps] pauses pass before the context ends. *)
Fixpoint scan_loop (sleeps : nat) : IO (option error) :=
  err ← scanLocalProcessesForRegistrationOnce;
  match err with
  | None => mret None
  | Some e =>
      if errors_Is e SLocalStateChanged || errors_Is e SProbeUnavailable then
        match sleeps with
        | O => mret (Some [SContext])
        | S n => scan_loop n
        end
      else mret (Some e)
  end.

Definition scanLocalProcessesForRegistration : IO (option error) :=
  rp ← next_reply; scan_loop (rp_sleeps rp).

(** [c.machineStore] followed by [machine.LifetimeLockPath]. *)
Definition lock_path (processID : string) : IO (error + string) :=
  machine ⇠ machineStore; mret (text_error (LifetimeLockPath machine processID)).

(** ** Removal of a process's files *)

Definition removeSupervisorIdentityBootstrap (machine : MachineStore)
    (processID supervisorInstanceID : string) : IO (option error) :=
  name ⇠ mret (supervisorIdentityBootstrapFileName processID supervisorInstanceID);
  err ← ext (XRemove (Join [RunDir machine; name]));
  match err with
  | Some e =>
      if negb (errors_Is e SNotExist) then mret (Some e) else ext (XSyncDir (RunDir machine))
  | None => ext (XSyncDir (RunDir machine))
  end.

Definition removeProcessArtifacts (processID supervisorInstanceID : string) (removeOutput : bool)
    : IO (option error) :=
  machine ⇠ machineStore;
  processDir ⇠ mret (text_error (ProcessDir machine processID));
  must (if removeOutput then ext (XRemoveAll processDir) else mret None);
  endpoint ⇠ mret (text_error (ControlEndpointPath machine processID));
  must ext (XCleanup endpoint);
  must (if supervisorInstanceID <>? ""
        then removeSupervisorIdentityBootstrap machine processID supervisorInstanceID
        else mret None);
  if removeOutput then ext (XSyncDir (Dir processDir)) else mret None.

Definition removeRejectedProcessArtifacts (processID supervisorInstanceID : string)
    : IO (option error) :=
  removeProcessArtifacts processID supervisorInstanceID true.

Definition removeProcessRuntimeArtifacts (processID supervisorInstanceID : string)
    (removeOutput : bool) : IO (option error) :=
  lockPath ⇠ lock_path processID;
  r ← TryAcquire lockPath;
  match r with
  | inr lock =>
      err ← (must removeProcessArtifacts processID supervisorInstanceID removeOutput;
             ReleaseAndRemove lock);
      Release lock;;
      mret err
  | inl e =>
      if errors_Is e SNotExist
      then removeProcessArtifacts processID supervisorInstanceID removeOutput
      else if errors_Is e SLockHeld then mret (Some [SLockHeld])
      else mret (Some e)
  end.

Definition releaseProcessRuntimeArtifacts (processID supervisorInstanceID : string)
    : IO (option error) :=
  removeProcessRuntimeArtifacts processID supervisorInstanceID false.

(** ** Closing preparations and storage-exhausted processes *)

(** The lock loop of [closeRejectedPreparation]: the clean-up context (5 s, one
    attempt per 25 ms) lets [sleeps] pauses pass.  [inr (inl b)] is a return with
    the flag, [inr (inr lock)] the acquired lock. *)
Fixpoint acquire_stopped (sleeps : nat) (closeErr : option error) (lockPath : string)
    : IO ((bool * option error) + nat) :=
  r0 ← TryAcquire lockPath;
  r ← (match r0 with
       | inl e => if errors_Is e SNotExist then TryAcquire lockPath else mret (inl e)
       | inr lock => mret (inr lock)
       end);
  match r with
  | inr lock => mret (inr lock)
  | inl e =>
      if negb (errors_Is e SLockHeld)
      then mret (inl (bool_decide (closeErr = None) && isStorageExhaustion e,
                      errors_Join [closeErr; Some e]))
      else match sleeps with
           | O => mret (inl (bool_decide (closeErr = None), errors_Join [closeErr; Some [SContext]]))
           | S n => acquire_stopped n closeErr lockPath
           end
  end.

(** [closeRejectedPreparation] once the lock is held. *)
Definition close_locked_preparation (processID supervisorInstanceID : string)
    (closeErr : option error) (lock : nat) : IO (bool * option error) :=
  let fails (pending : bool) (e : error) : IO (bool * option error) :=
    mret (pending, errors_Join [closeErr; Some e]) in
  storeErr ← stateStore;
  match storeErr with
  | Some e => fails true e
  | None =>
      found ← db_read (Store_Process processID);
      match found with
      | inl e => fails true e
      | inr found =>
          let refusal :=
            match found with
            | Some process =>
                if p_SupervisorInstanceID process <>? supervisorInstanceID
                then Some [SState ErrSupervisorIdentityMismatch]
                else if p_ExecCommitted process
                        || ((p_Phase process <>? ProcessPreparing)
                            && (p_Phase process <>? ProcessPrepared))
                then Some [SState ErrStateConflict]
                else None
            | None => None
            end in
          match refusal with
          | Some e => fails false e
          | None =>
              err ← removeRejectedProcessArtifacts processID supervisorInstanceID;
              match err with
              | Some e => fails true e
              | None =>
                  err ← db_do (CDeleteRejectedPreparation processID supervisorInstanceID);
                  match err with
                  | Some e =>
                      fails (negb (errors_Is e (SState ErrSupervisorIdentityMismatch)
                                   || errors_Is e (SState ErrStateConflict))) e
                  | None =>
                      err ← ReleaseAndRemove lock;
                      match err with
                      | Some e => fails true e
                      | None => mret (false, None)
                      end
                  end
              end
          end
      end
  end.

(** The supervisor is asked to close before the lock is awaited. *)
Definition close_ungranted (runtime : option nat) : IO (option error) :=
  match runtime with
  | None => mret None
  | Some p =>
      rt ← get (runtime_at p);
      match rt_runner rt with
      | None => mret None
      | Some r =>
          d ← IsDone r;
          if d : bool then mret None
          else
            closeErr ← CloseUngranted r;
            endErr ← EndReconciliation r;
            mret (errors_Join [closeErr; endErr])
      end
  end.

Definition closeRejectedPreparation (processID supervisorInstanceID : string)
    (runtime heldLock : option nat) : IO (bool * option error) :=
  closeErr ← close_ungranted runtime;
  r ← (match heldLock with
       | Some lock => mret (inr lock)
       | None =>
           path ← lock_path processID;
           match path with
           | inl e => mret (inl (false, errors_Join [closeErr; Some e]))
           | inr lockPath =>
               rp ← next_reply; acquire_stopped (Nat.min 200 (rp_sleeps rp)) closeErr lockPath
           end
       end);
  match r with
  | inl result => mret result
  | inr lock =>
      result ← close_locked_preparation processID supervisorInstanceID closeErr lock;
      Release lock;;
      mret result
  end.

(** The error [closeStorageExhaustedProcess] ends with, from the lock on. *)
Definition close_locked_exhausted (processID supervisorInstanceID lockPath : string)
    : IO (option error) :=
  r0 ← TryAcquire lockPath;
  r ← (match r0 with
       | inl e => if errors_Is e SNotExist then TryAcquire lockPath else mret (inl e)
       | inr lock => mret (inr lock)
       end);
  match r with
  | inl e => mret (Some e)
  | inr lock =>
      err ← (must removeProcessArtifacts processID supervisorInstanceID true;
             must db_do (CDeleteStorageExhausted processID supervisorInstanceID);
             ReleaseAndRemove lock);
      Release lock;;
      mret err
  end.

Definition terminate_exhausted (runtime : nat) : IO (option error) :=
  rt ← get (runtime_at runtime);
  match rt_runner rt with
  | None => mret None
  | Some r =>
      d ← IsDone r;
      if d : bool then mret None
      else
        err ← Terminate r "server_resolved";
        endErr ← EndReconciliation r;
        match errors_Join [err; endErr] with
        | Some e => mret (Some e)
        | None => with_runtime runtime drop_runner;; mret None
        end
  end.

Definition closeStorageExhaustedProcess (runtime : nat) : IO (bool * option error) :=
  let pending e : IO (bool * option error) := mret (true, Some e) in
  rt ← get (runtime_at runtime);
  let processID := rt_processID rt in
  let instance := rt_supervisorInstanceID rt in
  err ← terminate_exhausted runtime;
  match err with
  | Some e => pending e
  | None =>
  err ← stateStore;
  match err with
  | Some e => pending e
  | None =>
  found ← db_read (Store_Process processID);
  match found with
  | inl e => pending e
  | inr found =>
  let refusal :=
    match found with
    | Some process =>
        if p_SupervisorInstanceID process <>? instance
        then Some [SState ErrSupervisorIdentityMismatch]
        else if (p_Phase process <>? ProcessAccepted) && (p_Phase process <>? ProcessTerminal)
        then Some [SState ErrStateConflict]
        else None
    | None => None
    end in
  match refusal with
  | Some e => mret (false, Some e)
  | None =>
  path ← lock_path processID;
  match path with
  | inl e => pending e
  | inr lockPath =>
      err ← close_locked_exhausted processID instance lockPath;
      mret (match err with
            | None => false
            | Some e => negb (errors_Is e (SState ErrSupervisorIdentityMismatch)
                              || errors_Is e (SState ErrStateConflict))
            end, err)
  end
  end
  end
  end
  end.

(** ** Recovery of a stopped process *)

Definition report_of (processID actionID : string) (kind : ReportKind) (body : string) : Report :=
  mkReport "" processID actionID kind body ReportStateUnset "" "".

Definition unknownActionRecoveryReport (processID actionID : string) : error + Report :=
  let event := mkReportedEvent EventProcessActionUnknown processID actionID (ProcessStateOther "")
    None "" "action_outcome_unknown"
    "the action crossed its effect boundary without recoverable result evidence" "" 0 0 0 in
  match marshal_event event with
  | None => inl (failure "json")
  | Some body => inr (report_of processID actionID ReportActionTerminal body)
  end.

(** The output of the stopped process: [rp_root] is the opened process directory. *)
Definition recover_output (machine : MachineStore) (process : Process)
    : IO (error + option (string * Z * Z * bool)) :=
  processDir ⇠ mret (text_error (ProcessDir machine (p_ProcessID process)));
  rp ← next_reply;
  mret (inr (match rp_root rp with
             | None => None
             | Some fs =>
                 match fst (readProcessOutputSnapshot OutputBufferFileName 0 MaxObservationBytes fs) with
                 | inl _ => None
                 | inr read => Some read
                 end
             end)).

Definition terminal_report (process : Process) (state : ProcessState) (reason message : string)
    (read : string * Z * Z * bool) : error + Report :=
  let '(output, cursor, next, truncated) := read in
  match marshal_result (mkTerminalResult state true output message cursor next truncated) with
  | None => inl (failure "json")
  | Some result =>
      let event := mkReportedEvent EventProcessFinished (p_ProcessID process) "" state None ""
        reason message result 0 0 0 in
      match marshal_event event with
      | None => inl (failure "json")
      | Some body => inr (report_of (p_ProcessID process) "" ReportProcessTerminal body)
      end
  end.

Definition stoppedProcessTerminalReport (process : Process) : IO (error + Report) :=
  if negb (p_ExecCommitted process)
  then mret (terminal_report process ProcessStateFailed "execution_not_started"
               "the process grant closed before execution was committed" ("", 0, 0, false))
  else
    machine ⇠ machineStore;
    output ⇠ recover_output machine process;
    mret (match output with
          | Some read =>
              terminal_report process ProcessStateUnknown "local_process_unrecoverable"
                "the accepted process no longer has a live supervisor" read
          | None =>
              terminal_report process ProcessStateUnknown "local_process_and_output_unrecoverable"
                "the accepted process no longer has a live supervisor and its durable output could not be recovered"
                ("", 0, 0, true)
          end).

(** [processGroupEmpty], [closeRecordedProcessContainment]: signal 0 to the group;
    the two errnos it tells apart are written as texts. *)
Definition closeRecordedProcessContainment (containmentID : Z) (kind : string) : IO (option error) :=
  if kind <>? processContainmentKind then mret (Some (failure "unsupported Unix containment kind"))
  else if containmentID <=? 0 then mret (Some (failure "recorded process group id is invalid"))
  else
    err ← ext (XKill (- containmentID));
    mret (match err with
          | Some e =>
              if errors_Is e (SText "ESRCH") then None
              else if errors_Is e (SText "EPERM")
              then Some (failure "recorded Unix process group may still be active")
              else Some e
          | None => Some (failure "recorded Unix process group may still be active")
          end).

Definition freeze_unknown_action (processID supervisorInstanceID : string) (action : Action)
    : IO (option error) :=
  found ⇠ db_read (ReportBySlot ReportActionTerminal processID (a_ID action));
  match found with
  | Some _ => mret None
  | None =>
      report ⇠ mret (unknownActionRecoveryReport processID (a_ID action));
      _ ⇠ db_write (fun uuid =>
            CFreezeActionReport processID supervisorInstanceID uuid (a_ID action) report);
      mret None
  end.

Definition freeze_stopped_terminal (process : Process) (processID supervisorInstanceID : string)
    : IO (option error) :=
  if p_Phase process ==? ProcessTerminal then mret None
  else
    report ⇠ stoppedProcessTerminalReport process;
    _ ⇠ db_write (fun uuid =>
          CFreezeTerminalReport processID supervisorInstanceID uuid report);
    mret None.

Definition settle_containment (process : Process) (processID supervisorInstanceID : string)
    : IO (option error) :=
  let mark := db_do (CMarkContainmentEmpty processID supervisorInstanceID) in
  if p_ContainmentEmpty process then mret None
  else if negb (p_ExecCommitted process) then mark
  else if p_ContainmentKind process ==? ""
  then mret (Some (failure "execution was committed without a recoverable containment identity"))
  else
    match Atoi (p_ContainmentID process) with
    | None => mret (Some (failure "parse recorded process containment"))
    | Some containmentID =>
        must closeRecordedProcessContainment containmentID (p_ContainmentKind process);
        mark
    end.

Definition recoverStoppedReleasedProcess (processID supervisorInstanceID : string)
    (heldLock : option nat) : IO (option error) :=
  must stateStore;
  found ⇠ db_read (Store_Process processID);
  match found with
  | None => mret None
  | Some process =>
      if p_SupervisorInstanceID process <>? supervisorInstanceID
      then mret (Some [SState ErrSupervisorIdentityMismatch])
      else if (p_Phase process ==? ProcessPreparing) || (p_Phase process ==? ProcessPrepared)
      then
        r ← closeRejectedPreparation processID supervisorInstanceID None heldLock;
        mret r.2
      else
        must retryWhileStateDBBusy (db_do (CCloseActionAdmission processID supervisorInstanceID));
        actions ⇠ db_read (Store_Actions processID);
        must each (freeze_unknown_action processID supervisorInstanceID) actions;
        must freeze_stopped_terminal process processID supervisorInstanceID;
        must settle_containment process processID supervisorInstanceID;
        db_do (CMarkLocalClosed processID supervisorInstanceID)
  end.

(** ** Directives *)

Definition applyActionDisposition (claim : ProcessReconciliationClaim)
    (disposition : ProcessActionReconciliationDirective) : IO (option error) :=
  must stateStore;
  match ad_Disposition disposition with
  | ActionDispositionRetain => mret None
  | ActionDispositionSettle =>
      found ⇠ db_read (ReportBySlot ReportActionTerminal (cl_ProcessID claim)
                         (ad_ProcessActionID disposition));
      match found with
      | None => mret (Some (failure "server requested settlement for action without a frozen report"))
      | Some report => on_startup (with_forced (union {[ r_ID report ]}));; mret None
      end
  | ActionDispositionRelease =>
      retryWhileStateDBBusy (db_do (CReleaseAction (cl_ProcessID claim)
        (cl_SupervisorInstanceID claim) (ad_ProcessActionID disposition) (ad_Seq disposition)))
  | ActionDispositionApply =>
      runner ← get (fun w => su_Runners (w_startup w) !! cl_ProcessID claim);
      match runner with
      | None => mret (Some (failure "server requested apply for action without its exact live supervisor"))
      | Some _ =>
          on_startup (with_actions (fun l => l ++
            [(cl_ProcessID claim,
              mkProcessAction (ad_ActionKind disposition) (ad_Seq disposition)
                (ad_Payload disposition) (ad_ProcessActionID disposition))]));;
          mret None
      end
  | ActionDispositionOther _ =>
      mret (Some (failure "unsupported process action reconciliation directive"))
  end.

(** [runtime.runner], which is not nil for the runtimes of a registration before its
    directive is carried out. *)
Definition runner_of (p : nat) : IO (error + nat) :=
  rt ← get (runtime_at p);
  mret (match rt_runner rt with Some r => inr r | None => inl (failure "nil runner") end).

Definition processRuntimeStorageExhaustionReady (runtime : option nat) (w : World) : bool :=
  match runtime with
  | None => false
  | Some p =>
      match rt_runner (runtime_at p w) with
      | None => false
      | Some r => storageExhaustionReady r w
      end
  end.

Definition apply_close_preparation (claim : ProcessReconciliationClaim) (runner : option nat)
    : IO (option error) :=
  lock ← get (fun w => su_stoppedLocks (w_startup w) !! cl_ProcessID claim);
  on_startup (with_stopped (delete (cl_ProcessID claim)));;
  r ← closeRejectedPreparation (cl_ProcessID claim) (cl_SupervisorInstanceID claim) runner lock;
  let '(cleanupPending, err) := r in
  if cleanupPending : bool then
    rt ← new_runtime (mkRuntime (cl_ProcessID claim) (cl_SupervisorInstanceID claim) 0 None true false);
    on_startup (with_runners (insert (cl_ProcessID claim) rt));;
    mret None
  else
    match err with
    | Some e => mret (Some e)
    | None => on_startup (with_runners (delete (cl_ProcessID claim)));; mret None
    end.

(** [true]: the directive is done ([return nil]); [false]: its actions follow. *)
Definition terminate_exhausted_start (r : nat) (storageErr : error) : IO (error + bool) :=
  terminateErr ← Terminate r "machine_storage_exhausted";
  mret (match terminateErr with
        | Some e => if errors_Is e SStorageExhaustionTerminalReady then inr true else inl e
        | None => inl storageErr
        end).

Definition apply_start (claim : ProcessReconciliationClaim) (runner : option nat)
    : IO (error + bool) :=
  match runner with
  | None => mret (inl (failure "server requested start for process without its exact live supervisor"))
  | Some p =>
      exhausted ← get (processRuntimeStorageExhaustionReady (Some p));
      if exhausted : bool then mret (inr true)
      else
        r ⇠ runner_of p;
        storageErr ← retryWhileStateDBBusy
          (db_do (CMarkAccepted (cl_ProcessID claim) (cl_SupervisorInstanceID claim)));
        match storageErr with
        | Some e =>
            if negb (isStorageExhaustion e) then mret (inl e) else terminate_exhausted_start r e
        | None =>
            err ← StartOnce r;
            match err with
            | None => mret (inr false)
            | Some e =>
                if errors_Is e SStorageExhaustionTerminalReady then mret (inr true)
                else if negb (isStorageExhaustion e) then mret (inl e)
                else terminate_exhausted_start r e
            end
        end
  end.

Definition force_reports (processID : string) : IO (option error) :=
  reports ⇠ db_read (ReportsForProcess processID);
  on_startup (with_forced (union (list_to_set (r_ID <$> reports))));;
  mret None.

Definition apply_release (claim : ProcessReconciliationClaim) (runner : option nat)
    (actions : list ProcessActionReconciliationDirective) : IO (option error) :=
  let pid := cl_ProcessID claim in
  let instance := cl_SupervisorInstanceID claim in
  storageCleanup ← get (processRuntimeStorageExhaustionReady runner);
  markReleasedErr ← retryWhileStateDBBusy (db_do (CMarkServerReleased pid instance));
  match markReleasedErr with
  | Some e =>
      if negb (storageCleanup && errors_Is e (SState ErrFull)) then mret (Some e) else mret None
  | None => mret None
  end ≫= fun refused =>
  match refused with
  | Some e => mret (Some e)
  | None =>
      match runner, (storageCleanup : bool) with
      | Some p, true =>
          r ⇠ runner_of p;
          must Terminate r "server_resolved";
          with_runtime p drop_runner;; with_runtime p mark_cleanup;; mret None
      | _, _ =>
          must force_reports pid;
          must each (applyActionDisposition claim) actions;
          match runner with
          | Some p =>
              r ⇠ runner_of p;
              must Terminate r "server_resolved";
              on_startup (with_runners (delete pid));; mret None
          | None =>
              lock ← get (fun w => su_stoppedLocks (w_startup w) !! pid);
              recoverStoppedReleasedProcess pid instance lock;;
              mret None
          end
      end
  end.

Definition applyProcessDisposition (claim : ProcessReconciliationClaim)
    (disposition : ProcessReconciliationDirective) : IO (option error) :=
  must stateStore;
  runner ← get (fun w => su_Runners (w_startup w) !! cl_ProcessID claim);
  match pd_Disposition disposition with
  | ProcessDispositionClosePreparation => apply_close_preparation claim runner
  | ProcessDispositionStart =>
      finished ⇠ apply_start claim runner;
      if finished : bool then mret None
      else each (applyActionDisposition claim) (pd_Actions disposition)
  | ProcessDispositionRetain => each (applyActionDisposition claim) (pd_Actions disposition)
  | ProcessDispositionRelease => apply_release claim runner (pd_Actions disposition)
  | ProcessDispositionOther _ =>
      mret (Some (failure "unsupported process reconciliation directive"))
  end.

Fixpoint apply_directives (claims : gmap string ProcessReconciliationClaim) (seen : gset string)
    (directives : list ProcessReconciliationDirective) : IO (option error) :=
  match directives with
  | [] => mret None
  | disposition :: rest =>
      let unknown := failure "server returned a disposition for unknown supervisor instance" in
      match claims !! pd_ProcessID disposition with
      | None => mret (Some unknown)
      | Some claim =>
          if pd_SupervisorInstanceID disposition <>? cl_SupervisorInstanceID claim
          then mret (Some unknown)
          else if bool_decide (pd_ProcessID disposition ∈ seen)
          then mret (Some (failure "server repeated process disposition"))
          else
            must applyProcessDisposition claim disposition;
            apply_directives claims ({[ pd_ProcessID disposition ]} ∪ seen) rest
      end
  end.

Definition claims_by_id (claims : list ProcessReconciliationClaim)
    : gmap string ProcessReconciliationClaim :=
  fold_left (fun m claim => <[cl_ProcessID claim := claim]> m) claims ∅.

Definition apply_checked (directives : list ProcessReconciliationDirective) : IO (option error) :=
  claims ← get (fun w => claims_by_id (su_Claims (w_startup w)));
  if negb (length directives =? size claims)%nat
  then mret (Some (failure "server returned a wrong number of process directives"))
  else
    must apply_directives claims ∅ directives;
    replaceProcesses;; mret None.

Definition applyRegistrationReconciliation (directives : list ProcessReconciliationDirective)
    : IO (option error) :=
  err ← apply_checked directives;
  releaseFences;; releaseLocks;;
  mret err.
(** ** The clean-up loop *)

Definition cleanup_one (runtime : nat) : IO unit :=
  rt ← get (runtime_at runtime);
  let processID := rt_processID rt in
  let instance := rt_supervisorInstanceID rt in
  found ← db_read (Store_Process processID);
  match found with
  | inl _ => mret tt
  | inr None =>
      err ← removeProcessRuntimeArtifacts processID instance true;
      match err with
      | Some _ => mret tt
      | None => removeProcessInstance processID instance
      end
  | inr (Some process) =>
      r ← (if (p_Phase process ==? ProcessPreparing) || (p_Phase process ==? ProcessPrepared)
           then closeRejectedPreparation processID instance None None
           else closeStorageExhaustedProcess runtime);
      let '(cleanupPending, err) := r in
      if cleanupPending : bool then mret tt
      else match err with
           | Some _ => mret tt
           | None => removeProcessInstance processID instance
           end
  end.

(** The part of the second loop that brings a released process to local closure;
    [inr true] goes on to deletion, [inr false] continues with the next process. *)
Definition close_released (process : Process) : IO (error + bool) :=
  let processID := p_ProcessID process in
  let instance := p_SupervisorInstanceID process in
  if p_LocalClosed process then mret (inr true)
  else
    runtime ← localProcess processID;
    running ← (match runtime with
               | None => mret false
               | Some p =>
                   rt ← get (runtime_at p);
                   if rt_cleanupOnly rt then mret true
                   else match rt_runner rt with
                        | None => mret true
                        | Some r =>
                            probeErr ← Status r;
                            match probeErr with
                            | None => mret true
                            | Some _ => removeProcessInstance processID instance;; mret false
                            end
                        end
               end);
    if running : bool then mret (inr false)
    else
      lockPath ⇠ lock_path processID;
      r ← TryAcquire lockPath;
      match r with
      | inr lock =>
          recoverErr ← recoverStoppedReleasedProcess processID instance (Some lock);
          releaseErr ← Release lock;
          match recoverErr, releaseErr with
          | Some _, _ => mret (inr false)
          | None, Some e => mret (inl e)
          | None, None => mret (inr true)
          end
      | inl e =>
          if errors_Is e SLockHeld then mret (inr false)
          else if negb (errors_Is e SNotExist) then mret (inl e)
          else mret (inr true)
      end.

Definition report_acknowledged (report : Report) : bool := r_State report ==? ReportAcknowledged.

Definition delete_settled (processID : string) : IO (option error) :=
  found ⇠ db_read (Store_Process processID);
  match found with
  | None => mret None
  | Some current =>
      if negb (p_LocalClosed current) || negb (p_ServerReleased current) then mret None
      else
        actions ⇠ db_read (Store_Actions (p_ProcessID current));
        if negb (length actions =? 0)%nat then mret None
        else
          reports ⇠ db_read (ReportsForProcess (p_ProcessID current));
          if negb (forallb report_acknowledged reports) then mret None
          else
            err ← releaseProcessRuntimeArtifacts (p_ProcessID current)
                    (p_SupervisorInstanceID current);
            match err with
            | Some e => if errors_Is e SLockHeld then mret None else mret (Some e)
            | None =>
                must db_do (CDeleteClosed (p_ProcessID current) (p_SupervisorInstanceID current));
                removeProcessInstance (p_ProcessID current) (p_SupervisorInstanceID current);;
                mret None
            end
  end.

Definition finalize_one (process : Process) : IO (option error) :=
  if negb (p_ServerReleased process) then mret None
  else
    closed ⇠ close_released process;
    if closed : bool then delete_settled (p_ProcessID process) else mret None.

Definition finalizeReleasedProcesses : IO (option error) :=
  must stateStore;
  runtimes ← cleanupProcesses;
  each_ cleanup_one runtimes;;
  processes ⇠ db_read Store_Processes;
  each finalize_one processes.

(** ** The check of the supervisors at every heartbeat (client_socket.go) *)

(** A process whose supervisor does not hold its lock: the row is read again. *)
Definition verify_unlocked (process : Process) (lockMissing : bool) : IO (option error) :=
  let forget := removeProcessInstance (p_ProcessID process) (p_SupervisorInstanceID process);; mret None in
  found ⇠ db_read (Store_Process (p_ProcessID process));
  match found with
  | None => forget
  | Some current =>
      if (p_SupervisorInstanceID current <>? p_SupervisorInstanceID process) || p_LocalClosed current
      then forget
      else if p_ServerReleased current && negb lockMissing then forget
      else mret (Some (failure "process supervisor no longer holds its lifetime lock"))
  end.

Definition verify_lock (machine : MachineStore) (process : Process) : IO (option error) :=
  lockPath ⇠ mret (text_error (LifetimeLockPath machine (p_ProcessID process)));
  lock ← TryAcquire lockPath;
  match lock with
  | inr lock => must Release lock; verify_unlocked process false
  | inl e =>
      if errors_Is e SLockHeld then mret None
      else if errors_Is e SNotExist then verify_unlocked process true
      else mret (Some e)
  end.

(** [false]: the runtime only waits for clean-up. *)
Definition probe_runtime (process : Process) : IO bool :=
  runtime ← localProcess (p_ProcessID process);
  match runtime with
  | None => mret true
  | Some p =>
      rt ← get (runtime_at p);
      if rt_supervisorInstanceID rt <>? p_SupervisorInstanceID process then mret true
      else if rt_cleanupOnly rt then mret false
      else match rt_runner rt with
           | None => mret true
           | Some r => Status r;; mret true
           end
  end.

(** There is no other phase. *)
Definition verify_one (machine : MachineStore) (process : Process) : IO (option error) :=
  if p_LocalClosed process
  then removeProcessInstance (p_ProcessID process) (p_SupervisorInstanceID process);; mret None
  else
    goes_on ← probe_runtime process;
    if negb goes_on then mret None
    else
      match p_Phase process with
      | ProcessPrepared | ProcessAccepted | ProcessTerminal => verify_lock machine process
      | ProcessPreparing => mret None
      end.

Definition verifyProcessSupervisors : IO (option error) :=
  must stateStore;
  processes ⇠ db_read Store_Processes;
  machine ⇠ machineStore;
  each (verify_one machine) processes.

(** ** Registration (client.go) *)

Definition Bootstrap : IO (error + daemonBootstrap) :=
  b ← get w_bootstrap;
  if b_MachineID b <>? "" then mret (inr b)
  else
    rp ← next_reply;
    log (EExt (XPost "/daemon/bootstrap") (rp_err rp));;
    cfg ← get w_cfg;
    match rp_err rp with
    | Some e => mret (inl e)
    | None =>
        let response := rp_bootstrap rp in
        if (b_InstallationID response ==? "") || (b_MachineID response ==? "")
        then mret (inl (failure "daemon bootstrap response is missing required identity"))
        else if (cfg_ExpectedInstallationID cfg <>? "")
                && (b_InstallationID response <>? cfg_ExpectedInstallationID cfg)
        then mret (inl [SBindingMismatch])
        else if (cfg_ExpectedMachineID cfg <>? "")
                && (b_MachineID response <>? cfg_ExpectedMachineID cfg)
        then mret (inl [SBindingMismatch])
        else modify (set_bootstrap response);; mret (inr response)
    end.

(** [json.Unmarshal] refuses a sequence number that is not an [int64]. *)
Definition directive_decodes (d : ProcessReconciliationDirective) : Prop :=
  Forall (fun a => is_int64 (ad_Seq a)) (pd_Actions d).
Global Instance directive_decodes_dec d : Decision (directive_decodes d).
Proof. unfold directive_decodes. apply _. Defined.

Definition Register
    : IO (error + (DaemonRuntime * list ProcessReconciliationDirective)) :=
  _ ⇠ Bootstrap;
  rp ← next_reply;
  log (EExt (XPost "/daemon/runtimes") (rp_err rp));;
  mret (match rp_err rp with
        | Some e => inl (if errors_Is e (SStatus 410) then [SInstanceSuperseded] else e)
        | None =>
            if negb (bool_decide (Forall directive_decodes (rp_directives rp)))
            then inl (failure "json: cannot unmarshal number into int64")
            else if dr_NextHeartbeatAfterMS (rp_runtime rp) <=? 0 then inl [SMissingHeartbeat]
            else inr (rp_runtime rp, rp_directives rp)
        end).

Definition IsAuthenticationRejected (err : error) : bool :=
  errors_Is err (SStatus 401) || errors_Is err (SStatus 403).

Definition isTerminalDaemonRequestError (err : error) : bool :=
  IsAuthenticationRejected err || errors_Is err (SStatus 400).

(** One attempt; [Some e] is the error that the loop examines. *)
Definition register_once : IO (error + DaemonRuntime) :=
  r ← Register;
  match r with
  | inl e => mret (inl e)
  | inr (runtime, directives) =>
      applyErr ← applyRegistrationReconciliation directives;
      match applyErr with
      | None => modify (set_activeRuntime runtime);; mret (inr runtime)
      | Some e => mret (inl e)
      end
  end.

Fixpoint register_loop (sleeps : nat) : IO (error + DaemonRuntime) :=
  must scanLocalProcessesForRegistration;
  r ← register_once;
  match r with
  | inr runtime => mret (inr runtime)
  | inl e =>
      releaseResources;;
      rp ← next_reply;
      if rp_flag rp then mret (inl [SContext])
      else if errors_Is e SInstanceSuperseded || isTerminalDaemonRequestError e then mret (inl e)
      else match sleeps with
           | O => mret (inl [SContext])
           | S n => register_loop n
           end
  end.

Definition registerWithRetry : IO (error + DaemonRuntime) :=
  rp ← next_reply; register_loop (rp_sleeps rp).
End Reconciliation.

(** ** Delays between attempts *)

(** [time.Duration] is an [int64] of nanoseconds; [draw] is [rand.Int64N(n)], a
    number between 0 and [n - 1]. *)
Fixpoint doubled (n : nat) (maximum delay : Z) : Z :=
  match n with
  | O => delay
  | S n' => if maximum / 2 <=? delay then maximum else doubled n' maximum (wrap64 (delay * 2))
  end.

Definition retryBackoffDelay (draw : Z -> Z) (initial maximum : Z) (failures : Z) : Z :=
  let initial := if initial <=? 0 then 1000000000 else initial in
  let maximum := if maximum <? initial then initial else maximum in
  let delay := doubled (Z.to_nat (Z.max (wrap64 (failures - 1)) 0)) maximum initial in
  let delay := if maximum <? delay then maximum else delay in
  if delay <=? 1 then delay
  else
    let minimum := delay / 2 in
    wrap64 (minimum + draw (wrap64 (delay - minimum))).

Definition maximumRetryDelay : Z := int64_max.

(** [serverDelay] is what [retryAfterDelay] found in the error, if anything. *)
Definition retryDelayForDaemonError (draw : Z -> Z) (initial maximum failures : Z)
    (serverDelay : option Z) : Z :=
  let delay := retryBackoffDelay draw initial maximum failures in
  match serverDelay with
  | None => delay
  | Some serverDelay =>
      if wrap64 (maximumRetryDelay - delay) <? serverDelay then maximumRetryDelay
      else wrap64 (serverDelay + delay)
  end.
