(* ===== verification/Launch.v ===== *)
(** * Launching supervisors

    Models [subprocessRunnerLauncher.Prepare] of
    [internal/machinedaemon/runner_subprocess.go], which the connection calls for an
    offered process: the reservation in the state database, the lifetime lock and its
    hand-over to the supervisor, the file with the supervisor's identity, the start of
    the supervisor, and the rollback when any of it fails.

    The texts drawn from the system (a UUID, a token, the working directory) are the
    texts of the replies.  The goroutine that waits for the supervisor is
    [supervisor_exited]; while [Prepare] runs, what it does is part of what the others
    do between two calls ([rp_puts], [rp_flag]). *)
From stdpp Require Import pretty.
From S2P Require Import Prelude GoStrings DaemonProtocol ProcessCmd DaemonMessages LocalPaths.
From S2P Require Import StateSchema StateQueries StateTx StateReport StateProcess StateAction StateTrace.
From S2P Require Import LocalStore RunnerEnv ClientWorld Reconciliation.
From stdpp Require Import options.
Local Open Scope Z_scope.

Class LaunchCodec : Type := {
  marshal_assignment : ProcessAssignment -> option string;
  marshal_identity : supervisorIdentityBootstrap -> option string;
  launch_error_text : error -> string;                        (**r [err.Error()] *)
  environ : list string                                       (**r [os.Environ()] *)
}.

Definition runnerSubcommand : string := "__omnara_process_runner".

(** [return nil, err] *)
Global Instance FromError_runtime : FromError (option nat * option error) := fun e => (None, Some e).

Section Launch.
Context {RC : ReportCodec} {CC : ClientCodec} {U : Unicode} {LC : LaunchCodec}.

(** A text from the system. *)
Definition draw : IO (error + string) :=
  rp ← next_reply; mret (match rp_err rp with Some e => inl e | None => inr (rp_uuid rp) end).

(** ** The working directory *)

Definition IsHomeRelativePath (path : string) : bool := (path ==? "~") || HasPrefix path "~/".

Definition ExpandHomeRelativePath (path : string) : IO (error + string) :=
  if negb (IsHomeRelativePath path) then mret (inr path)
  else
    home ⇠ draw;
    mret (inr (if path ==? "~" then home
               else Join [home; String.substring 2 (String.length path) path])).

(** [filepath.Abs] *)
Definition Abs (path : string) : IO (error + string) :=
  if IsAbs path then mret (inr (Clean path))
  else wd ⇠ draw; mret (inr (Join [wd; path])).

Definition canonicalProcessCwd (cwd : string) : IO (error + string) :=
  cwd ⇠ ExpandHomeRelativePath cwd; Abs cwd.

Definition with_cwd (cwd : string) (a : ProcessAssignment) : ProcessAssignment :=
  mkAssignment (as_ID a) (as_Command a) (as_ShellSelector a) cwd (as_IOMode a) (as_Env a)
    (as_PreparationError a) (as_WaitMs a) (as_TimeoutSeconds a).
Definition with_error (text : string) (a : ProcessAssignment) : ProcessAssignment :=
  mkAssignment (as_ID a) (as_Command a) (as_ShellSelector a) (as_Cwd a) (as_IOMode a) (as_Env a)
    text (as_WaitMs a) (as_TimeoutSeconds a).

Definition canonical (assignment : ProcessAssignment) : IO ProcessAssignment :=
  if as_PreparationError assignment ==? "" then
    cwd ← canonicalProcessCwd (as_Cwd assignment);
    mret (match cwd with
          | inl e => with_error (launch_error_text e) assignment
          | inr cwd => with_cwd cwd assignment
          end)
  else mret assignment.

(** ** The supervisor's identity *)

Definition writeSupervisorIdentityBootstrap (bootstrap : supervisorIdentityBootstrap) (dir : string)
    : IO (error + string) :=
  if dir ==? "" then mret (inl (failure "supervisor bootstrap dir is required"))
  else
    match marshal_identity bootstrap with
    | None => mret (inl (failure "json"))
    | Some body =>
        name ⇠ mret (supervisorIdentityBootstrapFileName (sb_ProcessID bootstrap)
                       (sb_SupervisorInstanceID bootstrap));
        let path := Join [dir; name] in
        err ← ext (XWriteFile path body);
        mret (match err with Some e => inl e | None => inr path end)
    end.

(** ** The supervisor *)

(** [command.Start] *)
Definition spawn_supervisor (argv env : list string) : IO (error + Z) :=
  rp ← next_reply;
  log (EExt (XSpawn argv env) (rp_err rp));;
  mret (match rp_err rp with Some e => inl e | None => inr (rp_pid rp) end).

(** The goroutine behind [command.Wait]. *)
Definition supervisor_exited (processID supervisorInstanceID : string) (runner : nat) : IO unit :=
  markDone runner;;
  modify (fun w =>
    match w_processes w !! processID with
    | Some p =>
        let current := runtime_at p w in
        if (rt_supervisorInstanceID current ==? supervisorInstanceID)
           && negb (rt_cleanupOnly current) && negb (rt_storageFailureReporting current)
        then set_processes (delete processID (w_processes w)) w
        else w
    | None => w
    end).

(** The loop of [waitReady]: the deadline and the context let [sleeps] pauses pass;
    then one of them has ended. *)
Fixpoint wait_ready (sleeps : nat) (r : nat) : IO (option error) :=
  err ← Status r;
  match err with
  | None => mret None
  | Some e =>
      match sleeps with
      | O => rp ← next_reply; mret (Some (if rp_flag rp then [SContext] else e))
      | S n => wait_ready n r
      end
  end.

Definition waitReady (r : nat) : IO (option error) := rp ← next_reply; wait_ready (rp_sleeps rp) r.

Definition runner_prepare (r : nat) (assignment : ProcessAssignment) : IO (option error) :=
  match marshal_assignment assignment with
  | None => mret (Some (failure "json"))
  | Some body => runner_call r (MPrepare body)
  end.

(** ** Rollback *)

(** Has [command.Wait] returned? *)
Definition supervisor_done : IO bool := rp ← next_reply; mret (rp_flag rp).

Definition kill_supervisor (runtime : nat) : IO (option error) :=
  rt ← get (runtime_at runtime); ext (XKillSupervisor (rt_supervisorPID rt)).

(** [inl err]: the supervisor may still run. *)
Definition stop_supervisor (runtime runner : nat) : IO (error + unit) :=
  closeErr ← CloseUngranted runner;
  stopped ← supervisor_done;
  if stopped : bool then mret (inr tt)
  else
    killErr ← kill_supervisor runtime;
    let killErr := match killErr with
                   | Some e => if errors_Is e SProcessDone then None else Some e
                   | None => None
                   end in
    stopped ← supervisor_done;
    mret (if stopped : bool then inr tt
          else inl (default [] (errors_Join [closeErr; killErr; Some [SContext]]))).

Definition set_cleanupOnly (b : bool) (rt : Runtime) : Runtime :=
  mkRuntime (rt_processID rt) (rt_supervisorInstanceID rt) (rt_supervisorPID rt) (rt_runner rt) b
    (rt_storageFailureReporting rt).

Definition set_supervisorPID (pid : Z) (rt : Runtime) : Runtime :=
  mkRuntime (rt_processID rt) (rt_supervisorInstanceID rt) pid (rt_runner rt) (rt_cleanupOnly rt)
    (rt_storageFailureReporting rt).

(** The closure [fail]. *)
Definition undo_reservation (processID supervisorInstanceID : string) (runtime : nat)
    (lifetimeLock : option nat) (supervisorStarted : bool) (cause : error) : IO error :=
  r ← closeRejectedPreparation processID supervisorInstanceID None
        (if supervisorStarted then None else lifetimeLock);
  match r with
  | (_, None) => mret cause
  | (cleanupPending, Some cleanupErr) =>
      let cleanupOnly :=
        cleanupPending
        || (negb supervisorStarted && bool_decide (lifetimeLock = None) && isStorageExhaustion cause) in
      with_runtime runtime (set_cleanupOnly cleanupOnly);;
      mret (if cleanupOnly then cause ++ cleanupErr
            else SUnresolvedPreparation :: cause ++ cleanupErr)
  end.

Definition rollback (processID supervisorInstanceID : string) (runtime runner : nat)
    (lifetimeLock : option nat) (supervisorStarted : bool) (cause : error) : IO error :=
  (if supervisorStarted then mret tt else markDone runner);;
  stopped ← (if supervisorStarted then stop_supervisor runtime runner else mret (inr tt));
  match stopped with
  | inl stopErr => mret (SUnresolvedPreparation :: cause ++ stopErr)
  | inr _ => undo_reservation processID supervisorInstanceID runtime lifetimeLock supervisorStarted cause
  end.

(** ** Prepare *)

(** [return runtime, fail(err)] *)
Definition return_failed (processID supervisorInstanceID : string) (runtime runner : nat)
    (lifetimeLock : option nat) (supervisorStarted : bool) (cause : error)
    : IO (option nat * option error) :=
  e ← rollback processID supervisorInstanceID runtime runner lifetimeLock supervisorStarted cause;
  mret (Some runtime, Some e).

(** From the start of the supervisor on. *)
Definition prepare_started (assignment : ProcessAssignment) (supervisorInstanceID : string)
    (runtime runner lock : nat) : IO (option nat * option error) :=
  let fails := return_failed (as_ID assignment) supervisorInstanceID runtime runner (Some lock) true in
  err ← RelinquishInherited lock;
  match err with
  | Some e => kill_supervisor runtime;; fails e
  | None =>
      err ← waitReady runner;
      match err with
      | Some e => fails e
      | None =>
          err ← runner_prepare runner assignment;
          match err with
          | Some e => fails e
          | None =>
              err ← db_do (CMarkPrepared (as_ID assignment) supervisorInstanceID);
              match err with
              | Some e => fails e
              | None => mret (Some runtime, None)
              end
          end
      end
  end.

(** With the identity file in place. *)
Definition start_supervisor (assignment : ProcessAssignment) (supervisorInstanceID bootstrapPath : string)
    (runtime runner lock : nat) : IO (option nat * option error) :=
  let fails := return_failed (as_ID assignment) supervisorInstanceID runtime runner (Some lock) false in
  executable ← draw;
  match executable with
  | inl e => fails e
  | inr executable =>
      cfg ← get w_cfg;
      err ← ext (XOpen "/dev/null");
      match err with
      | Some e => fails e
      | None =>
          fd ← PrepareChildInheritance lock;
          match fd with
          | inl e => fails e
          | inr fd =>
              started ← spawn_supervisor
                [executable; runnerSubcommand; bootstrapPath; pretty fd]
                (processRunnerEnv environ (cfg_RunnerPath cfg)
                   {[ omnaraHomeEnvironmentName := cfg_OmnaraHome cfg ]});
              match started with
              | inl e => fails e
              | inr pid =>
                  with_runtime runtime (set_supervisorPID pid);;
                  prepare_started assignment supervisorInstanceID runtime runner lock
              end
          end
      end
  end.

(** With the lifetime lock held. *)
Definition prepare_locked (machine : MachineStore) (assignment : ProcessAssignment)
    (supervisorInstanceID supervisorToken : string) (runtime runner lock : nat)
    : IO (option nat * option error) :=
  cfg ← get w_cfg;
  binding ← get w_bootstrap;
  path ← writeSupervisorIdentityBootstrap
    (mkIdentity (cfg_OmnaraHome cfg) (b_InstallationID binding) (b_MachineID binding)
       (as_ID assignment) supervisorInstanceID supervisorToken)
    (RunDir machine);
  match path with
  | inl e => return_failed (as_ID assignment) supervisorInstanceID runtime runner (Some lock) false e
  | inr path =>
      result ← start_supervisor assignment supervisorInstanceID path runtime runner lock;
      removeSupervisorIdentityBootstrap machine (as_ID assignment) supervisorInstanceID;;
      mret result
  end.

(** With the process reserved. *)
Definition prepare_reserved (machine : MachineStore) (assignment : ProcessAssignment)
    (supervisorInstanceID supervisorToken : string) (runtime runner : nat)
    : IO (option nat * option error) :=
  let fails := return_failed (as_ID assignment) supervisorInstanceID runtime runner None false in
  match text_error (LifetimeLockPath machine (as_ID assignment)) with
  | inl e => fails e
  | inr lockPath =>
      r ← TryAcquire lockPath;
      match r with
      | inl e => fails e
      | inr lock =>
          result ← prepare_locked machine assignment supervisorInstanceID supervisorToken runtime runner lock;
          Release lock;;
          mret result
      end
  end.

(** [statedb.Process{...}] with the three fields that are set. *)
Definition reservation (processID supervisorInstanceID supervisorToken : string) : Process :=
  mkProcess processID supervisorInstanceID supervisorToken ProcessPreparing 0 false "" "" false false
    false false.

Definition Prepare (assignment : ProcessAssignment) : IO (option nat * option error) :=
  assignment ← canonical assignment;
  machine ⇠ machineStore;
  must ext (XPrivateDir (RunDir machine));
  must ext (XPrivateDir (ProcessesDir machine));
  endpoint ⇠ mret (text_error (ControlEndpointPath machine (as_ID assignment)));
  supervisorInstanceID ⇠ draw;
  supervisorToken ⇠ draw;
  must stateStore;
  must db_do (CReserveProcess (reservation (as_ID assignment) supervisorInstanceID supervisorToken));
  runner ← new_runner (mkRunner endpoint supervisorToken supervisorInstanceID false false false);
  runtime ← new_runtime (mkRuntime (as_ID assignment) supervisorInstanceID 0 (Some runner) false false);
  prepare_reserved machine assignment supervisorInstanceID supervisorToken runtime runner.
End Launch.
