(* ===== verification/ReconFrame.v ===== *)
(** * Reasoning about programs of the daemon client

    [along R m]: every run of [m] relates its first and last world by [R].  For a
    preorder [R] it is compositional, so a property of a whole program follows from
    the property of the primitives and of the few blocks in which the relation is
    broken and restored.  The first relation, [evolves], says that the database
    moved along a history ([runs]) and that the calls of the daemon were made in the
    order the protocol requires ([ordered]). *)
From S2P Require Import Prelude GoStrings DaemonProtocol LocalPaths StateSchema StateQueries StateTx.
From S2P Require Import StateReport StateProcess StateAction StateTrace StateAudit LocalStore OutputFile.
From S2P Require Import ClientWorld Reconciliation.
From stdpp Require Import options.
Local Open Scope Z_scope.

Lemma bind_run {A B} (p : IO A) (k : A -> IO B) w : (p ≫= k) w = k (p w).1 (p w).2.
Proof. unfold mbind, M_bind. by destruct (p w). Qed.

Lemma check_run {R} `{!FromError R} (p : IO (option error)) (k : IO R) w :
  check_raise p k w = match (p w).1 with Some e => (raise e, (p w).2) | None => k (p w).2 end.
Proof. unfold check_raise. rewrite bind_run. by destruct (p w) as [[e|] w1]. Qed.

Lemma or_raise_run {A R} `{!FromError R} (p : IO (error + A)) (k : A -> IO R) w :
  or_raise p k w = match (p w).1 with inl e => (raise e, (p w).2) | inr a => k a (p w).2 end.
Proof. unfold or_raise. rewrite bind_run. by destruct (p w) as [[e|a] w1]. Qed.

Definition along (R : relation World) {A} (m : IO A) : Prop := forall w, R w (m w).2.

Section Along.
Context (R : relation World) `{!PreOrder R}.

Lemma along_ret {A} (a : A) : along R (mret a).
Proof using Type*. intros w. simpl. reflexivity. Qed.

Lemma along_get {A} (f : World -> A) : along R (get f).
Proof using Type*. intros w. simpl. reflexivity. Qed.

Lemma along_bind {A B} (m : IO A) (k : A -> IO B) :
  along R m -> (forall a, along R (k a)) -> along R (m ≫= k).
Proof using Type*.
  intros Hm Hk w. unfold mbind, M_bind. specialize (Hm w). destruct (m w) as [a w1].
  etrans; [exact Hm|apply Hk].
Qed.

Lemma along_or_raise {A B} `{!FromError B} (m : IO (error + A)) (k : A -> IO B) :
  along R m -> (forall a, along R (k a)) -> along R (or_raise m k).
Proof using Type*. intros Hm Hk. apply along_bind; [done|]. intros [e|a]; [apply along_ret|apply Hk]. Qed.

Lemma along_check {B} `{!FromError B} (m : IO (option error)) (k : IO B) :
  along R m -> along R k -> along R (check_raise m k).
Proof using Type*. intros Hm Hk. apply along_bind; [done|]. intros [e|]; [apply along_ret|apply Hk]. Qed.

Lemma along_each {A} (body : A -> IO (option error)) l :
  (forall x, x ∈ l -> along R (body x)) -> along R (each body l).
Proof using Type*.
  induction l as [|x l IH]; intros H; simpl; [apply along_ret|].
  apply along_check; [apply H; left|apply IH]. intros y Hy. apply H. by right.
Qed.

Lemma along_each_ {A} (body : A -> IO unit) l :
  (forall x, x ∈ l -> along R (body x)) -> along R (each_ body l).
Proof using Type*.
  induction l as [|x l IH]; intros H; simpl; [apply along_ret|].
  apply along_bind; [apply H; left|]. intros _. apply IH. intros y Hy. apply H. by right.
Qed.

Lemma along_modify f : (forall w, R w (f w)) -> along R (modify f).
Proof. intros H w. apply H. Qed.

Lemma along_while_busy n op : along R op -> along R (while_busy n op).
Proof using Type*.
  intros H. induction n; simpl; (apply along_bind; [done|]; intros [e|]; [|apply along_ret];
    case_match; [apply along_ret|]; try apply along_ret; done).
Qed.
End Along.

(** Splits a program into its primitives; [tac] closes those the hints do not. *)
Ltac along_step :=
  lazymatch goal with
  | |- forall _, _ => intros
  | |- along _ (mret _) => apply along_ret; apply _
  | |- along _ (get _) => apply along_get; apply _
  | |- along _ (_ ≫= _) => apply along_bind; [apply _|..]
  | |- along _ (or_raise _ _) => apply along_or_raise; [apply _|..]
  | |- along _ (check_raise _ _) => apply along_check; [apply _|..]
  | |- along _ (each _ _) => apply along_each; [apply _|]
  | |- along _ (each_ _ _) => apply along_each_; [apply _|]
  | |- along _ (while_busy _ _) => apply along_while_busy; [apply _|]
  | |- along _ (match ?x with _ => _ end) => destruct x
  | |- along _ (match ?x with _ => _ end _) => destruct x
  | |- along _ (let _ := _ in _) => intro
  end.

Create HintDb recon.
#[export] Hint Constants Opaque : recon.
Ltac along_walk := repeat first [ solve [eauto with recon] | progress along_step ].

(** ** Histories and order *)

(** The writes to the database among the events, and the daemon's own calls. *)
Definition calls (l : list Event) : list Call :=
  omap (fun e => match e with EDb c | EOther c => Some c | _ => None end) l.

Definition is_own (e : Event) : bool := match e with EOther _ => false | _ => true end.
Definition own (l : list Event) : list Event := List.filter is_own l.

(** The removal of a process's files, call by call. *)
Definition removal (m : MachineStore) (pid instance : string) (removeOutput : bool)
    (l : list Event) : Prop :=
  exists d e,
    ProcessDir m pid = inr d /\ ControlEndpointPath m pid = inr e /\
    exists boot,
      (instance = "" /\ boot = []
       \/ exists name err,
            supervisorIdentityBootstrapFileName pid instance = inr name
            /\ match err with None => True | Some e => errors_Is e SNotExist = true end
            /\ boot = [EExt (XRemove (Join [RunDir m; name])) err; EExt (XSyncDir (RunDir m)) None])
      /\ l = (if removeOutput then [EExt (XRemoveAll d) None] else [])
             ++ [EExt (XCleanup e) None] ++ boot
             ++ (if removeOutput then [EExt (XSyncDir (Dir d)) None] else []).

(** The retirement of the process's lifetime lock. *)
Definition lock_event (m : MachineStore) (pid : string) (e : Event) : Prop :=
  match e with
  | EUnlock _ => True
  | EExt (XRemove p) _ => LifetimeLockPath m pid = inr p
  | EExt (XSyncDir _) None => True
  | _ => False
  end.

Definition deletion (c : Cmd) : option (string * string * bool) :=
  match c with
  | CDeleteRejectedPreparation pid instance | CDeleteStorageExhausted pid instance =>
      Some (pid, instance, true)
  | CDeleteClosed pid instance => Some (pid, instance, false)
  | _ => None
  end.

(** The calls just before the daemon deletes a row removed the process's files (all
    of them, or all but the captured output of a process that ended), and the call
    just before a supervisor is told to start recorded that the server accepted a
    process. *)
Definition ordered (m : MachineStore) (l : list Event) : Prop :=
  (forall l1 c l2 pid instance out,
     l = l1 ++ EDb c :: l2 -> deletion (c_cmd c) = Some (pid, instance, out) ->
     exists l0 files lock, l1 = l0 ++ files ++ lock /\ removal m pid instance out files
       /\ Forall (lock_event m pid) lock)
  /\ (forall l1 r err l2,
     l = l1 ++ ERunner r MStartOnce err :: l2 ->
     exists l0 pid instance faults o,
       l1 = l0 ++ [EDb (mkCall (CMarkAccepted pid instance) faults (inr o))]).

Lemma ordered_nil m : ordered m [].
Proof. split; intros; by destruct l1. Qed.

(** The event at a position of a concatenation. *)
Lemma app_split {A} (l l' l1 l2 : list A) x :
  l ++ l' = l1 ++ x :: l2 ->
  (exists k, l = l1 ++ x :: k) \/ (exists k, l1 = l ++ k /\ l' = k ++ x :: l2).
Proof.
  intros E. apply app_eq_inv in E as [(k & -> & E)|(k & -> & E)]; [|by right; eauto].
  destruct k as [|y k]; simpl in E; [right; exists []; rewrite !List.app_nil_r; by split|].
  injection E as <- _. left. eauto.
Qed.

Lemma ordered_app m l l' : ordered m l -> ordered m l' -> ordered m (l ++ l').
Proof.
  intros [Hd Hs] [Hd' Hs']. split.
  - intros l1 c l2 pid instance out [(k & E)|(k & -> & E)]%app_split Hc; [by eapply Hd|].
    destruct (Hd' _ _ _ _ _ _ E Hc) as (l0 & files & lock & -> & ? & ?).
    exists (l ++ l0), files, lock. by rewrite List.app_assoc.
  - intros l1 r err l2 [(k & E)|(k & -> & E)]%app_split; [by eapply Hs|].
    destruct (Hs' _ _ _ _ E) as (l0 & pid & instance & f & o & ->).
    exists (l ++ l0), pid, instance, f, o. by rewrite List.app_assoc.
Qed.

(** An event that the order says nothing about. *)
Definition free_event (e : Event) : Prop :=
  match e with
  | EDb c => deletion (c_cmd c) = None
  | ERunner _ MStartOnce _ => False
  | _ => True
  end.

Lemma ordered_free m l : Forall free_event l -> ordered m l.
Proof.
  intros H. split; intros; subst; apply Forall_app in H as [_ H]; inversion H; subst; simpl in *;
    congruence || done.
Qed.

Lemma own_app l l' : own (l ++ l') = own l ++ own l'.
Proof. apply List.filter_app. Qed.

Lemma calls_app l l' : calls (l ++ l') = calls l ++ calls l'.
Proof. apply omap_app. Qed.

Section Evolves.
Context {RC : ReportCodec} {CC : ClientCodec}.

Lemma runs_app db1 h1 db2 h2 db3 : runs db1 h1 db2 -> runs db2 h2 db3 -> runs db1 (h1 ++ h2) db3.
Proof. induction 1; [done|]. intros. econstructor; eauto. Qed.

Definition machine_of (w : World) : error + MachineStore := fst (machineStore w).

(** [w'] is reached from [w] by the calls [l]. *)
Definition step_by (m : MachineStore) (l : list Event) (w w' : World) : Prop :=
  machine_of w' = inr m /\ w_log w' = w_log w ++ l /\ runs (w_db w) (calls l) (w_db w').

Definition evolves (m : MachineStore) (w w' : World) : Prop :=
  machine_of w = inr m -> exists l, step_by m l w w' /\ ordered m (own l).

Lemma step_by_refl m w : machine_of w = inr m -> step_by m [] w w.
Proof. intros Hw. split_and!; [done|by rewrite List.app_nil_r|constructor]. Qed.

Lemma step_by_trans m l1 l2 w1 w2 w3 :
  step_by m l1 w1 w2 -> step_by m l2 w2 w3 -> step_by m (l1 ++ l2) w1 w3.
Proof.
  intros (Hm1 & Hl1 & Hr1) (Hm2 & Hl2 & Hr2).
  split_and!; [done| |rewrite calls_app; by eapply runs_app].
  by rewrite Hl2, Hl1, List.app_assoc.
Qed.

Global Instance evolves_preorder m : PreOrder (evolves m).
Proof.
  split.
  - intros w Hw. exists []. split; [by apply step_by_refl|apply ordered_nil].
  - intros w1 w2 w3 H1 H2 Hw. destruct (H1 Hw) as (l1 & S1 & Ho1).
    destruct (H2 (proj1 S1)) as (l2 & S2 & Ho2). exists (l1 ++ l2).
    split; [by eapply step_by_trans|rewrite own_app; by apply ordered_app].
Qed.

(** ** Own calls of a program *)

(** Every run of [p] returns an [a] and makes own calls [l] with [Q a l]. *)
Definition does (m : MachineStore) {A} (p : IO A) (Q : A -> list Event -> Prop) : Prop :=
  forall w, machine_of w = inr m ->
  exists l, step_by m l w (p w).2 /\ Q (p w).1 (own l).

Definition quietly {A} : A -> list Event -> Prop := fun _ l => l = [].
Definition freely {A} : A -> list Event -> Prop := fun _ l => Forall free_event l.

Section Does.
Context (m : MachineStore).

Lemma does_ret {A} (a : A) : does m (mret a) (fun b l => b = a /\ l = []).
Proof. intros w Hw. exists []. split; [by apply step_by_refl|done]. Qed.

Lemma does_get {A} (f : World -> A) : does m (get f) quietly.
Proof. intros w Hw. exists []. split; [by apply step_by_refl|done]. Qed.

Lemma does_mono {A} (p : IO A) (Q Q' : A -> list Event -> Prop) :
  does m p Q -> (forall a l, Q a l -> Q' a l) -> does m p Q'.
Proof. intros H HQ w Hw. destruct (H w Hw) as (l & ? & ?). eauto. Qed.

Lemma does_bind {A B} (p : IO A) (k : A -> IO B) Q1 Q :
  does m p Q1 ->
  (forall a l1, Q1 a l1 -> does m (k a) (fun b l2 => Q b (l1 ++ l2))) ->
  does m (p ≫= k) Q.
Proof.
  intros Hp Hk w Hw. destruct (Hp w Hw) as (l1 & S1 & H1). unfold mbind, M_bind.
  destruct (p w) as [a w1]. simpl in *.
  destruct (Hk a _ H1 w1 (proj1 S1)) as (l2 & S2 & H2). exists (l1 ++ l2).
  split; [by eapply step_by_trans|by rewrite own_app].
Qed.

(** A first part that makes no calls. *)
Lemma does_quiet_bind {A B} (p : IO A) (k : A -> IO B) Q :
  does m p quietly -> (forall a, does m (k a) Q) -> does m (p ≫= k) Q.
Proof. intros Hp Hk. eapply does_bind; [exact Hp|]. intros a l ->. apply Hk. Qed.

Lemma does_modify f :
  (forall w, w_db (f w) = w_db w /\ w_cfg (f w) = w_cfg w /\ w_bootstrap (f w) = w_bootstrap w
             /\ w_log (f w) = w_log w) ->
  does m (modify f) quietly.
Proof.
  intros H w Hw. destruct (H w) as (Hdb & Hc & Hb & Hl). exists []. split; [|done].
  simpl. split_and!.
  - rewrite <- Hw. unfold machine_of, machineStore, localMachineBinding. simpl. by rewrite Hc, Hb.
  - by rewrite List.app_nil_r.
  - rewrite Hdb. constructor.
Qed.

Lemma does_log e : calls [e] = [] -> does m (log e) (fun _ l => l = own [e]).
Proof.
  intros He w Hw. exists [e]. split; [|done]. split_and!; [done|done|]. rewrite He. constructor.
Qed.

Lemma does_along {A} (p : IO A) Q :
  does m p Q -> (forall a l, Q a l -> ordered m l) -> along (evolves m) p.
Proof. intros H HQ w Hw. destruct (H w Hw) as (l & Hl & Hq). eauto. Qed.

Lemma along_does {A} (p : IO A) : along (evolves m) p -> does m p (fun _ => ordered m).
Proof. intros H w Hw. by apply H. Qed.

Lemma freely_along {A} (p : IO A) : does m p freely -> along (evolves m) p.
Proof. intros H. eapply does_along; [done|]. intros a l. apply ordered_free. Qed.

Lemma quietly_along {A} (p : IO A) : does m p quietly -> along (evolves m) p.
Proof. intros H. eapply does_along; [done|]. intros a l ->. apply ordered_nil. Qed.

(** ** The primitives *)

Lemma step_by_others l w :
  machine_of w = inr m ->
  exists e, step_by m e w (fold_left other_write l w) /\ own e = [].
Proof.
  revert w. induction l as [|[c f] l IH]; intros w Hw; simpl.
  { exists []. split; [by apply step_by_refl|done]. }
  unfold other_write at 2. simpl. destruct (decide (wf_cmd c)) as [Hwf|]; [|by apply IH].
  destruct (run_cmd c f (w_db w)) as [r db] eqn:E.
  destruct (IH (add_event (EOther (mkCall c f r)) (set_db db w)) Hw) as (e & He & Ho).
  exists (EOther (mkCall c f r) :: e). split; [|done].
  change (EOther (mkCall c f r) :: e) with ([EOther (mkCall c f r)] ++ e).
  eapply step_by_trans; [|exact He]. split_and!; [done|done|]. simpl. by econstructor; [..|constructor].
Qed.

Lemma other_put_same w put :
  w_db (other_put w put) = w_db w /\ w_cfg (other_put w put) = w_cfg w
  /\ w_bootstrap (other_put w put) = w_bootstrap w /\ w_log (other_put w put) = w_log w.
Proof. unfold other_put. repeat case_match; by simplify_eq/=. Qed.

Lemma step_by_puts l w : machine_of w = inr m -> step_by m [] w (fold_left other_put l w).
Proof.
  revert w. induction l as [|put l IH]; intros w Hw; simpl; [by apply step_by_refl|].
  destruct (does_modify (fun w => other_put w put)) with (w := w) as (e & He & Ho); [|done|].
  { intros. apply other_put_same. }
  change [] with ([] ++ [] : list Event). eapply step_by_trans; [|apply IH, He].
  destruct He as (? & Hl & Hr). simpl in *. split_and!; try done.
  - by rewrite (proj2 (proj2 (proj2 (other_put_same w put)))), List.app_nil_r.
  - rewrite (proj1 (other_put_same w put)). constructor.
Qed.

Lemma does_next_reply : does m next_reply quietly.
Proof.
  intros w Hw. unfold next_reply. destruct (w_replies w) as [|rp rest].
  { exists []. split; [by apply step_by_refl|done]. }
  destruct (step_by_others (rp_others rp) (set_replies rest w)) as (e & He & Ho); [done|].
  exists e. split; [|done]. simpl. rewrite <- (List.app_nil_r e).
  eapply step_by_trans; [|apply step_by_puts; exact (proj1 He)].
  destruct He as (? & Hl & Hr). by split_and!.
Qed.

Lemma does_ext x : does m (ext x) (fun err l => l = [EExt x err]).
Proof.
  apply does_quiet_bind; [apply does_next_reply|]. intros rp.
  eapply does_bind; [by apply does_log|]. intros _ l ->.
  eapply does_mono; [apply does_ret|]. by intros err l [-> ->].
Qed.

Lemma does_db_read {A} (op : Op A) : does m (db_read op) quietly.
Proof.
  apply does_quiet_bind; [apply does_next_reply|]. intros rp.
  apply does_quiet_bind; [apply does_get|]. intros db.
  eapply does_mono; [apply does_ret|]. by intros ? l [_ ->].
Qed.

Lemma does_db_write c :
  (forall u, wf_cmd (c u)) ->
  does m (db_write c) (fun r l => exists u f o,
    l = [EDb (mkCall (c u) f o)] /\ r = match o with inl e => inl [SState e] | inr o => inr o end).
Proof.
  intros Hwf. apply does_quiet_bind; [apply does_next_reply|]. intros rp w Hw.
  destruct (run_cmd (c (rp_uuid rp)) (rp_faults rp) (w_db w)) as [r db] eqn:E. unfold get, mbind, M_bind; cbn -[run_cmd]; rewrite E; cbn.
  exists [EDb (mkCall (c (rp_uuid rp)) (rp_faults rp) r)]. split; [|do 3 eexists; split; reflexivity].
  split_and!; [done|done|]. simpl. by econstructor; [..|constructor].
Qed.

Lemma does_db_do c :
  wf_cmd c ->
  does m (db_do c) (fun err l => exists f o,
    l = [EDb (mkCall c f o)] /\ err = match o with inl e => Some [SState e] | inr _ => None end).
Proof.
  intros Hwf. eapply does_bind; [by apply does_db_write|]. intros r l (u & f & o & -> & ->).
  eapply does_mono; [apply does_ret|]. intros err l [-> ->]. exists f, o. split; [done|].
  by destruct o.
Qed.

Lemma does_machineStore : does m machineStore (fun r l => r = inr m /\ l = []).
Proof. intros w Hw. exists []. split; [by apply step_by_refl|]. split; [exact Hw|done]. Qed.

Lemma does_stateStore : does m stateStore quietly.
Proof.
  apply does_quiet_bind; [apply does_get|]. intros [].
  { eapply does_mono; [apply does_ret|]. by intros ? l [_ ->]. }
  apply does_quiet_bind; [apply does_get|]. intros home. case_bool_decide.
  { eapply does_mono; [apply does_ret|]. by intros ? l [_ ->]. }
  apply does_quiet_bind; [apply does_next_reply|]. intros rp. destruct (rp_err rp).
  { eapply does_mono; [apply does_ret|]. by intros ? l [_ ->]. }
  apply does_quiet_bind; [by apply does_modify|]. intros [].
  eapply does_mono; [apply does_ret|]. by intros ? l [_ ->].
Qed.

Lemma does_lock_path pid :
  does m (lock_path pid) (fun r l => r = text_error (LifetimeLockPath m pid) /\ l = []).
Proof.
  eapply does_bind; [apply does_machineStore|]. intros r l [-> ->].
  eapply does_mono; [apply does_ret|]. by intros ? l [-> ->].
Qed.

Lemma does_TryAcquire path : does m (TryAcquire path) (fun r l => l = [ELock path r]).
Proof.
  apply does_quiet_bind; [apply does_next_reply|]. intros rp.
  apply does_quiet_bind; [apply does_get|]. intros mine.
  apply does_quiet_bind; [apply does_get|]. intros h.
  cbv zeta.
  match goal with |- does _ (mbind _ (match ?r with _ => _ end)) _ => destruct r as [e|g] end;
  (apply does_quiet_bind; [|intros []; eapply does_bind; [by apply does_log|]; intros _ l ->;
    eapply does_mono; [apply does_ret|]; by intros ? l [-> ->]]).
  - eapply does_mono; [apply does_ret|]. by intros ? l [_ ->].
  - by apply does_modify.
Qed.

Lemma does_Release h : does m (Release h) (fun _ l => l = [] \/ l = [EUnlock h]).
Proof.
  apply does_quiet_bind; [apply does_get|]. intros lock.
  destruct lock as [[[] path]|];
    [|eapply does_mono; [apply does_ret|]; intros ? l [_ ->]; by left..].
  apply does_quiet_bind; [apply does_next_reply|]. intros rp.
  apply does_quiet_bind; [by apply does_modify|]. intros [].
  eapply does_bind; [by apply does_log|]. intros _ l ->.
  eapply does_mono; [apply does_ret|]. intros ? l [_ ->]. by right.
Qed.

Lemma does_with_runner r f : does m (with_runner r f) quietly.
Proof. by apply does_modify. Qed.

Lemma does_note_ready r err : does m (note_ready r err) quietly.
Proof.
  unfold note_ready. repeat case_match; try apply does_with_runner;
    (eapply does_mono; [apply does_ret|]; by intros ? l [_ ->]).
Qed.

Lemma does_runner_call r c : does m (runner_call r c) (fun err l => l = [ERunner r c err]).
Proof.
  apply does_quiet_bind; [apply does_next_reply|]. intros rp.
  eapply does_bind; [by apply does_log|]. intros _ l ->.
  eapply does_bind; [apply does_note_ready|]. intros _ l ->.
  eapply does_mono; [apply does_ret|]. by intros ? l [-> ->].
Qed.

Lemma does_StartOnce r : does m (StartOnce r) (fun _ l => exists err, l = [ERunner r MStartOnce err]).
Proof.
  apply does_quiet_bind; [apply does_next_reply|]. intros rp.
  eapply does_bind; [by apply does_log|]. intros _ l ->.
  eapply does_bind; [apply does_note_ready|]. intros _ l ->.
  repeat case_match; (eapply does_mono; [apply does_ret|]; intros ? l [-> ->]; by eexists).
Qed.
End Does.

(** ** Primitives that the order does not restrict *)

Section Free.
Context (m : MachineStore).

Lemma along_log e : calls [e] = [] -> free_event e -> along (evolves m) (log e).
Proof.
  intros Hc Hf. apply freely_along. eapply does_mono; [by apply does_log|]. intros u l ->.
  destruct e; simpl; repeat constructor; done.
Qed.

Lemma along_next_reply : along (evolves m) next_reply.
Proof. apply quietly_along, does_next_reply. Qed.

Lemma along_quiet_modify f :
  (forall w, w_db (f w) = w_db w /\ w_cfg (f w) = w_cfg w /\ w_bootstrap (f w) = w_bootstrap w
             /\ w_log (f w) = w_log w) ->
  along (evolves m) (modify f).
Proof. intros H. by apply quietly_along, does_modify. Qed.

Lemma along_db_read {A} (op : Op A) : along (evolves m) (db_read op).
Proof. apply quietly_along, does_db_read. Qed.

Lemma along_db_write c :
  (forall u, wf_cmd (c u) /\ deletion (c u) = None) -> along (evolves m) (db_write c).
Proof.
  intros H. apply freely_along. eapply does_mono; [apply does_db_write; intros; apply H|].
  intros r l (u & f & o & -> & _). constructor; [apply H|done].
Qed.

Lemma along_db_do c : wf_cmd c -> deletion c = None -> along (evolves m) (db_do c).
Proof.
  intros Hwf Hd. apply freely_along. eapply does_mono; [by apply does_db_do|].
  intros r l (f & o & -> & _). by constructor.
Qed.

Lemma along_ext x : along (evolves m) (ext x).
Proof.
  apply freely_along. eapply does_mono; [by apply does_ext|]. intros r l ->. by constructor.
Qed.

Lemma along_machineStore : along (evolves m) machineStore.
Proof. intros w. simpl. reflexivity. Qed.

Lemma along_TryAcquire path : along (evolves m) (TryAcquire path).
Proof.
  apply freely_along. eapply does_mono; [apply does_TryAcquire|]. intros r l ->. by constructor.
Qed.

Lemma along_Release h : along (evolves m) (Release h).
Proof.
  apply freely_along. eapply does_mono; [apply does_Release|]. intros r l [-> | ->]; by repeat constructor.
Qed.

Lemma along_runner_call r c : c <> MStartOnce -> along (evolves m) (runner_call r c).
Proof.
  intros Hc. apply freely_along. eapply does_mono; [apply does_runner_call|].
  intros err l ->. constructor; [by destruct c|done].
Qed.

Lemma along_stateStore : along (evolves m) stateStore.
Proof. apply quietly_along, does_stateStore. Qed.
End Free.
End Evolves.

#[export] Hint Resolve along_next_reply along_db_read along_ext along_machineStore along_TryAcquire
  along_Release along_stateStore : recon.
#[export] Hint Extern 1 (along (evolves _) (log _)) => apply along_log; done : recon.
#[export] Hint Extern 1 (along (evolves _) (modify _)) => apply along_quiet_modify; done : recon.
#[export] Hint Extern 1 (along (evolves _) (db_do _)) => apply along_db_do; done : recon.
#[export] Hint Extern 1 (along (evolves _) (db_write _)) => apply along_db_write; done : recon.
#[export] Hint Extern 1 (along (evolves _) (runner_call _ _)) => apply along_runner_call; done : recon.
