(* ===== verification/ReconObjects.v ===== *)
(** * Locks and reconciliation sessions

    [calmly]: a program that neither opens nor closes a lock handle or a
    reconciliation session and leaves the startup state alone, which is most of
    them.  The blocks that do are characterised here: a program that takes a lock
    for itself gives it back ([nothing_opened]) whatever its calls return. *)
From S2P Require Import Prelude GoStrings DaemonProtocol LocalPaths StateSchema StateQueries StateTx.
From S2P Require Import StateReport StateProcess StateAction StateTrace StateAudit LocalStore OutputFile.
From S2P Require Import ClientWorld Reconciliation ReconFrame.
From stdpp Require Import options.
Local Open Scope Z_scope.

(** The session of a runner, and what identifies its supervisor. *)
Definition session (w : World) (r : nat) : bool :=
  match w_runners w !! r with Some rn => rn_session rn | None => false end.
Definition identity (w : World) (r : nat) : option (string * string * string) :=
  (fun rn => (rn_endpoint rn, rn_supervisorToken rn, rn_supervisorInstanceID rn)) <$> w_runners w !! r.

Record calmly (w w' : World) : Prop := {
  calm_locks : w_locks w' = w_locks w;
  calm_startup : w_startup w' = w_startup w;
  calm_fresh : (w_fresh w <= w_fresh w')%nat;
  calm_session r : session w' r = true -> session w r = true;
  calm_old r : (r < w_fresh w)%nat -> session w' r = session w r /\ identity w' r = identity w r
}.

Global Instance calmly_preorder : PreOrder calmly.
Proof.
  split.
  - intros w. by split.
  - intros w1 w2 w3 [L1 S1 F1 N1 O1] [L2 S2 F2 N2 O2]. split; [congruence|congruence|lia|auto|].
    intros r Hr. destruct (O1 r Hr) as [<- <-]. apply O2. lia.
Qed.

Lemma calmly_same w w' :
  w_locks w' = w_locks w -> w_startup w' = w_startup w -> w_fresh w' = w_fresh w ->
  w_runners w' = w_runners w -> calmly w w'.
Proof. intros HL HS HF HR. split; try done; unfold session, identity; [lia|..]; by rewrite HR. Qed.

Lemma along_sub (R R' : relation World) {A} (p : IO A) :
  (forall w w', R w w' -> R' w w') -> along R p -> along R' p.
Proof. intros H Hp w. by apply H. Qed.

Section Calm.
Context {RC : ReportCodec} {CC : ClientCodec}.

(** A change of a runner that keeps its identity and its session. *)
Lemma calmly_runner r f :
  (forall rn, rn_session (f rn) = rn_session rn /\ rn_endpoint (f rn) = rn_endpoint rn
     /\ rn_supervisorToken (f rn) = rn_supervisorToken rn
     /\ rn_supervisorInstanceID (f rn) = rn_supervisorInstanceID rn) ->
  along calmly (with_runner r f).
Proof.
  intros Hf w. simpl.
  assert (forall q, session (set_runners (alter f r (w_runners w)) w) q = session w q
    /\ identity (set_runners (alter f r (w_runners w)) w) q = identity w q) as H.
  { intros q. unfold session, identity. simpl. destruct (decide (r = q)) as [->|Hne].
    - rewrite lookup_alter_eq. destruct (w_runners w !! q) as [rn|]; [|done]. simpl.
      destruct (Hf rn) as (-> & -> & -> & ->). done.
    - by rewrite lookup_alter_ne. }
  split; try done; intros q; destruct (H q) as [Hs Hi]; first [by rewrite Hs | done].
Qed.

Lemma calmly_others l w : calmly w (fold_left other_write l w).
Proof.
  revert w. induction l as [|cf l IH]; intros w; simpl; [done|]. etrans; [|apply IH].
  unfold other_write. case_match; [|done]. destruct (run_cmd _ _ _). by apply calmly_same.
Qed.

Lemma calmly_fresh_runner w rn :
  calmly w (set_fresh (S (w_fresh w))
              (set_runners (<[w_fresh w := in_session false rn]> (w_runners w)) w)).
Proof.
  split; try done; simpl; [lia|..]; intros r; unfold session, identity; simpl;
    (destruct (decide (w_fresh w = r)) as [<-|Hne];
     [rewrite lookup_insert_eq; simpl; try done; lia|by rewrite lookup_insert_ne]).
Qed.

Lemma calmly_runtimes w x n p :
  (w_fresh w <= n)%nat -> calmly w (set_processes p (set_fresh n (set_runtimes x w))).
Proof. intros. by split. Qed.

Lemma calmly_puts l w : calmly w (fold_left other_put l w).
Proof.
  revert w. induction l as [|[k o] l IH]; intros w; simpl; [done|]. etrans; [|apply IH]. clear IH.
  unfold other_put. simpl. destruct o as [[rt [rn|]]|].
  - etrans; [apply calmly_fresh_runner|]. apply calmly_runtimes. simpl. lia.
  - apply calmly_runtimes. lia.
  - by apply calmly_same.
Qed.

Lemma calm_next_reply : along calmly next_reply.
Proof.
  intros w. unfold next_reply. destruct (w_replies w) as [|rp rest]; [done|]. simpl.
  etrans; [|apply calmly_puts]. etrans; [|apply calmly_others]. by apply calmly_same.
Qed.

Lemma calm_modify f :
  (forall w, w_locks (f w) = w_locks w /\ w_startup (f w) = w_startup w
     /\ w_fresh (f w) = w_fresh w /\ w_runners (f w) = w_runners w) ->
  along calmly (modify f).
Proof. intros H w. destruct (H w) as (?&?&?&?). by apply calmly_same. Qed.

Lemma calm_machineStore : along calmly machineStore.
Proof. intros w. done. Qed.
End Calm.

#[export] Hint Resolve calm_next_reply calm_machineStore : recon.
#[export] Hint Extern 1 (along calmly (modify _)) => apply calm_modify; done : recon.
#[export] Hint Extern 1 (along calmly (log _)) => apply calm_modify; done : recon.
#[export] Hint Extern 1 (along calmly (with_runner _ _)) => apply calmly_runner; done : recon.

Section CalmPrograms.
Context {RC : ReportCodec} {CC : ClientCodec}.

Lemma calm_db_read {A} (op : Op A) : along calmly (db_read op).
Proof. unfold db_read. along_walk. Qed.

Lemma calm_db_write c : along calmly (db_write c).
Proof. unfold db_write. along_walk. Qed.

Lemma calm_ext x : along calmly (ext x).
Proof. unfold ext. along_walk. Qed.

Lemma calm_stateStore : along calmly stateStore.
Proof. unfold stateStore. along_walk. Qed.

Lemma calm_note_ready r err : along calmly (note_ready r err).
Proof. unfold note_ready. along_walk. Qed.
End CalmPrograms.

#[export] Hint Resolve calm_db_read calm_db_write calm_ext calm_stateStore calm_note_ready : recon.

(** ** Handles and sessions that are open *)

Definition is_open (w : World) (h : nat) : Prop := exists p, w_locks w !! h = Some (mkLock true p).

(** Nothing is open in [w'] that was not open in [w]; the startup state is untouched. *)
Record nothing_opened (w w' : World) : Prop := {
  no_lock h : is_open w' h -> is_open w h;
  no_session r : session w' r = true -> session w r = true;
  no_startup : w_startup w' = w_startup w
}.

Global Instance nothing_opened_preorder : PreOrder nothing_opened.
Proof.
  split; [by split|]. intros w1 w2 w3 [L1 S1 U1] [L2 S2 U2]. split; auto. congruence.
Qed.

Lemma calmly_nothing w w' : calmly w w' -> nothing_opened w w'.
Proof. intros [L S _ N _]. split; [|done|done]. unfold is_open. by rewrite L. Qed.

(** As [nothing_opened], but for the handle [h]. *)
Record opened_only (h : nat) (w w' : World) : Prop := {
  only_lock g : is_open w' g -> is_open w g \/ g = h;
  only_session r : session w' r = true -> session w r = true;
  only_startup : w_startup w' = w_startup w
}.

Lemma opened_after h w1 w2 w3 : nothing_opened w1 w2 -> opened_only h w2 w3 -> opened_only h w1 w3.
Proof.
  intros [L1 S1 U1] [L2 S2 U2]. split; [|by auto|congruence].
  intros g Hg. destruct (L2 g Hg); auto.
Qed.

Lemma opened_before h w1 w2 w3 : opened_only h w1 w2 -> nothing_opened w2 w3 -> opened_only h w1 w3.
Proof. intros [L1 S1 U1] [L2 S2 U2]. split; auto. congruence. Qed.

Lemma opened_closed h w w' : opened_only h w w' -> ~ is_open w' h -> nothing_opened w w'.
Proof. intros [L S U] Hc. split; [|done|done]. intros g Hg. destruct (L g Hg) as [?| ->]; done. Qed.

(** A program that may return a handle it has just opened. *)
Definition opening {X} (p : IO (X + nat)) : Prop := forall w,
  match (p w).1 with
  | inl _ => nothing_opened w (p w).2
  | inr h => opened_only h w (p w).2
  end.

Section Brackets.
Context {RC : ReportCodec} {CC : ClientCodec}.

Lemma along_calm {A} (p : IO A) : along calmly p -> along nothing_opened p.
Proof. apply along_sub, calmly_nothing. Qed.

Lemma opening_bind {A X} (p : IO A) (k : A -> IO (X + nat)) :
  along nothing_opened p -> (forall a, opening (k a)) -> opening (p ≫= k).
Proof.
  intros Hp Hk w. unfold mbind, M_bind. specialize (Hp w). destruct (p w) as [a w1].
  specialize (Hk a w1). destruct (k a w1) as [[x|h] w2]; simpl in *.
  - by etrans.
  - by eapply opened_after.
Qed.

(** Keeping what was opened, or trying again when nothing was. *)
Lemma opening_retry {X Y} (p : IO (X + nat)) (k1 : X -> IO (Y + nat)) (k2 : nat -> IO (Y + nat)) :
  opening p -> (forall e, opening (k1 e)) -> (forall h, k2 h = mret (inr h)) ->
  opening (r ← p; match r with inl e => k1 e | inr h => k2 h end).
Proof.
  intros Hp H1 H2 w. unfold mbind, M_bind. specialize (Hp w). destruct (p w) as [[x|h] w1].
  - specialize (H1 x w1). destruct (k1 x w1) as [[y|g] w2]; simpl in *; [by etrans|].
    by eapply opened_after.
  - rewrite H2. done.
Qed.

Lemma opening_none {X} (p : IO (X + nat)) :
  along nothing_opened p -> (forall w h, (p w).1 <> inr h) -> opening p.
Proof.
  intros Hp Hn w. specialize (Hp w). destruct ((p w).1) as [x|h] eqn:E; [done|].
  by apply Hn in E.
Qed.

Lemma opening_ret_inl {X} (x : X) : opening (mret (inl x) : IO (X + nat)).
Proof. intros w. simpl. reflexivity. Qed.

Lemma opening_TryAcquire path : opening (TryAcquire path).
Proof.
  apply opening_bind; [apply along_calm, calm_next_reply|]. intros rp w.
  cbv [mbind M_bind get modify log mret M_ret].
  destruct (path ==? "") eqn:Ep; [|destruct (rp_err rp); [|destruct (held_b path w)]]; cbn;
    try by apply calmly_nothing, calmly_same.
  split; [|done|done]. intros g [p Hg]. cbn in Hg.
  destruct (decide (w_fresh w = g)) as [->|Hne]; [by right|].
  rewrite lookup_insert_ne in Hg by done. left. by exists p.
Qed.

(** The handle is on the path asked for. *)
Lemma TryAcquire_handle path w h :
  (TryAcquire path w).1 = inr h ->
  path <> "" /\ w_locks (TryAcquire path w).2 !! h = Some (mkLock true path).
Proof.
  unfold TryAcquire. cbv [mbind M_bind get modify log mret M_ret].
  destruct (next_reply w) as [rp w1].
  destruct (path ==? "") eqn:Ep; [|destruct (rp_err rp); [|destruct (held_b path w1)]]; try done.
  intros [= <-]. simpl. bsimpl. split; [done|]. apply lookup_insert_eq.
Qed.

Lemma nothing_set_lock w l b p :
  (b = true -> is_open w l) -> nothing_opened w (set_locks (<[l := mkLock b p]> (w_locks w)) w).
Proof.
  intros Hb. split; [|done|done]. intros g [q Hg]. simpl in Hg.
  destruct (decide (l = g)) as [->|Hne].
  - rewrite lookup_insert_eq in Hg. simplify_eq. by apply Hb.
  - rewrite lookup_insert_ne in Hg by done. by exists q.
Qed.

(** [Release] closes the handle and nothing else. *)
Lemma Release_spec l w : nothing_opened w (Release l w).2 /\ ~ is_open (Release l w).2 l.
Proof.
  unfold Release. rewrite M_get_bind.
  destruct (w_locks w !! l) as [[[] path]|] eqn:E.
  - unfold mbind, M_bind. pose proof (calm_next_reply w) as Hc.
    destruct (next_reply w) as [rp w1]. simpl in *. split.
    + etrans; [by apply calmly_nothing|]. etrans; [by apply (nothing_set_lock _ l false path)|].
      by apply calmly_nothing, calmly_same.
    + intros [p Hp]. simpl in Hp. rewrite lookup_insert_eq in Hp. done.
  - simpl. split; [done|]. intros [p Hp]. congruence.
  - simpl. split; [done|]. intros [p Hp]. congruence.
Qed.

Lemma nothing_Release l : along nothing_opened (Release l).
Proof. intros w. apply Release_spec. Qed.

Lemma nothing_forget_path l : along nothing_opened (forget_path l).
Proof.
  intros w. split; [|done|done]. intros g [p Hg]. simpl in Hg. unfold is_open.
  destruct (decide (l = g)) as [->|Hne]; [|rewrite lookup_alter_ne in Hg by done; by exists p].
  rewrite lookup_alter_eq in Hg. apply fmap_Some in Hg as ([b q] & -> & [= <- _]). by exists q.
Qed.

(** Taking a lock, working under it and giving it back. *)
Lemma bracket {X A B} (p : IO (X + nat)) (k1 : X -> IO B) (body : nat -> IO A)
    (k2 : nat -> A -> option error -> IO B) :
  opening p -> (forall x, along nothing_opened (k1 x)) ->
  (forall h, along nothing_opened (body h)) -> (forall h a e, along nothing_opened (k2 h a e)) ->
  along nothing_opened
    (r ← p; match r with inl x => k1 x | inr h => a ← body h; e ← Release h; k2 h a e end).
Proof.
  intros Hp H1 Hb H2 w. unfold mbind, M_bind. specialize (Hp w). destruct (p w) as [[x|h] w1].
  - simpl in Hp. etrans; [exact Hp|apply H1].
  - specialize (Hb h w1). destruct (body h w1) as [a w2]. simpl in *.
    destruct (Release_spec h w2) as [Hr Hc]. destruct (Release h w2) as [e w3]. simpl in *.
    etrans; [|apply H2]. eapply opened_closed; [|exact Hc].
    eapply opened_before; [|exact Hr]. by eapply opened_before.
Qed.

(** [EndReconciliation] closes the session and nothing else. *)
Lemma EndReconciliation_spec r w :
  nothing_opened w (EndReconciliation r w).2 /\ session (EndReconciliation r w).2 r = false.
Proof.
  unfold EndReconciliation. rewrite M_get_bind. fold (session w r).
  destruct (session w r) eqn:E; [|by simpl].
  unfold mbind, M_bind. pose proof (calm_next_reply w) as Hc.
  destruct (next_reply w) as [rp w1]. simpl in *.
  set (w2 := add_event _ w1).
  assert (forall q, session (set_runners (alter (in_session false) r (w_runners w1)) w2) q
    = if decide (r = q) then false else session w1 q) as Hs.
  { intros q. unfold session. simpl. destruct (decide (r = q)) as [->|Hne].
    - rewrite lookup_alter_eq. by destruct (w_runners w1 !! q).
    - by rewrite lookup_alter_ne. }
  split; [|change (w_runners w2) with (w_runners w1); rewrite Hs; by rewrite decide_True].
  etrans; [by apply calmly_nothing|]. split; [done| |done].
  intros q. change (w_runners w2) with (w_runners w1). rewrite Hs. by case_decide.
Qed.

Lemma nothing_EndReconciliation r : along nothing_opened (EndReconciliation r).
Proof. intros w. apply EndReconciliation_spec. Qed.
End Brackets.

#[export] Hint Resolve nothing_Release nothing_EndReconciliation nothing_forget_path : recon.
#[export] Hint Extern 5 (along nothing_opened _) => apply along_calm; solve [eauto with recon] : recon.

Section CalmFiles.
Context {RC : ReportCodec} {CC : ClientCodec}.

Lemma calm_lock_path pid : along calmly (lock_path pid).
Proof. unfold lock_path. along_walk. Qed.

Lemma calm_removeProcessArtifacts pid instance out :
  along calmly (removeProcessArtifacts pid instance out).
Proof. unfold removeProcessArtifacts, removeSupervisorIdentityBootstrap. along_walk. Qed.

Lemma calm_db_do c : along calmly (db_do c).
Proof. unfold db_do. along_walk. Qed.

Lemma calm_retry op : along calmly op -> along calmly (retryWhileStateDBBusy op).
Proof. intros. unfold retryWhileStateDBBusy. along_walk. Qed.

Lemma calm_runner_call r c : along calmly (runner_call r c).
Proof. unfold runner_call. along_walk. Qed.

Lemma calm_StartOnce r : along calmly (StartOnce r).
Proof. unfold StartOnce. along_walk. Qed.

Lemma calm_IsDone r : along calmly (IsDone r).
Proof. unfold IsDone. along_walk. Qed.

Lemma calm_range f : along calmly (range f).
Proof. unfold range. along_walk. Qed.

Lemma nothing_ReleaseAndRemove l : along nothing_opened (ReleaseAndRemove l).
Proof. unfold ReleaseAndRemove. along_walk. Qed.
End CalmFiles.

#[export] Hint Resolve calm_lock_path calm_removeProcessArtifacts calm_db_do calm_retry
  calm_runner_call calm_StartOnce calm_IsDone calm_range nothing_ReleaseAndRemove : recon.
