(* ===== verification/ReconOrder.v ===== *)
(** * Reconciliation: histories and the order of calls

    Every program of Reconciliation.v moves the database along a history of the
    state database and makes its calls in the required order ([evolves]): the files
    of a process are gone before its row is deleted, and a supervisor is started only
    after the acceptance is recorded. *)
From S2P Require Import Prelude GoStrings DaemonProtocol LocalPaths StateSchema StateQueries StateTx.
From S2P Require Import StateReport StateProcess StateAction StateTrace StateAudit LocalStore OutputFile.
From S2P Require Import ClientWorld Reconciliation ReconFrame ReconObjects.
From stdpp Require Import options.
Local Open Scope Z_scope.

Section Order.
Context {RC : ReportCodec} {CC : ClientCodec} (m : MachineStore).

(** ** Blocks *)

(** The calls [l] end with the removal of the process's files. *)
Definition cleared (pid instance : string) (out : bool) (l : list Event) : Prop :=
  ordered m l /\ exists l0 files lock,
    l = l0 ++ files ++ lock /\ removal m pid instance out files /\ Forall (lock_event m pid) lock.

Lemma ordered_snoc_delete pid instance out l c :
  cleared pid instance out l -> deletion (c_cmd c) = Some (pid, instance, out) ->
  ordered m (l ++ [EDb c]).
Proof.
  intros [[Hd Hs] (l0 & files & lock & -> & Hr & Hl)] Hc. split.
  - intros l1 c' l2 pid' instance' out' [(k & E)|(k & -> & E)]%app_split Hc'; [by eapply Hd|].
    destruct k as [|y k]; simpl in E; [|by destruct k]. simplify_eq.
    exists l0, files, lock. by rewrite List.app_nil_r.
  - intros l1 r err l2 [(k & E)|(k & -> & E)]%app_split; [by eapply Hs|].
    destruct k as [|y k]; simpl in E; [|by destruct k]. simplify_eq.
Qed.

Lemma ordered_start pid instance f o r err :
  ordered m [EDb (mkCall (CMarkAccepted pid instance) f (inr o)); ERunner r MStartOnce err].
Proof.
  split.
  - intros l1 c l2 ? ? ? E Hc. destruct l1 as [|? [|? [|]]]; simplify_eq/=.
  - intros l1 r' err' l2 E. destruct l1 as [|? [|? [|]]]; simplify_eq/=.
    by exists [], pid, instance, f, o.
Qed.

Lemma remove_then_delete {A} pid instance out (rem : IO (option error)) c
    (k1 : error -> IO A) (k2 : option error -> IO A) :
  does m rem (fun err l => match err with
                           | None => cleared pid instance out l
                           | Some _ => ordered m l
                           end) ->
  wf_cmd c -> deletion c = Some (pid, instance, out) ->
  (forall e, along (evolves m) (k1 e)) -> (forall e, along (evolves m) (k2 e)) ->
  along (evolves m) (err ← rem; match err with Some e => k1 e | None => err ← db_do c; k2 err end).
Proof.
  intros Hrem Hwf Hc H1 H2. eapply does_along; [|by intros a l Hl; exact Hl].
  eapply does_bind; [exact Hrem|]. intros [e|] l Hl.
  - eapply does_mono; [by apply along_does|]. intros b l2 Hl2. by apply ordered_app.
  - eapply does_bind; [by apply does_db_do|]. intros err l2 (f & o & -> & _).
    eapply does_mono; [by apply along_does|]. intros b l3 Hl3. simpl.
    change (EDb ?c :: l3) with ([EDb c] ++ l3). rewrite List.app_assoc.
    apply ordered_app; [|done]. by eapply ordered_snoc_delete.
Qed.

(** ** Files *)

Lemma does_removeSupervisorIdentityBootstrap pid instance :
  does m (removeSupervisorIdentityBootstrap m pid instance) (fun err l =>
    match err with
    | None => exists name e, supervisorIdentityBootstrapFileName pid instance = inr name
        /\ match e with None => True | Some e => errors_Is e SNotExist = true end
        /\ l = [EExt (XRemove (Join [RunDir m; name])) e; EExt (XSyncDir (RunDir m)) None]
    | Some _ => Forall free_event l
    end).
Proof.
  unfold removeSupervisorIdentityBootstrap.
  destruct (supervisorIdentityBootstrapFileName pid instance) as [e|name].
  { eapply does_bind; [apply does_ret|]. intros ? l [-> ->].
    eapply does_mono; [apply does_ret|]. intros ? l [-> ->]. constructor. }
  eapply does_bind; [apply does_ret|]. intros ? l [-> ->].
  eapply does_bind; [apply does_ext|]. intros err l ->.
  assert (forall e, match e with None => True | Some e => errors_Is e SNotExist = true end ->
    does m (ext (XSyncDir (RunDir m))) (fun err l => match err with
      | None => exists name0 e0, inr name = inr name0 :> error + string
        /\ match e0 with None => True | Some e => errors_Is e SNotExist = true end
        /\ [] ++ [EExt (XRemove (Join [RunDir m; name])) e] ++ l
           = [EExt (XRemove (Join [RunDir m; name0])) e0; EExt (XSyncDir (RunDir m)) None]
      | Some _ => Forall free_event ([] ++ [EExt (XRemove (Join [RunDir m; name])) e] ++ l)
      end)) as Hsync.
  { intros e He. eapply does_mono; [apply does_ext|]. intros [x|] l ->; [by repeat constructor|].
    exists name, e. done. }
  destruct err as [e|]; [|by apply Hsync]. destruct (errors_Is e SNotExist) eqn:E; simpl.
  - by apply Hsync.
  - eapply does_mono; [apply does_ret|]. intros ? l [-> ->]. by repeat constructor.
Qed.

(** The calls made before an error are free. *)
Lemma freely_raise e (l1 : list Event) (P : list Event -> Prop) :
  Forall free_event l1 ->
  does m (mret (raise e) : IO (option error)) (fun err l2 =>
    match err with None => P (l1 ++ l2) | Some _ => Forall free_event (l1 ++ l2) end).
Proof.
  intros H. eapply does_mono; [apply does_ret|]. intros ? l [-> ->]. simpl.
  by rewrite List.app_nil_r.
Qed.

(** [must]: an error ends the program with free calls only. *)
Lemma does_must (p q : IO (option error)) (Q : list Event -> Prop) (P : list Event -> Prop) l1 :
  Forall free_event l1 ->
  does m p (fun err l => match err with None => Q l | Some _ => Forall free_event l end) ->
  (forall l, Q l -> does m q (fun err l2 =>
     match err with None => P ((l1 ++ l) ++ l2) | Some _ => Forall free_event ((l1 ++ l) ++ l2) end)) ->
  does m (check_raise p q) (fun err l2 =>
    match err with None => P (l1 ++ l2) | Some _ => Forall free_event (l1 ++ l2) end).
Proof.
  intros Hl1 Hp Hq. eapply does_bind; [exact Hp|]. intros [e|] l Hl.
  - eapply does_mono; [apply does_ret|]. intros ? l2 [-> ->]. simpl.
    rewrite List.app_nil_r. by apply Forall_app.
  - eapply does_mono; [by apply Hq|]. intros err l2. by rewrite List.app_assoc.
Qed.

Lemma does_ext_check x :
  does m (ext x) (fun err l => match err with
    None => l = [EExt x None] | Some _ => Forall free_event l end).
Proof. eapply does_mono; [apply does_ext|]. intros [e|] l ->; [by repeat constructor|done]. Qed.

Lemma does_remove_bootstrap pid instance :
  does m (if instance <>? "" then removeSupervisorIdentityBootstrap m pid instance else mret None)
    (fun err l => match err with
     | None => instance = "" /\ l = [] \/ exists name e,
         supervisorIdentityBootstrapFileName pid instance = inr name
         /\ match e with None => True | Some e => errors_Is e SNotExist = true end
         /\ l = [EExt (XRemove (Join [RunDir m; name])) e; EExt (XSyncDir (RunDir m)) None]
     | Some _ => Forall free_event l
     end).
Proof.
  case_bool_decide; simpl.
  - eapply does_mono; [apply does_ret|]. intros ? l [-> ->]. by left.
  - eapply does_mono; [apply does_removeSupervisorIdentityBootstrap|]. intros [e|] l; [done|].
    by right.
Qed.

Lemma does_optional_ext (b : bool) x :
  does m (if b then ext x else mret None) (fun err l => match err with
    None => l = (if b then [EExt x None] else []) | Some _ => Forall free_event l end).
Proof.
  destruct b; [apply does_ext_check|]. eapply does_mono; [apply does_ret|]. by intros ? l [-> ->].
Qed.

Lemma free_boot (boot : list Event) instance pid :
  (instance = "" /\ boot = [] \/ exists name e,
     supervisorIdentityBootstrapFileName pid instance = inr name
     /\ match e with None => True | Some e => errors_Is e SNotExist = true end
     /\ boot = [EExt (XRemove (Join [RunDir m; name])) e; EExt (XSyncDir (RunDir m)) None]) ->
  Forall free_event boot.
Proof. intros [[_ ->]|(name & e & _ & _ & ->)]; by repeat constructor. Qed.

Lemma does_removeProcessArtifacts pid instance out :
  does m (removeProcessArtifacts pid instance out) (fun err l => match err with
    None => removal m pid instance out l | Some _ => Forall free_event l end).
Proof.
  unfold removeProcessArtifacts.
  eapply does_bind; [apply does_machineStore|]. intros ? l [-> ->].
  eapply does_bind; [apply does_ret|]. intros ? l [-> ->].
  destruct (ProcessDir m pid) as [msg|d] eqn:Hd; simpl; [by apply (freely_raise _ [] (removal m pid instance out))|].
  apply does_must with (l1 := []) (P := removal m pid instance out)
    (Q := fun l => l = if out then [EExt (XRemoveAll d) None] else []);
    [done|apply does_optional_ext|]. intros l1 ->. simpl.
  eapply does_bind; [apply does_ret|]. intros ? l [-> ->].
  destruct (ControlEndpointPath m pid) as [msg|e] eqn:He; simpl.
  { apply (freely_raise _ _ (removal m pid instance out)). by destruct out; repeat constructor. }
  apply does_must with (P := removal m pid instance out) (Q := fun l => l = [EExt (XCleanup e) None]);
    [by destruct out; repeat constructor|apply does_ext_check|]. intros l ->.
  eapply does_must with (P := removal m pid instance out);
    [by destruct out; repeat constructor|apply does_remove_bootstrap|].
  intros boot Hboot. eapply does_mono; [apply does_optional_ext|].
  pose proof (free_boot _ _ _ Hboot).
  intros [x|] l Hl;
    [repeat (apply Forall_app; split); try done; by destruct out; repeat constructor|].
  exists d, e. split; [done|]. split; [done|]. exists boot. split; [exact Hboot|].
  rewrite Hl. by rewrite <- !List.app_assoc.
Qed.

Lemma removal_free pid instance out l : removal m pid instance out l -> Forall free_event l.
Proof.
  intros (d & e & _ & _ & boot & Hboot & ->). pose proof (free_boot _ _ _ Hboot).
  destruct out; repeat (apply Forall_app; split); try done; by repeat constructor.
Qed.

Lemma does_removeProcessArtifacts_cleared pid instance out :
  does m (removeProcessArtifacts pid instance out) (fun err l => match err with
    None => cleared pid instance out l | Some _ => ordered m l end).
Proof.
  eapply does_mono; [apply does_removeProcessArtifacts|]. intros [e|] l Hl.
  - by apply ordered_free.
  - split; [by eapply ordered_free, removal_free|]. exists [], l, []. by rewrite List.app_nil_r.
Qed.
(** ** The lifetime lock *)

(** Releasing and removing the lock of a process. *)
Lemma does_retire pid path h :
  LifetimeLockPath m pid = inr path ->
  does m (must Release h;
          err ← ext (XRemove path);
          match err with
          | Some e => if errors_Is e SNotExist then forget_path h;; mret None else mret (Some e)
          | None => must ext (XSyncDir (Dir path)); forget_path h;; mret None
          end)
    (fun err l => Forall free_event l /\ (err = None -> Forall (lock_event m pid) l)).
Proof.
  intros Hp. eapply does_bind; [apply does_Release|]. intros err l Hl.
  assert (Forall free_event l /\ Forall (lock_event m pid) l) as [Hf He].
  { destruct Hl as [-> | ->]; by repeat constructor. }
  destruct err as [e|].
  { eapply does_mono; [apply does_ret|]. intros ? l2 [-> ->]. by rewrite List.app_nil_r. }
  eapply does_bind; [apply does_ext|]. intros err l1 ->.
  assert (forall b, Forall free_event (l ++ [EExt (XRemove path) b])
    /\ Forall (lock_event m pid) (l ++ [EExt (XRemove path) b])) as Hdone.
  { intros b. split; apply Forall_app; split; try done; by repeat constructor. }
  assert (does m (forget_path h) quietly) as Hforget by by apply does_modify.
  destruct err as [e|]; [destruct (errors_Is e SNotExist)|].
  - eapply does_bind; [exact Hforget|]. intros _ l2 ->.
    eapply does_mono; [apply does_ret|]. intros ? l2 [-> ->]. simpl.
    destruct (Hdone (Some e)). auto.
  - eapply does_mono; [apply does_ret|]. intros ? l2 [-> ->]. simpl.
    destruct (Hdone (Some e)). auto.
  - eapply does_bind; [apply does_ext|]. intros err l2 ->. destruct err as [e|].
    + eapply does_mono; [apply does_ret|]. intros ? l2 [-> ->]. split; [|done].
      apply Forall_app; split; [done|by repeat constructor].
    + eapply does_bind; [exact Hforget|]. intros _ l2 ->.
      eapply does_mono; [apply does_ret|]. intros ? l2 [-> ->]. simpl.
      split; [|intros _]; apply Forall_app; split; try done; by repeat constructor.
Qed.

Lemma ReleaseAndRemove_retires pid path h w :
  machine_of w = inr m -> LifetimeLockPath m pid = inr path -> path <> "" ->
  w_locks w !! h = Some (mkLock true path) ->
  exists l, step_by m l w (ReleaseAndRemove h w).2
    /\ Forall free_event (own l)
    /\ ((ReleaseAndRemove h w).1 = None -> Forall (lock_event m pid) (own l)).
Proof.
  intros Hw Hp Hne Hh. unfold ReleaseAndRemove. rewrite M_get_bind, Hh. cbv zeta. cbn [lk_path lk_file].
  rewrite bool_decide_eq_false_2 by done. cbn [negb].
  destruct (does_retire pid path h Hp w Hw) as (l & Hl & Hf & He). eauto.
Qed.
(** Files removed under the lock, which is then retired. *)
Lemma does_remove_under_lock pid instance out path h w :
  machine_of w = inr m -> LifetimeLockPath m pid = inr path -> path <> "" ->
  w_locks w !! h = Some (mkLock true path) ->
  let p := (err ← (must removeProcessArtifacts pid instance out; ReleaseAndRemove h);
            Release h;; mret err) : IO (option error) in
  exists l, step_by m l w (p w).2 /\
    match (p w).1 with None => cleared pid instance out (own l) | Some _ => ordered m (own l) end.
Proof.
  intros Hw Hp Hne Hh. simpl. unfold check_raise, mbind, M_bind.
  destruct (does_removeProcessArtifacts pid instance out w Hw) as (l1 & S1 & H1).
  pose proof (calm_locks _ _ (calm_removeProcessArtifacts pid instance out w)) as HL.
  destruct (removeProcessArtifacts pid instance out w) as [[e|] w1]; simpl in *.
  - destruct (does_Release m h w1 (proj1 S1)) as (l2 & S2 & H2).
    destruct (Release h w1) as [e2 w2]. simpl in *. exists (l1 ++ l2).
    split; [by eapply step_by_trans|]. rewrite own_app. apply ordered_free, Forall_app. split; [done|].
    destruct H2 as [-> | ->]; by repeat constructor.
  - rewrite <- HL in Hh.
    destruct (ReleaseAndRemove_retires pid path h w1 (proj1 S1) Hp Hne Hh) as (l2 & S2 & Hf & Hr).
    destruct (ReleaseAndRemove h w1) as [e2 w2]. simpl in *.
    destruct (does_Release m h w2 (proj1 S2)) as (l3 & S3 & H3).
    destruct (Release h w2) as [e3 w3]. simpl in *. exists (l1 ++ l2 ++ l3).
    split; [eapply step_by_trans; [done|by eapply step_by_trans]|]. rewrite !own_app.
    pose proof (removal_free _ _ _ _ H1) as Hf1.
    assert (ordered m (own l1 ++ own l2 ++ own l3)) as Ho.
    { apply ordered_free. rewrite !Forall_app. split_and!; try done.
      destruct H3 as [-> | ->]; by repeat constructor. }
    destruct e2 as [e2|]; [done|]. split; [done|]. exists [], (own l1), (own l2 ++ own l3).
    split_and!; [done|done|]. apply Forall_app. split; [by apply Hr|].
    destruct H3 as [-> | ->]; by repeat constructor.
Qed.

Lemma cleared_after pid instance out l l' :
  Forall free_event l -> cleared pid instance out l' -> cleared pid instance out (l ++ l').
Proof.
  intros Hl [Ho (l0 & files & lock & -> & ? & ?)].
  split; [apply ordered_app; [by apply ordered_free|done]|].
  exists (l ++ l0), files, lock. by rewrite List.app_assoc.
Qed.

Lemma does_removeProcessRuntimeArtifacts pid instance out :
  does m (removeProcessRuntimeArtifacts pid instance out) (fun err l => match err with
    None => cleared pid instance out l | Some _ => ordered m l end).
Proof.
  unfold removeProcessRuntimeArtifacts.
  eapply does_bind; [apply does_lock_path|]. intros ? l [-> ->].
  destruct (LifetimeLockPath m pid) as [msg|path] eqn:Hp; simpl.
  { eapply does_mono; [apply does_ret|]. intros ? l [-> ->]. apply ordered_nil. }
  intros w Hw. destruct (does_TryAcquire m path w Hw) as (l1 & S1 & H1).
  pose proof (fun h => TryAcquire_handle path w h) as Hh. rewrite bind_run.
  destruct (TryAcquire path w) as [[e|h] w1]; simpl in *.
  - assert (does m (if errors_Is e SNotExist then removeProcessArtifacts pid instance out
      else if errors_Is e SLockHeld then mret (Some [SLockHeld]) else mret (Some e))
      (fun err l => match err with
        None => cleared pid instance out l | Some _ => ordered m l end)) as Hd.
    { repeat case_match; [apply does_removeProcessArtifacts_cleared|..];
        (eapply does_mono; [apply does_ret|]; intros ? l [-> ->]; apply ordered_nil). }
    destruct (Hd w1 (proj1 S1)) as (l2 & S2 & H2). exists (l1 ++ l2).
    split; [by eapply step_by_trans|]. rewrite own_app, H1. case_match.
    + apply ordered_app; [by apply ordered_free; repeat constructor|done].
    + apply cleared_after; [by repeat constructor|done].
  - destruct (Hh h eq_refl) as [Hne Hlk].
    destruct (does_remove_under_lock pid instance out path h w1 (proj1 S1) Hp Hne Hlk)
      as (l2 & S2 & H2).
    cbv zeta in S2, H2.
    exists (l1 ++ l2). split; [by eapply step_by_trans|]. rewrite own_app, H1.
    revert H2. match goal with |- match ?x with _ => _ end -> _ => destruct x eqn:E end; intros H2.
    + apply ordered_app; [by apply ordered_free; repeat constructor|done].
    + apply cleared_after; [by repeat constructor|done].
Qed.
End Order.

(** ** All programs *)

#[export] Hint Extern 1 (along (evolves _) (with_runner _ _)) => apply along_quiet_modify; done : recon.
#[export] Hint Extern 1 (along (evolves _) (with_runtime _ _)) => apply along_quiet_modify; done : recon.
#[export] Hint Extern 1 (along (evolves _) (on_startup _)) => apply along_quiet_modify; done : recon.
#[export] Hint Extern 1 (along (evolves _) (forget_path _)) => apply along_quiet_modify; done : recon.
#[export] Hint Extern 1 (along (evolves _) (Status _)) => apply along_runner_call; done : recon.
#[export] Hint Extern 1 (along (evolves _) (Terminate _ _)) => apply along_runner_call; done : recon.
#[export] Hint Extern 1 (along (evolves _) (CloseUngranted _)) => apply along_runner_call; done : recon.

Section Programs.
Context {RC : ReportCodec} {CC : ClientCodec} (m : MachineStore).

Lemma evolves_removeProcessInstance pid instance : along (evolves m) (removeProcessInstance pid instance).
Proof. apply along_quiet_modify. intros w. by repeat case_match. Qed.

Lemma evolves_lock_path pid : along (evolves m) (lock_path pid).
Proof. unfold lock_path. along_walk. Qed.

Lemma evolves_retry op : along (evolves m) op -> along (evolves m) (retryWhileStateDBBusy op).
Proof. intros. unfold retryWhileStateDBBusy. along_walk. Qed.

Lemma evolves_IsDone r : along (evolves m) (IsDone r).
Proof. unfold IsDone. along_walk. Qed.

Lemma evolves_EndReconciliation r : along (evolves m) (EndReconciliation r).
Proof. unfold EndReconciliation. along_walk. Qed.

Lemma evolves_BeginReconciliation r : along (evolves m) (BeginReconciliation r).
Proof. unfold BeginReconciliation. along_walk. Qed.

Lemma evolves_range f : along (evolves m) (range f).
Proof. unfold range. along_walk. Qed.

Lemma evolves_ReleaseAndRemove h : along (evolves m) (ReleaseAndRemove h).
Proof. unfold ReleaseAndRemove. along_walk. Qed.

Lemma evolves_new_runtime rt : along (evolves m) (new_runtime rt).
Proof. unfold new_runtime. along_walk. Qed.

Lemma evolves_new_runner rn : along (evolves m) (new_runner rn).
Proof. unfold new_runner. along_walk. Qed.

Lemma evolves_removeProcessRuntimeArtifacts pid instance out :
  along (evolves m) (removeProcessRuntimeArtifacts pid instance out).
Proof.
  eapply does_along; [apply does_removeProcessRuntimeArtifacts|]. intros [e|] l; [done|]. by intros [].
Qed.
End Programs.

#[export] Hint Resolve evolves_removeProcessInstance evolves_lock_path evolves_retry evolves_IsDone
  evolves_EndReconciliation evolves_BeginReconciliation evolves_range evolves_ReleaseAndRemove
  evolves_new_runtime evolves_new_runner evolves_removeProcessRuntimeArtifacts : recon.

(** Walks a program in which files are removed before a row. *)
Ltac order_step :=
  lazymatch goal with
  | |- along _ (removeRejectedProcessArtifacts _ _ ≫= _) => fail
  | |- along _ (releaseProcessRuntimeArtifacts _ _ ≫= _) => fail
  | |- along _ (check_raise (removeProcessArtifacts _ _ _) _) => fail
  | _ => along_step
  end.
Ltac order_walk := repeat first [ solve [eauto with recon] | progress order_step ].

Section Closing.
Context {RC : ReportCodec} {CC : ClientCodec} (m : MachineStore).

Lemma evolves_acquire_stopped n closeErr path : along (evolves m) (acquire_stopped n closeErr path).
Proof. induction n; simpl; along_walk. Qed.

Lemma evolves_close_locked_preparation pid instance closeErr lock :
  along (evolves m) (close_locked_preparation pid instance closeErr lock).
Proof.
  unfold close_locked_preparation. order_walk.
  eapply (remove_then_delete m pid instance true); try done; along_walk.
  apply does_removeProcessArtifacts_cleared.
Qed.

Lemma evolves_close_ungranted runtime : along (evolves m) (close_ungranted runtime).
Proof. unfold close_ungranted. along_walk. Qed.

Hint Resolve evolves_acquire_stopped evolves_close_locked_preparation evolves_close_ungranted : recon.

Lemma evolves_closeRejectedPreparation pid instance runtime lock :
  along (evolves m) (closeRejectedPreparation pid instance runtime lock).
Proof. unfold closeRejectedPreparation. along_walk. Qed.

Lemma evolves_close_locked_exhausted pid instance path :
  along (evolves m) (close_locked_exhausted pid instance path).
Proof.
  unfold close_locked_exhausted. order_walk;
  (eapply (remove_then_delete m pid instance true); try done; along_walk;
   apply does_removeProcessArtifacts_cleared).
Qed.

Lemma evolves_closeStorageExhaustedProcess p : along (evolves m) (closeStorageExhaustedProcess p).
Proof.
  unfold closeStorageExhaustedProcess, terminate_exhausted. along_walk.
  apply evolves_close_locked_exhausted.
Qed.
End Closing.

#[export] Hint Resolve evolves_closeRejectedPreparation evolves_closeStorageExhaustedProcess : recon.

Section Directives.
Context {RC : ReportCodec} {CC : ClientCodec} (m : MachineStore).

Lemma evolves_recover pid instance lock :
  along (evolves m) (recoverStoppedReleasedProcess pid instance lock).
Proof.
  unfold recoverStoppedReleasedProcess, freeze_unknown_action, freeze_stopped_terminal,
    settle_containment, stoppedProcessTerminalReport, recover_output,
    closeRecordedProcessContainment.
  along_walk.
Qed.

Lemma evolves_applyActionDisposition claim d :
  is_int64 (ad_Seq d) -> along (evolves m) (applyActionDisposition claim d).
Proof.
  intros Hd. unfold applyActionDisposition. along_walk.
Qed.

Lemma evolves_actions claim l :
  Forall (fun a => is_int64 (ad_Seq a)) l -> along (evolves m) (each (applyActionDisposition claim) l).
Proof.
  intros Hl. apply along_each; [apply _|]. intros x Hx.
  apply evolves_applyActionDisposition. by eapply Forall_forall in Hl.
Qed.

Lemma evolves_runner_of p : along (evolves m) (runner_of p).
Proof. unfold runner_of. along_walk. Qed.

Lemma evolves_terminate_start r e : along (evolves m) (terminate_exhausted_start r e).
Proof. unfold terminate_exhausted_start. along_walk. Qed.

(** Recording the acceptance, possibly after attempts that found the database busy. *)
Definition accepted_last (pid instance : string) (err : option error) (l : list Event) : Prop :=
  Forall free_event l /\ (err = None -> exists l0 f o,
    Forall free_event l0 /\ l = l0 ++ [EDb (mkCall (CMarkAccepted pid instance) f (inr o))]).

Lemma accepted_last_after pid instance err l l' :
  Forall free_event l -> accepted_last pid instance err l' -> accepted_last pid instance err (l ++ l').
Proof.
  intros Hl [Hl' H]. split; [by apply Forall_app|]. intros He.
  destruct (H He) as (l0 & f & o & Hl0 & ->). exists (l ++ l0), f, o.
  rewrite <- List.app_assoc. split; [by apply Forall_app|done].
Qed.

Lemma does_while_accepting n pid instance :
  does m (while_busy n (db_do (CMarkAccepted pid instance))) (accepted_last pid instance).
Proof.
  induction n as [|n IH]; simpl;
    (eapply does_bind; [by apply does_db_do|]; intros err l (f & o & -> & ->);
     destruct o as [e|o];
     [case_match|eapply does_mono; [apply does_ret|]; intros ? l [-> ->]; simpl;
      split; [by repeat constructor|]; intros _; by exists [], f, o]).
  all: try (eapply does_mono; [apply does_ret|]; intros ? l [-> ->]; split; [by repeat constructor|done]).
  eapply does_mono; [exact IH|]. intros err l Hl. apply accepted_last_after; [by repeat constructor|done].
Qed.

Lemma does_accept pid instance :
  does m (retryWhileStateDBBusy (db_do (CMarkAccepted pid instance))) (accepted_last pid instance).
Proof. apply does_quiet_bind; [apply does_next_reply|]. intros rp. apply does_while_accepting. Qed.

Lemma evolves_accept_then_start {A} pid instance r (k1 : error -> IO A) (k2 : option error -> IO A) :
  (forall e, along (evolves m) (k1 e)) -> (forall e, along (evolves m) (k2 e)) ->
  along (evolves m)
    (storageErr ← retryWhileStateDBBusy (db_do (CMarkAccepted pid instance));
     match storageErr with Some e => k1 e | None => err ← StartOnce r; k2 err end).
Proof.
  intros H1 H2. eapply does_along; [|by intros a l Hl; exact Hl].
  eapply does_bind; [apply does_accept|]. intros [e|] l [Hl He].
  - eapply does_mono; [by apply along_does|]. intros b l2 Hl2.
    apply ordered_app; [by apply ordered_free|done].
  - destruct (He eq_refl) as (l0 & f & o & Hl0 & ->).
    eapply does_bind; [apply does_StartOnce|]. intros err l2 (e & ->).
    eapply does_mono; [by apply along_does|]. intros b l3 Hl3.
    rewrite <- !List.app_assoc. apply ordered_app; [by apply ordered_free|].
    rewrite List.app_assoc. apply ordered_app; [apply ordered_start|done].
Qed.

Lemma evolves_apply_start claim runner : along (evolves m) (apply_start claim runner).
Proof.
  unfold apply_start.
  repeat lazymatch goal with
  | |- along _ (retryWhileStateDBBusy _ ≫= _) => fail
  | _ => first [ solve [eauto using evolves_runner_of with recon] | progress along_step ]
  end.
  apply evolves_accept_then_start; along_walk; apply evolves_terminate_start.
Qed.

Lemma evolves_force_reports pid : along (evolves m) (force_reports pid).
Proof. unfold force_reports. along_walk. Qed.

Lemma evolves_apply_close_preparation claim runner :
  along (evolves m) (apply_close_preparation claim runner).
Proof. unfold apply_close_preparation. along_walk. Qed.

Lemma evolves_apply_release claim runner l :
  Forall (fun a => is_int64 (ad_Seq a)) l -> along (evolves m) (apply_release claim runner l).
Proof.
  intros Hl. unfold apply_release.
  repeat first [ solve [eauto using evolves_runner_of, evolves_force_reports, evolves_actions,
                          evolves_recover with recon] | progress along_step ].
Qed.

Lemma evolves_applyProcessDisposition claim d :
  directive_decodes d -> along (evolves m) (applyProcessDisposition claim d).
Proof.
  intros Hd. unfold applyProcessDisposition.
  repeat first [ solve [eauto using evolves_apply_start, evolves_apply_release, evolves_actions,
                          evolves_apply_close_preparation with recon] | progress along_step ].
Qed.

Lemma evolves_apply_directives claims seen ds :
  Forall directive_decodes ds -> along (evolves m) (apply_directives claims seen ds).
Proof.
  intros H. revert seen. induction H; intros seen; simpl;
    repeat first [ solve [eauto using evolves_applyProcessDisposition with recon] | progress along_step ].
Qed.

Lemma evolves_worth_keeping p : along (evolves m) (worth_keeping p).
Proof. unfold worth_keeping. along_walk. Qed.

Lemma evolves_keep_running l : along (evolves m) (keep_running l).
Proof. induction l as [|[]]; simpl; along_walk; apply evolves_worth_keeping. Qed.

Lemma evolves_releaseResources : along (evolves m) releaseResources.
Proof. unfold releaseResources, releaseFences, releaseLocks. along_walk. Qed.

Lemma evolves_applyRegistrationReconciliation ds :
  Forall directive_decodes ds -> along (evolves m) (applyRegistrationReconciliation ds).
Proof.
  intros H. unfold applyRegistrationReconciliation, apply_checked, replaceProcesses, releaseFences,
    releaseLocks.
  repeat first [ solve [eauto using evolves_apply_directives, evolves_keep_running with recon]
               | progress along_step ].
Qed.
End Directives.

#[export] Hint Resolve evolves_releaseResources evolves_recover : recon.

Section Loops.
Context {RC : ReportCodec} {CC : ClientCodec} (m : MachineStore).

Lemma evolves_inspectLocalSupervisor machine process :
  along (evolves m) (inspectLocalSupervisor machine process).
Proof.
  unfold inspectLocalSupervisor, probe_supervisor, inspect_missing_lock, currentLocalProcessState.
  along_walk.
Qed.

Lemma evolves_scan_once : along (evolves m) scanLocalProcessesForRegistrationOnce.
Proof.
  unfold scanLocalProcessesForRegistrationOnce, scan_processes, inspect_one, claim_one, status_one.
  repeat first [ solve [eauto using evolves_inspectLocalSupervisor with recon] | progress along_step ].
Qed.

Lemma evolves_scan_loop n : along (evolves m) (scan_loop n).
Proof.
  induction n; simpl;
    repeat first [ solve [eauto using evolves_scan_once with recon] | progress along_step ].
Qed.

Lemma evolves_scan : along (evolves m) scanLocalProcessesForRegistration.
Proof.
  unfold scanLocalProcessesForRegistration.
  repeat first [ solve [eauto using evolves_scan_loop with recon] | progress along_step ].
Qed.

Lemma evolves_delete_settled pid : along (evolves m) (delete_settled pid).
Proof.
  unfold delete_settled. order_walk.
  match goal with |- along _ (releaseProcessRuntimeArtifacts ?pid ?inst ≫= _) =>
    eapply (remove_then_delete m pid inst false) end; try done; along_walk.
  apply does_removeProcessRuntimeArtifacts.
Qed.

Lemma evolves_finalizeReleasedProcesses : along (evolves m) finalizeReleasedProcesses.
Proof.
  unfold finalizeReleasedProcesses, cleanupProcesses, cleanup_one, finalize_one, close_released,
    localProcess.
  repeat first [ solve [eauto using evolves_delete_settled with recon] | progress along_step ].
Qed.

Lemma evolves_verifyProcessSupervisors : along (evolves m) verifyProcessSupervisors.
Proof.
  unfold verifyProcessSupervisors, verify_one, probe_runtime, verify_lock, verify_unlocked, localProcess.
  along_walk.
Qed.

(** The binding never changes the machine. *)
Lemma machine_of_bootstrap w b :
  machine_of w = inr m -> b_MachineID (w_bootstrap w) = "" -> b_InstallationID b <> "" -> b_MachineID b <> "" ->
  (cfg_ExpectedInstallationID (w_cfg w) <> "" -> b_InstallationID b = cfg_ExpectedInstallationID (w_cfg w)) ->
  (cfg_ExpectedMachineID (w_cfg w) <> "" -> b_MachineID b = cfg_ExpectedMachineID (w_cfg w)) ->
  machine_of (set_bootstrap b w) = inr m.
Proof.
  unfold machine_of, machineStore, localMachineBinding. simpl. intros Hm Hb Hi Hmm Ei Em.
  destruct (normalizeHome _) as [|home]; [done|]. rewrite Hb in Hm.
  rewrite (bool_decide_eq_true_2 ("" = "")) in Hm by done. rewrite andb_false_r in Hm.
  rewrite !bool_decide_eq_false_2 by done. simpl.
  destruct ((_ <>? _) && _) eqn:E; [|done]. bsimpl. by rewrite Ei, Em by done.
Qed.

Lemma next_reply_binding w :
  w_cfg (next_reply w).2 = w_cfg w /\ w_bootstrap (next_reply w).2 = w_bootstrap w.
Proof.
  unfold next_reply. destruct (w_replies w) as [|rp rest]; [done|]. simpl.
  assert (forall l w, w_cfg (fold_left other_write l w) = w_cfg w
    /\ w_bootstrap (fold_left other_write l w) = w_bootstrap w) as Hw.
  { induction l as [|cf l IH]; intros w0; simpl; [done|]. destruct (IH (other_write w0 cf)) as [-> ->].
    unfold other_write. case_match; [|done]. by destruct (run_cmd _ _ _). }
  assert (forall l w, w_cfg (fold_left other_put l w) = w_cfg w
    /\ w_bootstrap (fold_left other_put l w) = w_bootstrap w) as Hp.
  { induction l as [|put l IH]; intros w0; simpl; [done|]. destruct (IH (other_put w0 put)) as [-> ->].
    by destruct (other_put_same w0 put) as (_ & -> & -> & _). }
  destruct (Hp (rp_puts rp) (fold_left other_write (rp_others rp) (set_replies rest w))) as [-> ->].
  by destruct (Hw (rp_others rp) (set_replies rest w)) as [-> ->].
Qed.

Lemma evolves_set_bootstrap w b :
  machine_of (set_bootstrap b w) = machine_of w -> evolves m w (set_bootstrap b w).
Proof.
  intros H Hw. exists []. split; [|apply ordered_nil].
  split_and!; [by rewrite H|by rewrite List.app_nil_r|constructor].
Qed.

Lemma evolves_Bootstrap : along (evolves m) Bootstrap.
Proof.
  intros w Hw. unfold Bootstrap. rewrite M_get_bind. case_bool_decide as Hb; simpl;
    [|exists []; split; [by apply step_by_refl|apply ordered_nil]].
  revert Hw. match goal with |- _ -> exists l, step_by m l w ?x /\ _ => change (evolves m w x) end.
  rewrite bind_run. pose proof (along_next_reply m w) as H1.
  destruct (next_reply_binding w) as [Hc Hbo]. destruct (next_reply w) as [rp w1]. simpl in *.
  etrans; [exact H1|]. rewrite <- Hbo in Hb. clear H1 Hc Hbo.
  pose proof (along_log m (EExt (XPost "/daemon/bootstrap") (rp_err rp)) eq_refl I w1) as H1.
  rewrite bind_run. simpl in *. etrans; [exact H1|]. clear H1.
  set (w2 := add_event _ w1). assert (b_MachineID (w_bootstrap w2) = "") as Hb2 by exact Hb.
  clearbody w2. clear Hb w1. rewrite M_get_bind.
  destruct (rp_err rp); [reflexivity|]. cbv zeta.
  destruct (_ || _) eqn:E1; [reflexivity|]. destruct (_ && _) eqn:E2; [reflexivity|].
  match goal with |- context [if ?b then mret (inl [SBindingMismatch]) else _] => destruct b eqn:E3 end;
    [reflexivity|]. bsimpl. simpl. intros Hw2. revert Hw2.
  enough (machine_of w2 = inr m -> machine_of (set_bootstrap (rp_bootstrap rp) w2) = inr m) as Hm.
  { intros Hw2. apply evolves_set_bootstrap; [|done]. by rewrite Hw2, Hm. }
  intros Hw2. apply machine_of_bootstrap; try done.
  - intros Hne. destruct E2 as [E2|E2]; bsimpl; done.
  - intros Hne. destruct E3 as [E3|E3]; bsimpl; done.
Qed.

Lemma Register_decodes w runtime ds : (Register w).1 = inr (runtime, ds) -> Forall directive_decodes ds.
Proof.
  unfold Register, or_raise. rewrite bind_run. destruct (Bootstrap w) as [[e|b] w1]; [done|].
  simpl. rewrite bind_run. destruct (next_reply w1) as [rp w2]. simpl.
  destruct (rp_err rp); [done|]. case_bool_decide as H; simpl; [|done].
  case_match; [done|]. by intros [= _ <-].
Qed.

Lemma evolves_Register : along (evolves m) Register.
Proof.
  unfold Register.
  repeat first [ solve [eauto using evolves_Bootstrap with recon] | progress along_step ].
Qed.

Lemma evolves_register_once : along (evolves m) register_once.
Proof.
  intros w. unfold register_once. rewrite bind_run. pose proof (evolves_Register w) as H1.
  pose proof (Register_decodes w) as Hd. destruct (Register w) as [[e|[rt ds]] w1]; simpl in *; [done|].
  etrans; [exact H1|]. specialize (Hd rt ds eq_refl).
  eapply (along_bind (evolves m) (applyRegistrationReconciliation ds)
    (fun applyErr => match applyErr with
       | None => modify (set_activeRuntime rt);; mret (inr rt)
       | Some e => mret (inl e) end)).
  - by apply evolves_applyRegistrationReconciliation.
  - along_walk.
Qed.

Lemma evolves_register_loop n : along (evolves m) (register_loop n).
Proof.
  induction n; simpl;
    repeat first [ solve [eauto using evolves_scan, evolves_register_once with recon]
                 | progress along_step ].
Qed.

Lemma evolves_registerWithRetry : along (evolves m) registerWithRetry.
Proof.
  unfold registerWithRetry.
  repeat first [ solve [eauto using evolves_register_loop with recon] | progress along_step ].
Qed.
End Loops.
