(* ===== verification/ReconFences.v ===== *)
(** * Registration: what is open, and what is fenced

    A registration opens lifetime locks and reconciliation sessions and must give
    every one of them back, whatever fails: a lock that stays open would make the
    daemon take its own process for a live supervisor.  [tracked] relates two worlds
    when everything opened in between is recorded in the startup state, which is
    what the deferred releases iterate over. *)
From S2P Require Import Prelude GoStrings DaemonProtocol LocalPaths StateSchema StateQueries StateTx.
From S2P Require Import StateReport StateProcess StateAction StateInvariant StateTrace StateAudit.
From S2P Require Import LocalStore OutputFile StateSnapshot.
From S2P Require Import ClientWorld Reconciliation ReconFrame ReconObjects ReconOrder.
From stdpp Require Import options.
Local Open Scope Z_scope.

#[export] Hint Extern 1 (along calmly (with_runtime _ _)) => apply calm_modify; done : recon.
#[export] Hint Extern 1 (along calmly (Status _)) => apply calm_runner_call : recon.
#[export] Hint Extern 1 (along calmly (Terminate _ _)) => apply calm_runner_call : recon.
#[export] Hint Extern 1 (along calmly (CloseUngranted _)) => apply calm_runner_call : recon.

(** ** Programs that give back what they take *)

Section Closing.
Context {RC : ReportCodec} {CC : ClientCodec}.

Lemma nothing_removeProcessRuntimeArtifacts pid instance out :
  along nothing_opened (removeProcessRuntimeArtifacts pid instance out).
Proof.
  unfold removeProcessRuntimeArtifacts. apply along_or_raise; [apply _|eauto with recon|]. intros path.
  eapply (bracket (TryAcquire path)); [apply opening_TryAcquire|..]; along_walk.
Qed.

Lemma opening_create path :
  opening (r0 ← TryAcquire path;
           match r0 with
           | inl e => if errors_Is e SNotExist then TryAcquire path else mret (inl e)
           | inr lock => mret (inr lock)
           end).
Proof.
  apply opening_retry; [apply opening_TryAcquire| |done]. intros e.
  case_match; [apply opening_TryAcquire|apply opening_ret_inl].
Qed.

Lemma bind_assoc_run {A B C} (p : IO A) (f : A -> IO B) (g : B -> IO C) w :
  ((p ≫= f) ≫= g) w = (p ≫= fun a => f a ≫= g) w.
Proof. by rewrite !bind_run. Qed.

Lemma opening_acquire_stopped n closeErr path : opening (acquire_stopped n closeErr path).
Proof.
  induction n as [|n IH]; simpl.
  - intros w. rewrite <- bind_assoc_run.
    refine (opening_retry _ (fun e => if negb (errors_Is e SLockHeld) then _ else _) _
      (opening_create path) _ _ w); [|done]. intros e. case_match; apply opening_ret_inl.
  - intros w. rewrite <- bind_assoc_run.
    refine (opening_retry _ (fun e => if negb (errors_Is e SLockHeld) then _ else _) _
      (opening_create path) _ _ w); [|done]. intros e. case_match; [apply opening_ret_inl|apply IH].
Qed.

Lemma nothing_close_locked_preparation pid instance closeErr lock :
  along nothing_opened (close_locked_preparation pid instance closeErr lock).
Proof. unfold close_locked_preparation, removeRejectedProcessArtifacts. along_walk. Qed.

Lemma nothing_close_ungranted runtime : along nothing_opened (close_ungranted runtime).
Proof. unfold close_ungranted. along_walk. Qed.

(** [closeRejectedPreparation] opens nothing, and closes the lock it is handed. *)
Lemma closeRejectedPreparation_closes pid instance runtime lock w :
  nothing_opened w (closeRejectedPreparation pid instance runtime lock w).2
  /\ forall h, lock = Some h -> ~ is_open (closeRejectedPreparation pid instance runtime lock w).2 h.
Proof.
  unfold closeRejectedPreparation. rewrite bind_run.
  pose proof (nothing_close_ungranted runtime w) as H1.
  destruct (close_ungranted runtime w) as [closeErr w1]. simpl in *. destruct lock as [h|].
  - rewrite bind_run. simpl. rewrite bind_run.
    pose proof (nothing_close_locked_preparation pid instance closeErr h w1) as H2.
    destruct (close_locked_preparation pid instance closeErr h w1) as [r w2]. simpl in *.
    rewrite bind_run. destruct (Release_spec h w2) as [H3 Hc]. destruct (Release h w2) as [e w3].
    simpl in *. split; [by do 2 (etrans; [eassumption|])|]. by intros ? [= <-].
  - split; [|done]. etrans; [exact H1|]. rewrite bind_assoc_run. clear H1.
    refine (along_bind nothing_opened _ _ _ _ w1); [eauto with recon|].
    intros [e|path]; [intros w2; done|]. intros w2. rewrite bind_assoc_run.
    refine (along_bind nothing_opened _ _ _ _ w2); [eauto with recon|]. intros rp.
    eapply (bracket (acquire_stopped _ _ _)); [apply opening_acquire_stopped|..]; along_walk.
    apply nothing_close_locked_preparation.
Qed.

Lemma nothing_closeRejectedPreparation pid instance runtime lock :
  along nothing_opened (closeRejectedPreparation pid instance runtime lock).
Proof. intros w. apply closeRejectedPreparation_closes. Qed.

Lemma nothing_close_locked_exhausted pid instance path :
  along nothing_opened (close_locked_exhausted pid instance path).
Proof.
  unfold close_locked_exhausted. intros w. rewrite <- bind_assoc_run. revert w.
  eapply bracket; [apply opening_create|..]; along_walk.
Qed.
End Closing.

#[export] Hint Resolve nothing_removeProcessRuntimeArtifacts nothing_closeRejectedPreparation
  nothing_close_locked_exhausted : recon.

Section Recovery.
Context {RC : ReportCodec} {CC : ClientCodec}.

Lemma nothing_recover pid instance lock :
  along nothing_opened (recoverStoppedReleasedProcess pid instance lock).
Proof.
  unfold recoverStoppedReleasedProcess, freeze_unknown_action, freeze_stopped_terminal,
    settle_containment, stoppedProcessTerminalReport, recover_output,
    closeRecordedProcessContainment.
  along_walk.
Qed.

Lemma calm_new_runtime rt : along calmly (new_runtime rt).
Proof. intros w. split; simpl; try done. lia. Qed.

Lemma calm_terminate_start r e : along calmly (terminate_exhausted_start r e).
Proof. unfold terminate_exhausted_start. along_walk. Qed.

Lemma calm_apply_start claim runner : along calmly (apply_start claim runner).
Proof.
  unfold apply_start, runner_of.
  repeat first [ solve [eauto using calm_terminate_start with recon] | progress along_step ].
Qed.
End Recovery.

(** ** Everything opened is recorded *)

Definition tracked (w0 w : World) : Prop :=
  (forall h, is_open w h ->
     is_open w0 h \/ exists pid, su_stoppedLocks (w_startup w) !! pid = Some h)
  /\ (forall r, session w r = true ->
     session w0 r = true \/ exists pid, su_fencedRunners (w_startup w) !! pid = Some r).

(** Nothing is open in [w] that was not open in [w0]. *)
Definition settled (w0 w : World) : Prop :=
  (forall h, is_open w h -> is_open w0 h) /\ (forall r, session w r = true -> session w0 r = true).

Definition keeps_tracked (w w' : World) : Prop := forall w0, tracked w0 w -> tracked w0 w'.

Global Instance keeps_tracked_preorder : PreOrder keeps_tracked.
Proof. split; [by intros w w0|]. intros w1 w2 w3 H1 H2 w0 H. by apply H2, H1. Qed.

Lemma nothing_keeps_tracked w w' : nothing_opened w w' -> keeps_tracked w w'.
Proof.
  intros [HL HS HU] w0 [TL TS]. split.
  - intros h Hh. destruct (TL h (HL h Hh)) as [?|[pid Hp]]; [by left|right]. exists pid. by rewrite HU.
  - intros r Hr. destruct (TS r (HS r Hr)) as [?|[pid Hp]]; [by left|right]. exists pid. by rewrite HU.
Qed.

Lemma settled_tracked w0 w : settled w0 w -> tracked w0 w.
Proof. intros [HL HS]. split; auto. Qed.

Lemma settled_nothing w0 w w' : settled w0 w -> nothing_opened w w' -> settled w0 w'.
Proof. intros [HL HS] [NL NS _]. split; auto. Qed.

Lemma along_nothing_tracked {A} (p : IO A) : along nothing_opened p -> along keeps_tracked p.
Proof. apply along_sub, nothing_keeps_tracked. Qed.

(** A change of the startup state that leaves the two tables alone. *)
Lemma along_startup_tracked f :
  (forall s, su_stoppedLocks (f s) = su_stoppedLocks s /\ su_fencedRunners (f s) = su_fencedRunners s) ->
  along keeps_tracked (on_startup f).
Proof.
  intros Hf w w0 [TL TS]. destruct (Hf (w_startup w)) as [HL HS]. split; simpl; rewrite ?HL, ?HS.
  - apply TL.
  - apply TS.
Qed.

#[export] Hint Extern 6 (along keeps_tracked _) =>
  apply along_nothing_tracked; solve [eauto with recon] : recon.
#[export] Hint Extern 1 (along keeps_tracked (on_startup _)) => apply along_startup_tracked; done : recon.
#[export] Hint Resolve nothing_recover calm_apply_start calm_new_runtime : recon.

Section Apply.
Context {RC : ReportCodec} {CC : ClientCodec}.

Lemma tracked_apply_close_preparation claim runner :
  along keeps_tracked (apply_close_preparation claim runner).
Proof.
  intros w. unfold apply_close_preparation. rewrite M_get_bind, bind_run, bind_run.
  set (pid := cl_ProcessID claim). set (instance := cl_SupervisorInstanceID claim).
  set (lock := su_stoppedLocks (w_startup w) !! pid).
  set (w1 := (on_startup (with_stopped (delete pid)) w).2).
  destruct (closeRejectedPreparation_closes pid instance runner lock w1) as [Hn Hc].
  destruct (closeRejectedPreparation pid instance runner lock w1) as [[pending err] w2]. simpl in *.
  assert (keeps_tracked w w2) as H12.
  { intros w0 [TL TS]. destruct Hn as [NL NS NU]. split.
    - intros h Hh. destruct (TL h) as [?|[p Hp]]; [by apply NL in Hh|by left|].
      right. exists p. rewrite NU. simpl. rewrite lookup_delete_ne; [done|]. intros <-.
      by apply (Hc h).
    - intros r Hr. destruct (TS r) as [?|[p Hp]]; [by apply NS in Hr|by left|].
      right. exists p. by rewrite NU. }
  etrans; [exact H12|]. clear.
  match goal with |- keeps_tracked ?a (?p ?a).2 => enough (along keeps_tracked p) as H by apply H end.
  destruct pending; along_walk.
Qed.

Lemma tracked_action claim d : along keeps_tracked (applyActionDisposition claim d).
Proof. unfold applyActionDisposition. along_walk. Qed.

Lemma tracked_apply_release claim runner l : along keeps_tracked (apply_release claim runner l).
Proof.
  unfold apply_release, force_reports, runner_of.
  repeat first [ solve [eauto using tracked_action with recon] | progress along_step ].
Qed.

Lemma tracked_apply_directives claims seen ds : along keeps_tracked (apply_directives claims seen ds).
Proof.
  revert seen. induction ds as [|d ds IH]; intros seen; simpl; [along_walk|].
  unfold applyProcessDisposition.
  repeat first [ solve [eauto using tracked_action, tracked_apply_release,
                          tracked_apply_close_preparation with recon] | progress along_step ].
Qed.

Lemma calm_keep_running l : along calmly (keep_running l).
Proof. induction l as [|[]]; simpl; [along_walk|]. unfold worth_keeping. along_walk. Qed.

Lemma tracked_apply_checked ds : along keeps_tracked (apply_checked ds).
Proof.
  unfold apply_checked, replaceProcesses. assert (forall l, along keeps_tracked (keep_running l)) by
    (intros; apply along_nothing_tracked, along_calm, calm_keep_running).
  repeat first [ solve [eauto using tracked_apply_directives with recon]
               | progress along_step ].
Qed.
End Apply.

(** ** The deferred releases *)

Section Releases.
Context {RC : ReportCodec} {CC : ClientCodec}.

Lemma release_fences_loop l w :
  let w' := (each_ (fun '(processID, runner) =>
    EndReconciliation runner;; on_startup (with_fenced (delete processID))) l w).2 in
  (forall h, is_open w' h -> is_open w h)
  /\ (forall r, session w' r = true -> session w r = true /\ r ∉ l.*2)
  /\ su_stoppedLocks (w_startup w') = su_stoppedLocks (w_startup w).
Proof.
  revert w. induction l as [|[pid r] l IH]; intros w; simpl.
  { split_and!; try done. intros q Hq. split; [done|]. apply not_elem_of_nil. }
  rewrite bind_run, bind_run. destruct (EndReconciliation_spec r w) as [[NL NS NU] Hoff].
  destruct (EndReconciliation r w) as [e w1]. simpl in *.
  destruct (IH (set_startup (with_fenced (delete pid) (w_startup w1)) w1)) as (HL & HS & HU).
  split_and!.
  - intros h Hh. apply NL. by apply HL in Hh.
  - intros q Hq. apply HS in Hq as [Hq Hnot]. split; [by apply NS|].
    rewrite not_elem_of_cons. split; [|done]. intros ->. unfold session in *. simpl in *. congruence.
  - rewrite HU. simpl. by rewrite NU.
Qed.

Lemma release_locks_loop l w :
  let w' := (each_ (fun '(processID, lock) =>
    Release lock;; on_startup (with_stopped (delete processID))) l w).2 in
  (forall h, is_open w' h -> is_open w h /\ h ∉ l.*2)
  /\ (forall r, session w' r = true -> session w r = true).
Proof.
  revert w. induction l as [|[pid h] l IH]; intros w; simpl.
  { split; [|done]. intros q Hq. split; [done|]. apply not_elem_of_nil. }
  rewrite bind_run, bind_run. destruct (Release_spec h w) as [[NL NS NU] Hoff].
  destruct (Release h w) as [e w1]. simpl in *.
  destruct (IH (set_startup (with_stopped (delete pid) (w_startup w1)) w1)) as (HL & HS).
  split.
  - intros q Hq. apply HL in Hq as [Hq Hnot]. split; [by apply NL|].
    rewrite not_elem_of_cons. split; [|done]. intros ->. by apply Hoff.
  - intros q Hq. apply NS. by apply HS in Hq.
Qed.

Lemma elem_of_range (f : World -> gmap string nat) w pid x :
  f (range f w).2 !! pid = Some x -> x ∈ ((range f w).1).*2.
Proof.
  unfold range. rewrite bind_run. destruct (next_reply w) as [rp w1]. simpl. intros H.
  apply list_elem_of_fmap. exists (pid, x). split; [done|].
  rewrite shuffle_Permutation. by apply elem_of_map_to_list.
Qed.

(** After the releases nothing that the registration opened is open. *)
Lemma releases_settle w0 w :
  tracked w0 w -> settled w0 (releaseResources w).2.
Proof.
  intros T. unfold releaseResources. rewrite bind_run.
  set (w2 := (releaseFences w).2).
  assert ((forall h, is_open w2 h ->
             is_open w0 h \/ exists pid, su_stoppedLocks (w_startup w2) !! pid = Some h)
    /\ forall r, session w2 r = true -> session w0 r = true) as [HL HS].
  { unfold w2, releaseFences. rewrite bind_run.
    set (f := fun w => su_fencedRunners (w_startup w)).
    pose proof (calm_range f w) as Hc. pose proof (elem_of_range f w) as He.
    destruct (range f w) as [l w1]. simpl in *.
    apply calmly_nothing, nothing_keeps_tracked in Hc. destruct (Hc w0 T) as [TL TS].
    destruct (release_fences_loop l w1) as (RL & RS & RU). split.
    - intros h Hh. rewrite RU. apply TL. by apply RL in Hh.
    - intros r Hr. apply RS in Hr as [Hr Hnot]. destruct (TS r Hr) as [?|[pid Hp]]; [done|].
      by apply He in Hp. }
  clearbody w2. unfold releaseLocks. rewrite bind_run.
  set (f := fun w => su_stoppedLocks (w_startup w)).
  pose proof (calm_range f w2) as Hc. pose proof (elem_of_range f w2) as He.
  destruct (range f w2) as [l w3]. simpl in *. destruct (release_locks_loop l w3) as (RL & RS).
  apply calmly_nothing in Hc as [NL NS NU]. split.
  - intros h Hh. apply RL in Hh as [Hh Hnot]. destruct (HL h) as [?|[pid Hp]]; [by apply NL|done|].
    exfalso. apply Hnot, (He pid). unfold f. by rewrite NU.
  - intros r Hr. apply HS, NS. by apply RS in Hr.
Qed.

Lemma apply_settles w0 w ds :
  tracked w0 w -> settled w0 (applyRegistrationReconciliation ds w).2.
Proof.
  intros T. unfold applyRegistrationReconciliation. rewrite bind_run.
  pose proof (tracked_apply_checked ds w w0 T) as T1. destruct (apply_checked ds w) as [err w1].
  simpl in *. apply releases_settle in T1. unfold releaseResources in T1.
  rewrite bind_run in T1. rewrite bind_run, bind_run. simpl. done.
Qed.
End Releases.
