(* ===== verification/ReconScan.v ===== *)
(** * Registration: the snapshot is taken behind fences

    [inspectLocalSupervisor] ends, for every process, with a session that fences its
    live supervisor or with its lifetime lock in the daemon's hands; nothing the scan
    does afterwards gives either up, and nothing stays open when the scan fails. *)
From S2P Require Import Prelude GoStrings DaemonProtocol LocalPaths StateSchema StateQueries StateTx.
From S2P Require Import StateReport StateProcess StateAction StateInvariant StateTrace StateAudit.
From S2P Require Import LocalStore OutputFile StateSnapshot.
From S2P Require Import ClientWorld Reconciliation ReconFrame ReconObjects ReconOrder ReconFences.
From stdpp Require Import options.
Local Open Scope Z_scope.

(** The objects allocated before [n] are as they were. *)
Definition old (n : nat) (w w' : World) : Prop :=
  (n <= w_fresh w)%nat ->
  (w_fresh w <= w_fresh w')%nat
  /\ (forall h, (h < n)%nat -> w_locks w' !! h = w_locks w !! h)
  /\ (forall r, (r < n)%nat -> session w' r = session w r /\ identity w' r = identity w r).

Global Instance old_preorder n : PreOrder (old n).
Proof.
  split; [by intros w _|]. intros w1 w2 w3 H1 H2 Hn. destruct (H1 Hn) as (F1 & L1 & R1).
  destruct H2 as (F2 & L2 & R2); [lia|]. split_and!; [lia|..].
  - intros h Hh. by rewrite L2, L1.
  - intros r Hr. destruct (R1 r Hr) as [<- <-]. by apply R2.
Qed.

Lemma calmly_old n w w' : calmly w w' -> old n w w'.
Proof.
  intros [L _ F _ O] Hn. split_and!; [done|by rewrite L|]. intros r Hr. apply O. lia.
Qed.

Lemma along_old_calm n {A} (p : IO A) : along calmly p -> along (old n) p.
Proof. apply along_sub, calmly_old. Qed.
#[export] Hint Extern 5 (along (old _) _) => apply along_old_calm; solve [eauto with recon] : recon.

(** As [nothing_opened], but for the session of [r]. *)
Record session_only (r : nat) (w w' : World) : Prop := {
  so_lock h : is_open w' h -> is_open w h;
  so_session q : session w' q = true -> session w q = true \/ q = r;
  so_startup : w_startup w' = w_startup w
}.

Lemma session_only_after r w1 w2 w3 :
  nothing_opened w1 w2 -> session_only r w2 w3 -> session_only r w1 w3.
Proof.
  intros [L1 S1 U1] [L2 S2 U2]. split; [by auto| |congruence].
  intros q Hq. destruct (S2 q Hq); auto.
Qed.

Section Scan.
Context {RC : ReportCodec} {CC : ClientCodec}.

(** ** Primitives *)

Lemma TryAcquire_spec path w :
  let '(r, w') := TryAcquire path w in
  old (w_fresh w) w w' /\
  match r with
  | inl _ => nothing_opened w w'
  | inr h => opened_only h w w' /\ (w_fresh w <= h < w_fresh w')%nat
             /\ w_locks w' !! h = Some (mkLock true path)
  end.
Proof.
  pose proof (opening_TryAcquire path w) as Ho. pose proof (TryAcquire_handle path w) as Hh.
  assert (old (w_fresh w) w (TryAcquire path w).2
    /\ forall h, (TryAcquire path w).1 = inr h -> (w_fresh w <= h < w_fresh (TryAcquire path w).2)%nat)
    as [Hold Hf].
  { clear Ho Hh. unfold TryAcquire. rewrite bind_run. pose proof (calm_next_reply w) as Hc.
    destruct (next_reply w) as [rp w1]. cbn [fst snd].
    cbv [mbind M_bind get modify log mret M_ret]. simpl in Hc.
    pose proof (calm_fresh _ _ Hc).
    destruct (path ==? ""); [|destruct (rp_err rp); [|destruct (held_b path w1)]]; simpl;
      try by (split; [etrans; [by apply calmly_old|by apply calmly_old, calmly_same]|done]).
    split; [|intros h [= <-]; lia].
    etrans; [by apply calmly_old|]. intros Hn. simpl. split_and!; [lia| |done].
    intros h Hlt. apply lookup_insert_ne. lia. }
  destruct (TryAcquire path w) as [[e|h] w']; simpl in *; [done|].
  split; [done|]. split; [done|]. split; [by apply Hf|by apply Hh].
Qed.

Lemma old_Release n h : (n <= h)%nat -> along (old n) (Release h).
Proof.
  intros Hn w. unfold Release. rewrite M_get_bind.
  destruct (w_locks w !! h) as [[[] path]|]; try reflexivity.
  rewrite bind_run. pose proof (calm_next_reply w) as Hc. destruct (next_reply w) as [rp w1].
  simpl in *. etrans; [by apply calmly_old|]. intros Hle. simpl. split_and!; [lia| |done].
  intros g Hg. apply lookup_insert_ne. lia.
Qed.

Lemma new_runner_spec rn w :
  rn_session rn = false ->
  let '(r, w') := new_runner rn w in
  calmly w w' /\ r = w_fresh w /\ (r < w_fresh w')%nat /\ session w' r = false
  /\ identity w' r = Some (rn_endpoint rn, rn_supervisorToken rn, rn_supervisorInstanceID rn).
Proof.
  intros Hs. simpl. split_and!; [|done|lia|..].
  - destruct rn; simpl in *; subst.
    apply (calmly_fresh_runner w (mkRunner _ _ _ _ _ false)).
  - unfold session. simpl. by rewrite lookup_insert_eq.
  - unfold identity. simpl. by rewrite lookup_insert_eq.
Qed.

Lemma session_alter w r f q :
  session (set_runners (alter f r (w_runners w)) w) q
  = if decide (r = q) then match w_runners w !! q with Some rn => rn_session (f rn) | None => false end
    else session w q.
Proof.
  unfold session. simpl. case_decide as E; [subst; rewrite lookup_alter_eq|by rewrite lookup_alter_ne].
  by destruct (w_runners w !! q).
Qed.

Lemma identity_alter w r f q :
  (forall rn, rn_endpoint (f rn) = rn_endpoint rn /\ rn_supervisorToken (f rn) = rn_supervisorToken rn
     /\ rn_supervisorInstanceID (f rn) = rn_supervisorInstanceID rn) ->
  identity (set_runners (alter f r (w_runners w)) w) q = identity w q.
Proof.
  intros Hf. unfold identity. simpl. destruct (decide (r = q)) as [->|Hne].
  - rewrite lookup_alter_eq. destruct (w_runners w !! q) as [rn|]; [|done]. simpl.
    destruct (Hf rn) as (-> & -> & ->). done.
  - by rewrite lookup_alter_ne.
Qed.

(** Opening the session of [r]. *)
Lemma start_session_spec n r w :
  is_Some (w_runners w !! r) -> (n <= r)%nat ->
  let w' := (with_runner r (in_session true) w).2 in
  session_only r w w' /\ session w' r = true /\ old n w w' /\ w_fresh w' = w_fresh w
  /\ identity w' r = identity w r.
Proof.
  intros [rn Hr] Hn. simpl.
  assert (forall q, session (set_runners (alter (in_session true) r (w_runners w)) w) q
    = if decide (r = q) then true else session w q) as Hs.
  { intros q. rewrite session_alter. case_decide; [subst; by rewrite Hr|done]. }
  split_and!; [split; [done| |done]| | |done|by apply identity_alter].
  - intros q. rewrite Hs. case_decide; [by right|by left].
  - rewrite Hs. by rewrite decide_True.
  - intros _. split_and!; [done|done|]. intros q Hq. rewrite Hs, decide_False by lia.
    split; [done|by apply identity_alter].
Qed.

Lemma BeginReconciliation_spec n r w :
  (r < w_fresh w)%nat -> (n <= r)%nat -> is_Some (identity w r) ->
  let '(e, w') := BeginReconciliation r w in
  old n w w' /\ (w_fresh w <= w_fresh w')%nat /\
  match e with
  | Some _ => nothing_opened w w'
  | None => session_only r w w' /\ session w' r = true /\ identity w' r = identity w r
  end.
Proof.
  intros Hr Hn Hid. unfold BeginReconciliation. rewrite M_get_bind.
  fold (session w r). destruct (session w r).
  { simpl. split_and!; [reflexivity|done|reflexivity]. }
  rewrite bind_run. pose proof (calm_next_reply w) as Hc. destruct (next_reply w) as [rp w1].
  simpl in Hc. rewrite bind_run.
  set (w2 := (log (ERunner r MBeginReconciliation (rp_err (rp, w1).1)) (rp, w1).2).2).
  assert (calmly w w2) as Hc2 by (etrans; [exact Hc|by apply calmly_same]).
  cbn [fst] in *. clearbody w2. clear Hc w1.
  assert (forall w3, calmly w w3 ->
    let w' := (with_runner r (in_session true) w3).2 in
    old n w w' /\ (w_fresh w <= w_fresh w')%nat /\
    session_only r w w' /\ session w' r = true /\ identity w' r = identity w r) as Hstart.
  { intros w3 Hc3. destruct (calm_old _ _ Hc3 r Hr) as [_ Hi3].
    destruct (start_session_spec n r w3) as (Ho & Ht & Hold & Hfr & Hi); [|done|].
    { unfold identity in *. rewrite <- Hi3 in Hid. destruct (w_runners w3 !! r); [eauto|].
      by destruct Hid. }
    split_and!.
    - etrans; [by apply calmly_old|done].
    - rewrite Hfr. apply (calm_fresh _ _ Hc3).
    - eapply session_only_after; [by apply calmly_nothing|done].
    - done.
    - by rewrite Hi. }
  destruct (rp_err rp) as [e|]; [destruct (errors_Is e _)|].
  - rewrite bind_run, bind_run. apply Hstart. etrans; [exact Hc2|]. by apply calmly_runner.
  - simpl. split_and!; [by apply calmly_old|apply (calm_fresh _ _ Hc2)|by apply calmly_nothing].
  - rewrite bind_run. by apply Hstart.
Qed.

(** ** Inspecting one process *)

(** The process is fenced: its live supervisor answers on a session of the daemon,
    or the daemon holds its lifetime lock. *)
Definition live_fence (machine : MachineStore) (process : Process) (w : World) (r : nat) : Prop :=
  (r < w_fresh w)%nat /\ session w r = true /\ exists endpoint,
    ControlEndpointPath machine (p_ProcessID process) = inr endpoint
    /\ identity w r = Some (endpoint, p_SupervisorToken process, p_SupervisorInstanceID process).

Definition stopped_fence (machine : MachineStore) (process : Process) (w : World) (h : nat) : Prop :=
  (h < w_fresh w)%nat /\ exists path,
    LifetimeLockPath machine (p_ProcessID process) = inr path
    /\ w_locks w !! h = Some (mkLock true path).

Definition inspected (machine : MachineStore) (process : Process) (w : World)
    (r : error + (option nat * option nat * bool)) (w' : World) : Prop :=
  old (w_fresh w) w w' /\
  match r with
  | inl _ => nothing_opened w w'
  | inr (Some r, None, true) => session_only r w w' /\ live_fence machine process w' r
  | inr (None, Some h, false) => opened_only h w w' /\ stopped_fence machine process w' h
  | inr _ => False
  end.

Lemma inspected_after machine process w w1 r w' :
  old (w_fresh w) w w1 -> nothing_opened w w1 -> inspected machine process w1 r w' ->
  inspected machine process w r w'.
Proof.
  intros Ho Hn [Ho' H]. split.
  - destruct (Ho (Nat.le_refl _)) as (Hf & HL & HS). etrans; [exact Ho|]. intros Hle.
    destruct (Ho' (Nat.le_refl _)) as (Hf' & HL' & HS').
    split_and!; [done| |]; intros; [apply HL'|apply HS']; lia.
  - destruct r as [e|[[[r|] [h|]] []]]; try done.
    + by etrans.
    + destruct H as [H1 H2]. split; [by eapply session_only_after|done].
    + destruct H as [H1 H2]. split; [by eapply opened_after|done].
Qed.

Lemma inspected_error machine process w e : inspected machine process w (inl e) w.
Proof. split; simpl; reflexivity. Qed.

(** A program that opens nothing and fails. *)
Lemma inspected_calm machine process w e w' :
  calmly w w' -> inspected machine process w (inl e) w'.
Proof. intros H. split; [by apply calmly_old|by apply calmly_nothing]. Qed.

Lemma probe_supervisor_spec machine path process w :
  let '(r, w') := probe_supervisor machine path process w in
  inspected machine process w r w'.
Proof.
  unfold probe_supervisor, or_raise. rewrite bind_run.
  destruct (ControlEndpointPath machine (p_ProcessID process)) as [msg|endpoint] eqn:Hep; simpl.
  { apply inspected_error. }
  rewrite bind_run.
  pose proof (new_runner_spec (mkRunner endpoint (p_SupervisorToken process)
    (p_SupervisorInstanceID process) false false false) w eq_refl) as Hn.
  destruct (new_runner _ w) as [r w1]. destruct Hn as (Hc & Hr & Hlt & _ & Hid). cbn [fst snd].
  rewrite bind_run.
  pose proof (BeginReconciliation_spec (w_fresh w) r w1 Hlt) as Hb.
  destruct (BeginReconciliation r w1) as [e w2].
  destruct Hb as (Hold & Hfr & Hb); [lia|by rewrite Hid|]. cbn [fst snd].
  assert (old (w_fresh w) w w2) as Hold2 by (etrans; [by apply calmly_old|done]).
  destruct e as [e|].
  2: { simpl. split; [done|]. destruct Hb as (Hs & Ht & Hi).
       split; [eapply session_only_after; [by apply calmly_nothing|done]|].
       split; [lia|]. split; [done|]. exists endpoint. by rewrite Hi, Hid. }
  assert (nothing_opened w w2) as Hno by (etrans; [by apply calmly_nothing|done]).
  destruct (errors_Is e SRunnerIdentityMismatch); [done|]. rewrite bind_run.
  pose proof (TryAcquire_spec path w2) as Ht. destruct (TryAcquire path w2) as [[e'|h] w3];
    destruct Ht as [Hold3 Ht]; cbn [fst snd].
  - assert (old (w_fresh w) w w3 /\ nothing_opened w w3) as [H1 H2].
    { split; [|by etrans]. etrans; [exact Hold2|]. intros Hle.
      destruct (Hold3 (Nat.le_refl _)) as (F & L & S). split_and!; [done|..]; intros; [apply L|apply S]; lia. }
    destruct (errors_Is e' SNotExist); [|destruct (errors_Is e' SLockHeld)]; by split.
  - destruct Ht as (Hopen & Hh & _).
    pose proof (old_Release (w_fresh w) h) as Hrel. destruct (Hold2 (Nat.le_refl _)) as (F2 & _).
    specialize (Hrel ltac:(lia) w3). destruct (Release_spec h w3) as [Hn3 Hcl].
    rewrite bind_run. destruct (Release h w3) as [e3 w4]. simpl in *. split.
    + etrans; [exact Hold2|]. etrans; [|exact Hrel]. intros Hle.
      destruct (Hold3 (Nat.le_refl _)) as (F & L & S). split_and!; [done|..]; intros; [apply L|apply S]; lia.
    + etrans; [exact Hno|]. eapply opened_closed; [|exact Hcl]. by eapply opened_before.
Qed.

Lemma inspect_missing_lock_spec machine path process w :
  LifetimeLockPath machine (p_ProcessID process) = inr path ->
  let '(r, w') := inspect_missing_lock path process w in
  inspected machine process w r w'.
Proof.
  intros Hpath. unfold inspect_missing_lock.
  match goal with |- context [if ?b then _ else _] => destruct b end.
  - unfold or_raise. rewrite bind_run.
    assert (along calmly (currentLocalProcessState (p_ProcessID process))) as Hc
      by (unfold currentLocalProcessState; along_walk).
    specialize (Hc w). destruct (currentLocalProcessState _ w) as [[e|[current|]] w1]; simpl in *.
    + by apply inspected_calm.
    + match goal with |- context [if ?b then mret _ else _] => destruct b end; by apply inspected_calm.
    + by apply inspected_calm.
  - unfold or_raise. rewrite bind_run. pose proof (TryAcquire_spec path w) as Ht.
    destruct (TryAcquire path w) as [[e|h] w1]; simpl in *; destruct Ht as [Hold Ht]; [by split|].
    destruct Ht as (Ho & Hh & Hl). split; [done|]. split; [done|]. split; [lia|]. by exists path.
Qed.

Lemma inspectLocalSupervisor_spec machine process w :
  inspected machine process w (inspectLocalSupervisor machine process w).1
    (inspectLocalSupervisor machine process w).2.
Proof.
  unfold inspectLocalSupervisor, or_raise. rewrite bind_run.
  destruct (LifetimeLockPath machine (p_ProcessID process)) as [msg|path] eqn:Hpath; simpl;
    [apply inspected_error|].
  rewrite bind_run. pose proof (TryAcquire_spec path w) as Ht.
  destruct (TryAcquire path w) as [[e|h] w1]; simpl in *; destruct Ht as [Hold Ht].
  - destruct (errors_Is e SLockHeld); [|destruct (errors_Is e SNotExist)].
    + pose proof (probe_supervisor_spec machine path process w1) as Hp.
      destruct (probe_supervisor machine path process w1). by eapply inspected_after.
    + pose proof (inspect_missing_lock_spec machine path process w1 Hpath) as Hp.
      destruct (inspect_missing_lock path process w1). by eapply inspected_after.
    + by split.
  - destruct Ht as (Ho & Hh & Hl). split; [done|]. split; [done|]. split; [lia|]. by exists path.
Qed.

(** ** All processes *)

Lemma old_weaken n n' w w' : (n <= n')%nat -> (n' <= w_fresh w)%nat -> old n' w w' -> old n w w'.
Proof.
  intros Hn Hw H _. destruct (H Hw) as (F & L & S). split_and!; [done|..]; intros; [apply L|apply S]; lia.
Qed.

Lemma live_fence_old machine process w w' r :
  old (w_fresh w) w w' -> live_fence machine process w r -> live_fence machine process w' r.
Proof.
  intros H (Hr & Hs & Hi). destruct (H (Nat.le_refl _)) as (F & _ & S).
  destruct (S r Hr) as [S1 S2]. split; [lia|]. by rewrite S1, S2.
Qed.

Lemma stopped_fence_old machine process w w' h :
  old (w_fresh w) w w' -> stopped_fence machine process w h -> stopped_fence machine process w' h.
Proof.
  intros H (Hh & path & Hp & Hl). destruct (H (Nat.le_refl _)) as (F & L & _).
  split; [lia|]. exists path. by rewrite L.
Qed.

(** Where the startup state records the fence of a process. *)
Definition fenced (machine : MachineStore) (w : World) (process : Process) : Prop :=
  let s := w_startup w in
  let pid := p_ProcessID process in
  (exists r, is_Some (su_Runners s !! pid) /\ su_fencedRunners s !! pid = Some r
     /\ live_fence machine process w r)
  \/ (exists h, su_Runners s !! pid = None /\ su_stoppedLocks s !! pid = Some h
     /\ stopped_fence machine process w h).

Definition only_recorded (ids : list string) (w : World) : Prop :=
  forall pid, pid ∉ ids ->
    su_Runners (w_startup w) !! pid = None /\ su_fencedRunners (w_startup w) !! pid = None
    /\ su_stoppedLocks (w_startup w) !! pid = None.

Record scanned (machine : MachineStore) (w0 : World) (done : list Process) (w : World) : Prop := {
  sc_tracked : tracked w0 w;
  sc_only : only_recorded (p_ProcessID <$> done) w;
  sc_fenced p : p ∈ done -> fenced machine w p
}.

(** A fence recorded earlier survives a step that keeps old objects and its entries. *)
Lemma fenced_kept machine w w' process :
  old (w_fresh w) w w' ->
  su_Runners (w_startup w') !! p_ProcessID process = su_Runners (w_startup w) !! p_ProcessID process ->
  su_fencedRunners (w_startup w') !! p_ProcessID process
    = su_fencedRunners (w_startup w) !! p_ProcessID process ->
  su_stoppedLocks (w_startup w') !! p_ProcessID process
    = su_stoppedLocks (w_startup w) !! p_ProcessID process ->
  fenced machine w process -> fenced machine w' process.
Proof.
  intros Ho H1 H2 H3 [(r & ? & ? & Hf)|(h & ? & ? & Hf)].
  - left. exists r. rewrite H1, H2. eauto using live_fence_old.
  - right. exists h. rewrite H1, H3. eauto using stopped_fence_old.
Qed.

Lemma not_in_done (process : Process) (l : list Process) q :
  p_ProcessID process ∉ p_ProcessID <$> l -> q ∈ l -> p_ProcessID process <> p_ProcessID q.
Proof. intros Hnew Hq E. apply Hnew. rewrite E. by apply list_elem_of_fmap_2. Qed.

Lemma only_recorded_app l process w w' :
  only_recorded (p_ProcessID <$> l) w ->
  (forall pid, pid <> p_ProcessID process ->
     su_Runners (w_startup w') !! pid = su_Runners (w_startup w) !! pid
     /\ su_fencedRunners (w_startup w') !! pid = su_fencedRunners (w_startup w) !! pid
     /\ su_stoppedLocks (w_startup w') !! pid = su_stoppedLocks (w_startup w) !! pid) ->
  only_recorded (p_ProcessID <$> (l ++ [process])) w'.
Proof.
  intros H Hsame pid Hpid. rewrite fmap_app, not_elem_of_app in Hpid. destruct Hpid as [Hp1 Hp2].
  simpl in Hp2. rewrite list_elem_of_singleton in Hp2.
  destruct (Hsame pid Hp2) as (-> & -> & ->). by apply H.
Qed.

(** The step that records the fence of one more process. *)
Lemma scanned_snoc machine w0 l process w w' :
  scanned machine w0 l w -> p_ProcessID process ∉ p_ProcessID <$> l ->
  old (w_fresh w) w w' ->
  (forall pid, pid <> p_ProcessID process ->
     su_Runners (w_startup w') !! pid = su_Runners (w_startup w) !! pid
     /\ su_fencedRunners (w_startup w') !! pid = su_fencedRunners (w_startup w) !! pid
     /\ su_stoppedLocks (w_startup w') !! pid = su_stoppedLocks (w_startup w) !! pid) ->
  tracked w0 w' -> fenced machine w' process ->
  scanned machine w0 (l ++ [process]) w'.
Proof.
  intros [HT HO HF] Hnew Hold Hsame HT' Hp. split; [done|by eapply only_recorded_app|].
  intros q [Hq|Hq]%elem_of_app; [|by apply list_elem_of_singleton in Hq as ->].
  destruct (Hsame (p_ProcessID q)) as (? & ? & ?); [by apply not_eq_sym, (not_in_done _ l)|].
  eapply fenced_kept; eauto.
Qed.

Lemma inspect_one_spec machine w0 l process w :
  scanned machine w0 l w -> p_ProcessID process ∉ p_ProcessID <$> l ->
  let '(e, w') := inspect_one machine process w in
  match e with
  | Some _ => tracked w0 w'
  | None => scanned machine w0 (l ++ [process]) w'
  end.
Proof.
  intros Hsc Hnew. unfold inspect_one, or_raise. rewrite bind_run.
  destruct (inspectLocalSupervisor_spec machine process w) as [Hold Hr].
  destruct (sc_only _ _ _ _ Hsc _ Hnew) as (N1 & N2 & N3).
  destruct (sc_tracked _ _ _ _ Hsc) as [TL TS].
  destruct (inspectLocalSupervisor machine process w) as [[e|[[[r|] [h|]] []]] w1]; simpl in *; try done.
  - by eapply nothing_keeps_tracked.
  - destruct Hr as [[RL RS RU] Hfence]. eapply scanned_snoc; [done|done|..].
    + intros Hle. destruct (Hold Hle) as (F & L & S). by split_and!; [simpl; lia|..].
    + intros pid Hpid. simpl. by rewrite RU, !lookup_insert_ne.
    + split; simpl; rewrite RU.
      * intros g Hg. by apply TL, RL.
      * intros q Hq. destruct (RS q Hq) as [Hq'| ->]; [|right; eexists; apply lookup_insert_eq].
        destruct (TS q Hq') as [?|[pid Hp]]; [by left|right].
        exists pid. rewrite lookup_insert_ne; [done|]. congruence.
    + left. exists r. simpl. rewrite !lookup_insert_eq. split_and!; [done|done|].
      destruct Hfence as (? & ? & ?). split; [simpl; lia|]. done.
  - destruct Hr as [[RL RS RU] Hfence]. eapply scanned_snoc; [done|done|done|..].
    + intros pid Hpid. simpl. by rewrite RU, !lookup_insert_ne.
    + split; simpl; rewrite RU.
      * intros g Hg. destruct (RL g Hg) as [Hg'| ->]; [|right; eexists; apply lookup_insert_eq].
        destruct (TL g Hg') as [?|[pid Hp]]; [by left|right].
        exists pid. rewrite lookup_insert_ne; [done|]. congruence.
      * intros q Hq. by apply TS, RS.
    + right. exists h. simpl. rewrite lookup_insert_eq, RU. done.
Qed.

Lemma inspect_all_spec machine w0 l l' w :
  scanned machine w0 l w -> NoDup (p_ProcessID <$> (l ++ l')) ->
  let '(e, w') := each (inspect_one machine) l' w in
  match e with
  | Some _ => tracked w0 w'
  | None => scanned machine w0 (l ++ l') w'
  end.
Proof.
  revert l w. induction l' as [|p l' IH]; intros l w Hsc Hnd; simpl.
  { by rewrite List.app_nil_r. }
  unfold check_raise. rewrite bind_run.
  assert (p_ProcessID p ∉ p_ProcessID <$> l) as Hp.
  { rewrite fmap_app, NoDup_app in Hnd. destruct Hnd as (_ & Hd & _). intros Hin.
    apply (Hd _ Hin). simpl. left. }
  pose proof (inspect_one_spec machine w0 l p w Hsc Hp) as H1.
  destruct (inspect_one machine p w) as [[e|] w1]; simpl; [done|].
  specialize (IH (l ++ [p]) w1 H1). rewrite <- List.app_assoc in IH. by apply IH.
Qed.

Lemma inspect_one_claims machine process w :
  su_Claims (w_startup (inspect_one machine process w).2) = su_Claims (w_startup w).
Proof.
  unfold inspect_one, or_raise. rewrite bind_run.
  destruct (inspectLocalSupervisor_spec machine process w) as [_ Hr].
  destruct (inspectLocalSupervisor machine process w) as [[e|[[[r|] [h|]] []]] w1]; simpl in *; try done.
  - by rewrite (no_startup _ _ Hr).
  - by rewrite (so_startup _ _ _ (proj1 Hr)).
  - by rewrite (only_startup _ _ _ (proj1 Hr)).
Qed.

Lemma inspect_all_claims machine l w :
  su_Claims (w_startup (each (inspect_one machine) l w).2) = su_Claims (w_startup w).
Proof.
  revert w. induction l as [|p l IH]; intros w; simpl; [done|]. unfold check_raise. rewrite bind_run.
  rewrite <- (inspect_one_claims machine p w).
  destruct (inspect_one machine p w) as [[e|] w1]; simpl; [done|apply IH].
Qed.

(** ** Claims *)

(** Steps that keep every fence and only touch the claims and the forced reports. *)
Record kept (w w' : World) : Prop := {
  kp_old : old (w_fresh w) w w';
  kp_nothing h : is_open w' h -> is_open w h;
  kp_session r : session w' r = true -> session w r = true;
  kp_runners : su_Runners (w_startup w') = su_Runners (w_startup w);
  kp_fenced : su_fencedRunners (w_startup w') = su_fencedRunners (w_startup w);
  kp_stopped : su_stoppedLocks (w_startup w') = su_stoppedLocks (w_startup w)
}.

Global Instance kept_preorder : PreOrder kept.
Proof.
  split; [by split|]. intros w1 w2 w3 [O1 N1 S1 R1 F1 T1] [O2 N2 S2 R2 F2 T2].
  split; try congruence; try by auto.
  destruct (O1 (Nat.le_refl _)) as (Hf & _). etrans; [done|]. by apply (old_weaken _ (w_fresh w2)).
Qed.

Lemma calmly_kept w w' : calmly w w' -> kept w w'.
Proof.
  intros H. pose proof (calm_startup _ _ H) as Hs. destruct (calmly_nothing _ _ H) as [NL NS _].
  split; try done; try (by rewrite Hs). by apply calmly_old.
Qed.

Lemma kept_startup w f :
  (forall s, su_Runners (f s) = su_Runners s /\ su_fencedRunners (f s) = su_fencedRunners s
     /\ su_stoppedLocks (f s) = su_stoppedLocks s) -> kept w (set_startup (f (w_startup w)) w).
Proof. intros H. destruct (H (w_startup w)) as (?&?&?). by split. Qed.

Lemma scanned_kept machine w0 l w w' : scanned machine w0 l w -> kept w w' -> scanned machine w0 l w'.
Proof.
  intros [[TL TS] HO HF] [KO KN KS KR KF KT]. split.
  - split; rewrite ?KF, ?KT; auto.
  - intros pid Hp. rewrite KR, KF, KT. by apply HO.
  - intros p Hp. eapply fenced_kept; [exact KO|..|by apply HF]; by rewrite ?KR, ?KF, ?KT.
Qed.

Definition claim_of (runners : gmap string nat) (local : ProcessSnapshot)
    : error + ProcessReconciliationClaim :=
  let process := ps_Process local in
  match claim_actions (ps_Actions local) with
  | inl e => inl e
  | inr actions =>
      inr (mkClaim (p_ProcessID process) (p_SupervisorInstanceID process) (p_Phase process)
             (bool_decide (is_Some (runners !! p_ProcessID process)))
             (p_ExecCommitted process) (p_ActionAdmissionClosed process)
             (p_ResolvedActionSeq process) actions)
  end.

Lemma claim_one_spec local w :
  let '(e, w') := claim_one local w in
  kept w w' /\
  match e with
  | Some _ => True
  | None => exists c, claim_of (su_Runners (w_startup w)) local = inr c
      /\ su_Claims (w_startup w') = su_Claims (w_startup w) ++ [c]
  end.
Proof.
  unfold claim_one, claim_of. rewrite M_get_bind. cbv zeta. rewrite bind_run.
  set (w1 := (on_startup _ w).2).
  assert (kept w w1 /\ su_Claims (w_startup w1) = su_Claims (w_startup w)) as [Hk Hcl].
  { split; [by apply kept_startup|done]. }
  clearbody w1. destruct (claim_actions (ps_Actions local)) as [e|actions]; simpl; [done|].
  split.
  - etrans; [exact Hk|]. by apply kept_startup.
  - eexists. split; [done|]. by rewrite Hcl.
Qed.

Lemma claim_all_spec l w :
  let '(e, w') := each claim_one l w in
  kept w w' /\
  match e with
  | Some _ => True
  | None => exists cs, Forall2 (fun local c => claim_of (su_Runners (w_startup w)) local = inr c) l cs
      /\ su_Claims (w_startup w') = su_Claims (w_startup w) ++ cs
  end.
Proof.
  revert w. induction l as [|local l IH]; intros w; simpl.
  { split; [reflexivity|]. exists []. by rewrite List.app_nil_r. }
  unfold check_raise. rewrite bind_run. pose proof (claim_one_spec local w) as H1.
  destruct (claim_one local w) as [[e|] w1]; destruct H1 as [Hk1 H1]; simpl; [done|].
  destruct H1 as (c & Hc & Hcl). specialize (IH w1). destruct (each claim_one l w1) as [e w2].
  destruct IH as [Hk2 IH]. split; [by etrans|]. destruct e; [done|].
  destruct IH as (cs & Hcs & Hcl2). exists (c :: cs). split.
  - constructor; [done|]. by rewrite (kp_runners _ _ Hk1) in Hcs.
  - rewrite Hcl2, Hcl. by rewrite <- List.app_assoc.
Qed.

(** What a claim sent to the server rests on. *)
Definition claim_fenced (machine : MachineStore) (w : World) (c : ProcessReconciliationClaim) : Prop :=
  let pid := cl_ProcessID c in
  if cl_SupervisorLive c then
    exists r endpoint token,
      su_fencedRunners (w_startup w) !! pid = Some r /\ session w r = true
      /\ ControlEndpointPath machine pid = inr endpoint
      /\ identity w r = Some (endpoint, token, cl_SupervisorInstanceID c)
  else
    exists h path,
      su_stoppedLocks (w_startup w) !! pid = Some h
      /\ LifetimeLockPath machine pid = inr path /\ w_locks w !! h = Some (mkLock true path).

Definition claims_fenced (machine : MachineStore) (w : World) : Prop :=
  Sorted claim_le (su_Claims (w_startup w))
  /\ NoDup (cl_ProcessID <$> su_Claims (w_startup w))
  /\ forall c, c ∈ su_Claims (w_startup w) -> claim_fenced machine w c.

Lemma claim_le_total : Total claim_le.
Proof. intros a b. unfold claim_le. apply (total String.le). Qed.

Lemma same_identities l l' :
  length l' = length l -> forallb (fun ba => sameSupervisorIdentity ba.1 ba.2) (zip l l') = true ->
  Forall2 (fun p q => p_ProcessID p = p_ProcessID q
                      /\ p_SupervisorInstanceID p = p_SupervisorInstanceID q) l l'.
Proof.
  revert l'. induction l as [|p l IH]; intros [|q l'] Hlen H; simpl in *; try done.
  unfold sameSupervisorIdentity in H. simpl in H. bsimpl. constructor; [done|]. apply IH; [lia|done].
Qed.

Lemma claim_of_inv runners local c :
  claim_of runners local = inr c ->
  cl_ProcessID c = p_ProcessID (ps_Process local)
  /\ cl_SupervisorInstanceID c = p_SupervisorInstanceID (ps_Process local)
  /\ cl_SupervisorLive c = bool_decide (is_Some (runners !! cl_ProcessID c)).
Proof. unfold claim_of. case_match; intros; by simplify_eq/=. Qed.

Lemma claims_rest_on_fences machine w0 w l snapshot cs :
  scanned machine w0 l w -> NoDup (p_ProcessID <$> l) ->
  Forall2 (fun p q => p_ProcessID p = p_ProcessID q
             /\ p_SupervisorInstanceID p = p_SupervisorInstanceID q) l (ps_Process <$> snapshot) ->
  Forall2 (fun local c => claim_of (su_Runners (w_startup w)) local = inr c) snapshot cs ->
  NoDup (cl_ProcessID <$> cs) /\ forall c, c ∈ cs -> claim_fenced machine w c.
Proof.
  intros Hsc Hnd Hid Hcs.
  assert (Forall2 (fun p c => cl_ProcessID c = p_ProcessID p
    /\ cl_SupervisorInstanceID c = p_SupervisorInstanceID p
    /\ cl_SupervisorLive c = bool_decide (is_Some (su_Runners (w_startup w) !! cl_ProcessID c))) l cs)
    as Hlc.
  { rewrite Forall2_fmap_r in Hid. clear Hnd Hsc. revert cs Hcs.
    induction Hid as [|p local l snapshot [Hp Hi] Hid IH]; intros cs Hcs; inversion Hcs; subst;
      constructor; [|by apply IH].
    match goal with H : claim_of _ _ = _ |- _ => apply claim_of_inv in H as (? & ? & ?) end.
    split_and!; congruence. }
  split.
  - replace (cl_ProcessID <$> cs) with (p_ProcessID <$> l); [done|].
    clear -Hlc. induction Hlc as [|p c l cs (E & _) _ IH]; [done|]. csimpl. by rewrite E, IH.
  - intros c Hc. apply list_elem_of_lookup in Hc as [i Hi].
    destruct (Forall2_lookup_r _ _ _ _ _ Hlc Hi) as (p & Hp & Hpid & Hinst & Hlive).
    apply list_elem_of_lookup_2 in Hp. unfold claim_fenced. rewrite Hlive, Hpid, Hinst.
    destruct (sc_fenced _ _ _ _ Hsc p Hp)
      as [(r & Hr & Hfr & _ & Hs & ep & He & Hident)|(h & Hr & Hst & _ & path & Hpath & Hl)].
    + rewrite bool_decide_eq_true_2 by done. by exists r, ep, (p_SupervisorToken p).
    + rewrite bool_decide_eq_false_2 by (rewrite Hr; apply is_Some_None). by exists h, path.
Qed.

(** The end of the scan: probing the fenced supervisors once more, sorting. *)
Lemma finish_scan_spec machine w0 w l snapshot :
  scanned machine w0 l w -> NoDup (p_ProcessID <$> l) ->
  Forall2 (fun p q => p_ProcessID p = p_ProcessID q
             /\ p_SupervisorInstanceID p = p_SupervisorInstanceID q) l (ps_Process <$> snapshot) ->
  Forall2 (fun local c => claim_of (su_Runners (w_startup w)) local = inr c) snapshot
    (su_Claims (w_startup w)) ->
  let '(e, w') :=
    (fenced ← range (fun w => su_fencedRunners (w_startup w));
     must each status_one fenced;
     on_startup (with_claims (merge_sort claim_le));;
     mret (None : option error)) w in
  tracked w0 w' /\ (e = None -> claims_fenced machine w').
Proof.
  intros Hsc Hnd Hids Hcs. rewrite bind_run.
  pose proof (calm_range (fun w => su_fencedRunners (w_startup w)) w) as Hc1.
  destruct (range _ w) as [entries w1]. simpl in *. unfold check_raise. rewrite bind_run.
  assert (along calmly (each status_one entries)) as Hc2 by (unfold status_one; along_walk).
  specialize (Hc2 w1). destruct (each status_one entries w1) as [e w2]. simpl in *.
  assert (calmly w w2) as Hc by by etrans. clear Hc1 Hc2 w1.
  pose proof (scanned_kept _ _ _ _ _ Hsc (calmly_kept _ _ Hc)) as Hsc2.
  destruct e as [e|]; simpl; [by split; [apply Hsc2|]|].
  pose proof (scanned_kept _ _ _ w2 _ Hsc2
    (kept_startup w2 (with_claims (merge_sort claim_le)) ltac:(done))) as Hsc3.
  split; [apply Hsc3|]. intros _. rewrite <- (calm_startup _ _ Hc) in Hcs.
  destruct (claims_rest_on_fences _ _ _ _ _ _ Hsc3 Hnd Hids Hcs) as [Hnd2 Hfen].
  unfold claims_fenced. simpl. split_and!.
  - apply Sorted_merge_sort. intros a b. apply claim_le_total.
  - by rewrite merge_sort_Permutation.
  - intros c Hcin. apply Hfen. by rewrite merge_sort_Permutation in Hcin.
Qed.

Lemma scan_processes_spec machine w0 processes w :
  scanned machine w0 [] w -> su_Claims (w_startup w) = [] -> NoDup (p_ProcessID <$> processes) ->
  let '(e, w') := scan_processes machine processes w in
  tracked w0 w' /\ (e = None -> claims_fenced machine w').
Proof.
  intros Hsc Hcl Hnd. unfold scan_processes, check_raise at 1. rewrite bind_run.
  pose proof (inspect_all_spec machine w0 [] processes w Hsc Hnd) as H1.
  pose proof (inspect_all_claims machine processes w) as Hcl1. rewrite Hcl in Hcl1.
  destruct (each (inspect_one machine) processes w) as [[e|] w1]; simpl in *; [done|].
  unfold or_raise at 1. rewrite bind_run. pose proof (calm_db_read SnapshotForReconciliation w1) as Hc.
  destruct (db_read SnapshotForReconciliation w1) as [[e|snapshot] w2]; simpl in *;
    (eapply scanned_kept in H1; [|by apply calmly_kept]); [by split; [apply H1|]|].
  rewrite <- (calm_startup _ _ Hc) in Hcl1. clear Hc w1.
  destruct (length snapshot =? length processes)%nat eqn:Hlen; simpl; [|by split; [apply H1|]].
  destruct (forallb _ _) eqn:Hids; simpl; [|by split; [apply H1|]].
  apply Nat.eqb_eq in Hlen. apply same_identities in Hids; [|by rewrite length_fmap].
  unfold check_raise at 1. rewrite bind_run. pose proof (claim_all_spec snapshot w2) as H2.
  destruct (each claim_one snapshot w2) as [[e|] w3]; simpl in *; destruct H2 as [Hk H2];
    (eapply scanned_kept in H1; [|exact Hk]); [by split; [apply H1|]|].
  destruct H2 as (cs & Hcs & Hcl2). rewrite Hcl1 in Hcl2. simpl in Hcl2.
  rewrite <- (kp_runners _ _ Hk), <- Hcl2 in Hcs. by eapply finish_scan_spec.
Qed.

(** ** The registration *)

(** What a read returns is what the database said at that moment. *)
Lemma db_read_value {A} (op : Op A) w a :
  (db_read op w).1 = inr a -> exists f, (op f (w_db (db_read op w).2)).1 = inr a.
Proof.
  unfold db_read. rewrite bind_run. destruct (next_reply w) as [rp w1]. simpl.
  destruct (op (rp_faults rp) (w_db w1)) as [[e|x] db] eqn:E; simpl; [done|].
  intros [= ->]. exists (rp_faults rp). by rewrite E.
Qed.

(** The world in which a registration can start. *)
Definition registrable (m : MachineStore) (w : World) : Prop :=
  machine_of w = inr m /\ db_ok (w_db w).

Lemma evolves_registrable m w w' : evolves m w w' -> registrable m w -> registrable m w'.
Proof.
  intros H [Hm Hok]. destruct (H Hm) as (l & (Hm' & _ & Hr) & _). split; [done|].
  by eapply runs_ok.
Qed.

Lemma read_processes_nodup m w processes :
  registrable m w -> (db_read Store_Processes w).1 = inr processes ->
  NoDup (p_ProcessID <$> processes).
Proof.
  intros Hreg H. apply db_read_value in H as [f Hf].
  assert (registrable m (db_read Store_Processes w).2) as [_ Hok].
  { eapply evolves_registrable; [apply along_db_read|done]. }
  unfold Store_Processes, read_op in Hf. simpl in Hf. apply query_fst in Hf as ->.
  by apply ListProcesses_NoDup.
Qed.

Lemma tracked_fresh_startup w0 w : settled w0 w -> tracked w0 (set_startup startup_empty w).
Proof. intros [HL HS]. split; simpl; auto. Qed.

Lemma scan_once_spec m w0 w :
  registrable m w -> settled w0 w ->
  let '(e, w') := scanLocalProcessesForRegistrationOnce w in
  match e with
  | Some _ => settled w0 w'
  | None => tracked w0 w' /\ claims_fenced m w'
  end.
Proof.
  intros Hreg Hset. unfold scanLocalProcessesForRegistrationOnce. rewrite bind_run. simpl.
  set (w1 := set_startup startup_empty w).
  assert (settled w0 w1) as Hset1 by exact Hset.
  assert (scanned m w0 [] w1) as Hsc.
  { split; [by apply tracked_fresh_startup|done|]. intros p Hp. by apply not_elem_of_nil in Hp. }
  assert (su_Claims (w_startup w1) = []) as Hcl by done.
  assert (registrable m w1) as Hreg1 by exact Hreg. clearbody w1. clear Hreg Hset w.
  unfold check_raise at 1. rewrite bind_run. pose proof (calm_stateStore w1) as Hc.
  pose proof (along_stateStore m w1) as He. destruct (stateStore w1) as [[e|] w2]; simpl in *;
    pose proof (settled_nothing _ _ _ Hset1 (calmly_nothing _ _ Hc)) as Hset2; [done|].
  apply evolves_registrable in He; [|done].
  unfold or_raise at 1. rewrite bind_run. pose proof (calm_db_read Store_Processes w2) as Hc2.
  pose proof (fun l => read_processes_nodup m w2 l He) as Hnd.
  pose proof (along_db_read m Store_Processes w2) as He2.
  destruct (db_read Store_Processes w2) as [[e|processes] w3]; simpl in *;
    pose proof (settled_nothing _ _ _ Hset2 (calmly_nothing _ _ Hc2)) as Hset3; [done|].
  apply evolves_registrable in He2; [|done]. specialize (Hnd _ eq_refl).
  assert (calmly w1 w3) as Hc3 by by etrans.
  pose proof (scanned_kept _ _ _ _ _ Hsc (calmly_kept _ _ Hc3)) as Hsc3.
  rewrite <- (calm_startup _ _ Hc3) in Hcl.
  unfold or_raise. rewrite bind_run. destruct He2 as [Hm _]. unfold machine_of in Hm.
  change (machineStore w3).2 with w3. rewrite Hm. rewrite bind_run.
  pose proof (scan_processes_spec m w0 processes w3 Hsc3 Hcl Hnd) as Hs.
  destruct (scan_processes m processes w3) as [[e|] w4]; simpl; destruct Hs as [Ht Hf].
  - rewrite bind_run. simpl. by apply releases_settle.
  - auto.
Qed.

Lemma scan_loop_spec m w0 n w :
  registrable m w -> settled w0 w ->
  let '(e, w') := scan_loop n w in
  registrable m w' /\
  match e with
  | Some _ => settled w0 w'
  | None => tracked w0 w' /\ claims_fenced m w'
  end.
Proof.
  revert w. induction n as [|n IH]; intros w Hreg Hset; simpl; rewrite bind_run;
    pose proof (scan_once_spec m w0 w Hreg Hset) as H;
    pose proof (evolves_registrable _ _ _ (evolves_scan_once m w) Hreg) as Hreg1;
    destruct (scanLocalProcessesForRegistrationOnce w) as [[e|] w1]; simpl in *; try done;
    destruct (errors_Is e SLocalStateChanged || errors_Is e SProbeUnavailable); try done.
  by apply IH.
Qed.

Lemma settled_calm w0 w w' : settled w0 w -> calmly w w' -> settled w0 w'.
Proof. intros Hs Hc. eapply settled_nothing; [done|by apply calmly_nothing]. Qed.

Lemma scan_spec m w0 w :
  registrable m w -> settled w0 w ->
  let '(e, w') := scanLocalProcessesForRegistration w in
  registrable m w' /\
  match e with
  | Some _ => settled w0 w'
  | None => tracked w0 w' /\ claims_fenced m w'
  end.
Proof.
  intros Hreg Hset. unfold scanLocalProcessesForRegistration. rewrite bind_run.
  pose proof (calm_next_reply w) as Hc.
  pose proof (evolves_registrable _ _ _ (along_next_reply m w) Hreg) as Hreg1.
  destruct (next_reply w) as [rp w1]. simpl in *.
  apply scan_loop_spec; [done|by eapply settled_calm].
Qed.

Lemma calm_Register : along calmly Register.
Proof. unfold Register, Bootstrap. along_walk. Qed.

Lemma register_once_spec w0 w :
  tracked w0 w ->
  let '(r, w') := register_once w in
  match r with inl _ => tracked w0 w' | inr _ => settled w0 w' end.
Proof.
  intros HT. unfold register_once. rewrite bind_run. pose proof (calm_Register w) as Hc.
  destruct (Register w) as [[e|[runtime ds]] w1]; simpl in *;
    apply calmly_nothing, nothing_keeps_tracked in Hc; specialize (Hc w0 HT); [done|].
  rewrite bind_run. pose proof (apply_settles w0 w1 ds Hc) as Hs.
  destruct (applyRegistrationReconciliation ds w1) as [[e|] w2]; simpl in *.
  - by apply settled_tracked.
  - exact Hs.
Qed.

Lemma register_loop_spec m w0 n w :
  registrable m w -> settled w0 w -> settled w0 (register_loop n w).2.
Proof.
  revert w. induction n as [|n IH]; intros w Hreg Hset; simpl; unfold check_raise; rewrite bind_run;
    pose proof (scan_spec m w0 w Hreg Hset) as Hs;
    destruct (scanLocalProcessesForRegistration w) as [[e|] w1]; simpl in *;
    destruct Hs as [Hreg1 Hs]; try done; destruct Hs as [HT _]; rewrite bind_run;
    pose proof (register_once_spec w0 w1 HT) as H1;
    pose proof (evolves_registrable _ _ _ (evolves_register_once m w1) Hreg1) as Hreg2;
    destruct (register_once w1) as [[e|rt] w2]; simpl in *; try done;
    rewrite bind_run, bind_run; pose proof (releases_settle w0 w2 H1) as Hset3;
    pose proof (evolves_registrable _ _ _ (evolves_releaseResources m w2) Hreg2) as Hreg3;
    destruct (releaseResources w2) as [[] w3]; simpl in *;
    pose proof (settled_calm _ _ _ Hset3 (calm_next_reply w3)) as Hset4;
    pose proof (evolves_registrable _ _ _ (along_next_reply m w3) Hreg3) as Hreg4;
    destruct (next_reply w3) as [rp w4]; simpl in *; repeat case_match; try done.
  by apply IH.
Qed.

Lemma registration_settles m w0 w :
  registrable m w -> settled w0 w -> settled w0 (registerWithRetry w).2.
Proof.
  intros Hreg Hset. unfold registerWithRetry. rewrite bind_run.
  apply (register_loop_spec m).
  - eapply evolves_registrable; [apply along_next_reply|done].
  - eapply settled_calm; [done|apply calm_next_reply].
Qed.
End Scan.
