(* ===== verification/LaunchFrame.v ===== *)
(** * Launching supervisors: histories, order, locks

    [Prepare] moves the database along a history, deletes a row only after the files
    of the process are gone, and gives its lock handle back on every path. *)
From S2P Require Import Prelude GoStrings DaemonProtocol ProcessCmd DaemonMessages LocalPaths.
From S2P Require Import StateSchema StateQueries StateTx StateReport StateProcess StateAction StateTrace.
From S2P Require Import StateAudit LocalStore OutputFile RunnerEnv ClientWorld Reconciliation Launch.
From S2P Require Import ReconFrame ReconObjects ReconOrder ReconFences.
From stdpp Require Import options.
Local Open Scope Z_scope.

Section Frame.
Context {RC : ReportCodec} {CC : ClientCodec} {U : Unicode} {LC : LaunchCodec} (m : MachineStore).

Lemma evolves_RelinquishInherited l : along (evolves m) (RelinquishInherited l).
Proof. unfold RelinquishInherited. along_walk. Qed.

Lemma evolves_canonical a : along (evolves m) (canonical a).
Proof. unfold canonical, canonicalProcessCwd, ExpandHomeRelativePath, Abs, draw. along_walk. Qed.

Lemma evolves_kill p : along (evolves m) (kill_supervisor p).
Proof. unfold kill_supervisor. along_walk. Qed.

Lemma evolves_rollback pid instance p r lock started cause :
  along (evolves m) (rollback pid instance p r lock started cause).
Proof.
  unfold rollback, stop_supervisor, kill_supervisor, supervisor_done, undo_reservation, markDone. along_walk.
Qed.

Lemma evolves_wait_ready n r : along (evolves m) (wait_ready n r).
Proof. induction n; simpl; along_walk. Qed.

Lemma evolves_prepare_reserved machine a instance token p r :
  along (evolves m) (prepare_reserved machine a instance token p r).
Proof.
  unfold prepare_reserved, prepare_locked, start_supervisor, prepare_started, return_failed,
    writeSupervisorIdentityBootstrap, spawn_supervisor, PrepareChildInheritance, waitReady, runner_prepare,
    removeSupervisorIdentityBootstrap, draw.
  repeat first [ solve [eauto using evolves_RelinquishInherited, evolves_kill, evolves_rollback,
                          evolves_wait_ready with recon]
               | progress along_step ].
Qed.

Lemma evolves_Prepare a : along (evolves m) (Prepare a).
Proof.
  unfold Prepare, draw, new_runner, new_runtime.
  repeat first [ solve [eauto using evolves_canonical, evolves_prepare_reserved with recon]
               | progress along_step ].
Qed.
End Frame.

Section Locks.
Context {RC : ReportCodec} {CC : ClientCodec} {U : Unicode} {LC : LaunchCodec}.

(** Handing a lock over closes the handle, as releasing it does. *)
Lemma RelinquishInherited_spec l w :
  nothing_opened w (RelinquishInherited l w).2 /\ ~ is_open (RelinquishInherited l w).2 l.
Proof.
  unfold RelinquishInherited. rewrite M_get_bind.
  destruct (w_locks w !! l) as [[[] path]|] eqn:E;
    [|split; [done|]; intros [p Hp]; simpl in Hp; congruence..].
  unfold mbind, M_bind. pose proof (calm_next_reply w) as Hc.
  destruct (next_reply w) as [rp w1]. simpl in *. split.
  - etrans; [by apply calmly_nothing|]. etrans; [by apply (nothing_set_lock _ l false path)|].
    by apply calmly_nothing, calmly_same.
  - intros [p Hp]. simpl in Hp. rewrite lookup_insert_eq in Hp. done.
Qed.

Lemma nothing_RelinquishInherited l : along nothing_opened (RelinquishInherited l).
Proof. intros w. apply RelinquishInherited_spec. Qed.

Lemma calm_markDone r : along calmly (markDone r).
Proof. apply calmly_runner. by intros. Qed.

Lemma calm_canonical a : along calmly (canonical a).
Proof. unfold canonical, canonicalProcessCwd, ExpandHomeRelativePath, Abs, draw. along_walk. Qed.

Lemma calm_kill p : along calmly (kill_supervisor p).
Proof. unfold kill_supervisor. along_walk. Qed.

Lemma calm_stop_supervisor p r : along calmly (stop_supervisor p r).
Proof. unfold stop_supervisor, supervisor_done. repeat first [solve [eauto using calm_kill with recon] | progress along_step]. Qed.

Lemma nothing_rollback pid instance p r lock started cause :
  along nothing_opened (rollback pid instance p r lock started cause).
Proof.
  unfold rollback, undo_reservation.
  repeat first [ solve [eauto using along_calm, calm_markDone, calm_stop_supervisor with recon] | progress along_step ].
Qed.

Lemma calm_wait_ready n r : along calmly (wait_ready n r).
Proof. induction n; simpl; along_walk. Qed.

Lemma nothing_prepare_locked machine a instance token p r lock :
  along nothing_opened (prepare_locked machine a instance token p r lock).
Proof.
  unfold prepare_locked, start_supervisor, prepare_started, return_failed, writeSupervisorIdentityBootstrap,
    spawn_supervisor, PrepareChildInheritance, waitReady, runner_prepare, removeSupervisorIdentityBootstrap, draw.
  repeat first [ solve [eauto using nothing_RelinquishInherited, nothing_rollback, along_calm, calm_kill,
                          calm_wait_ready with recon]
               | progress along_step ].
Qed.

Lemma nothing_return_failed pid instance p r lock started cause :
  along nothing_opened (return_failed pid instance p r lock started cause).
Proof. unfold return_failed. repeat first [solve [eauto using nothing_rollback with recon] | progress along_step]. Qed.

Lemma calm_new_runner rn : rn_session rn = false -> along calmly (new_runner rn).
Proof.
  intros Hs w. unfold new_runner. rewrite M_get_bind.
  assert (rn = in_session false rn) as -> by (destruct rn; simpl in *; by subst).
  apply calmly_fresh_runner.
Qed.

Lemma nothing_exited pid instance r : along nothing_opened (supervisor_exited pid instance r).
Proof.
  apply along_calm. apply along_bind; [apply _|apply calm_markDone|]. intros _ w.
  by apply calmly_same; simpl; repeat case_match.
Qed.

Lemma nothing_Prepare a : along nothing_opened (Prepare a).
Proof.
  unfold Prepare, prepare_reserved, draw.
  repeat lazymatch goal with
  | |- along _ (TryAcquire _ ≫= _) => fail
  | _ => first [ solve [eauto using along_calm, calm_canonical, nothing_return_failed, calm_new_runner with recon]
               | progress along_step ]
  end.
  eapply (bracket (TryAcquire _)); [apply opening_TryAcquire|..].
  - intros e. apply nothing_return_failed.
  - intros h. apply nothing_prepare_locked.
  - along_walk.
Qed.
End Locks.
