(* ===== verification/ReconProperties.v ===== *)
(** * Properties of reconciliation, clean-up and registration *)
From S2P Require Import Prelude GoStrings DaemonProtocol LocalPaths StateSchema StateQueries StateTx.
From S2P Require Import StateReport StateProcess StateAction StateInvariant StateEffects StateTrace.
From S2P Require Import StateAudit StateScenario StateGuards LocalStore OutputFile.
From S2P Require Import ClientWorld Reconciliation ReconFrame ReconObjects ReconOrder ReconFences.
From S2P Require Import ReconScan ProcessCmd DaemonMessages RunnerEnv Launch LaunchFrame.
From stdpp Require Import options.
Local Open Scope Z_scope.

(** ** Runs of the daemon *)

(** What the daemon does in turn: (re)connect, a round of the clean-up loop, the check
    of the supervisors, the preparation of an offered process, or the farewell to a
    supervisor that exited. *)
Inductive Turn : Type :=
  | TurnRegister | TurnFinalize | TurnVerify
  | TurnPrepare (assignment : ProcessAssignment)
  | TurnExited (processID supervisorInstanceID : string) (runner : nat).

Section Turns.
Context {RC : ReportCodec} {CC : ClientCodec} {U : Unicode} {LC : LaunchCodec}.

Definition turn (t : Turn) : IO unit :=
  match t with
  | TurnRegister => registerWithRetry;; mret tt
  | TurnFinalize => finalizeReleasedProcesses;; mret tt
  | TurnVerify => verifyProcessSupervisors;; mret tt
  | TurnPrepare assignment => Prepare assignment;; mret tt
  | TurnExited processID supervisorInstanceID runner =>
      supervisor_exited processID supervisorInstanceID runner
  end.

Definition turns (l : list Turn) : IO unit := each_ turn l.

Lemma evolves_turn m t : along (evolves m) (turn t).
Proof.
  destruct t; unfold turn, supervisor_exited, markDone; (apply along_bind; [apply _| |intros]).
  all: try by along_walk.
  - apply evolves_registerWithRetry.
  - apply evolves_finalizeReleasedProcesses.
  - apply evolves_verifyProcessSupervisors.
  - apply evolves_Prepare.
  - apply along_quiet_modify. intros w. by repeat case_match.
Qed.

Lemma evolves_turns m l : along (evolves m) (turns l).
Proof. apply along_each_; [apply _|]. intros t _. apply evolves_turn. Qed.
End Turns.

(** ** The clean-up loop gives its locks back *)

Section Cleanup.
Context {RC : ReportCodec} {CC : ClientCodec} {U : Unicode} {LC : LaunchCodec}.

Lemma nothing_cleanup_one p : along nothing_opened (cleanup_one p).
Proof.
  unfold cleanup_one, closeStorageExhaustedProcess, terminate_exhausted, removeProcessInstance.
  assert (forall f, (forall w, w_locks (f w) = w_locks w /\ w_startup (f w) = w_startup w
    /\ w_fresh (f w) = w_fresh w /\ w_runners (f w) = w_runners w) ->
    along nothing_opened (modify f)) as Hm by (intros f Hf; by apply along_calm, calm_modify).
  along_walk; apply Hm; intros w; by repeat case_match.
Qed.

Lemma nothing_close_released process : along nothing_opened (close_released process).
Proof.
  assert (forall pid instance, along nothing_opened (removeProcessInstance pid instance)) as Hrm.
  { intros. apply along_calm, calm_modify. intros w. by repeat case_match. }
  unfold close_released, localProcess.
  repeat lazymatch goal with
  | |- along _ (TryAcquire _ ≫= _) => fail
  | _ => first [ solve [eauto with recon] | progress along_step ]
  end.
  all: match goal with |- along _ (TryAcquire ?path ≫= _) =>
         eapply (bracket (TryAcquire path)) with (body := fun lock =>
           recoverStoppedReleasedProcess (p_ProcessID process) (p_SupervisorInstanceID process)
             (Some lock)) end; [apply opening_TryAcquire|..]; along_walk.
Qed.

Lemma nothing_finalize : along nothing_opened finalizeReleasedProcesses.
Proof.
  assert (forall pid instance, along nothing_opened (removeProcessInstance pid instance)) as Hrm.
  { intros. apply along_calm, calm_modify. intros w. by repeat case_match. }
  unfold finalizeReleasedProcesses, cleanupProcesses, finalize_one, delete_settled,
    releaseProcessRuntimeArtifacts.
  repeat first [ solve [eauto using nothing_cleanup_one, nothing_close_released with recon]
               | progress along_step ].
Qed.

Lemma nothing_verify : along nothing_opened verifyProcessSupervisors.
Proof.
  assert (forall pid instance, along nothing_opened (removeProcessInstance pid instance)) as Hrm.
  { intros. apply along_calm, calm_modify. intros w. by repeat case_match. }
  assert (forall process missing, along nothing_opened (verify_unlocked process missing)) as Hu.
  { intros. unfold verify_unlocked. along_walk. }
  assert (forall machine process, along nothing_opened (verify_lock machine process)) as Hl.
  { intros. unfold verify_lock. apply along_or_raise; [apply _|along_walk|]. intros path.
    refine (bracket (TryAcquire path) _ (fun _ => mret tt)
      (fun _ _ e => check_raise (mret e) (verify_unlocked process false)) _ _ _ _); [apply opening_TryAcquire|..];
      along_walk. }
  unfold verifyProcessSupervisors, verify_one, probe_runtime, localProcess. along_walk.
Qed.

Lemma turns_settle m l w0 w : registrable m w -> settled w0 w -> settled w0 (turns l w).2.
Proof.
  revert w. induction l as [|t l IH]; intros w Hreg Hset; [done|].
  unfold turns. simpl. rewrite bind_run. apply IH.
  - eapply evolves_registrable; [apply (evolves_turn m t w)|done].
  - destruct t; unfold turn; try (rewrite bind_run; simpl).
    + by eapply registration_settles.
    + eapply settled_nothing; [done|apply nothing_finalize].
    + eapply settled_nothing; [done|apply nothing_verify].
    + eapply settled_nothing; [done|apply nothing_Prepare].
    + eapply settled_nothing; [done|apply nothing_exited].
Qed.
End Cleanup.

(** ** Directives *)

Section Directives.
Context {RC : ReportCodec} {CC : ClientCodec}.

Definition directive_key (d : ProcessReconciliationDirective) : string * string :=
  (pd_ProcessID d, pd_SupervisorInstanceID d).
Definition claim_key (c : ProcessReconciliationClaim) : string * string :=
  (cl_ProcessID c, cl_SupervisorInstanceID c).

Lemma apply_directives_matched claims seen ds w :
  (apply_directives claims seen ds w).1 = None ->
  NoDup (pd_ProcessID <$> ds)
  /\ forall d, d ∈ ds -> pd_ProcessID d ∉ seen
       /\ exists c, claims !! pd_ProcessID d = Some c
                    /\ pd_SupervisorInstanceID d = cl_SupervisorInstanceID c.
Proof.
  revert seen w. induction ds as [|d ds IH]; intros seen w H; simpl in H.
  { split; [constructor|]. intros d Hd. by apply not_elem_of_nil in Hd. }
  destruct (claims !! pd_ProcessID d) as [c|] eqn:Hc; [|done].
  case_bool_decide as Hi; simpl in H; [|done]. case_bool_decide as Hs; [done|].
  unfold check_raise in H. rewrite bind_run in H.
  destruct (applyProcessDisposition c d w) as [[e|] w1]; simpl in H; [done|].
  destruct (IH _ _ H) as [Hnd Hall]. split.
  - csimpl. constructor; [|done]. intros (d' & E & Hd')%list_elem_of_fmap.
    destruct (Hall d' Hd') as [Hn _]. apply Hn. rewrite <- E. set_solver.
  - intros d' [-> | Hd']%elem_of_cons; [by eauto|].
    destruct (Hall d' Hd') as [Hn Hex]. split; [set_solver|done].
Qed.

(** As many directives as claims, each for a different claim. *)
Lemma directives_match claims ds :
  map_to_list (claims_by_id claims) ≡ₚ (fun c => (cl_ProcessID c, c)) <$> claims ->
  length ds = size (claims_by_id claims) -> NoDup (pd_ProcessID <$> ds) ->
  (forall d, d ∈ ds -> pd_ProcessID d ∉ (∅ : gset string)
     /\ exists c, claims_by_id claims !! pd_ProcessID d = Some c
                  /\ pd_SupervisorInstanceID d = cl_SupervisorInstanceID c) ->
  directive_key <$> ds ≡ₚ claim_key <$> claims.
Proof.
  intros Hcl Hlen Hnd Hall. apply submseteq_length_Permutation.
  - apply NoDup_submseteq.
    + eapply (NoDup_fmap_1 fst). by rewrite <- list_fmap_compose.
    + intros k (d & -> & Hd)%list_elem_of_fmap. destruct (Hall d Hd) as (_ & c & Hc & Hi).
      apply elem_of_map_to_list in Hc. rewrite Hcl in Hc.
      apply list_elem_of_fmap in Hc as (c' & [= E <-] & Hc'). apply list_elem_of_fmap.
      exists c. split; [|done]. unfold directive_key, claim_key. by rewrite E, Hi.
  - rewrite !length_fmap, Hlen, <- length_map_to_list, Hcl, length_fmap. done.
Qed.

Lemma claims_by_id_list l (m : gmap string ProcessReconciliationClaim) :
  NoDup (cl_ProcessID <$> l) -> (forall c, c ∈ l -> m !! cl_ProcessID c = None) ->
  fold_left (fun m c => <[cl_ProcessID c := c]> m) l m
  = list_to_map ((fun c => (cl_ProcessID c, c)) <$> l) ∪ m.
Proof.
  revert m. induction l as [|c l IH]; intros m Hnd Hm; simpl.
  { by rewrite (left_id_L ∅ (∪)). }
  csimpl in Hnd. apply NoDup_cons in Hnd as [Hc Hnd]. rewrite IH; [|done|].
  - rewrite <- insert_union_l. rewrite insert_union_r; [done|].
    apply not_elem_of_list_to_map. rewrite <- list_fmap_compose. exact Hc.
  - intros c' Hc'. rewrite lookup_insert_ne; [apply Hm; by right|].
    intros E. apply Hc. rewrite E. by apply list_elem_of_fmap_2.
Qed.

Lemma claims_by_id_spec l :
  NoDup (cl_ProcessID <$> l) ->
  map_to_list (claims_by_id l) ≡ₚ (fun c => (cl_ProcessID c, c)) <$> l.
Proof.
  intros Hnd. unfold claims_by_id. rewrite claims_by_id_list; [|done|by intros; apply lookup_empty].
  rewrite (right_id_L ∅ (∪)). apply map_to_list_to_map. by rewrite <- list_fmap_compose.
Qed.
End Directives.

(** ** Recovery *)

Section Recovery.
Context {RC : ReportCodec} {CC : ClientCodec} (m : MachineStore).

(** Between [w] and [w'] the database had no row of the process. *)
Definition row_absent (pid : string) (w w' : World) : Prop :=
  exists h1 db1 h2, runs (w_db w) h1 db1 /\ runs db1 h2 (w_db w') /\ db_processes db1 !! pid = None.

Definition row_closed (pid instance : string) (w : World) : Prop :=
  exists p, db_processes (w_db w) !! pid = Some p /\ p_SupervisorInstanceID p = instance
    /\ p_LocalClosed p = true.

(** The database moved along some history. *)
Definition moves (w w' : World) : Prop :=
  machine_of w = inr m -> exists l, step_by m l w w'.

Lemma moves_machine w w' : machine_of w = inr m -> moves w w' -> machine_of w' = inr m.
Proof. intros Hw H. by destruct (H Hw) as (l & ? & _). Qed.

Global Instance moves_preorder : PreOrder moves.
Proof.
  split; [intros w Hw; exists []; by apply step_by_refl|].
  intros w1 w2 w3 H1 H2 Hw. destruct (H1 Hw) as [l1 S1]. destruct (H2 (proj1 S1)) as [l2 S2].
  exists (l1 ++ l2). by eapply step_by_trans.
Qed.

Lemma evolves_moves w w' : evolves m w w' -> moves w w'.
Proof. intros H Hw. destruct (H Hw) as (l & ? & _). eauto. Qed.

Lemma does_moves {A} (p : IO A) Q w : does m p Q -> moves w (p w).2.
Proof. intros H Hw. destruct (H w Hw) as (l & ? & _). eauto. Qed.

Lemma absent_between pid w w1 w2 w3 :
  machine_of w = inr m -> moves w w1 -> row_absent pid w1 w2 -> moves w2 w3 ->
  machine_of w2 = inr m -> row_absent pid w w3.
Proof.
  intros Hw H1 (h1 & db1 & h2 & R1 & R2 & R3) H2 Hw2.
  destruct (H1 Hw) as (k1 & _ & _ & K1). destruct (H2 Hw2) as (k2 & _ & _ & K2).
  exists (calls k1 ++ h1), db1, (h2 ++ calls k2). split_and!; [by eapply runs_app|by eapply runs_app|done].
Qed.

Lemma absent_here pid w w1 w2 :
  machine_of w = inr m -> moves w w1 -> db_processes (w_db w1) !! pid = None -> moves w1 w2 ->
  row_absent pid w w2.
Proof.
  intros Hw H1 Hn H2. destruct (H1 Hw) as (l1 & Hm1 & _ & R1).
  destruct (H2 Hm1) as (l2 & _ & _ & R2). by exists (calls l1), (w_db w1), (calls l2).
Qed.

Lemma db_do_run c w :
  (db_do c w).1 = None -> exists f db o, run_cmd c f db = (inr o, w_db (db_do c w).2).
Proof.
  unfold db_do, db_write. rewrite !bind_run. destruct (next_reply w) as [rp w1]. simpl.
  destruct (run_cmd c (rp_faults rp) (w_db w1)) as [[e|o] db] eqn:E; simpl; [done|].
  intros _. exists (rp_faults rp), (w_db w1), o. done.
Qed.

(** A successful deletion of a preparation leaves no row. *)
Lemma delete_preparation_row pid instance w :
  (db_do (CDeleteRejectedPreparation pid instance) w).1 = None ->
  db_processes (w_db (db_do (CDeleteRejectedPreparation pid instance) w).2) !! pid = None.
Proof.
  intros H. apply db_do_run in H as (f & db & o & Hr). simpl in Hr.
  apply op_map_success in Hr as (v & Hr & _).
  unfold DeleteRejectedPreparationAfterArtifacts, deleteProcessAfterArtifacts, processTx, GetProcess in Hr.
  tx_inv. repeat (case_match; tx_inv); bsimpl;
    match goal with H : tx_db _ = w_db _ |- _ => rewrite <- H end; [|done].
  match goal with H : DeleteProcess _ _ _ = _, Hp : _ !! _ = Some _ |- _ =>
    unfold DeleteProcess in H; rewrite Hp, bool_decide_eq_true_2 in H by done; injection H as _ <- end.
  apply lookup_delete_eq.
Qed.

Lemma errors_Join_Some e err : errors_Join [e; Some err] <> None.
Proof. by destruct e. Qed.

Lemma close_locked_preparation_absent pid instance closeErr lock w :
  machine_of w = inr m -> (close_locked_preparation pid instance closeErr lock w).1.2 = None ->
  row_absent pid w (close_locked_preparation pid instance closeErr lock w).2.
Proof.
  intros Hm H. revert H. unfold close_locked_preparation. rewrite bind_run.
  pose proof (does_moves _ _ w (does_stateStore m)) as H1.
  destruct (stateStore w) as [[e|] w1]; simpl in *; [by intros ?%errors_Join_Some|]. rewrite bind_run.
  pose proof (does_moves _ _ w1 (does_db_read m (Store_Process pid))) as H2.
  destruct (db_read (Store_Process pid) w1) as [[e|found] w2]; simpl in *;
    [by intros ?%errors_Join_Some|].
  match goal with |- context [match ?r with Some e => mret _ | None => _ end] => destruct r end;
    [by intros ?%errors_Join_Some|].
  rewrite bind_run. unfold removeRejectedProcessArtifacts.
  pose proof (does_moves _ _ w2 (does_removeProcessArtifacts m pid instance true)) as H3.
  destruct (removeProcessArtifacts pid instance true w2) as [[e|] w3]; simpl in *;
    [by intros ?%errors_Join_Some|].
  rewrite bind_run.
  pose proof (does_moves _ _ w3 (does_db_do m (CDeleteRejectedPreparation pid instance) I)) as H4.
  pose proof (delete_preparation_row pid instance w3) as Hrow.
  destruct (db_do (CDeleteRejectedPreparation pid instance) w3) as [[e|] w4]; simpl in *;
    [by intros ?%errors_Join_Some|].
  rewrite bind_run. pose proof (evolves_moves _ _ (evolves_ReleaseAndRemove m lock w4)) as H5.
  destruct (ReleaseAndRemove lock w4) as [[e|] w5]; simpl in *; [by intros ?%errors_Join_Some|].
  intros _. eapply absent_here; [done| |by apply Hrow|exact H5].
  etrans; [exact H1|]. etrans; [exact H2|]. by etrans.
Qed.

Lemma acquire_stopped_error n closeErr path w x :
  (acquire_stopped n closeErr path w).1 = inl x -> x.2 <> None.
Proof.
  revert w. induction n as [|n IH]; intros w; simpl; rewrite !bind_run;
    match goal with |- context [match (?p ?w).1 with inl _ => _ | inr _ => _ end] =>
      destruct (p w) as [[e|h] w1] end; simpl; try done;
    case_match; simpl; try (intros [= <-]; apply errors_Join_Some); apply IH.
Qed.

Lemma closeRejectedPreparation_absent pid instance runtime lock w :
  machine_of w = inr m -> (closeRejectedPreparation pid instance runtime lock w).1.2 = None ->
  row_absent pid w (closeRejectedPreparation pid instance runtime lock w).2.
Proof.
  intros Hm. unfold closeRejectedPreparation. rewrite bind_run.
  pose proof (evolves_moves _ _ (evolves_close_ungranted m runtime w)) as H1.
  destruct (close_ungranted runtime w) as [closeErr w1]. simpl in *. rewrite bind_run.
  match goal with |- context [match (?p w1).1 with inl _ => _ | inr _ => _ end] => set (acq := p) end.
  assert (moves w1 (acq w1).2 /\ forall x, (acq w1).1 = inl x -> x.2 <> None) as [H2 Hx].
  { unfold acq. destruct lock as [h|]; [done|]. split.
    - apply evolves_moves. apply along_bind; [apply _|eauto with recon|]. intros [e|path].
      + along_walk.
      + apply along_bind; [apply _|eauto with recon|]. intros rp. apply evolves_acquire_stopped.
    - intros x. rewrite bind_run. destruct (lock_path pid w1) as [[e|path] w2]; simpl.
      + intros [= <-]. apply errors_Join_Some.
      + rewrite bind_run. apply acquire_stopped_error. }
  destruct (acq w1) as [[x|h] w2]; simpl in *; [by intros ?%Hx|]. rewrite bind_run.
  assert (moves w w2) as H3 by by etrans. pose proof (moves_machine _ _ Hm H3) as Hm2.
  pose proof (close_locked_preparation_absent pid instance closeErr h w2 Hm2) as Hab.
  pose proof (evolves_moves _ _ (evolves_close_locked_preparation m pid instance closeErr h w2)) as H4.
  destruct (close_locked_preparation pid instance closeErr h w2) as [r w3]. simpl in *.
  rewrite bind_run. pose proof (evolves_moves _ _ (along_Release m h w3)) as H5.
  destruct (Release h w3) as [e w4]. simpl in *. intros Hr.
  eapply absent_between; [done|exact H3|by apply Hab|exact H5|by eapply moves_machine].
Qed.

Lemma markLocalClosed_closes pid instance w :
  (db_do (CMarkLocalClosed pid instance) w).1 = None ->
  row_closed pid instance (db_do (CMarkLocalClosed pid instance) w).2.
Proof.
  intros H. apply db_do_run in H as (f & db & o & Hr). simpl in Hr.
  apply op_map_success in Hr as ([] & Hr & _). by apply markLocalClosed_row in Hr.
Qed.

(** ** The containment of a recovered process *)

(** The row says that nothing can be running, or a signal to the recorded process
    group found no such group. *)
Definition group_gone (process : Process) (l : list Event) : Prop :=
  p_ContainmentEmpty process = true \/ p_ExecCommitted process = false
  \/ exists id e, Atoi (p_ContainmentID process) = Some id /\ 0 < id
       /\ errors_Is e (SText "ESRCH") = true /\ EExt (XKill (- id)) (Some e) ∈ l.

(** Between [w] and [w'] the process had a row whose containment was found gone. *)
Definition containment_gone (pid : string) (w w' : World) : Prop :=
  exists h db1 process l, runs (w_db w) h db1 /\ db_processes db1 !! pid = Some process
    /\ w_log w' = w_log w ++ l /\ group_gone process (own l).

Definition finds_gone (process : Process) (err : option error) (l : list Event) : Prop :=
  err = None -> group_gone process l.

Lemma group_gone_sub process l l' : l ⊆ l' -> group_gone process l -> group_gone process l'.
Proof.
  intros Hl [?|[?|(id & e & ? & ? & ? & H)]]; [by left|by right; left|right; right].
  exists id, e. split_and!; [done..|]. by apply Hl.
Qed.

Lemma finds_gone_error process (Q : list Event -> list Event) e :
  does m (mret (Some e)) (fun err l => finds_gone process err (Q l)).
Proof. by eapply does_mono; [apply does_ret|]; intros ? ? [-> ->]. Qed.

Lemma finds_gone_check process (p k : IO (option error)) :
  along (evolves m) p -> does m k (finds_gone process) -> does m (check_raise p k) (finds_gone process).
Proof.
  intros Hp Hk. eapply does_bind; [by apply along_does|]. intros [e|] l _.
  - apply finds_gone_error.
  - eapply does_mono; [exact Hk|]. intros err l' H He. eapply group_gone_sub; [|by apply H].
    intros x. rewrite elem_of_app. by right.
Qed.

Lemma finds_gone_read {A} process (p : IO (error + A)) (k : A -> IO (option error)) :
  along (evolves m) p -> (forall a, does m (k a) (finds_gone process)) ->
  does m (or_raise p k) (finds_gone process).
Proof.
  intros Hp Hk. eapply does_bind; [by apply along_does|]. intros [e|a] l _.
  - apply finds_gone_error.
  - eapply does_mono; [apply Hk|]. intros err l' H He. eapply group_gone_sub; [|by apply H].
    intros x. rewrite elem_of_app. by right.
Qed.

Lemma finds_gone_then process (p k : IO (option error)) :
  does m p (finds_gone process) -> along (evolves m) k -> does m (check_raise p k) (finds_gone process).
Proof.
  intros Hp Hk. eapply does_bind; [exact Hp|]. intros [e|] l H.
  - apply finds_gone_error.
  - eapply does_mono; [by apply along_does|]. intros err l' _ _. eapply group_gone_sub; [|by apply H].
    intros x. rewrite elem_of_app. by left.
Qed.

Lemma closeRecorded_gone process containmentID kind :
  Atoi (p_ContainmentID process) = Some containmentID ->
  does m (closeRecordedProcessContainment containmentID kind) (finds_gone process).
Proof.
  intros Hid. unfold closeRecordedProcessContainment.
  case_match; [apply (finds_gone_error _ id)|].
  case_match; [apply (finds_gone_error _ id)|].
  eapply does_bind; [apply does_ext|]. intros err l ->.
  eapply does_mono; [apply does_ret|]. intros ? ? [-> ->] Hnone. right. right.
  destruct err as [e|]; [|done]. destruct (errors_Is e (SText "ESRCH")) eqn:E; [|by case_match].
  exists containmentID, e. split_and!; [done|lia|done|]. apply list_elem_of_here.
Qed.

Lemma settle_containment_gone process pid instance :
  does m (settle_containment process pid instance) (finds_gone process).
Proof.
  unfold settle_containment. destruct (p_ContainmentEmpty process) eqn:He.
  { eapply does_mono; [apply does_ret|]. intros ? ? _ _. by left. }
  destruct (p_ExecCommitted process) eqn:Hx; simpl.
  2: { eapply does_mono; [by apply does_db_do|]. intros ? ? _ _. by right; left. }
  case_match; [apply (finds_gone_error _ id)|].
  case_match; [|apply (finds_gone_error _ id)].
  apply finds_gone_then; [by apply closeRecorded_gone|]. along_walk.
Qed.

Definition recovery_tail (process : Process) (pid instance : string) : IO (option error) :=
  must retryWhileStateDBBusy (db_do (CCloseActionAdmission pid instance));
  actions ⇠ db_read (Store_Actions pid);
  must each (freeze_unknown_action pid instance) actions;
  must freeze_stopped_terminal process pid instance;
  must settle_containment process pid instance;
  db_do (CMarkLocalClosed pid instance).

Lemma recovery_tail_gone process pid instance :
  does m (recovery_tail process pid instance) (finds_gone process).
Proof.
  unfold recovery_tail, freeze_unknown_action, freeze_stopped_terminal,
    stoppedProcessTerminalReport, recover_output.
  apply finds_gone_check; [along_walk|]. apply finds_gone_read; [along_walk|]. intros actions.
  apply finds_gone_check; [along_walk|]. apply finds_gone_check; [along_walk|].
  apply finds_gone_then; [apply settle_containment_gone|along_walk].
Qed.

(** A program that fails before [p], or ends with [p]. *)
Lemma must_ends (p : IO (option error)) (k : IO (option error)) (P : World -> Prop) w :
  (forall w1, (k w1).1 = None -> P (k w1).2) ->
  (check_raise p k w).1 = None -> P (check_raise p k w).2.
Proof.
  intros Hk. unfold check_raise. rewrite bind_run. destruct (p w) as [[e|] w1]; simpl; [done|].
  apply Hk.
Qed.

Lemma or_raise_ends {A} (p : IO (error + A)) (k : A -> IO (option error)) (P : World -> Prop) w :
  (forall a w1, (k a w1).1 = None -> P (k a w1).2) ->
  (or_raise p k w).1 = None -> P (or_raise p k w).2.
Proof.
  intros Hk. unfold or_raise. rewrite bind_run. destruct (p w) as [[e|a] w1]; simpl; [done|].
  apply Hk.
Qed.

Lemma recovery_tail_containment process pid instance w w1 :
  machine_of w = inr m -> moves w w1 -> db_processes (w_db w1) !! pid = Some process ->
  (recovery_tail process pid instance w1).1 = None ->
  containment_gone pid w (recovery_tail process pid instance w1).2.
Proof.
  intros Hm H Hp Hr. destruct (H Hm) as (l1 & Hm1 & Hl1 & R1).
  destruct (recovery_tail_gone process pid instance w1 Hm1) as (l2 & (_ & Hl2 & _) & Hg).
  exists (calls l1), (w_db w1), process, (l1 ++ l2).
  split_and!; [done|done|by rewrite Hl2, Hl1, List.app_assoc|].
  eapply group_gone_sub; [|by apply Hg]. intros x. rewrite own_app, elem_of_app. by right.
Qed.

Lemma recover_settles pid instance lock w :
  machine_of w = inr m -> (recoverStoppedReleasedProcess pid instance lock w).1 = None ->
  let w' := (recoverStoppedReleasedProcess pid instance lock w).2 in
  row_closed pid instance w' /\ containment_gone pid w w' \/ row_absent pid w w'.
Proof.
  intros Hm. cbv zeta. unfold recoverStoppedReleasedProcess. rewrite check_run.
  pose proof (does_moves _ _ w (does_stateStore m)) as H1.
  destruct (stateStore w) as [[e|] w1]; simpl in *; [done|].
  rewrite or_raise_run.
  pose proof (does_moves _ _ w1 (does_db_read m (Store_Process pid))) as H2.
  pose proof (db_read_value (Store_Process pid) w1) as Hv.
  destruct (db_read (Store_Process pid) w1) as [[e|found] w2]; simpl in *; [done|].
  specialize (Hv found eq_refl) as [f Hv]. apply query_fst in Hv. simpl in Hv.
  assert (moves w w2) as H12 by by etrans. destruct found as [process|].
  2: { intros _. right. eapply absent_here; [done|exact H12|by rewrite Hv|reflexivity]. }
  case_bool_decide; simpl; [|done]. destruct (_ || _).
  - rewrite !bind_run. pose proof (moves_machine _ _ Hm H12) as Hm2. intros Hr. right.
    pose proof (closeRejectedPreparation_absent pid instance None lock w2 Hm2 Hr) as Hab.
    pose proof (evolves_moves _ _ (evolves_closeRejectedPreparation m pid instance None lock w2)) as H3.
    destruct (closeRejectedPreparation pid instance None lock w2) as [r w3]. simpl in *.
    eapply absent_between; [done|exact H12|exact Hab|reflexivity|by eapply moves_machine].
  - change (check_raise _ _) with (recovery_tail process pid instance). intros Hr. left. split.
    2: { by apply (recovery_tail_containment process pid instance w w2). }
    revert Hr. apply must_ends. intros w3. apply or_raise_ends. intros actions w4.
    apply must_ends. intros w5. apply must_ends. intros w6. apply must_ends. intros w7.
    apply markLocalClosed_closes.
Qed.
End Recovery.

(** ** Backoff *)

Section Backoff.
Context (draw : Z -> Z) (Hdraw : forall n, 0 < n -> 0 <= draw n < n).

Lemma doubled_bounds n maximum delay :
  0 < delay <= maximum -> maximum <= int64_max -> delay <= doubled n maximum delay <= maximum.
Proof.
  revert delay. induction n as [|n IH]; intros delay Hd Hm; simpl; [lia|].
  destruct (maximum / 2 <=? delay) eqn:E; [lia|]. apply Z.leb_gt in E.
  pose proof (Z.mul_div_le maximum 2 ltac:(lia)) as Hhalf.
  rewrite wrap64_id by (unfold is_int64, int64_min, int64_max in *; lia).
  destruct (IH (delay * 2)); [lia|done|]. lia.
Qed.

Lemma retryBackoffDelay_bounds initial maximum failures :
  is_int64 initial -> is_int64 maximum ->
  let start := if initial <=? 0 then 1000000000 else initial in
  start / 2 <= retryBackoffDelay draw initial maximum failures <= Z.max start maximum.
Proof using Hdraw.
  intros Hi Hm. cbv zeta. unfold retryBackoffDelay.
  set (start := if initial <=? 0 then 1000000000 else initial).
  assert (0 < start <= int64_max) as Hs.
  { unfold start, is_int64, int64_max in *. destruct (initial <=? 0) eqn:E; [lia|].
    apply Z.leb_gt in E. lia. }
  set (top := if maximum <? start then start else maximum).
  assert (start <= top <= int64_max /\ top = Z.max start maximum) as [Ht Htop].
  { unfold top, is_int64 in *. destruct (maximum <? start) eqn:E;
      [apply Z.ltb_lt in E|apply Z.ltb_ge in E]; lia. }
  rewrite <- Htop.
  set (delay := doubled _ top start).
  assert (start <= delay <= top) as Hdel by (apply doubled_bounds; lia). clearbody delay.
  destruct (top <? delay) eqn:E; [apply Z.ltb_lt in E; lia|].
  destruct (delay <=? 1) eqn:E1.
  { apply Z.leb_le in E1. pose proof (Z.div_le_upper_bound start 2 start ltac:(lia) ltac:(lia)). lia. }
  apply Z.leb_gt in E1. pose proof (Z.mul_div_le delay 2 ltac:(lia)) as H1.
  pose proof (Z.div_le_mono start delay 2 ltac:(lia) ltac:(lia)).
  assert (0 <= delay / 2) by (apply Z.div_pos; lia).
  unfold int64_max in *.
  rewrite (wrap64_id (delay - delay / 2)) by (unfold is_int64, int64_min, int64_max in *; lia).
  pose proof (Hdraw (delay - delay / 2) ltac:(lia)).
  rewrite wrap64_id by (unfold is_int64, int64_min, int64_max in *; lia). lia.
Qed.
End Backoff.

(** ** Example world *)

Definition demo_client_codec : ClientCodec := {|
  marshal_event := fun _ => Some "exited";
  marshal_result := fun _ => Some "{}"
|}.
Local Existing Instance demo_client_codec.
Local Existing Instance ascii_only.
Definition demo_launch_codec : LaunchCodec := {|
  marshal_assignment := fun a => Some (as_ID a);
  marshal_identity := fun b => Some (sb_SupervisorInstanceID b);
  launch_error_text := fun _ => "error";
  environ := ["HOME=/home/me"; "OMNARA_TOKEN=secret"]
|}.
Local Existing Instance demo_launch_codec.

Definition demo_config : Config := mkConfig "/home/me/.omnarad" "i1" "m1" 1000000000 "/usr/bin".
Definition demo_machine : MachineStore := mkMachineStore "/home/me/.omnarad" "i1" "m1".

(** The process ended while the daemon was down; the server answers "release". *)
Definition demo_reply : Reply :=
  mkReply [] [] [] None false 0 1 "" [] None processStarted (mkBootstrap "" "")
    (mkDaemonRuntime "rt1" 1000)
    [mkDirective "p1" "s1" ProcessDispositionRelease [mkActionDirective "a2" KindWrite 2 "" ActionDispositionSettle]].

(** The database once the server has released the process and acknowledged all. *)
Definition released_db : DB :=
  (run_all [(CMarkServerReleased "p1" "s1", []); (CAcknowledgeReport "rpt_u0", []);
            (CAcknowledgeReport "rpt_u2", []); (CAcknowledgeReport "rpt_u3", [])] closed_db).2.

Definition demo_world (db : DB) (replies : list Reply) : World :=
  mkWorld db demo_config (mkBootstrap "i1" "m1") true (mkDaemonRuntime "" 0) ∅ ∅ ∅ ∅ 0 startup_empty
    replies [].
Definition demo_replies : list Reply := [calm; calm; calm; calm; calm; calm; demo_reply].

Lemma demo_registrable : registrable demo_machine (demo_world closed_db demo_replies).
Proof.
  split; [reflexivity|]. eapply runs_ok; [apply empty_db_ok|]. apply demo_runs.
Defined.

(** ** Theorems *)



(** C27: the daemon deletes the row of a process only right after the calls that
    removed its files succeeded (with at most the retirement of the lifetime lock in
    between), and tells a supervisor to start only right after the acceptance of a
    process was recorded; no failure, busy database or interleaving changes that. *)
Theorem client_calls_are_ordered {RC : ReportCodec} {CC : ClientCodec} {U : Unicode} {LC : LaunchCodec} m l w :
  machine_of w = inr m ->
  exists events, w_log (turns l w).2 = w_log w ++ events /\ ordered m (own events).
Proof.
  intros Hm. destruct (evolves_turns m l w Hm) as (ev & (_ & Hl & _) & Ho). eauto.
Qed.

Lemma client_calls_are_ordered_witness :
  exists events,
    deletion (CDeleteClosed "p1" "s1") <> None
    /\ last events = Some (EDb (mkCall (CDeleteClosed "p1" "s1") [] (inr ODone)))
    /\ ordered demo_machine (own events).
Proof.
  destruct (client_calls_are_ordered demo_machine [TurnFinalize] (demo_world released_db []))
    as (ev & Hl & Ho); [reflexivity|].
  exists ev. split_and!; [discriminate| |exact Ho].
  assert (ev = w_log (turns [TurnFinalize] (demo_world released_db [])).2) as ->
    by (rewrite Hl; reflexivity).
  vm_compute. reflexivity.
Defined.

(** C28: connections, clean-up rounds, checks of the supervisors and preparations of
    processes give back (or hand over) everything they take: when they
    return, with or without an error, no lifetime lock is held and no reconciliation
    session is open that was not before. *)
Theorem client_gives_everything_back {RC : ReportCodec} {CC : ClientCodec} {U : Unicode} {LC : LaunchCodec} m l w :
  registrable m w ->
  (forall h, is_open (turns l w).2 h -> is_open w h)
  /\ (forall r, session (turns l w).2 r = true -> session w r = true).
Proof. intros Hreg. exact (turns_settle m l w w Hreg (conj (fun _ H => H) (fun _ H => H))). Qed.

Lemma client_gives_everything_back_witness :
  existsb (fun e => match e with ELock _ (inr _) => true | _ => false end)
    (w_log (turns [TurnRegister] (demo_world closed_db demo_replies)).2) = true
  /\ forall h, ~ is_open (turns [TurnRegister] (demo_world closed_db demo_replies)).2 h.
Proof.
  split; [vm_compute; reflexivity|]. intros h Hh.
  apply (client_gives_everything_back demo_machine [TurnRegister] _ demo_registrable) in Hh as [p Hp].
  change (w_locks _) with (∅ : gmap nat Lock) in Hp. by rewrite lookup_empty in Hp.
Defined.

(** C29: when the scan succeeds, its claims are sorted with one claim per process,
    and each rests on a fence the daemon still has: a process claimed live answers on
    an open reconciliation session, on its own endpoint and with the supervisor
    instance of the claim; of a process claimed not live the daemon holds the
    lifetime lock. *)
Theorem claims_are_sent_behind_fences {RC : ReportCodec} {CC : ClientCodec} m w w' :
  registrable m w -> scanLocalProcessesForRegistration w = (None, w') -> claims_fenced m w'.
Proof.
  intros Hreg H. pose proof (scan_spec m w w Hreg) as Hs. rewrite H in Hs.
  destruct Hs as (_ & _ & Hc); [by split|done].
Qed.

Lemma pair_of_fst {A B} (p : A * B) a : p.1 = a -> p = (a, p.2).
Proof. destruct p. simpl. congruence. Qed.

Lemma claims_are_sent_behind_fences_witness :
  let w' := (scanLocalProcessesForRegistration (demo_world closed_db demo_replies)).2 in
  length (su_Claims (w_startup w')) = 1%nat /\ claims_fenced demo_machine w'.
Proof.
  cbv zeta. split; [vm_compute; reflexivity|].
  apply (claims_are_sent_behind_fences demo_machine (demo_world closed_db demo_replies));
    [apply demo_registrable|]. apply pair_of_fst. vm_compute. reflexivity.
Defined.

(** When the directives are carried out without an error, they were exactly one
    per claim, for the claimed process and supervisor instance. *)
Theorem directives_answer_the_claims {RC : ReportCodec} {CC : ClientCodec} directives w :
  NoDup (cl_ProcessID <$> su_Claims (w_startup w)) ->
  (applyRegistrationReconciliation directives w).1 = None ->
  directive_key <$> directives ≡ₚ claim_key <$> su_Claims (w_startup w).
Proof.
  intros Hnd. unfold applyRegistrationReconciliation. rewrite !bind_run. simpl.
  unfold apply_checked. rewrite M_get_bind.
  pose proof (claims_by_id_spec _ Hnd) as Hcl.
  destruct (length directives =? size _)%nat eqn:Hlen; simpl; [|done]. apply Nat.eqb_eq in Hlen.
  rewrite check_run. destruct (apply_directives _ ∅ directives w) as [[e|] w1] eqn:E; simpl; [done|].
  intros _. destruct (apply_directives_matched _ _ _ _ (f_equal fst E)) as [Hndd Hall].
  by apply directives_match.
Qed.

Definition demo_claim : ProcessReconciliationClaim :=
  mkClaim "p1" "s1" ProcessTerminal false true true 1 [].
Definition demo_claimed_world : World :=
  set_startup (mkStartup [demo_claim] ∅ [] ∅ ∅ ∅) (demo_world closed_db []).

Lemma directives_answer_the_claims_witness :
  (applyRegistrationReconciliation (rp_directives demo_reply) demo_claimed_world).1 = None
  /\ directive_key <$> rp_directives demo_reply ≡ₚ [("p1", "s1")].
Proof.
  assert ((applyRegistrationReconciliation (rp_directives demo_reply) demo_claimed_world).1 = None)
    as H by (vm_compute; reflexivity).
  split; [exact H|].
  apply (directives_answer_the_claims (rp_directives demo_reply) demo_claimed_world); [|exact H].
  apply (bool_decide_unpack _). vm_compute. exact I.
Defined.

(** C32: when the recovery of a stopped process returns without an error, the process
    is closed locally (its row says so, with the supervisor instance given) and its
    containment was found gone (its row said so, or that no execution was committed,
    or a signal to the recorded process group answered that there is none); or at
    some moment of the recovery the database had no row of the process. *)
Theorem recovery_settles_the_process {RC : ReportCodec} {CC : ClientCodec} m pid instance lock w :
  machine_of w = inr m -> (recoverStoppedReleasedProcess pid instance lock w).1 = None ->
  (row_closed pid instance (recoverStoppedReleasedProcess pid instance lock w).2
   /\ containment_gone pid w (recoverStoppedReleasedProcess pid instance lock w).2)
  \/ row_absent pid w (recoverStoppedReleasedProcess pid instance lock w).2.
Proof. apply recover_settles. Qed.

(** The daemon died after the process was accepted and before it was started. *)
Definition accepted_db : DB := (run_all (firstn 5 demo_boot) empty_db).2.

Definition recovered_world : (option error * World) :=
  recoverStoppedReleasedProcess "p1" "s1" None (demo_world accepted_db []).

Lemma recovered_world_row :
  (fun p => (p_SupervisorInstanceID p, p_LocalClosed p))
    <$> db_processes (w_db recovered_world.2) !! "p1" = Some ("s1", true).
Proof. vm_compute. reflexivity. Qed.

Lemma recovery_settles_the_process_witness :
  (p_LocalClosed <$> db_processes accepted_db !! "p1") = Some false
  /\ row_closed "p1" "s1" recovered_world.2.
Proof.
  split; [vm_compute; reflexivity|].
  destruct (recovery_settles_the_process demo_machine "p1" "s1" None (demo_world accepted_db []))
    as [[Hclosed _]|Habs]; [reflexivity|vm_compute; reflexivity|exact Hclosed|].
  pose proof recovered_world_row as Hrow.
  apply fmap_Some_1 in Hrow as (p & Hp & Hrow). exists p. split; [exact Hp|].
  injection Hrow as Hi Hc. split; symmetry; assumption.
Defined.

(** The pause before another attempt is at least half the configured interval and
    at most the maximum (or the interval, if that is larger) for any number of
    failures, and a delay the server asks for is never shortened: the sum saturates
    instead of overflowing. *)
Theorem retry_delays_are_bounded draw initial maximum failures serverDelay :
  (forall n, 0 < n -> 0 <= draw n < n) ->
  is_int64 initial -> is_int64 maximum -> 0 <= serverDelay <= int64_max ->
  let start := if initial <=? 0 then 1000000000 else initial in
  start / 2 <= retryBackoffDelay draw initial maximum failures <= Z.max start maximum
  /\ serverDelay <= retryDelayForDaemonError draw initial maximum failures (Some serverDelay)
       <= int64_max.
Proof.
  intros Hdraw Hi Hm Hs. cbv zeta.
  pose proof (retryBackoffDelay_bounds draw Hdraw initial maximum failures Hi Hm) as Hb.
  cbv zeta in Hb. split; [exact Hb|]. unfold retryDelayForDaemonError, maximumRetryDelay.
  set (delay := retryBackoffDelay _ _ _ _) in *. clearbody delay.
  assert (0 <= delay <= int64_max) as Hd.
  { destruct (initial <=? 0) eqn:E; unfold is_int64, int64_max in *; [|apply Z.leb_gt in E];
      match type of Hb with ?a / 2 <= _ <= _ => pose proof (Z.div_pos a 2 ltac:(lia) ltac:(lia)) end; lia. }
  rewrite wrap64_id by (unfold is_int64, int64_min, int64_max in *; lia).
  destruct (int64_max - delay <? serverDelay) eqn:E; [lia|]. apply Z.ltb_ge in E.
  rewrite wrap64_id by (unfold is_int64, int64_min, int64_max in *; lia). lia.
Qed.

Lemma retry_delays_are_bounded_witness :
  500000000 <= retryBackoffDelay (fun _ => 0) 1000000000 30000000000 40 <= 30000000000.
Proof.
  refine (proj1 (retry_delays_are_bounded (fun _ => 0) 1000000000 30000000000 40 7 _ _ _ _)).
  - intros n Hn. lia.
  - vm_compute. split; discriminate.
  - vm_compute. split; discriminate.
  - vm_compute. split; discriminate.
Defined.
