(* ===== verification/LaunchProperties.v ===== *)
(** * Properties of the preparation of processes

    [Prepare] either hands a running supervisor its lifetime lock, without the lock
    ever being free in between, or undoes the reservation, or says that it could not. *)
From S2P Require Import Prelude GoStrings DaemonProtocol ProcessCmd DaemonMessages LocalPaths.
From S2P Require Import StateSchema StateQueries StateTx StateReport StateProcess StateAction StateTrace.
From S2P Require Import StateInvariant StateAudit StateScenario LocalStore OutputFile RunnerEnv ClientWorld Reconciliation Launch.
From S2P Require Import ReconFrame ReconObjects ReconOrder ReconFences LaunchFrame ReconProperties.
From stdpp Require Import options.
Local Open Scope Z_scope.

(** ** The runtime of the preparation *)

(** The runtime stays where it is, and one marked for clean-up stays marked. *)
Definition keeps_mark (p : nat) (w w' : World) : Prop :=
  (p < w_fresh w)%nat -> forall rt, w_runtimes w !! p = Some rt ->
  (p < w_fresh w')%nat /\ exists rt', w_runtimes w' !! p = Some rt'
    /\ (rt_cleanupOnly rt = true -> rt_cleanupOnly rt' = true).

Global Instance keeps_mark_preorder p : PreOrder (keeps_mark p).
Proof.
  split; [intros w Hp rt Hrt; by eauto|]. intros w1 w2 w3 H1 H2 Hp rt Hrt.
  destruct (H1 Hp rt Hrt) as (Hp2 & rt2 & Hrt2 & Hf2). destruct (H2 Hp2 rt2 Hrt2) as (? & rt3 & ? & ?). eauto 6.
Qed.

Section Mark.
Context {RC : ReportCodec} {CC : ClientCodec} {U : Unicode} {LC : LaunchCodec} (p : nat).

Lemma mark_same w w' : w_runtimes w' = w_runtimes w -> (w_fresh w <= w_fresh w')%nat -> keeps_mark p w w'.
Proof. intros E Hf Hp rt Hrt. rewrite E. split; [lia|eauto]. Qed.

Lemma mark_modify f :
  (forall w, w_runtimes (f w) = w_runtimes w /\ (w_fresh w <= w_fresh (f w))%nat) -> along (keeps_mark p) (modify f).
Proof. intros H w. destruct (H w). by apply mark_same. Qed.

Lemma mark_next_reply : along (keeps_mark p) next_reply.
Proof.
  intros w. unfold next_reply. destruct (w_replies w) as [|rp rest]; [done|]. cbn [snd].
  assert (forall l w, keeps_mark p w (fold_left other_write l w)) as Ho.
  { intros l. induction l as [|cf l IH]; intros v; [done|]. simpl. etrans; [|apply IH].
    unfold other_write. case_match; [|done]. destruct (run_cmd _ _ _). by apply mark_same. }
  assert (forall l w, keeps_mark p w (fold_left other_put l w)) as Hp.
  { intros l. induction l as [|put l IH]; intros v; [done|]. simpl. etrans; [|apply IH].
    unfold other_put. destruct put as [key [[rt rn]|]]; [|by apply mark_same].
    intros Hf rt' Hrt. destruct rn; simpl; (split; [lia|]); rewrite lookup_insert_ne by lia; eauto. }
  etrans; [|apply Hp]. etrans; [|apply Ho]. by apply mark_same.
Qed.

Lemma mark_with_runtime q f :
  (forall rt, rt_cleanupOnly rt = true -> rt_cleanupOnly (f rt) = true) -> along (keeps_mark p) (with_runtime q f).
Proof.
  intros Hf w Hp rt Hrt. simpl. split; [done|]. destruct (decide (q = p)) as [->|Hne].
  - rewrite lookup_alter_eq, Hrt. simpl. eauto.
  - rewrite lookup_alter_ne by done. eauto.
Qed.

Lemma mark_machineStore : along (keeps_mark p) machineStore.
Proof. intros w. done. Qed.
End Mark.

#[export] Hint Resolve mark_next_reply mark_machineStore : recon.
#[export] Hint Extern 1 (along (keeps_mark _) (modify _)) => apply mark_modify; simpl; split; [done|lia] : recon.
#[export] Hint Extern 1 (along (keeps_mark _) (log _)) => apply mark_modify; simpl; split; [done|lia] : recon.
#[export] Hint Extern 1 (along (keeps_mark _) (with_runner _ _)) => apply mark_modify; simpl; split; [done|lia] : recon.
#[export] Hint Extern 1 (along (keeps_mark _) (forget_path _)) => apply mark_modify; simpl; split; [done|lia] : recon.

Section MarkPrograms.
Context {RC : ReportCodec} {CC : ClientCodec} {U : Unicode} {LC : LaunchCodec} (p : nat).

Lemma mark_ext x : along (keeps_mark p) (ext x).
Proof. unfold ext. along_walk. Qed.
Lemma mark_runner_call r c : along (keeps_mark p) (runner_call r c).
Proof. unfold runner_call, note_ready. along_walk. Qed.
Lemma mark_db_do c : along (keeps_mark p) (db_do c).
Proof. unfold db_do, db_write. along_walk. Qed.
Lemma mark_Release l : along (keeps_mark p) (Release l).
Proof. unfold Release. along_walk. Qed.
Lemma mark_TryAcquire path : along (keeps_mark p) (TryAcquire path).
Proof.
  apply along_bind; [apply _|apply mark_next_reply|]. intros rp w.
  cbv [mbind M_bind get modify log mret M_ret].
  destruct (path ==? ""); [|destruct (rp_err rp); [|destruct (held_b path w)]]; cbn;
    apply mark_same; simpl; done || lia.
Qed.
Lemma mark_removeBootstrap machine pid instance : along (keeps_mark p) (removeSupervisorIdentityBootstrap machine pid instance).
Proof. unfold removeSupervisorIdentityBootstrap, ext. along_walk. Qed.

Lemma mark_acquire n e path : along (keeps_mark p) (acquire_stopped n e path).
Proof.
  induction n; cbn [acquire_stopped];
    repeat first [solve [eauto using mark_TryAcquire with recon] | progress along_step].
Qed.

Lemma mark_closeRejectedPreparation pid instance lock :
  along (keeps_mark p) (closeRejectedPreparation pid instance None lock).
Proof.
  unfold closeRejectedPreparation, close_ungranted, lock_path, close_locked_preparation, stateStore, db_read,
    removeRejectedProcessArtifacts, removeProcessArtifacts, ReleaseAndRemove.
  repeat first [solve [eauto using mark_ext, mark_db_do, mark_Release, mark_removeBootstrap, mark_acquire with recon]
               | progress along_step].
Qed.
End MarkPrograms.

#[export] Hint Resolve mark_ext mark_runner_call mark_db_do mark_Release mark_TryAcquire
  mark_removeBootstrap mark_closeRejectedPreparation : recon.
#[export] Hint Resolve evolves_RelinquishInherited evolves_wait_ready : recon.

(** ** A preparation that fails *)

Section Undone.
Context {RC : ReportCodec} {CC : ClientCodec} {U : Unicode} {LC : LaunchCodec} (m : MachineStore).
Context (pid : string) (p : nat).

Definition present (w : World) : Prop := (p < w_fresh w)%nat /\ is_Some (w_runtimes w !! p).

Lemma present_kept w w' : keeps_mark p w w' -> present w -> present w'.
Proof. intros H [Hp [rt Hrt]]. destruct (H Hp rt Hrt) as (? & rt' & ? & _). split; eauto. Qed.

Lemma mark_kept w w' :
  keeps_mark p w w' -> present w -> rt_cleanupOnly (runtime_at p w) = true -> rt_cleanupOnly (runtime_at p w') = true.
Proof.
  intros H [Hp [rt Hrt]]. destruct (H Hp rt Hrt) as (? & rt' & E & Hf). unfold runtime_at. by rewrite Hrt, E.
Qed.

(** What a failed preparation leaves: an error that says that local state may be left,
    a runtime marked for clean-up, or no row. *)
Definition accounted (w : World) (e : error) (w' : World) : Prop :=
  errors_Is e SUnresolvedPreparation = true \/ rt_cleanupOnly (runtime_at p w') = true \/ row_absent pid w w'.

(** In every run of [q] from a state with the runtime, [Q] holds of the result. *)
Definition runs_to {A} (q : IO A) (Q : World -> A -> World -> Prop) : Prop := forall w,
  machine_of w = inr m -> present w ->
  machine_of (q w).2 = inr m /\ present (q w).2 /\ Q w (q w).1 (q w).2.

Definition settled_result (w : World) (r : option nat * option error) (w' : World) : Prop :=
  r = (Some p, None) \/ exists e, r = (Some p, Some e) /\ accounted w e w'.

Abbreviation settles q := (runs_to q settled_result).

Lemma accounted_before w w1 e w2 : machine_of w = inr m -> moves m w w1 -> accounted w1 e w2 -> accounted w e w2.
Proof.
  intros Hm Hmv [H|[H|H]]; [by left|by right; left|]. right. right.
  destruct H as (h1 & db1 & h2 & R1 & R2 & R3). destruct (Hmv Hm) as (l & _ & _ & R0).
  exists (calls l ++ h1), db1, h2. split_and!; [by eapply runs_app|done|done].
Qed.

Lemma accounted_after w e w2 w3 :
  machine_of w2 = inr m -> present w2 -> accounted w e w2 -> moves m w2 w3 -> keeps_mark p w2 w3 ->
  accounted w e w3.
Proof.
  intros Hm2 Hp [H|[H|H]] H2 Hk; [by left|right; left|right; right].
  - by eapply mark_kept.
  - destruct H as (h1 & db1 & h2 & R1 & R2 & R3). destruct (H2 Hm2) as (l & _ & _ & R0).
    exists h1, db1, (h2 ++ calls l). split_and!; [done|by eapply runs_app|done].
Qed.

Lemma runs_to_after {A B} (q : IO A) (k : A -> IO B) (Q : World -> B -> World -> Prop) :
  (forall w w1 b w2, machine_of w = inr m -> moves m w w1 -> Q w1 b w2 -> Q w b w2) ->
  along (evolves m) q -> along (keeps_mark p) q -> (forall a, runs_to (k a) Q) -> runs_to (q ≫= k) Q.
Proof.
  intros HQ He Hk Hs w Hm Hp. rewrite bind_run. pose proof (evolves_moves m _ _ (He w)) as Hmv.
  pose proof (moves_machine _ _ _ Hm Hmv) as Hm1. pose proof (present_kept _ _ (Hk w) Hp) as Hp1.
  destruct (Hs (q w).1 (q w).2 Hm1 Hp1) as (? & ? & ?). split_and!; [done|done|by eapply HQ].
Qed.

Lemma settles_after {A} (q : IO A) (k : A -> IO (option nat * option error)) :
  along (evolves m) q -> along (keeps_mark p) q -> (forall a, settles (k a)) -> settles (q ≫= k).
Proof.
  apply runs_to_after. intros w w1 r w2 Hm Hmv [?|(e & ? & Ha)]; [by left|right].
  exists e. split; [done|]. by eapply accounted_before.
Qed.

Lemma settles_before {A} (q : IO (option nat * option error)) (s : IO A) :
  settles q -> along (evolves m) s -> along (keeps_mark p) s -> settles (r ← q; s;; mret r).
Proof.
  intros Hs He Hk w Hm Hp. rewrite !bind_run. simpl. destruct (Hs w Hm Hp) as (Hm1 & Hp1 & Hr).
  pose proof (evolves_moves m _ _ (He (q w).2)) as Hmv. pose proof (Hk (q w).2) as Hkm.
  split_and!; [by eapply moves_machine|by eapply present_kept|].
  destruct Hr as [?|(e & ? & Ha)]; [by left|right]. exists e. split; [done|]. by eapply accounted_after.
Qed.

Lemma settles_done : settles (mret (Some p, None)).
Proof. intros w Hm Hp. split_and!; [done|done|by left]. Qed.

Lemma undo_accounted instance lock started cause :
  runs_to (undo_reservation pid instance p lock started cause) accounted.
Proof.
  intros w Hm Hp. unfold undo_reservation. rewrite bind_run.
  set (held := if started then None else lock).
  pose proof (closeRejectedPreparation_absent m pid instance None held w Hm) as Hab.
  pose proof (present_kept _ _ (mark_closeRejectedPreparation p pid instance held w) Hp) as Hp1.
  pose proof (moves_machine _ _ _ Hm (evolves_moves m _ _ (evolves_closeRejectedPreparation m pid instance None held w))) as Hm1.
  destruct (closeRejectedPreparation pid instance None held w) as [[pending [err|]] w1]; cbn [fst snd] in *;
    [|by split_and!; [..|right; right; apply Hab]].
  rewrite bind_run. cbv [with_runtime modify]. cbn [fst snd mret M_ret]. destruct Hp1 as [Hlt [rt Hrt]].
  split_and!; [done| |].
  - split; [done|]. simpl. rewrite lookup_alter_eq, Hrt. by eexists.
  - destruct (pending || _) eqn:E; [right; left|by left]. unfold runtime_at. cbn. by rewrite lookup_alter_eq, Hrt.
Qed.

Lemma mark_stop runtime r : along (keeps_mark p) (stop_supervisor runtime r).
Proof.
  unfold stop_supervisor, supervisor_done, kill_supervisor, CloseUngranted.
  along_walk.
Qed.

Lemma evolves_stop runtime r : along (evolves m) (stop_supervisor runtime r).
Proof. unfold stop_supervisor, supervisor_done, kill_supervisor. along_walk. Qed.

Lemma settles_return_failed instance r lock started cause : settles (return_failed pid instance p r lock started cause).
Proof.
  unfold return_failed, rollback.
  assert (forall q : IO error, runs_to q accounted -> settles (e ← q; mret (Some p, Some e))) as Hret.
  { intros q Hq w Hm Hp. rewrite bind_run. simpl. destruct (Hq w Hm Hp) as (? & ? & ?).
    split_and!; [done|done|right; by eauto]. }
  apply Hret. apply runs_to_after; [by intros; eapply accounted_before|destruct started; unfold markDone; along_walk..|].
  intros _. apply runs_to_after; [by intros; eapply accounted_before|..].
  - destruct started; [apply evolves_stop|along_walk].
  - destruct started; [apply mark_stop|along_walk].
  - intros [stopErr|_]; [|apply undo_accounted]. intros w Hm Hp. by split_and!; [..|left].
Qed.
End Undone.

(** Splits [settles] along the program. *)
Ltac settles_step :=
  lazymatch goal with
  | |- forall _, _ => intros
  | |- runs_to _ _ (return_failed _ _ _ _ _ _ _) _ => apply settles_return_failed
  | |- runs_to _ _ (mret (Some _, None)) _ => apply settles_done
  | |- runs_to _ _ (_ ≫= _) _ => apply settles_after
  | |- runs_to _ _ (match ?x with _ => _ end) _ => destruct x
  end.

Section Settled.
Context {RC : ReportCodec} {CC : ClientCodec} {U : Unicode} {LC : LaunchCodec} (m : MachineStore).

Lemma mark_wait_ready p n r : along (keeps_mark p) (wait_ready n r).
Proof.
  induction n; cbn [wait_ready]; unfold Status;
    along_walk.
Qed.

Lemma mark_RelinquishInherited p l : along (keeps_mark p) (RelinquishInherited l).
Proof. unfold RelinquishInherited. along_walk. Qed.

#[local] Hint Resolve mark_RelinquishInherited mark_wait_ready : recon.

Lemma prepare_started_settles a instance p r lock :
  runs_to m p (prepare_started a instance p r lock) (settled_result (as_ID a) p).
Proof.
  unfold prepare_started, waitReady, runner_prepare, kill_supervisor. repeat settles_step; along_walk.
Qed.

Lemma start_supervisor_settles a instance path p r lock :
  runs_to m p (start_supervisor a instance path p r lock) (settled_result (as_ID a) p).
Proof.
  assert (forall q pid, along (keeps_mark p) (with_runtime q (set_supervisorPID pid))) as Hpid
    by (intros; by apply mark_with_runtime).
  unfold start_supervisor, draw, PrepareChildInheritance, spawn_supervisor.
  repeat first [ apply prepare_started_settles | settles_step ]; along_walk.
Qed.

Lemma prepare_locked_settles machine a instance token p r lock :
  runs_to m p (prepare_locked machine a instance token p r lock) (settled_result (as_ID a) p).
Proof.
  unfold prepare_locked, writeSupervisorIdentityBootstrap, removeSupervisorIdentityBootstrap.
  repeat first [ apply settles_before; [apply start_supervisor_settles|..] | settles_step ]; along_walk.
Qed.

Lemma prepare_reserved_settles machine a instance token p r :
  runs_to m p (prepare_reserved machine a instance token p r) (settled_result (as_ID a) p).
Proof.
  unfold prepare_reserved.
  repeat first [ apply settles_before; [apply prepare_locked_settles|..] | settles_step ]; along_walk.
Qed.
End Settled.

(** ** A preparation that succeeds *)

(** An event that is not about a lock. *)
Definition lockless (e : Event) : Prop :=
  match e with ELock _ _ | EUnlock _ | EHandOver _ => False | _ => True end.

Definition marked_prepared (pid instance : string) (l : list Event) : Prop :=
  exists f o, EDb (mkCall (CMarkPrepared pid instance) f (inr o)) ∈ l.

Section HandOver.
Context {RC : ReportCodec} {CC : ClientCodec} {U : Unicode} {LC : LaunchCodec} (m : MachineStore).

(** The locks are left alone. *)
Definition locks_alone (w w' : World) : Prop :=
  machine_of w = inr m ->
  w_locks w' = w_locks w /\ exists l, step_by m l w w' /\ Forall lockless (own l).

Global Instance locks_alone_preorder : PreOrder locks_alone.
Proof.
  split; [intros w Hw; split; [done|]; exists []; split; [by apply step_by_refl|constructor]|].
  intros w1 w2 w3 H1 H2 Hw. destruct (H1 Hw) as (L1 & l1 & S1 & F1).
  destruct (H2 (proj1 S1)) as (L2 & l2 & S2 & F2). split; [congruence|]. exists (l1 ++ l2).
  split; [by eapply step_by_trans|]. rewrite own_app. by apply Forall_app.
Qed.

Lemma alone_does {A} (q : IO A) Q :
  does m q Q -> (forall a l, Q a l -> Forall lockless l) -> along calmly q -> along locks_alone q.
Proof.
  intros Hd HQ Hc w Hw. split; [apply (calm_locks _ _ (Hc w))|]. destruct (Hd w Hw) as (l & S & H). eauto.
Qed.

Lemma alone_next_reply : along locks_alone next_reply.
Proof. eapply alone_does; [apply does_next_reply|by intros a l ->; constructor|apply calm_next_reply]. Qed.
Lemma alone_ext x : along locks_alone (ext x).
Proof. eapply alone_does; [apply does_ext|by intros a l ->; repeat constructor|apply calm_ext]. Qed.
Lemma alone_runner_call r c : along locks_alone (runner_call r c).
Proof. eapply alone_does; [apply does_runner_call|by intros a l ->; repeat constructor|apply calm_runner_call]. Qed.
Lemma alone_db_do c : wf_cmd c -> along locks_alone (db_do c).
Proof.
  intros H. eapply alone_does; [by apply does_db_do|intros a l (f & o & -> & _); by repeat constructor|apply calm_db_do].
Qed.
Lemma alone_stateStore : along locks_alone stateStore.
Proof. eapply alone_does; [apply does_stateStore|by intros a l ->; constructor|apply calm_stateStore]. Qed.
Lemma alone_machineStore : along locks_alone machineStore.
Proof. intros w. done. Qed.
Lemma alone_modify f :
  (forall w, w_db (f w) = w_db w /\ w_cfg (f w) = w_cfg w /\ w_bootstrap (f w) = w_bootstrap w
     /\ w_log (f w) = w_log w /\ w_locks (f w) = w_locks w) ->
  along locks_alone (modify f).
Proof.
  intros H w Hw. split; [apply H|].
  destruct (does_modify m f) with (w := w) as (l & S & E); [intros v; by destruct (H v) as (?&?&?&?&?)|done|].
  exists l. split; [exact S|]. unfold quietly in E. rewrite E. constructor.
Qed.
End HandOver.

#[export] Hint Resolve alone_next_reply alone_ext alone_runner_call alone_stateStore alone_machineStore : recon.
#[export] Hint Extern 1 (along (locks_alone _) (modify _)) => apply alone_modify; done : recon.
#[export] Hint Extern 1 (along (locks_alone _) (with_runner _ _)) => apply alone_modify; done : recon.
#[export] Hint Extern 1 (along (locks_alone _) (with_runtime _ _)) => apply alone_modify; done : recon.
#[export] Hint Extern 1 (along (locks_alone _) (db_do _)) => apply alone_db_do; done : recon.

Section Prepared.
Context {RC : ReportCodec} {CC : ClientCodec} {U : Unicode} {LC : LaunchCodec} (m : MachineStore).

Lemma return_failed_fails pid instance p r lock started cause w :
  (return_failed pid instance p r lock started cause w).1.2 <> None.
Proof. unfold return_failed. by rewrite bind_run. Qed.

Lemma alone_waitReady r : along (locks_alone m) (waitReady r).
Proof.
  unfold waitReady. apply along_bind; [apply _|eauto with recon|]. intros rp.
  generalize (rp_sleeps rp). intros n. induction n; cbn [wait_ready]; unfold Status; along_walk.
Qed.

Lemma alone_runner_prepare r a : along (locks_alone m) (runner_prepare r a).
Proof. unfold runner_prepare. along_walk. Qed.

Lemma alone_removeBootstrap machine pid instance :
  along (locks_alone m) (removeSupervisorIdentityBootstrap machine pid instance).
Proof. unfold removeSupervisorIdentityBootstrap. along_walk. Qed.

Lemma alone_writeBootstrap b dir : along (locks_alone m) (writeSupervisorIdentityBootstrap b dir).
Proof. unfold writeSupervisorIdentityBootstrap. along_walk. Qed.

Lemma alone_draw : along (locks_alone m) draw.
Proof. unfold draw. along_walk. Qed.

Lemma alone_canonical a : along (locks_alone m) (canonical a).
Proof.
  unfold canonical, canonicalProcessCwd, ExpandHomeRelativePath, Abs, draw. along_walk.
Qed.

(** Runs of [q] from a state in which the daemon holds the lock (or has handed it over)
    that return no error: their own calls, and the lock is handed over at the end. *)
Context (lock : nat) (path : string).

Definition succeeding (holds : bool) (q : IO (option nat * option error)) (P : list Event -> Prop) : Prop :=
  forall w, machine_of w = inr m -> w_locks w !! lock = Some (mkLock holds path) -> (q w).1.2 = None ->
  exists l, step_by m l w (q w).2 /\ P (own l) /\ w_locks (q w).2 !! lock = Some (mkLock false path).

Lemma succeeding_never holds q P : (forall w, (q w).1.2 <> None) -> succeeding holds q P.
Proof. intros H w _ _ E. by apply H in E. Qed.

Lemma succeeding_done r (P : list Event -> Prop) : P [] -> succeeding false (mret r) P.
Proof. intros HP w Hw HL _. exists []. split_and!; [by apply step_by_refl|done|done]. Qed.

Lemma succeeding_then {A} holds (q : IO A) k (P : list Event -> Prop) :
  along (locks_alone m) q -> (forall a, succeeding holds (k a) P) ->
  (forall l1 l2, Forall lockless l1 -> P l2 -> P (l1 ++ l2)) -> succeeding holds (q ≫= k) P.
Proof.
  intros Hq Hk HP w Hw HL E. rewrite bind_run in *. destruct (Hq w Hw) as (HL1 & l1 & S1 & F1).
  rewrite <- HL1 in HL. destruct (Hk _ _ (proj1 S1) HL E) as (l2 & S2 & P2 & L2). exists (l1 ++ l2).
  split_and!; [by eapply step_by_trans|rewrite own_app; by apply HP|done].
Qed.

(** The calls after the hand-over, and from before it. *)
Definition finished (pid instance : string) (l : list Event) : Prop :=
  Forall lockless l /\ marked_prepared pid instance l.

Definition handed (pid instance : string) (l : list Event) : Prop :=
  exists l1 l2, l = l1 ++ EHandOver lock :: l2 /\ Forall lockless l1 /\ finished pid instance l2.

Definition launched (pid instance : string) (l : list Event) : Prop :=
  exists l1 argv env l2, l = l1 ++ EExt (XSpawn argv env) None :: l2 /\ Forall lockless l1
    /\ handed pid instance l2.

Lemma finished_app pid instance l1 l2 :
  Forall lockless l1 -> finished pid instance l2 -> finished pid instance (l1 ++ l2).
Proof.
  intros H1 [H2 (f & o & H)]. split; [by apply Forall_app|]. exists f, o. apply elem_of_app. by right.
Qed.
Lemma handed_app pid instance l1 l2 :
  Forall lockless l1 -> handed pid instance l2 -> handed pid instance (l1 ++ l2).
Proof.
  intros H1 (k1 & k2 & -> & ? & ?). exists (l1 ++ k1), k2. rewrite List.app_assoc. split_and!; [done|by apply Forall_app|done].
Qed.
Lemma launched_app pid instance l1 l2 :
  Forall lockless l1 -> launched pid instance l2 -> launched pid instance (l1 ++ l2).
Proof.
  intros H1 (k1 & argv & env & k2 & -> & ? & ?). exists (l1 ++ k1), argv, env, k2. rewrite List.app_assoc.
  split_and!; [done|by apply Forall_app|done].
Qed.

(** The last call. *)
Lemma succeeding_marked pid instance k :
  (forall e, succeeding false (k (Some e)) (finished pid instance)) ->
  succeeding false (k None) (fun l => l = []) ->
  succeeding false (err ← db_do (CMarkPrepared pid instance); k err) (finished pid instance).
Proof.
  intros H1 H2 w Hw HL E. rewrite bind_run in *.
  destruct (does_db_do m (CMarkPrepared pid instance) I w Hw) as (l1 & S1 & f & o & El & Eerr).
  pose proof (calm_locks _ _ (calm_db_do (CMarkPrepared pid instance) w)) as HL1. rewrite <- HL1 in HL.
  destruct (db_do (CMarkPrepared pid instance) w) as [err w1]. cbn [fst snd] in *.
  assert (Forall lockless (own l1)) as F1 by (rewrite El; by repeat constructor).
  destruct err as [e|].
  - destruct (H1 e w1 (proj1 S1) HL E) as (l2 & S2 & P2 & L2). exists (l1 ++ l2).
    split_and!; [by eapply step_by_trans|rewrite own_app; by apply finished_app|done].
  - destruct o as [?|o]; [done|]. destruct (H2 w1 (proj1 S1) HL E) as (l2 & S2 & P2 & L2). exists (l1 ++ l2).
    split_and!; [by eapply step_by_trans| |done]. rewrite own_app, P2, List.app_nil_r. split; [done|].
    exists f, o. rewrite El. by left.
Qed.

(** The hand-over. *)
Lemma succeeding_relinquish pid instance k :
  (forall err, succeeding false (k err) (finished pid instance)) ->
  succeeding true (err ← RelinquishInherited lock; k err) (handed pid instance).
Proof.
  intros Hk w Hw HL E. rewrite bind_run in *. revert E. unfold RelinquishInherited. rewrite M_get_bind, HL.
  rewrite bind_run. destruct (alone_next_reply m w Hw) as (HL1 & l1 & S1 & F1).
  destruct (next_reply w) as [rp w1]. cbn [fst snd] in *. rewrite !bind_run. cbv [modify log mret M_ret]. cbn [fst snd].
  intros E. match type of E with (k _ ?w2).1.2 = None => set (w2' := w2) in * end.
  assert (step_by m [EHandOver lock] w1 w2') as S2.
  { split_and!; [exact (proj1 S1)|done|constructor]. }
  destruct (Hk (rp_err rp) w2' (proj1 S2)) as (l2 & S3 & P3 & L3); [by apply lookup_insert_eq|done|].
  exists (l1 ++ [EHandOver lock] ++ l2).
  split_and!; [eapply step_by_trans; [done|by eapply step_by_trans]| |done].
  rewrite !own_app. by exists (own l1), (own l2).
Qed.

(** The start of the supervisor. *)
Lemma succeeding_spawn pid instance argv env k :
  (forall e, succeeding true (k (inl e)) (launched pid instance)) ->
  (forall n, succeeding true (k (inr n)) (handed pid instance)) ->
  succeeding true (r ← spawn_supervisor argv env; k r) (launched pid instance).
Proof.
  intros H1 H2 w Hw HL E. rewrite bind_run in *. revert E. unfold spawn_supervisor.
  rewrite bind_run. destruct (alone_next_reply m w Hw) as (HL1 & l1 & S1 & F1).
  destruct (next_reply w) as [rp w1]. cbn [fst snd] in *. rewrite !bind_run. cbv [modify log mret M_ret]. cbn [fst snd].
  set (w2 := add_event _ w1). intros E. rewrite <- HL1 in HL.
  assert (step_by m [EExt (XSpawn argv env) (rp_err rp)] w1 w2) as S2.
  { split_and!; [exact (proj1 S1)|done|constructor]. }
  destruct (rp_err rp) as [e|].
  - destruct (H1 e w2 (proj1 S2) HL E) as (l2 & S3 & P3 & L3).
    exists (l1 ++ [EExt (XSpawn argv env) (Some e)] ++ l2).
    split_and!; [eapply step_by_trans; [done|by eapply step_by_trans]| |done].
    rewrite !own_app. apply launched_app; [done|]. apply launched_app; [by repeat constructor|done].
  - destruct (H2 _ w2 (proj1 S2) HL E) as (l2 & S3 & P3 & L3).
    exists (l1 ++ [EExt (XSpawn argv env) None] ++ l2).
    split_and!; [eapply step_by_trans; [done|by eapply step_by_trans]| |done].
    rewrite !own_app. by exists (own l1), argv, env, (own l2).
Qed.
Lemma launched_snoc pid instance l1 l2 :
  launched pid instance l1 -> Forall lockless l2 -> launched pid instance (l1 ++ l2).
Proof.
  intros (k1 & argv & env & k2 & -> & ? & (k3 & k4 & -> & ? & [? (f & o & H)])) Hs.
  exists k1, argv, env, (k3 ++ EHandOver lock :: k4 ++ l2).
  split_and!; [rewrite <- !List.app_assoc; simpl; by rewrite <- !List.app_assoc|done|]. exists k3, (k4 ++ l2). split_and!; [done|done|].
  split; [by apply Forall_app|]. exists f, o. apply elem_of_app. by left.
Qed.

Lemma succeeding_before {A} pid instance q (s : IO A) :
  succeeding true q (launched pid instance) -> along (locks_alone m) s ->
  succeeding true (r ← q; s;; mret r) (launched pid instance).
Proof.
  intros Hq Hs w Hw HL E. rewrite !bind_run in *. cbn [fst snd mret M_ret] in *.
  destruct (Hq w Hw HL E) as (l1 & S1 & P1 & L1). destruct (Hs (q w).2 (proj1 S1)) as (HL2 & l2 & S2 & F2).
  exists (l1 ++ l2). split_and!; [by eapply step_by_trans|rewrite own_app; by apply launched_snoc|].
  cbn. by rewrite HL2.
Qed.

Lemma prepare_started_succeeds a instance p r :
  succeeding true (prepare_started a instance p r lock) (handed (as_ID a) instance).
Proof.
  unfold prepare_started. apply succeeding_relinquish. intros [e|].
  { apply succeeding_never. intros w. rewrite bind_run. apply return_failed_fails. }
  assert (forall e, succeeding false (return_failed (as_ID a) instance p r (Some lock) true e) (finished (as_ID a) instance))
    as Hfail by (intros; apply succeeding_never; intros; apply return_failed_fails).
  apply succeeding_then; [apply alone_waitReady| |apply finished_app]. intros [e|]; [done|].
  apply succeeding_then; [apply alone_runner_prepare| |apply finished_app]. intros [e|]; [done|].
  apply succeeding_marked; [done|]. by apply succeeding_done.
Qed.

Lemma start_supervisor_succeeds a instance file p r :
  succeeding true (start_supervisor a instance file p r lock) (launched (as_ID a) instance).
Proof.
  assert (forall e, succeeding true (return_failed (as_ID a) instance p r (Some lock) false e) (launched (as_ID a) instance))
    as Hfail by (intros; apply succeeding_never; intros; apply return_failed_fails).
  unfold start_supervisor.
  apply succeeding_then; [apply alone_draw| |apply launched_app]. intros [e|executable]; [done|].
  apply succeeding_then; [along_walk| |apply launched_app]. intros cfg.
  apply succeeding_then; [along_walk| |apply launched_app]. intros [e|]; [done|].
  apply succeeding_then; [unfold PrepareChildInheritance; along_walk| |apply launched_app]. intros [e|fd]; [done|].
  apply succeeding_spawn; [done|]. intros n.
  apply succeeding_then; [along_walk| |apply handed_app]. intros _. apply prepare_started_succeeds.
Qed.

Lemma prepare_locked_succeeds machine a instance token p r :
  succeeding true (prepare_locked machine a instance token p r lock) (launched (as_ID a) instance).
Proof.
  unfold prepare_locked.
  apply succeeding_then; [along_walk| |apply launched_app]. intros cfg.
  apply succeeding_then; [along_walk| |apply launched_app]. intros binding.
  apply succeeding_then; [apply alone_writeBootstrap| |apply launched_app].
  intros [e|file]; [apply succeeding_never; intros; apply return_failed_fails|].
  apply succeeding_before; [apply start_supervisor_succeeds|apply alone_removeBootstrap].
Qed.
End Prepared.

Section Preparation.
Context {RC : ReportCodec} {CC : ClientCodec} {U : Unicode} {LC : LaunchCodec} (m : MachineStore).

(** The own calls of a preparation that succeeded, from its reservation on. *)
Definition prepared (pid instance : string) (l : list Event) : Prop :=
  exists path h l1 l2, LifetimeLockPath m pid = inr path
    /\ l = l1 ++ ELock path (inr h) :: l2 /\ Forall lockless l1 /\ launched h pid instance l2.

Lemma prepared_app pid instance l1 l2 :
  Forall lockless l1 -> prepared pid instance l2 -> prepared pid instance (l1 ++ l2).
Proof.
  intros H (path & h & k1 & k2 & ? & -> & ? & ?). exists path, h, (l1 ++ k1), k2.
  split_and!; [done|by rewrite List.app_assoc|by apply Forall_app|done].
Qed.

Lemma Release_closed h path w : w_locks w !! h = Some (mkLock false path) -> Release h w = (None, w).
Proof. intros H. unfold Release. by rewrite M_get_bind, H. Qed.

Lemma prepare_reserved_succeeds a instance token p r w :
  machine_of w = inr m -> (prepare_reserved m a instance token p r w).1.2 = None ->
  exists l, step_by m l w (prepare_reserved m a instance token p r w).2 /\ prepared (as_ID a) instance (own l).
Proof.
  intros Hw. unfold prepare_reserved. destruct (LifetimeLockPath m (as_ID a)) as [e|path] eqn:Hp; simpl.
  { intros E. by apply return_failed_fails in E. }
  rewrite bind_run. destruct (does_TryAcquire m path w Hw) as (l1 & S1 & H1).
  pose proof (fun h => TryAcquire_handle path w h) as Hh.
  destruct (TryAcquire path w) as [[e|h] w1]; cbn [fst snd] in *; [intros E; by apply return_failed_fails in E|].
  destruct (Hh h eq_refl) as [_ HL]. rewrite !bind_run. intros E. cbn [fst snd mret M_ret] in E |- *.
  destruct (prepare_locked_succeeds m h path m a instance token p r w1 (proj1 S1) HL E) as (l2 & S2 & P2 & L2).
  rewrite (Release_closed h path _ L2). cbn [fst snd].
  exists (l1 ++ l2). split; [by eapply step_by_trans|]. rewrite own_app, H1.
  by exists path, h, [], (own l2).
Qed.

(** ** The outcome of a preparation *)

(** Not the reservation of a process that succeeded. *)
Definition unreserving (e : Event) : Prop :=
  match e with
  | EDb c => match c_cmd c, c_result c with CReserveProcess _, inr _ => False | _, _ => True end
  | _ => True
  end.

(** Without a runtime nothing was reserved.  With one, the process was reserved (the
    last of the calls up to [w1]); then the preparation succeeded, or its failure is
    accounted for, and by what happened after the reservation. *)
Definition outcome (pid : string) (w : World) (r : option nat * option error) (w' : World) : Prop :=
  match r with
  | (None, None) => False
  | (None, Some _) => exists l, step_by m l w w' /\ Forall unreserving (own l)
  | (Some p, err) => exists l1 w1 l2 instance token f o,
      step_by m l1 w w1
      /\ last (own l1) = Some (EDb (mkCall (CReserveProcess (reservation pid instance token)) f (inr o)))
      /\ step_by m l2 w1 w'
      /\ match err with
         | None => prepared pid instance (own l2)
         | Some e => accounted pid p w1 e w'
         end
  end.

Definition comes_out (pid : string) (q : IO (option nat * option error)) : Prop :=
  forall w, machine_of w = inr m -> outcome pid w (q w).1 (q w).2.

Lemma comes_out_error pid e : comes_out pid (mret (None, Some e)).
Proof. intros w Hw. exists []. split; [by apply step_by_refl|constructor]. Qed.

Lemma comes_out_after {A} pid (q : IO A) (k : A -> IO (option nat * option error)) Q :
  does m q Q -> (forall a l, Q a l -> Forall unreserving l /\ comes_out pid (k a)) -> comes_out pid (q ≫= k).
Proof.
  intros Hq Hk w Hw. rewrite bind_run. destruct (Hq w Hw) as (l & S & HQ). destruct (Hk _ _ HQ) as [F Hc].
  pose proof (Hc _ (proj1 S)) as H. destruct (k (q w).1 (q w).2) as [[[p|] err] w']; cbn [fst snd] in *.
  - destruct H as (l1 & w1 & l2 & instance & token & f & o & S1 & Hl & S2 & H).
    exists (l ++ l1), w1, l2, instance, token, f, o. split_and!; [by eapply step_by_trans| |done|done].
    rewrite own_app, last_app, Hl. done.
  - destruct err as [e|]; [|done]. destruct H as (l2 & S2 & F2). exists (l ++ l2).
    split; [by eapply step_by_trans|]. rewrite own_app. by apply Forall_app.
Qed.

Lemma comes_out_or_raise {A} pid (q : IO (error + A)) k :
  does m q quietly -> (forall a, comes_out pid (k a)) -> comes_out pid (or_raise q k).
Proof.
  intros Hq Hk. eapply comes_out_after; [exact Hq|]. intros r l ->. split; [constructor|].
  destruct r; [apply comes_out_error|apply Hk].
Qed.

Lemma comes_out_check pid (q : IO (option error)) k Q :
  does m q Q -> (forall a l, Q a l -> Forall unreserving l) -> comes_out pid k -> comes_out pid (check_raise q k).
Proof.
  intros Hq HQ Hk. eapply comes_out_after; [exact Hq|]. intros r l Hl. split; [by eapply HQ|].
  destruct r; [apply comes_out_error|done].
Qed.

Lemma does_draw : does m draw quietly.
Proof.
  apply does_quiet_bind; [apply does_next_reply|]. intros rp. eapply does_mono; [apply does_ret|]. by intros ? l [_ ->].
Qed.

Lemma does_quiet_ret {A} (x : A) : does m (mret x) quietly.
Proof. eapply does_mono; [apply does_ret|]. by intros ? l [_ ->]. Qed.

Lemma does_quiet_raise {A B} (q : IO (error + A)) (k : A -> IO (error + B)) :
  does m q quietly -> (forall a, does m (k a) quietly) -> does m (or_raise q k) quietly.
Proof. intros Hq Hk. apply does_quiet_bind; [done|]. intros [e|a]; [apply does_quiet_ret|apply Hk]. Qed.

(** The canonical assignment is of the same process. *)
Lemma does_canonical a : does m (canonical a) (fun a' l => as_ID a' = as_ID a /\ l = []).
Proof.
  unfold canonical. case_bool_decide; [|eapply does_mono; [apply does_ret|]; by intros ? l [-> ->]].
  apply does_quiet_bind; [|intros [e|cwd]; (eapply does_mono; [apply does_ret|]; by intros ? l [-> ->])].
  unfold canonicalProcessCwd, ExpandHomeRelativePath, Abs.
  repeat (apply does_quiet_raise || apply does_draw || apply does_quiet_ret || intros || case_match).
Qed.

Lemma new_objects_present rn (rt : nat -> Runtime) w :
  machine_of w = inr m ->
  exists r w0 p w1, new_runner rn w = (r, w0) /\ new_runtime (rt r) w0 = (p, w1)
    /\ machine_of w1 = inr m /\ step_by m [] w w1 /\ present p w1.
Proof.
  intros Hw. eexists _, _, _, _. split; [reflexivity|]. split; [reflexivity|]. cbn. split; [exact Hw|].
  split; [split_and!; [exact Hw|by rewrite List.app_nil_r|constructor]|].
  split; simpl; [lia|]. rewrite lookup_insert_eq. by eexists.
Qed.

(** With the reservation made. *)
Lemma reserved_comes_out a instance token rn (rt : nat -> Runtime) w :
  machine_of w = inr m ->
  let q := (runner ← new_runner rn; runtime ← new_runtime (rt runner);
            prepare_reserved m a instance token runtime runner) in
  exists l2, step_by m l2 w (q w).2 /\
    match (q w).1 with
    | (Some p, None) => prepared (as_ID a) instance (own l2)
    | (Some p, Some e) => accounted (as_ID a) p w e (q w).2
    | (None, _) => False
    end.
Proof.
  intros Hw. cbv zeta. rewrite bind_run.
  destruct (new_objects_present rn rt w Hw) as (r & w0 & p & w1 & -> & E & Hw1 & S1 & Hp). cbn [fst snd].
  rewrite bind_run. cbn [fst snd]. rewrite E. cbn [fst snd].
  destruct (prepare_reserved_settles m m a instance token p r w1 Hw1 Hp) as (Hm2 & Hp2 & [Er|(e & Er & Ha)]); rewrite Er.
  - destruct (prepare_reserved_succeeds a instance token p r w1 Hw1) as (l & S & H); [by rewrite Er|].
    exists l. split; [by eapply (step_by_trans m [] l)|done].
  - destruct (evolves_moves m _ _ (evolves_prepare_reserved m m a instance token p r w1) Hw1) as [l S]. exists l. split; [by eapply (step_by_trans m [] l)|].
    eapply accounted_before; [done| |exact Ha]. intros _. eauto.
Qed.

Lemma Prepare_comes_out a : comes_out (as_ID a) (Prepare a).
Proof.
  unfold Prepare. eapply comes_out_after; [apply does_canonical|]. intros a' l [<- ->]. split; [constructor|].
  clear a. rename a' into a. eapply comes_out_after; [apply does_machineStore|]. intros ? l [-> ->]. split; [constructor|].
  do 2 (eapply comes_out_check; [apply does_ext|intros ? l ->; by repeat constructor|]).
  apply comes_out_or_raise; [apply does_quiet_ret|]. intros endpoint.
  apply comes_out_or_raise; [apply does_draw|]. intros instance.
  apply comes_out_or_raise; [apply does_draw|]. intros token.
  eapply comes_out_check; [apply does_stateStore|intros ? l ->; constructor|].
  intros w Hw. unfold check_raise. rewrite bind_run. set (c := CReserveProcess _).
  destruct (does_db_do m c I w Hw) as (l1 & S1 & f & o & El & Eerr).
  destruct (db_do c w) as [[e|] w1]; cbn [fst snd] in *; destruct o as [?|o]; simplify_eq/=.
  - exists l1. split; [done|]. rewrite El. by repeat constructor.
  - match goal with |- context [mbind ?k (new_runner ?rn) w1] =>
      destruct (reserved_comes_out a instance token rn
        (fun r => mkRuntime (as_ID a) instance 0 (Some r) false false) w1 (proj1 S1)) as (l2 & S2 & H) end.
    cbv zeta in S2, H.
    match type of H with match (?q w1).1 with _ => _ end => destruct (q w1) as [[[p|] err] w2] end; [|done].
    exists l1, w1, l2, instance, token, f, o. cbn [fst snd] in *. split_and!; [done|by rewrite El|done|].
    by destruct err.
Qed.
End Preparation.

(** ** Theorems *)

(** C30: a preparation returns no runtime only when it reserved nothing. After it
    reserved the process it either succeeds, and then it took the lifetime lock before
    it started the supervisor and handed this lock over to it without ever releasing
    it, and recorded the process as prepared; or it fails, and then its error says
    that the preparation is unresolved, or the runtime is marked for clean-up, or
    after the reservation the database had no row of the process. *)
Theorem preparation_succeeds_or_is_undone {RC : ReportCodec} {CC : ClientCodec} {U : Unicode} {LC : LaunchCodec} m a w :
  machine_of w = inr m -> outcome m (as_ID a) w (Prepare a w).1 (Prepare a w).2.
Proof. apply Prepare_comes_out. Qed.

Local Existing Instance demo_client_codec.
Local Existing Instance ascii_only.
Local Existing Instance demo_launch_codec.

Definition drawn : Reply :=
  mkReply [] [] [] None false 0 1 "s9" [] None processStarted (mkBootstrap "" "") (mkDaemonRuntime "" 0) [].
Definition demo_assignment : ProcessAssignment := mkAssignment "p9" "ls" "" "/tmp" "pipe" [] "" 0 0.
Definition offered_world : World := demo_world empty_db (repeat drawn 60).
Definition prepared_world : (option nat * option error) * World := Prepare demo_assignment offered_world.

(** The supervisor cannot be started: the reservation is undone. *)
Definition unstarted : Reply :=
  mkReply [] [] [] (Some (failure "fork")) false 0 1 "s9" [] None processStarted (mkBootstrap "" "")
    (mkDaemonRuntime "" 0) [].
Definition unstarted_world : World :=
  demo_world empty_db (repeat drawn 9 ++ [unstarted] ++ repeat drawn 60).

Lemma prepared_result : prepared_world.1 = (Some 1%nat, None).
Proof. vm_compute. reflexivity. Qed.

Example unstarted_is_undone :
  let r := Prepare demo_assignment unstarted_world in
  r.1.1 = Some 1%nat /\ r.1.2 <> None
  /\ existsb (fun e => match e with EExt (XSpawn _ _) (Some _) => true | _ => false end) (w_log r.2) = true
  /\ db_processes (w_db r.2) !! "p9" = None.
Proof. vm_compute. split_and!; done. Qed.

Lemma preparation_succeeds_or_is_undone_witness :
  prepared_world.1 = (Some 1%nat, None)
  /\ exists w1 instance l2,
       step_by demo_machine l2 w1 prepared_world.2 /\ prepared demo_machine "p9" instance (own l2).
Proof.
  split; [apply prepared_result|].
  assert (outcome demo_machine "p9" offered_world prepared_world.1 prepared_world.2) as H
    by exact (preparation_succeeds_or_is_undone demo_machine demo_assignment offered_world eq_refl).
  rewrite prepared_result in H. destruct H as (l1 & w1 & l2 & instance & token & f & o & _ & _ & S & H).
  exists w1, instance, l2. split; [exact S|exact H].
Defined.
