(* ===== verification/SocketWorld.v ===== *)
(** * The daemon's connection: goroutines, channels, critical sections

    A connection of the daemon ([daemonSocketTransport] in
    [internal/machinedaemon/client_socket.go]) is a loop that reads messages and
    timers, and workers it starts: the writer, the reader, the report outbox, one
    worker per process being prepared, started or closed, one per process with
    granted actions.  This file holds what their programs are made of.

    A program is an interaction tree over [SockE]; its loops need not end.  One node
    is one atomic step: a critical section ([Crit]) of [t.mu], [c.processMu] or
    [t.workersMu], or an operation on a channel that does not wait; starting a
    worker; a send or receive that waits; a call of the state database; a call that
    leaves the connection ([Outside]), which the environment answers.  No critical
    section waits for anything, so that a section is one step.

    The objects behind Go's pointers are numbered by allocation: pending processes,
    action queues, channels of report waiters, runtimes.

    [move] runs one step of one goroutine against one reply, or lets somebody else
    write the database or take an entry out of the process table, or ends the context
    of the connection.  The theorems hold for all sequences of moves.  The log is not
    read by any program; [note] marks the passages the theorems speak about. *)
From ITree Require Import ITree.
From S2P Require Import Prelude GoStrings DaemonProtocol ProcessCmd DaemonMessages LocalPaths.
From S2P Require Import StateSchema StateQueries StateTx StateReport StateProcess StateAction.
From S2P Require Import StateTrace StateOutbox LocalStore ClientWorld.
From stdpp Require Import options.
Local Open Scope Z_scope.

(** ** Data *)

Record pendingProcess : Type := mkPending {
  pn_runtime : option nat;
  pn_accepted : bool;
  pn_closing : bool;
  pn_terminationReason : string;
  pn_terminationApplied : bool
}.

(** [ac_processState] is [ProcessStateOther ""] when it is not set. *)
Record pendingAction : Type := mkPendingAction {
  pac_processID : string;
  pac_action : ProcessAction;
  pac_processState : ProcessState;
  pac_defaultOutputCursor : Z;
  pac_enqueued : bool
}.

Definition sendCapacity : nat := 128.

(** The goroutines.  A job carries the values its closure captures. *)
Inductive Job : Type :=
  | JRun
  | JWrite
  | JReplay (forced : gset string)
  | JFinalize
  | JRead
  | JStorageReady (runtime : nat)
  | JCloseRejected (processID : string) (pending : nat)
  | JPrepare (assignment : ProcessAssignment) (pending : nat)
  | JStart (processID : string) (pending : nat)
  | JQueue (processID : string) (queue : nat)
  | JTerminate (processID : string) (runtime : nat)
  | JSkill (offer : SkillOffer).

(** What the steps leave in the log. *)
Inductive Ev : Type :=
  | VRecv (m : Message)                                   (**r the loop took a message *)
  | VSend (m : Message)                                   (**r a message was queued for sending *)
  | VDb (t : nat) (c : Call)                              (**r a write of the connection *)
  | VOther (c : Call)                                     (**r a write of somebody else *)
  | VRow (t : nat) (actionID : string) (found : bool)     (**r a read of an action's row *)
  | VPrepared (processID : string) (pending runtime : nat)
  | VStart (t runner : nat)
  | VTerminate (t runner : nat) (reason : string)
  | VApply (t : nat) (processID actionID : string)
  | VEnqueue (processID actionID : string)
  | VDequeue (processID actionID : string)
  | VAnswer (t : nat) (reportID : string) (ack : daemonReportAck)
  | VWaited                                               (**r every worker had returned *)
  | VReturn (acknowledged : bool) (err : option error).   (**r [Run] returned *)

(** Under [t.mu], and the process table under [c.processMu].  A waiter's channel has
    room for one acknowledgement; [t_acks] also says whose report it waits for. *)
Record Mem : Type := mkMem {
  t_pendingProcesses : gmap string nat;
  t_pendings : gmap nat pendingProcess;
  t_pendingActions : gmap string pendingAction;
  t_actionQueues : gmap string nat;
  t_queues : gmap nat (list string);
  t_reportAcks : gmap string (list nat);
  t_acks : gmap nat (string * option daemonReportAck);
  t_processes : gmap string nat;
  t_runtimes : gmap nat Runtime;
  t_fresh : nat
}.

(** Channels and flags.  [ch_messages] is the message the reader stands at its
    unbuffered channel with. *)
Record Chans : Type := mkChans {
  ch_stopping : bool;
  ch_cancelled : bool;
  ch_done : bool;
  ch_send : list Message;
  ch_fatal : option error;
  ch_messages : option Message;
  ch_readDone : option error;
  ch_writeDone : option error;
  ch_skillsync : bool
}.

Record Shared : Type := mkShared { s_mem : Mem; s_chans : Chans; s_db : DB; s_log : list Ev }.

Section Setters.
Definition on_mem (f : Mem -> Mem) (s : Shared) : Shared :=
  mkShared (f (s_mem s)) (s_chans s) (s_db s) (s_log s).
Definition on_chans (f : Chans -> Chans) (s : Shared) : Shared :=
  mkShared (s_mem s) (f (s_chans s)) (s_db s) (s_log s).
Definition on_db (x : DB) (s : Shared) : Shared := mkShared (s_mem s) (s_chans s) x (s_log s).
Definition on_log (e : Ev) (s : Shared) : Shared :=
  mkShared (s_mem s) (s_chans s) (s_db s) (s_log s ++ [e]).

Implicit Types (m : Mem) (c : Chans).
Definition with_pendingProcesses (f : gmap string nat -> gmap string nat) m : Mem :=
  mkMem (f (t_pendingProcesses m)) (t_pendings m) (t_pendingActions m) (t_actionQueues m) (t_queues m)
    (t_reportAcks m) (t_acks m) (t_processes m) (t_runtimes m) (t_fresh m).
Definition with_pendings (f : gmap nat pendingProcess -> gmap nat pendingProcess) m : Mem :=
  mkMem (t_pendingProcesses m) (f (t_pendings m)) (t_pendingActions m) (t_actionQueues m) (t_queues m)
    (t_reportAcks m) (t_acks m) (t_processes m) (t_runtimes m) (t_fresh m).
Definition with_pendingActions (f : gmap string pendingAction -> gmap string pendingAction) m : Mem :=
  mkMem (t_pendingProcesses m) (t_pendings m) (f (t_pendingActions m)) (t_actionQueues m) (t_queues m)
    (t_reportAcks m) (t_acks m) (t_processes m) (t_runtimes m) (t_fresh m).
Definition with_actionQueues (f : gmap string nat -> gmap string nat) m : Mem :=
  mkMem (t_pendingProcesses m) (t_pendings m) (t_pendingActions m) (f (t_actionQueues m)) (t_queues m)
    (t_reportAcks m) (t_acks m) (t_processes m) (t_runtimes m) (t_fresh m).
Definition with_queues (f : gmap nat (list string) -> gmap nat (list string)) m : Mem :=
  mkMem (t_pendingProcesses m) (t_pendings m) (t_pendingActions m) (t_actionQueues m) (f (t_queues m))
    (t_reportAcks m) (t_acks m) (t_processes m) (t_runtimes m) (t_fresh m).
Definition with_reportAcks (f : gmap string (list nat) -> gmap string (list nat)) m : Mem :=
  mkMem (t_pendingProcesses m) (t_pendings m) (t_pendingActions m) (t_actionQueues m) (t_queues m)
    (f (t_reportAcks m)) (t_acks m) (t_processes m) (t_runtimes m) (t_fresh m).
Definition with_acks (f : gmap nat (string * option daemonReportAck) ->
    gmap nat (string * option daemonReportAck)) m : Mem :=
  mkMem (t_pendingProcesses m) (t_pendings m) (t_pendingActions m) (t_actionQueues m) (t_queues m)
    (t_reportAcks m) (f (t_acks m)) (t_processes m) (t_runtimes m) (t_fresh m).
Definition with_processes (f : gmap string nat -> gmap string nat) m : Mem :=
  mkMem (t_pendingProcesses m) (t_pendings m) (t_pendingActions m) (t_actionQueues m) (t_queues m)
    (t_reportAcks m) (t_acks m) (f (t_processes m)) (t_runtimes m) (t_fresh m).
Definition with_runtimes (f : gmap nat Runtime -> gmap nat Runtime) m : Mem :=
  mkMem (t_pendingProcesses m) (t_pendings m) (t_pendingActions m) (t_actionQueues m) (t_queues m)
    (t_reportAcks m) (t_acks m) (t_processes m) (f (t_runtimes m)) (t_fresh m).
Definition next_fresh m : Mem :=
  mkMem (t_pendingProcesses m) (t_pendings m) (t_pendingActions m) (t_actionQueues m) (t_queues m)
    (t_reportAcks m) (t_acks m) (t_processes m) (t_runtimes m) (S (t_fresh m)).

Definition with_stopping (x : bool) c : Chans :=
  mkChans x (ch_cancelled c) (ch_done c) (ch_send c) (ch_fatal c) (ch_messages c) (ch_readDone c)
    (ch_writeDone c) (ch_skillsync c).
Definition with_cancelled (x : bool) c : Chans :=
  mkChans (ch_stopping c) x (ch_done c) (ch_send c) (ch_fatal c) (ch_messages c) (ch_readDone c)
    (ch_writeDone c) (ch_skillsync c).
Definition with_done (x : bool) c : Chans :=
  mkChans (ch_stopping c) (ch_cancelled c) x (ch_send c) (ch_fatal c) (ch_messages c) (ch_readDone c)
    (ch_writeDone c) (ch_skillsync c).
Definition with_send (x : list Message) c : Chans :=
  mkChans (ch_stopping c) (ch_cancelled c) (ch_done c) x (ch_fatal c) (ch_messages c) (ch_readDone c)
    (ch_writeDone c) (ch_skillsync c).
Definition with_fatal (x : option error) c : Chans :=
  mkChans (ch_stopping c) (ch_cancelled c) (ch_done c) (ch_send c) x (ch_messages c) (ch_readDone c)
    (ch_writeDone c) (ch_skillsync c).
Definition with_messages (x : option Message) c : Chans :=
  mkChans (ch_stopping c) (ch_cancelled c) (ch_done c) (ch_send c) (ch_fatal c) x (ch_readDone c)
    (ch_writeDone c) (ch_skillsync c).
Definition with_readDone (x : option error) c : Chans :=
  mkChans (ch_stopping c) (ch_cancelled c) (ch_done c) (ch_send c) (ch_fatal c) (ch_messages c) x
    (ch_writeDone c) (ch_skillsync c).
Definition with_writeDone (x : option error) c : Chans :=
  mkChans (ch_stopping c) (ch_cancelled c) (ch_done c) (ch_send c) (ch_fatal c) (ch_messages c)
    (ch_readDone c) x (ch_skillsync c).
Definition with_skillsync (x : bool) c : Chans :=
  mkChans (ch_stopping c) (ch_cancelled c) (ch_done c) (ch_send c) (ch_fatal c) (ch_messages c)
    (ch_readDone c) (ch_writeDone c) x.
End Setters.

(** ** Effects *)

(** How [websocket.Dial] ended. *)
Inductive Dialled : Type := DialOk | DialStatus (code : Z) (err : error) | DialFailed (err : error).

(** Calls that leave the connection.  [closeRejectedPreparation] and
    [verifyProcessSupervisors] are the methods of [Client] (Reconciliation.v),
    [Prepare] the launcher's; a runner's methods are answered by its
    supervisor. *)
Inductive Outside : Type -> Type :=
  | Dial : Outside Dialled
  | CloseConn : Outside unit
  | SocketRead : Outside (error + Message)
  | SocketWrite (m : Message) : Outside (option error)
  | Ping : Outside (option error)
  | ResetTimer (delay : Z) : Outside unit
  | OpenStore : Outside (option error)                                (**r [c.stateStore] *)
  | Prepare (a : ProcessAssignment) : Outside (option (string * Z * bool) * option error)
  | CloseRejected (processID instance : string) (runtime : nat) : Outside (bool * option error)
  | VerifySupervisors : Outside (option error)
  | FinalizeReleased : Outside (option error)
  | StartOnce (runner : nat) : Outside (option error)
  | Terminate (runner : nat) (reason : string) : Outside (option error)
  | ApplyOnce (runner : nat) (processID : string) (action : ProcessAction) : Outside (option error)
  | IsDone (runner : nat) : Outside bool
  | RunnerReady (runner : option nat) : Outside bool
  | ReadyRunners : Outside (list nat * list nat)                      (**r ready runners; an order *)
  | LocateProcessDir (processID : string) : Outside (option error)   (**r [machineStore], [ProcessDir] *)
  | OpenRoot (processID : string) : Outside (option error)
  | ReadSnapshot (processID : string) (cursor maxBytes : Z) : Outside (error + (string * Z * Z * bool))
  | BeforeDeadline : Outside bool
  | NewUUID : Outside string
  | MapOrder : Outside (list nat)
  | SleepEnabled : Outside bool
  | SkillStore : Outside (option error)
  | SkillsIdle : Outside bool
  | InstallSkill (offer : SkillOffer) : Outside (option (string * string)).  (**r [Manager.install]: a failure's code and text *)

(** A select that returned: which case. *)
Inductive AckWait : Type := WContext | WDone | WAck (ack : daemonReportAck).
Inductive Selected : Type :=
  | SelContext | SelFatal (err : error) | SelHeartbeat | SelWriteDone (err : error)
  | SelReadDone (err : error) | SelIdle (now : Z) | SelMessage (m : Message).
Inductive ToWrite : Type := WrContext | WrPing | WrMessage (m : Message).

Inductive SockE : Type -> Type :=
  | Crit {A : Type} (section : M Shared A) : SockE A
  | Launch (j : Job) : SockE bool                            (**r [launchWorker] *)
  | Deliver (waiter : nat) (ack : daemonReportAck) : SockE unit
  | AwaitAck (waiter : nat) : SockE AckWait
  | HandOver (m : Message) : SockE unit                      (**r to stand at [messages] *)
  | AwaitTaken : SockE bool                                  (**r [false]: the context ended *)
  | Select (idleTick : bool) : SockE Selected
  | SelectWrite : SockE ToWrite
  | SleepContext : SockE bool                                (**r [false]: the context ended *)
  | CtxDone : SockE bool
  | WaitWorkers : SockE unit
  | DbWrite (c : string -> Cmd) : SockE (error + Outcome)
  | DbAction (actionID : string) : SockE (error + option Action)
  | DbProcess (processID : string) : SockE (error + option Process)
  | DbCandidates : SockE (error + list Report)
  | Ask {A : Type} (x : Outside A) : SockE A.

Abbreviation Sock := (itree SockE).
Global Instance Sock_ret : MRet Sock := fun A a => Ret a.
Global Instance Sock_bind : MBind Sock := fun A B f t => ITree.bind t f.

Definition eff {A} (e : SockE A) : Sock A := ITree.trigger e.
Definition crit {A} (section : M Shared A) : Sock A := eff (Crit section).
Definition call {A} (x : Outside A) : Sock A := eff (Ask x).

(** A loop: [inl] goes round again. *)
Definition loop {A B} (body : A -> Sock (A + B)) (a : A) : Sock B := ITree.iter body a.

Fixpoint for_each {A} (l : list A) (body : A -> Sock unit) : Sock unit :=
  match l with
  | [] => mret tt
  | x :: rest => body x;; for_each rest body
  end.

(** ** Replies *)

(** Which case of a select is taken, among those that are ready. *)
Inductive Ready : Type :=
  | RContext | RDone | RAck | RFatal | RHeartbeat | RWriteDone | RReadDone | RIdle (now : Z)
  | RMessage | RPing.

Record TReply : Type := mkTReply {
  tr_err : option error;
  tr_flag : bool;
  tr_z : Z;
  tr_z2 : Z;
  tr_text : string;
  tr_ready : Ready;
  tr_dial : Dialled;
  tr_message : Message;
  tr_runtime : option (string * Z * bool);
  tr_order : list nat;
  tr_ids : list nat;
  tr_faults : Faults;
  tr_uuid : string
}.

Definition treply : TReply :=
  mkTReply None true 0 0 "" RContext DialOk (message MessageHeartbeatAck) None [] [] [] "".

(** The integers of a message that was read are Go integers: a number out of range
    is an error of [encoding/json]. *)
Definition message_in_range (m : Message) : Prop :=
  match m_ActionOffer m with Some o => is_int64 (ao_Seq o) | None => True end.
Global Instance message_in_range_dec m : Decision (message_in_range m).
Proof. unfold message_in_range. destruct (m_ActionOffer m); apply _. Defined.

Definition answer {A} (x : Outside A) (rp : TReply) : A :=
  let sum {B} (b : B) : error + B := match tr_err rp with Some e => inl e | None => inr b end in
  match x in Outside A return A with
  | Dial => tr_dial rp
  | SocketRead =>
      if decide (message_in_range (tr_message rp)) then sum (tr_message rp) else inl (failure "json")
  | Prepare _ =>
      (match tr_runtime rp, tr_err rp with
       | None, None => Some ("", 0, false)     (**r a success comes with a runtime *)
       | made, _ => made
       end, tr_err rp)
  | CloseRejected _ _ _ => (tr_flag rp, tr_err rp)
  | ReadyRunners => (tr_ids rp, tr_order rp)
  | ReadSnapshot _ _ _ => sum (tr_text rp, tr_z rp, tr_z2 rp, tr_flag rp)
  | NewUUID => tr_uuid rp
  | MapOrder => tr_order rp
  | CloseConn | ResetTimer _ => tt
  | InstallSkill _ => match tr_err rp with None => None | Some _ => Some (tr_text rp, tr_uuid rp) end
  | IsDone _ | RunnerReady _ | BeforeDeadline | SleepEnabled | SkillsIdle => tr_flag rp
  | SocketWrite _ | Ping | OpenStore | VerifySupervisors | FinalizeReleased | StartOnce _
  | Terminate _ _ | ApplyOnce _ _ _ | LocateProcessDir _ | OpenRoot _ | SkillStore => tr_err rp
  end.

Definition trace {A} (t : nat) (x : Outside A) : list Ev :=
  match x with
  | StartOnce r => [VStart t r]
  | Terminate r reason => [VTerminate t r reason]
  | ApplyOnce _ pid action => [VApply t pid (pa_ID action)]
  | _ => []
  end.

Definition note (e : Ev) : M Shared unit := modify (on_log e).

(** ** Steps *)

Section Steps.
Context {RC : ReportCodec}.

Definition cancelled (s : Shared) : bool := ch_cancelled (s_chans s).
Definition log_all (l : list Ev) (s : Shared) : Shared := fold_left (fun s e => on_log e s) l s.

(** A read of the database. *)
Definition read_db {A} (op : Op A) (rp : TReply) (s : Shared) : error + A :=
  match fst (op (tr_faults rp) (s_db s)) with inl e => inl [SState e] | inr a => inr a end.

Definition select (idleTick : bool) (rp : TReply) (s : Shared) : option (Selected * Shared) :=
  let c := s_chans s in
  match tr_ready rp with
  | RContext => if ch_cancelled c then Some (SelContext, s) else None
  | RFatal => (fun e => (SelFatal e, on_chans (with_fatal None) s)) <$> ch_fatal c
  | RHeartbeat => Some (SelHeartbeat, s)
  | RWriteDone => (fun e => (SelWriteDone e, on_chans (with_writeDone None) s)) <$> ch_writeDone c
  | RReadDone => (fun e => (SelReadDone e, on_chans (with_readDone None) s)) <$> ch_readDone c
  | RIdle now => if idleTick then Some (SelIdle now, s) else None
  | RMessage =>
      (fun m => (SelMessage m, on_log (VRecv m) (on_chans (with_messages None) s))) <$> ch_messages c
  | RDone | RAck | RPing => None
  end.

Definition select_write (rp : TReply) (s : Shared) : option (ToWrite * Shared) :=
  let c := s_chans s in
  match tr_ready rp with
  | RContext => if ch_cancelled c then Some (WrContext, s) else None
  | RMessage =>
      match ch_send c with
      | m :: rest => Some (WrMessage m, on_chans (with_send rest) s)
      | [] => None
      end
  | _ => Some (WrPing, s)
  end.

Definition await_ack (t waiter : nat) (rp : TReply) (s : Shared) : option (AckWait * Shared) :=
  let c := s_chans s in
  match tr_ready rp with
  | RContext => if ch_cancelled c then Some (WContext, s) else None
  | RDone => if ch_done c then Some (WDone, s) else None
  | RAck =>
      match t_acks (s_mem s) !! waiter with
      | Some (rid, Some ack) =>
          Some (WAck ack,
                on_log (VAnswer t rid ack) (on_mem (with_acks (insert waiter (rid, None))) s))
      | _ => None
      end
  | _ => None
  end.

(** One effect of goroutine [t]; [idle] tells that no worker is left.  [None]: it has
    to wait. *)
Definition perform {A} (t : nat) (idle : bool) (e : SockE A) (rp : TReply) (s : Shared)
    : option (A * Shared * list Job) :=
  let here {B} (r : option (B * Shared)) : option (B * Shared * list Job) :=
    (fun bs => (bs, [])) <$> r in
  match e in SockE A return option (A * Shared * list Job) with
  | Crit section => Some (section s, [])
  | Launch j => Some (negb (ch_stopping (s_chans s)), s, if ch_stopping (s_chans s) then [] else [j])
  | Deliver waiter ack =>
      match t_acks (s_mem s) !! waiter with
      | Some (rid, None) => Some (tt, on_mem (with_acks (insert waiter (rid, Some ack))) s, [])
      | _ => None
      end
  | AwaitAck waiter => here (await_ack t waiter rp s)
  | HandOver m => Some (tt, on_chans (with_messages (Some m)) s, [])
  | AwaitTaken =>
      match ch_messages (s_chans s) with
      | None => Some (true, s, [])
      | Some _ => if cancelled s then Some (false, on_chans (with_messages None) s, []) else None
      end
  | Select idleTick => here (select idleTick rp s)
  | SelectWrite => here (select_write rp s)
  | SleepContext => Some (tr_flag rp || negb (cancelled s), s, [])
  | CtxDone => Some (cancelled s, s, [])
  | WaitWorkers => if idle then Some (tt, on_log VWaited s, []) else None
  | DbWrite c =>
      let cmd := c (tr_uuid rp) in
      let '(r, db') := run_cmd cmd (tr_faults rp) (s_db s) in
      Some (match r with inl e => inl [SState e] | inr o => inr o end,
            on_log (VDb t (mkCall cmd (tr_faults rp) r)) (on_db db' s), [])
  | DbAction actionID =>
      let r := read_db (Store_Action actionID) rp s in
      Some (r, match r with
               | inl _ => s
               | inr found => on_log (VRow t actionID (bool_decide (is_Some found))) s
               end, [])
  | DbProcess processID => Some (read_db (Store_Process processID) rp s, s, [])
  | DbCandidates => Some (read_db DeliveryCandidates rp s, s, [])
  | Ask x => Some (answer x rp, log_all (trace t x) s, [])
  end.

Record Thread : Type := mkThread { th_job : Job; th_prog : Sock unit }.

Record System : Type := mkSystem { y_shared : Shared; y_threads : list Thread }.

Context (body : Job -> Sock unit).

Definition spawn (j : Job) : Thread := mkThread j (body j).

Definition returned (th : Thread) : bool :=
  match observe (th_prog th) with RetF _ => true | _ => false end.

(** [t.workers.Wait()]: the connection's own goroutine is not a worker. *)
Definition workers_gone (threads : list Thread) : bool := forallb returned (tail threads).

Definition step (t : nat) (rp : TReply) (y : System) : option System :=
  match y_threads y !! t with
  | None => None
  | Some th =>
      match observe (th_prog th) with
      | RetF _ => None
      | TauF p => Some (mkSystem (y_shared y) (<[t := mkThread (th_job th) p]> (y_threads y)))
      | VisF e k =>
          match perform t (workers_gone (y_threads y)) e rp (y_shared y) with
          | None => None
          | Some (a, s, new) =>
              Some (mkSystem s (<[t := mkThread (th_job th) (k a)]> (y_threads y) ++ map spawn new))
          end
      end
  end.

Inductive Move : Type :=
  | MStep (t : nat) (rp : TReply)
  | MOther (c : Cmd) (faults : Faults)
  | MGone (processID : string)              (**r an entry leaves the process table *)
  | MCancel.                                (**r the daemon's context ends *)

(** A move that is not possible changes nothing. *)
Definition move (y : System) (m : Move) : System :=
  let on f := mkSystem (f (y_shared y)) (y_threads y) in
  match m with
  | MStep t rp => default y (step t rp y)
  | MOther c faults =>
      if decide (wf_cmd c) then
        on (fun s => let '(r, db') := run_cmd c faults (s_db s) in
                     on_log (VOther (mkCall c faults r)) (on_db db' s))
      else y
  | MGone processID => on (on_mem (with_processes (delete processID)))
  | MCancel => on (on_chans (with_cancelled true))
  end.

Definition execute (l : list Move) (y : System) : System := fold_left move l y.
End Steps.
