(* ===== verification/Socket.v ===== *)
(** * The daemon's connection

    Models [internal/machinedaemon/client_socket.go] and the report side of
    [storage_exhaustion.go]: the loop of a connection, the handlers of the server's
    messages and the workers they start, one definition per function.  A closure that
    a function hands to [launchWorker] is the job of the same name. *)
From ITree Require Import ITree.
From S2P Require Import Prelude GoStrings DaemonProtocol ProcessCmd DaemonMessages LocalPaths.
From S2P Require Import StateSchema StateQueries StateTx StateReport StateProcess StateAction.
From S2P Require Import StateTrace StateOutbox LocalStore ClientWorld Reconciliation SocketWorld.
From stdpp Require Import options.
Local Open Scope Z_scope.

(** [processaction.ReadObservation] *)
Record ReadObservation : Type := mkObservation {
  ro_ProcessID : string;
  ro_Output : string;
  ro_Cursor : Z;
  ro_NextCursor : Z;
  ro_Truncated : bool
}.

Class SocketCodec : Type := {
  marshal_observation : ReadObservation -> option string;
  error_string : error -> string;                          (**r [err.Error()] *)
  observed_platform : string                               (**r [daemonObservedPlatform] *)
}.

(** ** The connection's memory *)

Section Memory.

Definition mem {A} (f : Mem -> A) : M Shared A := get (fun s => f (s_mem s)).
Definition set_mem (f : Mem -> Mem) : M Shared unit := modify (on_mem f).
Definition set_chans (f : Chans -> Chans) : M Shared unit := modify (on_chans f).

Definition pending_zero : pendingProcess := mkPending None false false "" false.
Definition pending_at (p : nat) (m : Mem) : pendingProcess := default pending_zero (t_pendings m !! p).
Definition set_pending (p : nat) (f : pendingProcess -> pendingProcess) : M Shared unit :=
  set_mem (with_pendings (alter f p)).

(** [runtime] pointers are never dangling; the default is not reached. *)
Definition socket_runtime (p : nat) (m : Mem) : Runtime :=
  default (mkRuntime "" "" 0 None false false) (t_runtimes m !! p).

Definition alloc : M Shared nat := h ← mem t_fresh; set_mem next_fresh;; mret h.

(** A new runtime; its runner gets the same number. *)
Definition new_process_runtime (processID instance : string) (pid : Z) (runner cleanupOnly : bool)
    : M Shared nat :=
  h ← alloc;
  set_mem (with_runtimes (insert h
    (mkRuntime processID instance pid (if runner then Some h else None) cleanupOnly false)));;
  mret h.

(** [fail]: the first error wins. *)
Definition fail (err : error) : M Shared unit :=
  set_chans (fun c => match ch_fatal c with None => with_fatal (Some err) c | Some _ => c end).

(** [enqueue]: a send that does not wait. *)
Definition enqueue (m : Message) : M Shared bool :=
  sent ← get (fun s => ch_send (s_chans s));
  if (length sent <? sendCapacity)%nat
  then set_chans (with_send (sent ++ [m]));; note (VSend m);; mret true
  else mret false.

Definition queue_full : error := failure "daemon websocket send queue is full".

Definition enqueue_or_fail (m : Message) : M Shared unit :=
  sent ← enqueue m; if sent : bool then mret tt else fail queue_full.

(** [c.addProcess]; [done] is what the runner's [IsDone] says. *)
Definition add_process (runtime : nat) (done : bool) : M Shared unit :=
  rt ← mem (socket_runtime runtime);
  current ← mem (fun m => (fun q => socket_runtime q m) <$> t_processes m !! rt_processID rt);
  if match current with
     | Some c => rt_cleanupOnly rt && negb (rt_cleanupOnly c)
                 && (rt_supervisorInstanceID c <>? rt_supervisorInstanceID rt)
     | None => false
     end
  then mret tt
  else if rt_cleanupOnly rt || bool_decide (rt_runner rt = None) || negb done
  then set_mem (with_processes (insert (rt_processID rt) runtime))
  else mret tt.

Definition local_process (processID : string) : M Shared (option nat) :=
  mem (fun m => t_processes m !! processID).

(** A live supervisor: [exists && !runtime.cleanupOnly && runtime.runner != nil]. *)
Definition live_process (processID : string) : M Shared (option (nat * nat)) :=
  found ← local_process processID;
  match found with
  | None => mret None
  | Some p =>
      rt ← mem (socket_runtime p);
      mret (if rt_cleanupOnly rt then None else (fun r => (p, r)) <$> rt_runner rt)
  end.
End Memory.

Section Socket.
Context {RC : ReportCodec} {CC : ClientCodec} {PC : PayloadCodec} {SC : SocketCodec}.

(** ** Reports *)

(** Registering a waiter: its channel, and whether it is the first for the report. *)
Definition add_waiter (reportID : string) : M Shared (nat * bool) :=
  waiters ← mem (fun m => default [] (t_reportAcks m !! reportID));
  w ← alloc;
  set_mem (with_acks (insert w (reportID, None)));;
  set_mem (with_reportAcks (insert reportID (waiters ++ [w])));;
  mret (w, bool_decide (waiters = [])).

Fixpoint remove_first (x : nat) (l : list nat) : list nat :=
  match l with
  | [] => []
  | y :: rest => if bool_decide (y = x) then rest else y :: remove_first x rest
  end.

Definition removeReportWaiter (reportID : string) (waiter : nat) : M Shared unit :=
  waiters ← mem (fun m => default [] (t_reportAcks m !! reportID));
  if bool_decide (waiter ∈ waiters) then
    let rest := remove_first waiter waiters in
    set_mem (with_reportAcks
      (if bool_decide (rest = []) then delete reportID else insert reportID rest))
  else mret tt.

Definition take_waiters (reportID : string) : M Shared (list nat) :=
  waiters ← mem (fun m => default [] (t_reportAcks m !! reportID));
  set_mem (with_reportAcks (delete reportID));;
  mret waiters.

Definition failReport (reportID : string) (ack : daemonReportAck) : Sock unit :=
  waiters ← crit (take_waiters reportID);
  for_each waiters (fun waiter => eff (Deliver waiter ack)).

Definition transient (err : string) : daemonReportAck := mkAck AckStatusTransientError "" err.

Definition take_all_waiters : M Shared (gmap string (list nat)) :=
  waiters ← mem t_reportAcks; set_mem (with_reportAcks (fun _ => ∅));; mret waiters.

Definition failAllReports (err : string) : Sock unit :=
  waiters ← crit take_all_waiters;
  order ← call MapOrder;
  for_each (concat (shuffle order (map_to_list waiters).*2))
    (fun waiter => eff (Deliver waiter (transient err))).

Definition ackReport (m : Message) : Sock unit :=
  failReport (m_ReportID m) (mkAck (m_AckStatus m) (m_ErrorCode m) (m_Error m)).

Definition SendReport (report : Report) : Sock (error + daemonReportAck) :=
  if r_ID report ==? "" then mret (inl (failure "daemon report ID is required"))
  else
    match unmarshal_event (r_Body report) with
    | None => mret (inl (failure "json"))
    | Some event =>
        waiter_first ← crit (add_waiter (r_ID report));
        let '(waiter, first) := waiter_first in
        sent ← (if first : bool then crit (enqueue (report_message (r_ID report) (Some event)))
                else mret true);
        (if sent : bool then mret tt
         else failReport (r_ID report) (transient "daemon websocket send queue is full"));;
        answer ← eff (AwaitAck waiter);
        match answer with
        | WContext =>
            crit (removeReportWaiter (r_ID report) waiter);; mret (inl [SContext])
        | WDone => mret (inl (failure "daemon websocket closed before report acknowledgement"))
        | WAck ack => mret (inr ack)
        end
    end.

(** ** The state database *)

Definition busy_loop (operation : Sock (option error)) : Sock (option error) :=
  loop (fun _ : unit =>
    err ← operation;
    match err with
    | None => mret (inr None)
    | Some e =>
        if negb (errors_Is e (SState ErrBusy)) then mret (inr (Some e))
        else
          slept ← eff SleepContext;
          mret (if slept : bool then inl tt else inr (Some [SContext]))
    end) tt.

Definition db_command (c : Cmd) : Sock (option error) :=
  r ← eff (DbWrite (fun _ => c));
  mret (match r with inl e => Some e | inr _ => None end).

(** [c.stateStore] and then a write that is tried again while the database is busy. *)
Definition store_write (c : Cmd) : Sock (option error) :=
  opened ← call OpenStore;
  match opened with
  | Some e => mret (Some e)
  | None => busy_loop (db_command c)
  end.

(** ** storage_exhaustion.go *)

Definition storage_event (processID : string) : ReportedEvent :=
  mkReportedEvent EventProcessFinished processID "" ProcessStateFailed None ""
    "machine_storage_exhausted" "the machine ran out of writable storage" "" 0 0 0.

Definition sendStorageExhaustionReport (processID : string) : Sock (option error) :=
  match marshal_event (storage_event processID) with
  | None => mret (Some (failure "json"))
  | Some body =>
      uuid ← call NewUUID;
      r ← SendReport (mkReport uuid processID "" ReportProcessTerminal body ReportStateUnset "" "");
      mret (match r with
            | inl e => Some e
            | inr ack =>
                match ack_status ack with
                | AckStatusCommitted | AckStatusCleanupOnly => None
                | _ => Some (failure "storage exhaustion report rejected")
                end
            end)
  end.

Definition set_reporting (b : bool) (runtime : nat) : M Shared unit :=
  set_mem (with_runtimes (alter (fun rt =>
    mkRuntime (rt_processID rt) (rt_supervisorInstanceID rt) (rt_supervisorPID rt) (rt_runner rt)
      (rt_cleanupOnly rt) b) runtime)).

(** The first section: [false] when somebody else reports the failure. *)
Definition claim_storage_failure (runtime : nat) : M Shared bool :=
  rt ← mem (socket_runtime runtime);
  current ← mem (fun m => t_processes m !! rt_processID rt);
  if rt_storageFailureReporting rt
     || match current with Some q => bool_decide (q <> runtime) | None => false end
  then mret false
  else
    set_reporting true runtime;;
    match current with
    | None => set_mem (with_processes (insert (rt_processID rt) runtime))
    | Some _ => mret tt
    end;;
    mret true.

Definition forgetResolvedProcessActions (processID : string) : M Shared unit :=
  set_mem (with_pendingActions
    (map_filter (fun ia => pac_processID ia.2 <> processID) _));;
  queue ← mem (fun m => t_actionQueues m !! processID);
  match queue with
  | Some q => set_mem (with_queues (insert q []))
  | None => mret tt
  end.

(** The last section. *)
Definition settle_storage_failure (runtime : nat) (err : option error) : M Shared unit :=
  match err with
  | Some _ => set_reporting false runtime
  | None =>
      rt ← mem (socket_runtime runtime);
      current ← mem (fun m => t_processes m !! rt_processID rt);
      if bool_decide (current = Some runtime) then
        p ← new_process_runtime (rt_processID rt) (rt_supervisorInstanceID rt) 0 false true;
        set_mem (with_processes (insert (rt_processID rt) p))
      else mret tt
  end.

Definition resolve_storage_failure (runtime runner : nat) (processID : string)
    : Sock (bool * option error) :=
  err ← sendStorageExhaustionReport processID;
  match err with
  | Some e => crit (set_reporting false runtime);; mret (true, Some e)
  | None =>
      done ← call (IsDone runner);
      err ← (if done : bool then mret None else call (Terminate runner "server_resolved"));
      match err with
      | None => crit (forgetResolvedProcessActions processID)
      | Some _ => mret tt
      end;;
      crit (settle_storage_failure runtime err);;
      mret (true, err)
  end.

(** [runtime.runner] and the process of the runtime. *)
Definition runner_of_runtime (runtime : option nat) : M Shared (option (nat * nat * string)) :=
  mem (fun m =>
    match runtime with
    | None => None
    | Some p =>
        let rt := socket_runtime p m in (fun r => (p, r, rt_processID rt)) <$> rt_runner rt
    end).

(** From the claim on. *)
Definition report_storage_failure (ready : bool) (runtime runner : nat) (processID : string)
    : Sock (bool * option error) :=
  err ← (if ready then mret None else call (Terminate runner "machine_storage_exhausted"));
  match err with
  | Some e =>
      if errors_Is e SStorageExhaustionTerminalReady
      then resolve_storage_failure runtime runner processID
      else crit (set_reporting false runtime);; mret (false, Some e)
  | None => resolve_storage_failure runtime runner processID
  end.

Definition handleAcceptedStorageFailure (runtime : option nat) (cause : option error)
    : Sock (bool * option error) :=
  match cause with
  | None => mret (false, None)
  | Some e =>
      let ready := errors_Is e SStorageExhaustionTerminalReady in
      if negb ready && negb (isStorageExhaustion e) then mret (false, Some e)
      else
        found ← crit (runner_of_runtime runtime);
        match found with
        | None => mret (false, Some (failure "storage-exhausted process has no supervisor"))
        | Some (p, runner, processID) =>
            claimed ← crit (claim_storage_failure p);
            if claimed : bool then report_storage_failure ready p runner processID
            else mret (true, None)
        end
  end.

(** The runtimes whose supervisors have their terminal evidence ready; a map is
    visited in any order. *)
Definition storageFailureRuntimes : Sock (list nat) :=
  ready_order ← call ReadyRunners;
  let '(ready, order) := ready_order in
  crit (mem (fun m =>
    List.filter (fun p =>
      let rt := socket_runtime p m in
      negb (rt_cleanupOnly rt) && negb (rt_storageFailureReporting rt)
      && match rt_runner rt with Some r => bool_decide (r ∈ ready) | None => false end)
      (shuffle order (map_to_list (t_processes m)).*2))).

Definition reportReadyStorageFailures : Sock unit :=
  runtimes ← storageFailureRuntimes;
  for_each runtimes (fun runtime => eff (Launch (JStorageReady runtime));; mret tt).

Definition fail_unless_cancelled (err : option error) : Sock unit :=
  match err with
  | None => mret tt
  | Some e => over ← eff CtxDone; if over : bool then mret tt else crit (fail e)
  end.

Definition report_ready_job (runtime : nat) : Sock unit :=
  r ← handleAcceptedStorageFailure (Some runtime) (Some [SStorageExhaustionTerminalReady]);
  fail_unless_cancelled r.2.

(** ** Processes *)

Definition forget_pending (processID : string) (pending : nat) : M Shared unit :=
  current ← mem (fun m => t_pendingProcesses m !! processID);
  if bool_decide (current = Some pending)
  then set_mem (with_pendingProcesses (delete processID)) else mret tt.

(** Handing the clean-up of a process to the clean-up loop. *)
Definition keep_for_cleanup (processID instance : string) : Sock unit :=
  crit (p ← new_process_runtime processID instance 0 false true; add_process p false).

Inductive Rejection : Type := RejectIgnored | RejectUnprepared | RejectClose.

Definition reject_section (processID : string) : M Shared (Rejection * nat) :=
  found ← mem (fun m => t_pendingProcesses m !! processID);
  match found with
  | None => mret (RejectIgnored, O)
  | Some pending =>
      x ← mem (pending_at pending);
      match pn_runtime x with
      | None =>
          set_mem (with_pendingProcesses (delete processID));; mret (RejectUnprepared, pending)
      | Some _ =>
          if pn_closing x then mret (RejectIgnored, pending)
          else
            set_pending pending (fun x => mkPending (pn_runtime x) (pn_accepted x) true
              (pn_terminationReason x) (pn_terminationApplied x));;
            mret (RejectClose, pending)
      end
  end.

Definition closeRejectedProcessOffer (processID : string) : Sock unit :=
  r ← crit (reject_section processID);
  match r with
  | (RejectIgnored, _) => mret tt
  | (RejectUnprepared, _) =>
      crit (fail (failure "server rejected process before its local preparation completed"))
  | (RejectClose, pending) => eff (Launch (JCloseRejected processID pending));; mret tt
  end.

(** [pending.runtime], which is set when the worker runs. *)
Definition pending_runtime (pending : nat) : M Shared (option (nat * Runtime)) :=
  mem (fun m => (fun p => (p, socket_runtime p m)) <$> pn_runtime (pending_at pending m)).

Definition close_rejected_job (processID : string) (pending : nat) : Sock unit :=
  found ← crit (pending_runtime pending);
  match found with
  | None => mret tt
  | Some (runtime, rt) =>
      r ← call (CloseRejected processID (rt_supervisorInstanceID rt) runtime);
      match r with
      | (true, _) =>
          keep_for_cleanup processID (rt_supervisorInstanceID rt);;
          crit (forget_pending processID pending)
      | (false, Some e) => crit (fail e)
      | (false, None) => crit (forget_pending processID pending)
      end
  end.

Definition assignment_of (offer : ProcessOffer) : ProcessAssignment :=
  mkAssignment (po_ProcessID offer) (po_Command offer) (po_ShellSelector offer) (po_Cwd offer)
    (po_IOMode offer) (po_Env offer) (po_PreparationError offer) (po_WaitMs offer)
    (po_TimeoutSeconds offer).

(** [None]: the offer is known. *)
Definition offer_section (processID : string) : M Shared (option nat) :=
  pending ← mem (fun m => t_pendingProcesses m !! processID);
  known ← local_process processID;
  match pending, known with
  | None, None =>
      p ← alloc;
      set_mem (with_pendings (insert p pending_zero));;
      set_mem (with_pendingProcesses (insert processID p));;
      mret (Some p)
  | _, _ => mret None
  end.

Definition offerProcess (offer : ProcessOffer) : Sock unit :=
  let assignment := assignment_of offer in
  fresh ← crit (offer_section (po_ProcessID offer));
  match fresh with
  | None => mret tt
  | Some pending => eff (Launch (JPrepare assignment pending));; mret tt
  end.

Definition sendProcessAccept (processID : string) : Sock unit :=
  crit (enqueue_or_fail (process_message MessageProcessAccept processID)).

(** A preparation that failed. *)
Definition preparation_failed (processID : string) (pending : nat) (runtime : option nat) (e : error)
    : Sock unit :=
  let unresolved := errors_Is e SUnresolvedPreparation in
  cleanup ← crit (mem (fun m => match runtime with
                                | Some p => rt_cleanupOnly (socket_runtime p m)
                                | None => false
                                end));
  (if cleanup : bool
   then match runtime with Some p => crit (add_process p true) | None => mret tt end
   else if unresolved then crit (fail e) else mret tt);;
  (if isStorageExhaustion e && negb unresolved then
     reportErr ← sendStorageExhaustionReport processID; fail_unless_cancelled reportErr
   else mret tt);;
  crit (forget_pending processID pending).

(** [false]: the pending entry was superseded. *)
Definition adopt_section (processID : string) (pending runtime : nat) : M Shared bool :=
  current ← mem (fun m => t_pendingProcesses m !! processID);
  if bool_decide (current = Some pending) then
    set_pending pending (fun x => mkPending (Some runtime) (pn_accepted x) (pn_closing x)
      (pn_terminationReason x) (pn_terminationApplied x));;
    note (VPrepared processID pending runtime);;
    mret true
  else mret false.

Definition prepare_job (assignment : ProcessAssignment) (pending : nat) : Sock unit :=
  made_err ← call (Prepare assignment);
  let '(made, err) := made_err in
  runtime ← match made with
            | None => mret None
            | Some (instance, pid, cleanupOnly) =>
                p ← crit (new_process_runtime (as_ID assignment) instance pid true cleanupOnly);
                mret (Some p)
            end;
  match err, runtime with
  | Some e, _ => preparation_failed (as_ID assignment) pending runtime e
  | None, None => mret tt
  | None, Some runtime =>
      mine ← crit (adopt_section (as_ID assignment) pending runtime);
      if mine : bool then sendProcessAccept (as_ID assignment)
      else
        rt ← crit (mem (socket_runtime runtime));
        r ← call (CloseRejected (as_ID assignment) (rt_supervisorInstanceID rt) runtime);
        match r with
        | (true, _) => keep_for_cleanup (as_ID assignment) (rt_supervisorInstanceID rt)
        | (false, Some e) => crit (fail e)
        | (false, None) => mret tt
        end
  end.

(** [None]: nothing to start. *)
Definition accept_section (processID : string) : M Shared (option nat) :=
  found ← mem (fun m => t_pendingProcesses m !! processID);
  match found with
  | None => mret None
  | Some pending =>
      x ← mem (pending_at pending);
      if bool_decide (pn_runtime x = None) || pn_accepted x then mret None
      else
        set_pending pending (fun x => mkPending (pn_runtime x) true (pn_closing x)
          (pn_terminationReason x) (pn_terminationApplied x));;
        mret (Some pending)
  end.

Definition startAcceptedProcess (processID : string) : Sock unit :=
  accepted ← crit (accept_section processID);
  match accepted with
  | None => mret tt
  | Some pending => eff (Launch (JStart processID pending));; mret tt
  end.

(** [pending.terminationReason]; a reason that is set counts as applied from now on. *)
Definition apply_termination (pending : nat) : M Shared string :=
  x ← mem (pending_at pending);
  (if pn_terminationReason x <>? ""
   then set_pending pending (fun x => mkPending (pn_runtime x) (pn_accepted x) (pn_closing x)
          (pn_terminationReason x) true)
   else mret tt);;
  mret (pn_terminationReason x).

(** The section that makes the process known; [None]: the pending entry was lost. *)
Definition publish_section (processID : string) (pending runtime : nat) (done : bool)
    : M Shared (option (string * bool)) :=
  current ← mem (fun m => t_pendingProcesses m !! processID);
  if bool_decide (current = Some pending) then
    add_process runtime done;;
    set_mem (with_pendingProcesses (delete processID));;
    x ← mem (pending_at pending);
    mret (Some (pn_terminationReason x, pn_terminationApplied x))
  else mret None.

Definition publish_started (processID : string) (pending runtime runner : nat) : Sock unit :=
  done ← call (IsDone runner);
  published ← crit (publish_section processID pending runtime done);
  match published with
  | None => crit (fail (failure "accepted process lost its pending runtime"))
  | Some (terminationReason, terminationApplied) =>
      if (terminationReason <>? "") && negb terminationApplied then
        err ← call (Terminate runner terminationReason);
        match err with Some e => crit (fail e) | None => mret tt end
      else mret tt
  end.

Definition start_job (processID : string) (pending : nat) : Sock unit :=
  found ← crit (pending_runtime pending);
  match found with
  | Some (runtime, mkRuntime _ instance _ (Some runner) _ _) =>
      err ← store_write (CMarkAccepted processID instance);
      err ← match err with
            | Some e => mret (Some e)
            | None =>
                reason ← crit (apply_termination pending);
                if reason <>? "" then call (Terminate runner reason) else call (StartOnce runner)
            end;
      r ← handleAcceptedStorageFailure (Some runtime) err;
      match r with
      | (true, None) => crit (forget_pending processID pending)
      | (_, Some e) => crit (fail e)
      | (false, None) => publish_started processID pending runtime runner
      end
  | _ => mret tt
  end.

(** What a request to terminate finds: an entry that is still pending, or a live
    supervisor, or neither. *)
Definition terminate_section (processID : string) : M Shared (option nat) :=
  found ← mem (fun m => t_pendingProcesses m !! processID);
  match found with
  | Some pending =>
      set_pending pending (fun x => mkPending (pn_runtime x) (pn_accepted x) (pn_closing x)
        "server_requested" (pn_terminationApplied x));;
      mret None
  | None => live ← live_process processID; mret (fst <$> live)
  end.

Definition terminateProcess (processID : string) : Sock unit :=
  live ← crit (terminate_section processID);
  match live with
  | None => mret tt
  | Some runtime => eff (Launch (JTerminate processID runtime));; mret tt
  end.

Definition terminate_job (runtime : nat) : Sock unit :=
  rt ← crit (mem (socket_runtime runtime));
  match rt_runner rt with
  | None => mret tt
  | Some runner =>
      err ← call (Terminate runner "server_requested");
      match err with Some e => crit (fail e) | None => mret tt end
  end.

(** ** Actions *)

Definition samePendingAction (left right : pendingAction) : bool :=
  (pac_processID left ==? pac_processID right)
  && (pa_ID (pac_action left) ==? pa_ID (pac_action right))
  && (pa_ActionKind (pac_action left) ==? pa_ActionKind (pac_action right))
  && (pa_Seq (pac_action left) =? pa_Seq (pac_action right))
  && (pa_Payload (pac_action left) ==? pa_Payload (pac_action right)).

Definition forgetRejectedActionOffer (processID actionID : string) : M Shared unit :=
  found ← mem (fun m => t_pendingActions m !! actionID);
  match found with
  | None => mret tt
  | Some action =>
      if pac_processID action <>? processID
      then fail (failure "server rejected process action for another process")
      else set_mem (with_pendingActions (delete actionID))
  end.

Inductive Offered : Type := OfferKnown | OfferChanged | OfferNew.

Definition offer_action_section (pending : pendingAction) : M Shared Offered :=
  found ← mem (fun m => t_pendingActions m !! pa_ID (pac_action pending));
  match found with
  | Some existing =>
      mret (if samePendingAction existing pending then OfferKnown else OfferChanged)
  | None =>
      set_mem (with_pendingActions (insert (pa_ID (pac_action pending)) pending));;
      mret OfferNew
  end.

Definition offerAction (offer : ActionOffer) : Sock unit :=
  dead ← (if ao_ActionKind offer <>? KindRead
          then live ← crit (live_process (ao_ProcessID offer)); mret (bool_decide (live = None))
          else mret false);
  if dead : bool then mret tt
  else if negb (Kind_Valid (ao_ActionKind offer)) then mret tt
  else
    let action := mkProcessAction (ao_ActionKind offer) (ao_Seq offer) (ao_Payload offer)
      (ao_ProcessActionID offer) in
    offered ← crit (offer_action_section
      (mkPendingAction (ao_ProcessID offer) action (ProcessStateOther "") 0 false));
    match offered with
    | OfferChanged => crit (fail (failure "process action identity changed"))
    | OfferKnown => mret tt
    | OfferNew =>
        crit (enqueue_or_fail
          (action_message MessageActionAccept (ao_ProcessID offer) (ao_ProcessActionID offer)))
    end.

(** Appending an action to the queue of its process; [Some q]: a queue without a
    worker. *)
Definition enqueue_section (action : pendingAction) : M Shared (option nat) :=
  let processID := pac_processID action in
  found ← mem (fun m => t_actionQueues m !! processID);
  queue ← match found with
          | Some q => mret q
          | None =>
              q ← alloc;
              set_mem (with_queues (insert q []));;
              set_mem (with_actionQueues (insert processID q));;
              mret q
          end;
  set_mem (with_queues (alter (fun l => l ++ [pa_ID (pac_action action)]) queue));;
  note (VEnqueue processID (pa_ID (pac_action action)));;
  mret (match found with Some _ => None | None => Some queue end).

Definition enqueueAcceptedAction (action : pendingAction) : Sock unit :=
  start ← crit (enqueue_section action);
  match start with
  | None => mret tt
  | Some queue => eff (Launch (JQueue (pac_processID action) queue));; mret tt
  end.

Definition grant_section (grant : ActionGrant) : M Shared (option pendingAction) :=
  found ← mem (fun m => t_pendingActions m !! ag_ProcessActionID grant);
  match found with
  | None => mret None
  | Some accepted =>
      if (pac_processID accepted <>? ag_ProcessID grant) || pac_enqueued accepted then mret None
      else
        let accepted := mkPendingAction (pac_processID accepted) (pac_action accepted)
          (ag_ProcessState grant) (ag_DefaultOutputCursor grant) true in
        set_mem (with_pendingActions (insert (ag_ProcessActionID grant) accepted));;
        mret (Some accepted)
  end.

Definition applyAcceptedAction (grant : ActionGrant) : Sock unit :=
  accepted ← crit (grant_section grant);
  match accepted with
  | None => mret tt
  | Some action => enqueueAcceptedAction action
  end.

Definition dequeueAcceptedAction (processID : string) (queue : nat) : M Shared (option string) :=
  pending ← mem (fun m => default [] (t_queues m !! queue));
  match pending with
  | [] =>
      current ← mem (fun m => t_actionQueues m !! processID);
      (if bool_decide (current = Some queue)
       then set_mem (with_actionQueues (delete processID)) else mret tt);;
      mret None
  | actionID :: rest =>
      set_mem (with_queues (insert queue rest));;
      note (VDequeue processID actionID);;
      mret (Some actionID)
  end.

Definition readProcessTerminal (processID : string) (grantedState : ProcessState)
    : Sock (error + bool) :=
  let read :=
    opened ← call OpenStore;
    match opened with
    | Some e => mret (inl e)
    | None =>
        r ← eff (DbProcess processID);
        mret (match r with
              | inl e => inl e
              | inr None => inr true
              | inr (Some process) => inr (p_ServerReleased process)
              end)
    end in
  match grantedState with
  | ProcessStateExited | ProcessStateFailed | ProcessStateKilled | ProcessStateUnknown =>
      mret (inr true)
  | ProcessStateQueued | ProcessStateStarting | ProcessStateRunning => read
  | ProcessStateOther s =>
      if s ==? "" then read else mret (inl (failure "unsupported granted process state"))
  end.

(** The row of an action that is resolved without one. *)
Definition resolve_read (accepted : pendingAction) : Sock (option error) :=
  opened ← call OpenStore;
  match opened with
  | Some e => mret (Some e)
  | None =>
      r ← eff (DbProcess (pac_processID accepted));
      match r with
      | inl e => mret (Some e)
      | inr None => mret None
      | inr (Some process) =>
          busy_loop (db_command (CResolveAbsentAction (pac_processID accepted)
            (p_SupervisorInstanceID process) (pa_ID (pac_action accepted))
            (pa_Seq (pac_action accepted))))
      end
  end.

Definition reportDirectRead (accepted : pendingAction) (eventType : ReportedEventType)
    (reasonCode reasonMessage result : string) : Sock (option error) :=
  let actionID := pa_ID (pac_action accepted) in
  match marshal_event (mkReportedEvent eventType (pac_processID accepted) actionID
          (ProcessStateOther "") None "" reasonCode reasonMessage result 0 0 0) with
  | None => mret (Some (failure "json"))
  | Some body =>
      uuid ← call NewUUID;
      r ← SendReport (mkReport uuid (pac_processID accepted) actionID ReportActionTerminal body
                        ReportStateUnset "" "");
      match r with
      | inl e => mret (Some e)
      | inr ack =>
          match ack_status ack with
          | AckStatusCommitted | AckStatusCleanupOnly => resolve_read accepted
          | AckStatusPermanentReject =>
              mret (Some (failure "process read report was permanently rejected"))
          | AckStatusTransientError =>
              mret (Some (failure "process read report was temporarily rejected"))
          | AckStatusOther _ =>
              mret (Some (failure "unsupported process read report acknowledgement"))
          end
      end
  end.

Definition reportDirectReadFailure (accepted : pendingAction) (code text : string)
    : Sock (option error) :=
  reportDirectRead accepted EventProcessActionFailed code text "".

(** One round of the polling loop; [inl]: nothing to report yet. *)
Definition read_round (accepted : pendingAction) (payload : ReadPayload) (cursor : Z)
    : Sock (unit + option error) :=
  snapshot ← call (ReadSnapshot (pac_processID accepted) cursor (rd_MaxBytes payload));
  match snapshot with
  | inl e =>
      err ← reportDirectReadFailure accepted "output_unavailable" (error_string e); mret (inr err)
  | inr (output, start, next, truncated) =>
      terminal ← readProcessTerminal (pac_processID accepted) (pac_processState accepted);
      match terminal with
      | inl e => mret (inr (Some e))
      | inr terminal =>
          before ← call BeforeDeadline;
          if (output <>? "") || terminal || (rd_WaitMS payload =? 0) || negb before then
            match marshal_observation
                    (mkObservation (pac_processID accepted) output start next truncated) with
            | None => mret (inr (Some (failure "json")))
            | Some result =>
                err ← reportDirectRead accepted EventProcessActionApplied "" "" result;
                mret (inr err)
            end
          else
            slept ← eff SleepContext;
            mret (if slept : bool then inl tt else inr (Some [SContext]))
      end
  end.

Definition runAcceptedRead (accepted : pendingAction) : Sock (option error) :=
  match DecodeReadPayload (pa_Payload (pac_action accepted)) with
  | inl text => reportDirectReadFailure accepted "invalid_payload" text
  | inr payload =>
      located ← call (LocateProcessDir (pac_processID accepted));
      match located with
      | Some e => mret (Some e)
      | None =>
          opened ← call (OpenRoot (pac_processID accepted));
          match opened with
          | Some e => reportDirectReadFailure accepted "output_unavailable" (error_string e)
          | None =>
              let cursor := match rd_Cursor payload with
                            | Some c => c
                            | None => pac_defaultOutputCursor accepted
                            end in
              loop (fun _ : unit => read_round accepted payload cursor) tt
          end
      end
  end.

Definition waitActionReleased (actionID : string) : Sock (option error) :=
  opened ← call OpenStore;
  match opened with
  | Some e => mret (Some e)
  | None =>
      loop (fun _ : unit =>
        r ← eff (DbAction actionID);
        match r with
        | inl e => mret (inr (Some e))
        | inr None => mret (inr None)
        | inr (Some _) =>
            slept ← eff SleepContext;
            mret (if slept : bool then inl tt else inr (Some [SContext]))
        end) tt
  end.

(** The loop around [ApplyOnce]: [inr (inl err)] returns from the function. *)
Definition apply_loop (processID : string) (accepted : pendingAction) (runtime runner : nat)
    : Sock (option error + unit) :=
  loop (fun _ : unit =>
    err ← call (ApplyOnce runner processID (pac_action accepted));
    if match err with Some e => errors_Is e (SState ErrActionBlocked) | None => false end then
      slept ← eff SleepContext;
      mret (if slept : bool then inl tt else inr (inl (Some [SContext])))
    else
      r ← handleAcceptedStorageFailure (Some runtime) err;
      mret (inr (match r with
                 | (true, storageErr) => inl storageErr
                 | (false, Some e) => inl (Some e)
                 | (false, None) => inr tt
                 end))) tt.

Definition forget_action (actionID : string) : M Shared unit :=
  set_mem (with_pendingActions (delete actionID)).

Definition run_mutating (processID : string) (accepted : pendingAction) : Sock (option error) :=
  live ← crit (live_process processID);
  match live with
  | None => mret (Some (failure "accepted action lost its live supervisor"))
  | Some (runtime, runner) =>
      applied ← apply_loop processID accepted runtime runner;
      match applied with
      | inl result => mret result
      | inr _ =>
          err ← waitActionReleased (pa_ID (pac_action accepted));
          match err with
          | Some e => mret (Some e)
          | None => crit (forget_action (pa_ID (pac_action accepted)));; mret None
          end
      end
  end.

Definition runAcceptedAction (processID actionID : string) : Sock (option error) :=
  found ← crit (mem (fun m => t_pendingActions m !! actionID));
  match found with
  | None => mret (Some (failure "queued action lost its accepted package"))
  | Some accepted =>
      if pac_processID accepted <>? processID
      then mret (Some (failure "queued action names another process"))
      else if pa_ActionKind (pac_action accepted) ==? KindRead then
        err ← runAcceptedRead accepted;
        match err with
        | Some e => mret (Some e)
        | None => crit (forget_action (pa_ID (pac_action accepted)));; mret None
        end
      else run_mutating processID accepted
  end.

(** After an error: is the action still pending?  Then the worker gives up. *)
Definition failed_section (actionID : string) (e : error) : M Shared bool :=
  pending ← mem (fun m => bool_decide (is_Some (t_pendingActions m !! actionID)));
  over ← get cancelled;
  (if pending && negb over then fail e else mret tt);;
  mret pending.

Definition runActionQueue (processID : string) (queue : nat) : Sock unit :=
  loop (fun _ : unit =>
    next ← crit (dequeueAcceptedAction processID queue);
    match next with
    | None => mret (inr tt)
    | Some actionID =>
        err ← runAcceptedAction processID actionID;
        match err with
        | None => mret (inl tt)
        | Some e =>
            pending ← crit (failed_section actionID e);
            mret (if pending : bool then inr tt else inl tt)
        end
    end) tt.

(** ** Skills *)

Definition skillSyncManager : Sock (option error) :=
  made ← crit (get (fun s => ch_skillsync (s_chans s)));
  if made : bool then mret None
  else
    err ← call SkillStore;
    match err with
    | Some e => mret (Some e)
    | None => crit (set_chans (with_skillsync true));; mret None
    end.

(** [transportSkillSender.SendSkillReport] *)
Definition SendSkillReport (report : SkillReport) : M Shared (option error) :=
  sent ← enqueue (skill_report_message report);
  mret (if sent : bool then None else Some (failure "transport send queue is full")).

(** [skillsync.Manager.HandleOffer] *)
Definition HandleOffer (offer : SkillOffer) : Sock unit :=
  if (so_SkillID offer ==? "") || (so_RevisionID offer ==? "") || (so_Digest offer ==? "")
     || (so_DownloadToken offer ==? "") || (so_DownloadExpiresAt offer =? 0)
  then mret tt
  else
    failed ← call (InstallSkill offer);
    crit (SendSkillReport (match failed with
          | None => mkSkillReport (so_RequestID offer) (so_SkillID offer) SkillStateReady "" ""
          | Some (code, text) =>
              mkSkillReport (so_RequestID offer) (so_SkillID offer) SkillStateFailed code text
          end));;
    mret tt.

Definition handleSkillOffer (offer : SkillOffer) : Sock unit :=
  err ← skillSyncManager;
  match err with
  | Some e =>
      crit (enqueue (skill_report_message
        (mkSkillReport (so_RequestID offer) (so_SkillID offer) SkillStateFailed
           "skillsync_unavailable" (error_string e))));;
      mret tt
  | None => eff (Launch (JSkill offer));; mret tt
  end.

(** ** The report outbox over the connection (report_outbox.go) *)

Definition cleanup_only (processID : string) : M Shared bool :=
  mem (fun m => match t_processes m !! processID with
                | Some p => rt_cleanupOnly (socket_runtime p m)
                | None => false
                end).

(** The loop of [outboxReports]. *)
Fixpoint choose_reports (forced : gset string) (candidates : list Report)
    (blockedProcesses blockedActions : gset string) (reports : list Report) : Sock (list Report) :=
  match candidates with
  | [] => mret reports
  | report :: rest =>
      cleanupOnly ← crit (cleanup_only (r_ProcessID report));
      if cleanupOnly : bool then choose_reports forced rest blockedProcesses blockedActions reports
      else if bool_decide (r_ProcessID report ∈ blockedProcesses)
      then choose_reports forced rest blockedProcesses blockedActions reports
      else if bool_decide (r_ProcessID report ∈ blockedActions)
              && (r_Kind report <>? ReportProcessTerminal)
      then choose_reports forced rest blockedProcesses blockedActions reports
      else if (r_State report <>? ReportPending) && negb (bool_decide (r_ID report ∈ forced)) then
        if (r_Kind report ==? ReportActionTerminal) && (r_State report ==? ReportRejected)
        then choose_reports forced rest blockedProcesses
               ({[ r_ProcessID report ]} ∪ blockedActions) reports
        else choose_reports forced rest
               ({[ r_ProcessID report ]} ∪ blockedProcesses) blockedActions reports
      else
        let reports := reports ++ [report] in
        if (length reports =? outbox_limit)%nat then mret reports
        else choose_reports forced rest blockedProcesses blockedActions reports
  end.

Definition load_outbox (forced : gset string) : Sock (error + list Report) :=
  opened ← call OpenStore;
  match opened with
  | Some e => mret (inl e)
  | None =>
      candidates ← eff DbCandidates;
      match candidates with
      | inl e => mret (inl e)
      | inr candidates =>
          reports ← choose_reports forced candidates ∅ ∅ []; mret (inr reports)
      end
  end.

(** Settling a report by its acknowledgement. *)
Definition settle_acknowledged (report : Report) (ack : daemonReportAck) : Sock (option error) :=
  match ack_status ack with
  | AckStatusCommitted | AckStatusCleanupOnly => store_write (CAcknowledgeReport (r_ID report))
  | AckStatusPermanentReject =>
      let code := if ack_code ack ==? "" then ErrorCodeValidationFailed else ack_code ack in
      store_write (CRejectReport (r_ID report) code (ack_err ack))
  | AckStatusTransientError => mret (Some (failure "transient report rejection"))
  | AckStatusOther _ => mret (Some (failure "unsupported daemon report acknowledgement"))
  end.

(** One round: [None] when the context ended. *)
Fixpoint send_reports (reports : list Report) (forced : gset string) (progress : bool)
    : Sock (option (gset string * bool)) :=
  let stop := over ← eff CtxDone; mret (if over : bool then None else Some (forced, progress)) in
  match reports with
  | [] => mret (Some (forced, progress))
  | report :: rest =>
      r ← SendReport report;
      match r with
      | inl _ => stop
      | inr ack =>
          err ← settle_acknowledged report ack;
          match err with
          | Some _ => stop
          | None =>
              let forced := forced ∖ {[ r_ID report ]} in
              if ack_status ack ==? AckStatusPermanentReject then mret (Some (forced, true))
              else send_reports rest forced true
          end
      end
  end.

Definition replayReportOutbox (forced : gset string) : Sock unit :=
  loop (fun forced : gset string =>
    over ← eff CtxDone;
    if over : bool then mret (inr tt)
    else
      let pause (forced : gset string) :=
        slept ← eff SleepContext; mret (if slept : bool then inl forced else inr tt) in
      reports ← load_outbox forced;
      match reports with
      | inl _ => over ← eff CtxDone; if over : bool then mret (inr tt) else pause forced
      | inr [] => pause forced
      | inr reports =>
          round ← send_reports reports forced false;
          match round with
          | None => mret (inr tt)
          | Some (forced, progress) => if progress : bool then mret (inl forced) else pause forced
          end
      end) forced.

Definition finalizeReleasedProcessesLoop : Sock unit :=
  loop (fun _ : unit =>
    call FinalizeReleased;;
    slept ← eff SleepContext;
    mret (if slept : bool then inl tt else inr tt)) tt.

(** ** Messages *)

Definition handleServerError (m : Message) : Sock unit :=
  if m_ErrorCode m ==? ErrorCodeProcessOfferUnavailable
  then closeRejectedProcessOffer (m_ProcessID m)
  else if m_ErrorCode m ==? ErrorCodeActionOfferUnavailable
  then crit (forgetRejectedActionOffer (m_ProcessID m) (m_ProcessActionID m))
  else if m_ProcessID m <>? ""
  then crit (fail (failure "daemon acceptance outcome is ambiguous"))
  else mret tt.

(** A handler that is called only when the message has its payload. *)
Definition when {A} (payload : option A) (handler : A -> Sock unit) : Sock (option error) :=
  match payload with Some x => handler x;; mret None | None => mret None end.

Definition handleMessage (m : Message) : Sock (option error) :=
  match m_Type m with
  | MessageProcessOffer => when (m_ProcessOffer m) offerProcess
  | MessageProcessAcceptAck => startAcceptedProcess (m_ProcessID m);; mret None
  | MessageProcessTerminate => terminateProcess (m_ProcessID m);; mret None
  | MessageActionOffer => when (m_ActionOffer m) offerAction
  | MessageActionAcceptAck => when (m_ActionGrant m) applyAcceptedAction
  | MessageReportAck => ackReport m;; mret None
  | MessageRuntimeEnded =>
      mret (Some (if m_ErrorCode m ==? ErrorCodeMachineDecommissioned then [SMachineDecommissioned]
                  else if m_ErrorCode m ==? ErrorCodeAuthorizationRevoked then [SAuthorizationRevoked]
                  else [SRuntimeUnregistered]))
  | MessageError => handleServerError m;; mret None
  | MessageSkillOffer => when (m_SkillOffer m) handleSkillOffer
  | MessageHeartbeatAck => mret None
  | MessageHeartbeat | MessageProcessAccept | MessageActionAccept | MessageReport
  | MessageSkillReport => mret (Some (failure "unexpected server-to-daemon message type"))
  | MessageOther _ => mret None
  end.

(** ** The loop *)

Definition writeLoop : Sock error :=
  loop (fun _ : unit =>
    next ← eff SelectWrite;
    match next with
    | WrContext => mret (inr [SContext])
    | WrPing =>
        err ← call Ping; mret (match err with Some e => inr e | None => inl tt end)
    | WrMessage m =>
        err ← call (SocketWrite m); mret (match err with Some e => inr e | None => inl tt end)
    end) tt.

Definition write_job : Sock unit :=
  err ← writeLoop; crit (set_chans (with_writeDone (Some err))).

Definition read_job : Sock unit :=
  err ← loop (fun _ : unit =>
    r ← call SocketRead;
    match r with
    | inl e => mret (inr e)
    | inr m =>
        eff (HandOver m);;
        taken ← eff AwaitTaken;
        mret (if taken : bool then inl tt else inr [SContext])
    end) tt;
  crit (set_chans (with_readDone (Some err))).

Definition idle : Sock bool :=
  skills ← call SkillsIdle;
  crit (get (fun s =>
    let m := s_mem s in
    bool_decide (t_pendingProcesses m = ∅) && bool_decide (t_pendingActions m = ∅)
    && bool_decide (t_actionQueues m = ∅) && bool_decide (t_reportAcks m = ∅)
    && (negb (ch_skillsync (s_chans s)) || skills))).

(** [c.daemonIdle] *)
Definition daemonIdle : Sock bool :=
  busy ← crit (mem (fun m =>
    existsb (fun p => negb (rt_cleanupOnly (socket_runtime p m))) (map_to_list (t_processes m)).*2));
  if busy : bool then mret false
  else
    reports ← load_outbox ∅;
    mret (match reports with inr [] => true | _ => false end).

Definition Millisecond : Z := 1000000.
Definition duration_ms (ms : Z) : Z := wrap64 (ms * Millisecond).

Definition nextHeartbeatDelay (runtime : DaemonRuntime) : error + Z :=
  if dr_NextHeartbeatAfterMS runtime <=? 0 then inl [SMissingHeartbeat]
  else inr (duration_ms (dr_NextHeartbeatAfterMS runtime)).

Context (startup : localStartupState) (runtime : DaemonRuntime) (sleepAfter : Z) (instanceID : string).

Definition startup_le (x y : string * ProcessAction) : Prop :=
  String.ltb x.1 y.1 = true \/ (x.1 = y.1 /\ pa_Seq x.2 <= pa_Seq y.2).
Global Instance startup_le_dec x y : Decision (startup_le x y).
Proof. unfold startup_le. apply _. Defined.

Definition resume_section (processID : string) (action : ProcessAction) : M Shared pendingAction :=
  let accepted := mkPendingAction processID action (ProcessStateOther "") 0 true in
  set_mem (with_pendingActions (insert (pa_ID action) accepted));; mret accepted.

Definition resumeStartupActions : Sock unit :=
  for_each (merge_sort startup_le (su_Actions startup)) (fun pa =>
    ready ← call (RunnerReady (su_Runners startup !! pa.1));
    if ready : bool then mret tt
    else
      accepted ← crit (resume_section pa.1 pa.2);
      enqueueAcceptedAction accepted).

Record LoopState : Type := mkLoopState {
  ls_acknowledged : bool;
  ls_heartbeatAfter : Z;
  ls_idleSince : option Z
}.

Definition heartbeat_message : Message :=
  mkMessage MessageHeartbeat "" "" "" None None None None None None instanceID observed_platform 0
    (AckStatusOther "") "" "".

Definition heartbeat_case (st : LoopState) : Sock (LoopState + bool * option error) :=
  let return_ e := mret (inr (ls_acknowledged st, Some e)) in
  err ← call VerifySupervisors;
  match err with
  | Some e => return_ e
  | None =>
      reportReadyStorageFailures;;
      sent ← crit (enqueue heartbeat_message);
      if sent : bool then call (ResetTimer (ls_heartbeatAfter st));; mret (inl st)
      else return_ queue_full
  end.

Definition idle_case (st : LoopState) (now : Z) : Sock (LoopState + bool * option error) :=
  let since x := mkLoopState (ls_acknowledged st) (ls_heartbeatAfter st) x in
  quiet ← idle;
  quiet ← (if quiet : bool then daemonIdle else mret false);
  if quiet : bool then
    match ls_idleSince st with
    | None => mret (inl (since (Some now)))
    | Some start =>
        if sleepAfter <=? now - start then mret (inr (ls_acknowledged st, Some [SIdleSleep]))
        else mret (inl st)
    end
  else mret (inl (since None)).

Definition message_case (st : LoopState) (m : Message) : Sock (LoopState + bool * option error) :=
  let idleSince := if m_Type m ==? MessageHeartbeatAck then ls_idleSince st else None in
  let st :=
    if (m_Type m ==? MessageHeartbeatAck) && (0 <? m_NextHeartbeatAfterMS m)
    then mkLoopState true (duration_ms (m_NextHeartbeatAfterMS m)) idleSince
    else mkLoopState (ls_acknowledged st) (ls_heartbeatAfter st) idleSince in
  err ← handleMessage m;
  mret (match err with Some e => inr (ls_acknowledged st, Some e) | None => inl st end).

Definition main_loop (idleTick : bool) : LoopState -> Sock (bool * option error) :=
  loop (fun st =>
    let return_ e := mret (inr (ls_acknowledged st, Some e)) in
    selected ← eff (Select idleTick);
    match selected with
    | SelContext => return_ [SContext]
    | SelFatal e | SelWriteDone e | SelReadDone e => return_ e
    | SelHeartbeat => heartbeat_case st
    | SelIdle now => idle_case st now
    | SelMessage m => message_case st m
    end).

Definition connected : Sock (bool * option error) :=
  eff (Launch JWrite);;
  eff (Launch (JReplay (su_ForcedReports startup)));;
  eff (Launch JFinalize);;
  resumeStartupActions;;
  reportReadyStorageFailures;;
  match nextHeartbeatDelay runtime with
  | inl e => mret (false, Some e)
  | inr delay =>
      idleTick ← call SleepEnabled;
      eff (Launch JRead);;
      main_loop idleTick (mkLoopState false delay None)
  end.

Definition run_connection : Sock (bool * option error) :=
  dialled ← call Dial;
  match dialled with
  | DialFailed e => mret (false, Some e)
  | DialStatus code e =>
      mret (false, Some (if code =? 410 then [SRuntimeUnregistered]
                         else if (code =? 401) || (code =? 403) then [SAuthorizationRevoked]
                         else SStatus code :: e))
  | DialOk => connected
  end.

Definition stopAndWait : Sock unit :=
  crit (set_chans (with_stopping true));;
  crit (set_chans (with_cancelled true));;
  call CloseConn;;
  failAllReports "daemon websocket closed";;
  crit (set_chans (with_done true));;
  eff WaitWorkers.

Definition run_job : Sock unit :=
  result ← run_connection;
  stopAndWait;;
  crit (note (VReturn result.1 result.2)).

Definition body (j : Job) : Sock unit :=
  match j with
  | JRun => run_job
  | JWrite => write_job
  | JReplay forced => replayReportOutbox forced
  | JFinalize => finalizeReleasedProcessesLoop
  | JRead => read_job
  | JStorageReady runtime => report_ready_job runtime
  | JCloseRejected processID pending => close_rejected_job processID pending
  | JPrepare assignment pending => prepare_job assignment pending
  | JStart processID pending => start_job processID pending
  | JQueue processID queue => runActionQueue processID queue
  | JTerminate processID runtime => terminate_job runtime
  | JSkill offer => HandleOffer offer
  end.

(** ** A connection from its registration on *)

Definition no_chans : Chans := mkChans false false false [] None None None None false.

(** [newDaemonSocketTransport] with the client's process table. *)
Definition open_socket (processes : gmap string nat) (runtimes : gmap nat Runtime) (fresh : nat)
    (db : DB) : System :=
  mkSystem (mkShared (mkMem ∅ ∅ ∅ ∅ ∅ ∅ ∅ processes runtimes fresh) no_chans db [])
    [mkThread JRun run_job].

Definition serve (processes : gmap string nat) (runtimes : gmap nat Runtime) (fresh : nat)
    (l : list Move) (db : DB) : System :=
  execute body l (open_socket processes runtimes fresh db).
End Socket.
