(* ===== verification/SocketLogic.v ===== *)
(** * Protocols of the connection's goroutines

    A [Protocol] says, for one property, what every goroutine may rely on and has to
    keep: an invariant of the shared state, what a goroutine owns or knows ([Local],
    [fine]), when two goroutines' possessions exclude each other ([apart]), and what
    must hold before an effect ([pre]).

    [wp n p g Q]: for [n] steps the program [p] of a goroutine with possessions [g]
    keeps the protocol, whatever the other goroutines do between its steps, and if it
    returns within them it ends in [Q].  Programs need not end, so a statement about a
    program is one about all [n]; the rule for loops is an induction on [n].

    [adequate]: when every job keeps the protocol, it holds in every reachable state. *)
From ITree Require Import ITree Eq.Shallow.
From S2P Require Import Prelude GoStrings DaemonProtocol ProcessCmd DaemonMessages LocalPaths.
From S2P Require Import StateSchema StateQueries StateTx StateReport StateProcess StateAction.
From S2P Require Import StateTrace StateOutbox LocalStore ClientWorld Reconciliation SocketWorld Socket.
From stdpp Require Import options.

(** Steps of everybody else. *)
Inductive environment {RC : ReportCodec} : Shared -> Shared -> Prop :=
  | env_write c faults r db s :
      wf_cmd c -> run_cmd c faults (s_db s) = (r, db) ->
      environment s (on_log (VOther (mkCall c faults r)) (on_db db s))
  | env_gone processID s : environment s (on_mem (with_processes (delete processID)) s)
  | env_cancel s : environment s (on_chans (with_cancelled true) s).

Class Protocol : Type := {
  Local : Type;
  inv : Shared -> Prop;
  fine : Local -> Shared -> Prop;
  apart : Local -> Local -> Prop;
  keep : Local -> Local -> Prop;                  (**r what a neutral program does to its own *)
  role : Job -> Local -> Prop;                    (**r what a goroutine with this job may have *)
  pre : forall A, SockE A -> Local -> Shared -> Prop;
  nothing : Local
}.
Arguments pre {_ A} e g s.

Class ProtocolLaws {RC : ReportCodec} {PR : Protocol} : Prop := {
  apart_sym g h : apart g h -> apart h g;
  apart_nothing g : apart nothing g;
  fine_nothing s : inv s -> fine nothing s;
  keep_preorder :: PreOrder keep;
  environment_inv s s' : environment s s' -> inv s -> inv s';
  environment_fine s s' g : environment s s' -> inv s -> fine g s -> fine g s'
}.

Section Logic.
Set Default Proof Using "Type*".
Context {RC : ReportCodec} {PR : Protocol} {PL : ProtocolLaws}.
Context (start : Job -> Local -> Prop).

(** What a step from [g] to [g'] does to the protocol; [hs] are the possessions of
    the goroutines it starts. *)
Record legal (g g' : Local) (hs : list Local) (s s' : Shared) : Prop := mkLegal {
  legal_inv : inv s';
  legal_fine : fine g' s';
  legal_new : Forall (fun h => fine h s' /\ apart g' h) hs;
  legal_others k : fine k s -> apart g k -> fine k s' /\ apart g' k /\ Forall (apart k) hs;
  legal_role j : role j g -> role j g'
}.

Fixpoint wp {A} (n : nat) (p : Sock A) (g : Local) (Q : A -> Local -> Prop) : Prop :=
  match n with
  | O => True
  | S n =>
      match observe p with
      | RetF a => Q a g
      | TauF p => wp n p g Q
      | VisF e k =>
          forall s, inv s -> fine g s ->
          pre e g s
          /\ forall t idle rp a s' new, perform t idle e rp s = Some (a, s', new) ->
             exists g' hs, Forall2 start new hs /\ (length hs <= 1)%nat
               /\ legal g g' hs s s' /\ wp n (k a) g' Q
      end
  end.

Lemma sock_wp_mono {A} n (p : Sock A) g (Q Q' : A -> Local -> Prop) :
  (forall a g, Q a g -> Q' a g) -> wp n p g Q -> wp n p g Q'.
Proof.
  intros HQ. revert p g. induction n as [|n IH]; intros p g; simpl; [done|].
  destruct (observe p) as [a|p'|X e k]; [apply HQ|apply IH|].
  intros H s Hs Hg. destruct (H s Hs Hg) as [Hp Hw]. split; [done|]. intros t idle rp a s' new Hr.
  destruct (Hw _ _ _ _ _ _ Hr) as (g' & hs & ? & ? & ? & ?). exists g', hs. split_and!; auto.
Qed.

(** Fewer steps. *)
Lemma wp_less {A} n m (p : Sock A) g Q : (m <= n)%nat -> wp n p g Q -> wp m p g Q.
Proof.
  revert n p g. induction m as [|m IH]; intros [|n] p g Hle; simpl; [done|done|lia|].
  destruct (observe p) as [a|p'|X e k]; [done|apply IH; lia|].
  intros H s Hs Hg. destruct (H s Hs Hg) as [Hp Hw]. split; [done|]. intros t idle rp a s' new Hr.
  destruct (Hw _ _ _ _ _ _ Hr) as (g' & hs & ? & ? & ? & ?). exists g', hs. split_and!; try done.
  apply (IH n); [lia|done].
Qed.

Lemma sock_wp_bind {A B} n (p : Sock A) (k : A -> Sock B) g Q :
  wp n p g (fun a g' => wp n (k a) g' Q) -> wp n (p ≫= k) g Q.
Proof.
  assert (forall m, (m <= n)%nat -> forall p g,
    wp m p g (fun a g' => wp n (k a) g' Q) -> wp m (p ≫= k) g Q) as H; [|by apply H].
  induction m as [|m IH]; intros Hm p' g'; cbn [wp]; [done|]. unfold mbind, Sock_bind in *.
  rewrite (observe_bind p' k). destruct (observe p') as [a|p''|X e f].
  - intros Hw. pose proof (wp_less n (S m) (k a) g' Q Hm Hw) as H. exact H.
  - apply IH. lia.
  - intros H s Hs Hg. destruct (H s Hs Hg) as [Hp Hw]. split; [done|]. intros t idle rp a s' new Hr.
    destruct (Hw _ _ _ _ _ _ Hr) as (g2 & hs & ? & ? & ? & ?). exists g2, hs. split_and!; try done.
    apply IH; [lia|done].
Qed.

Lemma wp_ret {A} n (a : A) g (Q : A -> Local -> Prop) : Q a g -> wp n (mret a) g Q.
Proof. by destruct n. Qed.

Lemma sock_wp_eff {A} n (e : SockE A) g Q :
  (forall s, inv s -> fine g s ->
     pre e g s
     /\ forall t idle rp a s' new, perform t idle e rp s = Some (a, s', new) ->
        exists g' hs, Forall2 start new hs /\ (length hs <= 1)%nat /\ legal g g' hs s s' /\ Q a g') ->
  wp n (eff e) g Q.
Proof.
  intros H. destruct n as [|n]; simpl; [done|]. intros s Hs Hg. destruct (H s Hs Hg) as [Hp Hw].
  split; [done|]. intros t idle rp a s' new Hr.
  destruct (Hw _ _ _ _ _ _ Hr) as (g' & hs & ? & ? & ? & ?). exists g', hs. split_and!; try done.
  by destruct n.
Qed.

(** A loop whose rounds start in [I]. *)
Lemma wp_loop {A B} n (body : A -> Sock (A + B)) a g (I : A -> Local -> Prop) Q :
  I a g ->
  (forall m a g, I a g ->
     wp m (body a) g (fun r g' => match r with inl a' => I a' g' | inr b => Q b g' end)) ->
  wp n (loop body a) g Q.
Proof.
  intros Ha Hb. revert a g Ha. induction n as [n IH] using lt_wf_ind. intros a g Ha.
  assert (observing eq (loop body a)
    (ITree.bind (body a) (fun lr => ITree.on_left lr l (Tau (ITree.iter body l))))) as [Ho]
    by apply unfold_aloop_.
  assert (wp n (body a ≫= fun lr => ITree.on_left lr l (Tau (ITree.iter body l))) g Q) as H.
  { apply sock_wp_bind. eapply sock_wp_mono; [|by apply Hb]. intros [a'|b] g' Hr; simpl.
    - destruct n as [|n]; [done|]. simpl. apply IH; [lia|done].
    - by destruct n. }
  destruct n as [|n]; [done|]. simpl in *. by rewrite Ho.
Qed.

(** ** Neutral programs *)

(** Its result satisfies [P], and the goroutine has what it had. *)
Definition yields {A} (P : A -> Prop) (ok : Local -> Prop) (p : Sock A) : Prop :=
  forall n g, ok g -> wp n p g (fun a g' => P a /\ keep g g').

Abbreviation neutral := (yields (fun _ => True) (fun _ => True)).

Lemma sock_yields_ret {A} (P : A -> Prop) ok (a : A) : P a -> yields P ok (mret a).
Proof. intros Ha n g _. apply wp_ret. split; [done|reflexivity]. Qed.

Lemma sock_yields_bind {A B} P P' (ok : Local -> Prop) (p : Sock A) (k : A -> Sock B) :
  (forall g g', ok g -> keep g g' -> ok g') ->
  yields P ok p -> (forall a, P a -> yields P' ok (k a)) -> yields P' ok (p ≫= k).
Proof.
  intros Hok Hp Hk n g Hg. apply sock_wp_bind. eapply sock_wp_mono; [|by apply Hp].
  intros a g' [Ha K]. eapply sock_wp_mono; [|by eapply (Hk a Ha); eauto].
  intros b g'' [Hb K']. split; [done|by etrans].
Qed.

Lemma sock_yields_mono {A} (P P' : A -> Prop) (ok ok' : Local -> Prop) (p : Sock A) :
  yields P ok p -> (forall a, P a -> P' a) -> (forall g, ok' g -> ok g) -> yields P' ok' p.
Proof.
  intros Hp HP Hok n g Hg. eapply sock_wp_mono; [|by eapply Hp, Hok]. intros a g' [? ?]. auto.
Qed.

Lemma yields_loop {A B} (I : A -> Prop) (P : B -> Prop) (ok : Local -> Prop)
    (body : A -> Sock (A + B)) a :
  (forall g g', ok g -> keep g g' -> ok g') ->
  I a ->
  (forall a, I a -> yields (fun r => match r with inl a' => I a' | inr b => P b end) ok (body a)) ->
  yields P ok (loop body a).
Proof.
  intros Hok Ha Hb n g Hg.
  apply (wp_loop n body a g (fun a g' => I a /\ keep g g') (fun b g' => P b /\ keep g g')).
  - split; [done|reflexivity].
  - intros m a' g' [Ha' K]. eapply sock_wp_mono; [|by eapply (Hb a' Ha'); eauto].
    intros [x|b] g'' [? K']; (split; [done|by etrans]).
Qed.

Lemma yields_for_each {A} (ok : Local -> Prop) (l : list A) (body : A -> Sock unit) :
  (forall g g', ok g -> keep g g' -> ok g') ->
  (forall x, x ∈ l -> yields (fun _ => True) ok (body x)) ->
  yields (fun _ => True) ok (for_each l body).
Proof.
  intros Hok. induction l as [|x l IH]; intros Hb; simpl; [by apply sock_yields_ret|].
  eapply sock_yields_bind; [done|apply Hb; by left|]. intros _ _. apply IH. intros y Hy. apply Hb. by right.
Qed.

(** One effect that changes nothing the goroutine has. *)
Definition harmless {A} (ok : Local -> Prop) (P : A -> Prop) (e : SockE A) : Prop :=
  forall g s, ok g -> inv s -> fine g s ->
  pre e g s
  /\ forall t idle rp a s' new, perform t idle e rp s = Some (a, s', new) ->
     P a /\ exists g' hs, Forall2 start new hs /\ (length hs <= 1)%nat /\ legal g g' hs s s' /\ keep g g'.

Lemma yields_eff {A} (P : A -> Prop) ok (e : SockE A) : harmless ok P e -> yields P ok (eff e).
Proof.
  intros H n g Hg. apply sock_wp_eff. intros s Hs Hf. destruct (H g s Hg Hs Hf) as [Hp Hw].
  split; [done|]. intros t idle rp a s' new Hr.
  destruct (Hw _ _ _ _ _ _ Hr) as (Ha & g' & hs & ? & ? & ? & ?). exists g', hs. by split_and!.
Qed.

(** A step that keeps the invariant and what everybody has. *)
Definition keeps (s s' : Shared) : Prop := inv s -> inv s' /\ forall k, fine k s -> fine k s'.

Lemma legal_keeps g s s' : inv s -> fine g s -> keeps s s' -> legal g g [] s s'.
Proof.
  intros Hs Hg H. destruct (H Hs) as [Hs' Hk]. constructor; [done|by apply Hk|done| |done].
  intros k Hf Ha. split_and!; [by apply Hk|done|done].
Qed.

Lemma harmless_keeps {A} (P : A -> Prop) ok (e : SockE A) :
  (forall g s, inv s -> pre e g s) ->
  (forall t idle rp a s s' new, inv s -> perform t idle e rp s = Some (a, s', new) ->
     P a /\ keeps s s' /\ new = []) ->
  harmless ok P e.
Proof.
  intros Hp Hk g s _ Hs Hg. split; [by apply Hp|]. intros t idle rp a s' new Hr.
  destruct (Hk _ _ _ _ _ _ _ Hs Hr) as (Ha & Hks & ->). split; [done|]. exists g, [].
  split_and!; [done|simpl; lia|by apply legal_keeps|reflexivity].
Qed.

Lemma harmless_crit {A} (P : A -> Prop) ok (section : M Shared A) :
  (forall g s, pre (Crit section) g s) ->
  (forall s, inv s -> P (section s).1 /\ keeps s (section s).2) ->
  harmless ok P (Crit section).
Proof.
  intros Hp H. apply harmless_keeps; [by intros|]. intros t idle rp a s s' new Hs Hr.
  simpl in Hr. destruct (section s) as [a0 s0] eqn:E. simplify_eq. destruct (H s Hs) as [Ha Hk].
  rewrite E in Ha, Hk. by split_and!.
Qed.

(** Starting a worker that has nothing. *)
Lemma yields_launch j :
  (forall g s, pre (Launch j) g s) -> start j nothing -> neutral (eff (Launch j)).
Proof.
  intros Hp Hj. apply yields_eff. intros g s _ Hs Hg. split; [by apply Hp|]. intros t idle rp a s' new Hr.
  simpl in Hr. split; [done|]. pose proof (apart_sym _ _ (apart_nothing g)) as Hn.
  exists g, (map (fun _ => nothing) new).
  destruct (ch_stopping (s_chans s)); injection Hr as <- <- <-;
    (split_and!; [by repeat constructor|simpl; lia| |reflexivity]); constructor; simpl; try done.
  - apply Forall_singleton. split; [by apply fine_nothing|done].
  - intros k Hk Ha. split_and!; [done|done|]. apply Forall_singleton, apart_sym, apart_nothing.
Qed.

(** ** Reachable states *)

Context (body : Job -> Sock unit).

(** The protocol holds, and every goroutine keeps it for [n] more steps. *)
Record Inv (n : nat) (y : System) (gs : list Local) : Prop := mkInv {
  in_inv : inv (y_shared y);
  in_fine : Forall (fun g => fine g (y_shared y)) gs;
  in_wp : Forall2 (fun th g => role (th_job th) g /\ wp n (th_prog th) g (fun _ _ => True))
    (y_threads y) gs;
  in_apart i j g h : gs !! i = Some g -> gs !! j = Some h -> i <> j -> apart g h
}.

Definition jobs_start : Prop :=
  forall j h, start j h -> role j h /\ forall n, wp n (body j) h (fun _ _ => True).

Lemma new_threads n new hs :
  jobs_start -> Forall2 start new hs ->
  Forall2 (fun th g => role (th_job th) g /\ wp n (th_prog th) g (fun _ _ => True))
    (map (spawn body) new) hs.
Proof.
  intros Hj. induction 1 as [|j h new hs Hs _ IH]; simpl; constructor; [|done].
  destruct (Hj j h Hs) as [Hr Hw]. split; [done|apply Hw].
Qed.

Lemma insert_app_lookup (gs : list Local) t g' hs i x :
  (<[t:=g']> gs ++ hs) !! i = Some x ->
  (i = t /\ x = g' /\ (t < length gs)%nat) \/ (i <> t /\ gs !! i = Some x)
  \/ ((length gs <= i)%nat /\ hs !! (i - length gs)%nat = Some x).
Proof.
  intros H. apply lookup_app_Some in H as [H|[H1 H2]].
  - apply list_lookup_insert_Some in H as [(-> & -> & ?)|[? ?]]; auto.
  - rewrite length_insert in H1, H2. auto.
Qed.

Lemma legal_apart (gs hs : list Local) t g g' s s' :
  gs !! t = Some g -> Forall (fun k => fine k s) gs ->
  (forall i j g h, gs !! i = Some g -> gs !! j = Some h -> i <> j -> apart g h) ->
  (length hs <= 1)%nat -> legal g g' hs s s' ->
  forall i j x y, (<[t:=g']> gs ++ hs) !! i = Some x -> (<[t:=g']> gs ++ hs) !! j = Some y ->
  i <> j -> apart x y.
Proof.
  intros Eg Hf Ha Hl [_ _ Hnew Hoth _].
  assert (forall i k, gs !! i = Some k -> i <> t ->
    apart g' k /\ Forall (apart k) hs) as Hk.
  { intros i k Hi Hne. apply Hoth; [by apply (Forall_lookup_1 _ _ _ _ Hf Hi)|by apply (Ha t i)]. }
  intros i j x y Hx Hy Hne.
  apply insert_app_lookup in Hx as [(-> & -> & Hx)|[[Hi Hx]|[Hi Hx]]];
    apply insert_app_lookup in Hy as [(-> & -> & Hy)|[[Hj Hy]|[Hj Hy]]].
  - done.
  - by eapply Hk.
  - by apply (Forall_lookup_1 _ _ _ _ Hnew Hy).
  - apply apart_sym. by eapply Hk.
  - by eapply Ha.
  - destruct (Hk _ _ Hx Hi) as [_ H]. by apply (Forall_lookup_1 _ _ _ _ H Hy).
  - apply apart_sym. by apply (Forall_lookup_1 _ _ _ _ Hnew Hx).
  - apply apart_sym. destruct (Hk _ _ Hy Hj) as [_ H]. by apply (Forall_lookup_1 _ _ _ _ H Hx).
  - apply lookup_lt_Some in Hx, Hy. lia.
Qed.

Lemma Inv_less n m y gs : (m <= n)%nat -> Inv n y gs -> Inv m y gs.
Proof.
  intros Hm [Hi Hf Hw Ha]. constructor; [done|done| |done].
  eapply Forall2_impl; [exact Hw|]. intros th g [Hr H]. split; [done|]. by eapply wp_less.
Qed.

Lemma connection_step n t rp y y' gs :
  jobs_start -> Inv (S n) y gs -> step body t rp y = Some y' -> exists gs', Inv n y' gs'.
Proof.
  intros Hj Hall. pose proof Hall as [Hi Hf Hw Ha]. unfold step.
  destruct (y_threads y !! t) as [th|] eqn:Et; [|done].
  destruct (Forall2_lookup_l _ _ _ _ _ Hw Et) as (g & Eg & Hrole & Hg).
  pose proof (Forall_lookup_1 _ _ _ _ Hf Eg) as Hfg. cbn [wp] in Hg, Hfg.
  destruct (Inv_less (S n) n y gs (Nat.le_succ_diag_r n) Hall) as [_ _ Hw' _].
  destruct (observe (th_prog th)) as [a|p|X e k] eqn:Eo; [done|..].
  - intros [= <-]. exists gs. constructor; simpl; [done|done| |done].
    replace gs with (<[t:=g]> gs) by (by apply list_insert_id). by apply Forall2_insert.
  - destruct (perform _ _ _ _ _) as [[[a s'] new]|] eqn:Ep; [|done]. intros [= <-].
    destruct (Hg _ Hi Hfg) as [_ H]. destruct (H _ _ _ _ _ _ Ep) as (g' & hs & Hs & Hl & Hleg & Hk).
    exists (<[t:=g']> gs ++ hs). constructor; simpl.
    + apply Hleg.
    + apply Forall_app. split.
      * apply Forall_forall. intros x (i & Hx)%list_elem_of_lookup.
        apply list_lookup_insert_Some in Hx as [(_ & -> & _)|[Hne Hx]]; [apply Hleg|].
        apply (legal_others _ _ _ _ _ Hleg); [by apply (Forall_lookup_1 _ _ _ _ Hf Hx)|by eapply Ha].
      * eapply Forall_impl; [apply (legal_new _ _ _ _ _ Hleg)|]. by intros x [? ?].
    + apply Forall2_app; [|by apply new_threads]. apply Forall2_insert; [done|].
      split; [|done]. by apply (legal_role _ _ _ _ _ Hleg).
    + by eapply legal_apart.
Qed.

Lemma connection_move n m y gs : jobs_start -> Inv (S n) y gs -> exists gs', Inv n (move body y m) gs'.
Proof.
  intros Hj Hall. pose proof (Inv_less (S n) n y gs (Nat.le_succ_diag_r n) Hall) as Hless.
  assert (forall s', environment (y_shared y) s' -> Inv n (mkSystem s' (y_threads y)) gs) as Henv.
  { intros s' He. destruct Hless as [Hi Hf Hw Ha]. constructor; simpl; [by eapply environment_inv| |done|done].
    eapply Forall_impl; [exact Hf|]. intros g. by eapply environment_fine. }
  destruct m as [t rp|c faults|processID|]; simpl.
  - destruct (step body t rp y) as [y'|] eqn:E; simpl; [by eapply connection_step|eauto].
  - destruct (decide (wf_cmd c)) as [Hc|]; [|eauto].
    destruct (run_cmd c faults (s_db (y_shared y))) as [r db] eqn:E. exists gs.
    by apply Henv, env_write.
  - exists gs. apply Henv. constructor.
  - exists gs. apply Henv. constructor.
Qed.

Lemma connection_execute l n y gs :
  jobs_start -> Inv (length l + n) y gs -> exists gs', Inv n (execute body l y) gs'.
Proof.
  intros Hj. revert y gs. induction l as [|m l IH]; intros y gs H; simpl; [eauto|].
  destruct (connection_move (length l + n) m y gs Hj H) as [gs' H']. by eapply IH.
Qed.
End Logic.

(** A connection keeps a protocol that holds when it opens. *)
Section Serve.
Context {RC : ReportCodec} {CC : ClientCodec} {PC : PayloadCodec} {SC : SocketCodec}.
Context {PR : Protocol} {PL : ProtocolLaws} (start : Job -> Local -> Prop).
Context (startup : localStartupState) (runtime : DaemonRuntime) (sleepAfter : Z) (instanceID : string).
Set Default Proof Using "Type*".

Lemma serve_keeps processes runtimes fresh l db h n :
  jobs_start start (body startup runtime sleepAfter instanceID) ->
  let y := open_socket startup runtime sleepAfter instanceID processes runtimes fresh db in
  start JRun h -> inv (y_shared y) -> fine h (y_shared y) ->
  exists gs, Inv start n (serve startup runtime sleepAfter instanceID processes runtimes fresh l db) gs.
Proof.
  intros Hj y Hs Hi Hf. unfold serve. apply (connection_execute start _ l n y [h]); [done|].
  destruct (Hj JRun h Hs) as [Hr Hw]. constructor; [done|by apply Forall_singleton| |].
  - constructor; [|constructor]. split; [done|apply Hw].
  - intros i j g g' Eg Eg' Hne. apply list_lookup_singleton_Some in Eg as [? _], Eg' as [? _]. lia.
Qed.
End Serve.

Arguments yields {_ _} start {A} P ok p : simpl never.
Arguments harmless {_ _} start {A} ok P e : simpl never.

(** ** Logs *)

(** Every event is lawful after the events before it. *)
Definition lawfully (law : list Ev -> Ev -> Prop) (l : list Ev) : Prop :=
  forall past e later, l = past ++ e :: later -> law past e.

Lemma lawfully_nil law : lawfully law [].
Proof. intros past e later H. by destruct past. Qed.

Lemma lawfully_snoc law l e : lawfully law l -> law l e -> lawfully law (l ++ [e]).
Proof.
  intros Hl He past e' later H. induction later as [|x later _] using rev_ind.
  - apply app_inj_tail in H as [-> ->]. done.
  - rewrite app_comm_cons, (assoc_L (++)) in H. apply app_inj_tail in H as [H _]. by eapply Hl.
Qed.

Lemma lawfully_quiet law l l' :
  (forall past e, e ∈ l' -> law past e) -> lawfully law l -> lawfully law (l ++ l').
Proof.
  intros He Hl. induction l' as [|e l' IH] using rev_ind; [by rewrite (right_id_L [] (++))|].
  rewrite (assoc_L (++)). apply lawfully_snoc.
  - apply IH. intros past x Hx. apply He. apply elem_of_app. by left.
  - apply He. apply elem_of_app. right. by apply list_elem_of_singleton.
Qed.

(** ** Critical sections, statement by statement *)

(** What a section does to the state is in [R]. *)
Definition tracks (R : Shared -> Shared -> Prop) {A} (p : M Shared A) : Prop := forall s, R s (p s).2.

Section Tracks.
Context (R : Shared -> Shared -> Prop) {R_pre : PreOrder R}.
Set Default Proof Using "Type*".

Lemma tracks_ret {A} (a : A) : tracks R (mret a).
Proof. intros s. reflexivity. Qed.

Lemma tracks_bind {A B} (p : M Shared A) (k : A -> M Shared B) :
  tracks R p -> (forall a, tracks R (k a)) -> tracks R (p ≫= k).
Proof.
  intros Hp Hk s. unfold mbind, M_bind. specialize (Hp s). destruct (p s) as [a s1]. simpl in *.
  etrans; [exact Hp|apply Hk].
Qed.

Lemma tracks_mem {A} (f : Mem -> A) : tracks R (mem f).
Proof. intros s. reflexivity. Qed.

Lemma tracks_get {A} (f : Shared -> A) : tracks R (get f).
Proof. intros s. reflexivity. Qed.
End Tracks.

(** One statement of a section; what remains are the assignments. *)
Ltac tracks_step :=
  match goal with
  | |- tracks ?R (mret _) => apply (tracks_ret R)
  | |- tracks ?R (_ ≫= _) => apply (tracks_bind R); [|intros ?]
  | |- tracks ?R (mem _) => apply (tracks_mem R)
  | |- tracks ?R (get _) => apply (tracks_get R)
  | |- tracks _ (match _ with _ => _ end) => case_match
  | |- tracks _ (match ?x with _ => _ end _) => destruct x
  | |- tracks _ (let _ := _ in _) => cbv zeta
  end.

(** The sections of the handlers, except those about reports, queues and starts. *)
Ltac open_section :=
  unfold claim_storage_failure, forgetResolvedProcessActions, settle_storage_failure,
    runner_of_runtime, forget_pending, reject_section, pending_runtime, offer_section, adopt_section,
    accept_section, apply_termination, publish_section, terminate_section, forgetRejectedActionOffer,
    offer_action_section, enqueue_section, grant_section, dequeueAcceptedAction, forget_action,
    failed_section, cleanup_only, resume_section, add_waiter, removeReportWaiter, take_waiters,
    take_all_waiters, add_process, live_process, local_process, set_reporting, set_pending,
    new_process_runtime, alloc, SendSkillReport, enqueue_or_fail, enqueue, fail.
