(* ===== verification/SocketDiscipline.v ===== *)
(** * What every handler needs of a protocol

    The handlers and workers of a connection are the same for every property; what a
    property has to know of them are their critical sections and effects.  The class
    [Discipline] lists these as an interface: a protocol that implements it gets the
    handlers, the loop and the ordinary workers for free.  Three workers are left to
    the protocols that speak about them (preparing, starting, and running the actions
    of a process); their rules are stated under the conditions they need. *)
From ITree Require Import ITree.
From S2P Require Import Prelude GoStrings DaemonProtocol ProcessCmd DaemonMessages LocalPaths.
From S2P Require Import StateSchema StateQueries StateTx StateReport StateProcess StateAction.
From S2P Require Import StateTrace StateOutbox LocalStore ClientWorld Reconciliation SocketWorld Socket.
From S2P Require Import SocketLogic.
From stdpp Require Import options.

(** Jobs that start with nothing. *)
Definition plain_job (j : Job) : Prop :=
  match j with JRun | JPrepare _ _ | JStart _ _ | JQueue _ _ => False | _ => True end.

(** Calls of the outside that no protocol restricts. *)
Definition plain_call {A} (x : Outside A) : Prop :=
  match x with StartOnce _ | ApplyOnce _ _ _ | SocketRead => False | _ => True end.

Class Knowledge {PR : Protocol} : Type := {
  heard : Message -> Local -> Prop;                      (**r the loop received it *)
  answered : string -> daemonReportAck -> Local -> Prop; (**r this is how a report was answered *)
  good_action : pendingAction -> Prop;
  good_message : Message -> Prop;
  ends : Local -> Prop                                   (**r it may end the connection *)
}.

Section Interface.
Context {RC : ReportCodec} {CC : ClientCodec} {SC : SocketCodec} {PR : Protocol} {KN : Knowledge}.
Context (start : Job -> Local -> Prop).

Abbreviation neutral := (yields start (fun _ => True) (fun _ => True)).
Abbreviation knowing ok := (yields start (fun _ => True) ok).

Definition good_result (r : option pendingAction) : Prop := forall a, r = Some a -> good_action a.

Definition good_of_offer (offer : ActionOffer) : Prop :=
  good_action (mkPendingAction (ao_ProcessID offer)
    (mkProcessAction (ao_ActionKind offer) (ao_Seq offer) (ao_Payload offer) (ao_ProcessActionID offer))
    (ProcessStateOther "") 0 false).

Class Discipline : Prop := {
  heard_keep m g g' : heard m g -> keep g g' -> heard m g';
  answered_keep rid a g g' : answered rid a g -> keep g g' -> answered rid a g';
  good_offered m offer : good_message m -> m_ActionOffer m = Some offer -> good_of_offer offer;

  (** effects *)
  d_launch j : plain_job j -> neutral (eff (Launch j));
  d_handover m : good_message m -> neutral (eff (HandOver m));
  d_taken : neutral (eff AwaitTaken);
  d_write : neutral (eff SelectWrite);
  d_sleep : neutral (eff SleepContext);
  d_ctx : neutral (eff CtxDone);
  d_db_process processID : neutral (eff (DbProcess processID));
  d_db_action actionID : neutral (eff (DbAction actionID));
  d_db_candidates : neutral (eff DbCandidates);
  d_call {A} (x : Outside A) : plain_call x -> neutral (call x);
  d_read : yields start (fun r => forall m, r = inr m -> good_message m) (fun _ => True) (call SocketRead);
  d_select n idleTick g : wp start n (eff (Select idleTick)) g (fun r g' =>
    keep g g' /\ forall m, r = SelMessage m -> heard m g' /\ good_message m);

  (** critical sections *)
  d_mem {A} (f : Mem -> A) : neutral (crit (mem f));
  d_get {A} (f : Shared -> A) : neutral (crit (get f));
  d_fail e : neutral (crit (fail e));
  d_enqueue m : neutral (crit (enqueue m));
  d_enqueue_or_fail m : neutral (crit (enqueue_or_fail m));
  d_writeDone e : neutral (crit (set_chans (with_writeDone e)));
  d_readDone e : neutral (crit (set_chans (with_readDone e)));
  d_skill_report report : neutral (crit (SendSkillReport report));
  d_skillsync : neutral (crit (set_chans (with_skillsync true)));
  d_set_reporting b p : neutral (crit (set_reporting b p));
  d_claim p : neutral (crit (claim_storage_failure p));
  d_forget_actions processID : neutral (crit (forgetResolvedProcessActions processID));
  d_settle_failure p err : neutral (crit (settle_storage_failure p err));
  d_forget_pending processID p : neutral (crit (forget_pending processID p));
  d_cleanup processID instance : neutral (keep_for_cleanup processID instance);
  d_add p done : neutral (crit (add_process p done));
  d_live processID : neutral (crit (live_process processID));
  d_reject processID : neutral (crit (reject_section processID));
  d_terminate processID : neutral (crit (terminate_section processID));
  d_forget_offer processID actionID : neutral (crit (forgetRejectedActionOffer processID actionID));
  d_forget_action actionID : neutral (crit (forget_action actionID));
  d_failed actionID e : neutral (crit (failed_section actionID e));
  d_lookup actionID :
    yields start good_result (fun _ => True) (crit (mem (fun m => t_pendingActions m !! actionID)));
  d_offer_action a : good_action a -> neutral (crit (offer_action_section a));
  d_grant grant : yields start good_result (fun _ => True) (crit (grant_section grant));
  d_resume processID action :
    good_action (mkPendingAction processID action (ProcessStateOther "") 0 true) ->
    yields start good_action (fun _ => True) (crit (resume_section processID action));

  (** what the protocols speak about *)
  d_offer_process offer : neutral (offerProcess offer);
  d_accepted m : m_Type m = MessageProcessAcceptAck ->
    knowing (heard m) (startAcceptedProcess (m_ProcessID m));
  d_enqueue_action a : good_action a -> neutral (enqueueAcceptedAction a);
  d_ack m : m_Type m = MessageReportAck -> knowing (heard m) (ackReport m);
  d_send n g report : wp start n (SendReport report) g (fun r g' =>
    keep g g' /\ forall a, r = inr a -> answered (r_ID report) a g');
  d_settle report a : knowing (answered (r_ID report) a) (settle_acknowledged report a);
  d_resolve a processID instance : good_action a ->
    neutral (db_command (CResolveAbsentAction processID instance (pa_ID (pac_action a))
                           (pa_Seq (pac_action a))));
  ends_keep g g' : ends g -> keep g g' -> ends g';
  d_return n g r : ends g -> wp start n (stopAndWait;; crit (note (VReturn r.1 r.2))) g (fun _ _ => True)
}.
End Interface.

#[export] Hint Resolve d_handover d_taken d_write d_sleep d_ctx d_db_process d_db_action
  d_db_candidates d_mem d_get d_fail d_enqueue d_skill_report d_enqueue_or_fail d_writeDone d_readDone d_skillsync
  d_set_reporting d_claim d_forget_actions d_settle_failure d_forget_pending d_cleanup d_add d_live
  d_reject d_terminate d_forget_offer d_forget_action d_failed d_offer_action d_offer_process
  d_enqueue_action : sock.

(** One node of a neutral program. *)
Ltac sock_step :=
  lazymatch goal with
  | |- yields _ _ _ (mret _) => apply sock_yields_ret; repeat case_match; done
  | |- yields _ _ _ (_ ≫= _) =>
      eapply (sock_yields_bind _ (fun _ => True)); [first [by intros|assumption]| |intros ? _]
  | |- yields _ _ _ (loop _ _) =>
      eapply (yields_loop _ (fun _ => True)); [first [by intros|assumption]|done|intros ? _]
  | |- yields _ _ _ (for_each _ _) => apply yields_for_each; [first [by intros|assumption]|intros ? _]
  | |- yields _ _ _ (let _ := _ in _) => cbv zeta
  | |- yields _ _ _ (match _ with _ => _ end) => case_match
  | |- yields _ _ _ (eff (Launch _)) => apply d_launch; done
  | |- yields _ _ _ (call _) => apply d_call; done
  end.
Ltac sock_walk := repeat first [ solve [eauto with sock] | sock_step ].

Section Handlers.
Context {RC : ReportCodec} {CC : ClientCodec} {PC : PayloadCodec} {SC : SocketCodec}.
Context {PR : Protocol} {PL : ProtocolLaws} {KN : Knowledge} (start : Job -> Local -> Prop).
Context {DI : Discipline start}.
Set Default Proof Using "Type*".

Abbreviation neutral := (yields start (fun _ => True) (fun _ => True)).

(** A result that is not looked at, and something known that is not used. *)
Lemma yields_weak {A} (P : A -> Prop) ok (p : Sock A) :
  yields start P (fun _ => True) p -> yields start (fun _ => True) ok p.
Proof. intros H. by eapply sock_yields_mono. Qed.

Lemma n_send report : neutral (SendReport report).
Proof. intros n g _. eapply sock_wp_mono; [|apply (d_send start)]. by intros a g' [? _]. Qed.
#[local] Hint Resolve n_send : sock.

Lemma n_storage_report processID : neutral (sendStorageExhaustionReport processID).
Proof. unfold sendStorageExhaustionReport. sock_walk. Qed.
#[local] Hint Resolve n_storage_report : sock.

Lemma n_resolve_failure p r processID : neutral (resolve_storage_failure p r processID).
Proof. unfold resolve_storage_failure. sock_walk. Qed.
#[local] Hint Resolve n_resolve_failure : sock.

Lemma n_report_failure b p r processID : neutral (report_storage_failure b p r processID).
Proof. unfold report_storage_failure. sock_walk. Qed.
#[local] Hint Resolve n_report_failure : sock.

Lemma n_storage_failure p cause : neutral (handleAcceptedStorageFailure p cause).
Proof. unfold handleAcceptedStorageFailure, runner_of_runtime. sock_walk. Qed.
#[local] Hint Resolve n_storage_failure : sock.

Lemma n_fail_unless err : neutral (fail_unless_cancelled err).
Proof. unfold fail_unless_cancelled. sock_walk. Qed.
#[local] Hint Resolve n_fail_unless : sock.

Lemma n_ready_job p : neutral (report_ready_job p).
Proof. unfold report_ready_job. sock_walk. Qed.

Lemma n_report_ready : neutral reportReadyStorageFailures.
Proof. unfold reportReadyStorageFailures, storageFailureRuntimes. sock_walk. Qed.
#[local] Hint Resolve n_report_ready : sock.

Lemma n_close_offer processID : neutral (closeRejectedProcessOffer processID).
Proof. unfold closeRejectedProcessOffer. sock_walk. Qed.
#[local] Hint Resolve n_close_offer : sock.

Lemma n_close_job processID p : neutral (close_rejected_job processID p).
Proof. unfold close_rejected_job, pending_runtime. sock_walk. Qed.

Lemma n_terminate_process processID : neutral (terminateProcess processID).
Proof. unfold terminateProcess. sock_walk. Qed.
#[local] Hint Resolve n_terminate_process : sock.

Lemma n_terminate_job p : neutral (terminate_job p).
Proof. unfold terminate_job. sock_walk. Qed.

Lemma n_offer_action offer : good_of_offer offer -> neutral (offerAction offer).
Proof. intros Hg. unfold offerAction, good_of_offer in *. sock_walk. Qed.

Lemma n_grant grant : neutral (applyAcceptedAction grant).
Proof.
  unfold applyAcceptedAction. eapply sock_yields_bind; [by intros|apply (d_grant start)|]. intros [a|] Ha; sock_walk.
Qed.
#[local] Hint Resolve n_grant : sock.

Lemma n_busy operation : neutral operation -> neutral (busy_loop operation).
Proof. intros H. unfold busy_loop. sock_walk. Qed.

Lemma n_terminal processID state : neutral (readProcessTerminal processID state).
Proof. unfold readProcessTerminal. sock_walk. Qed.
#[local] Hint Resolve n_terminal : sock.

Lemma n_resolve_read a : good_action a -> neutral (resolve_read a).
Proof. intros Ha. unfold resolve_read. sock_walk. apply n_busy. by apply (d_resolve start). Qed.

Lemma n_direct_read a t code text result :
  good_action a -> neutral (reportDirectRead a t code text result).
Proof. intros Ha. pose proof (n_resolve_read a Ha). unfold reportDirectRead. sock_walk. Qed.

Lemma n_accepted_read a : good_action a -> neutral (runAcceptedRead a).
Proof.
  intros Ha. pose proof (fun t code text result => n_direct_read a t code text result Ha).
  unfold runAcceptedRead, read_round, reportDirectReadFailure. sock_walk.
Qed.

Lemma n_wait_released actionID : neutral (waitActionReleased actionID).
Proof. unfold waitActionReleased. sock_walk. Qed.

Lemma n_skill offer : neutral (handleSkillOffer offer).
Proof. unfold handleSkillOffer, skillSyncManager. sock_walk. Qed.
#[local] Hint Resolve n_skill : sock.

Lemma n_handle_skill offer : neutral (HandleOffer offer).
Proof. unfold HandleOffer. sock_walk. Qed.

Lemma n_server_error m : neutral (handleServerError m).
Proof. unfold handleServerError. sock_walk. Qed.
#[local] Hint Resolve n_server_error : sock.

(** Handlers that are neutral are so whatever the loop has heard. *)
Lemma n_message m : good_message m -> yields start (fun _ => True) (heard m) (handleMessage m).
Proof.
  intros Hm.
  assert (forall (p : Sock unit) (r : option error), yields start (fun _ => True) (heard m) p ->
    yields start (fun _ => True) (heard m) (p;; mret r)) as Hthen.
  { intros p r Hp. eapply (sock_yields_bind _ (fun _ => True)); [by apply (heard_keep start)|done|].
    intros _ _. by apply sock_yields_ret. }
  assert (forall {A} (x : option A) h, (forall y, x = Some y -> neutral (h y)) ->
    yields start (fun _ => True) (heard m) (when x h)) as Hwhen.
  { intros A [y|] h H; simpl; [|by apply sock_yields_ret]. apply Hthen. by eapply yields_weak, H. }
  unfold handleMessage. destruct (m_Type m) eqn:Et; try (by apply sock_yields_ret).
  - apply Hwhen. intros y _. apply (d_offer_process start).
  - apply Hthen. by apply (d_accepted start).
  - apply Hthen. by eapply yields_weak, n_terminate_process.
  - apply Hwhen. intros y Hy. apply n_offer_action. by eapply (good_offered start).
  - apply Hwhen. intros y _. apply n_grant.
  - apply Hthen. by apply (d_ack start).
  - apply Hthen. by eapply yields_weak, n_server_error.
  - apply Hwhen. intros y _. apply n_skill.
Qed.

(** ** The outbox *)

Lemma n_choose forced candidates bp ba reports : neutral (choose_reports forced candidates bp ba reports).
Proof.
  revert bp ba reports. induction candidates as [|report rest IH]; intros bp ba reports;
    cbn [choose_reports]; unfold cleanup_only; sock_walk.
Qed.
#[local] Hint Resolve n_choose : sock.

Lemma n_load forced : neutral (load_outbox forced).
Proof. unfold load_outbox. sock_walk. Qed.
#[local] Hint Resolve n_load : sock.

Lemma n_send_reports reports forced progress : neutral (send_reports reports forced progress).
Proof.
  revert forced progress. induction reports as [|report rest IH]; intros forced progress;
    cbn [send_reports]; [sock_walk|]. intros n g _. apply sock_wp_bind. eapply sock_wp_mono; [|apply (d_send start)].
  intros [e|a] g' [K Ha].
  - eapply sock_wp_mono; [|by apply (yields_weak (fun _ => True) (fun _ => True)); sock_walk].
    intros x g'' [_ K']. split; [done|by etrans].
  - apply sock_wp_bind. eapply sock_wp_mono; [|by apply (d_settle start), Ha]. intros err g'' [_ K'].
    eapply sock_wp_mono; [|by apply (yields_weak (fun _ => True) (fun _ => True)); sock_walk].
    intros x g3 [_ K3]. split; [done|]. etrans; [exact K|by etrans].
Qed.
#[local] Hint Resolve n_send_reports : sock.

Lemma n_replay forced : neutral (replayReportOutbox forced).
Proof. unfold replayReportOutbox. sock_walk. Qed.

Lemma n_finalize : neutral finalizeReleasedProcessesLoop.
Proof. unfold finalizeReleasedProcessesLoop. sock_walk. Qed.

(** ** The loop *)

Lemma n_write_job : neutral write_job.
Proof. unfold write_job, writeLoop. sock_walk. Qed.

Lemma n_read_job : neutral read_job.
Proof.
  unfold read_job. eapply (sock_yields_bind _ (fun _ => True)); [by intros| |sock_walk].
  eapply (yields_loop _ (fun _ => True)); [by intros|done|intros _ _].
  eapply sock_yields_bind; [by intros|apply (d_read start)|]. intros [e|m] Hm; [sock_walk|].
  pose proof (d_handover start m (Hm m eq_refl)). sock_walk.
Qed.

Lemma n_idle : neutral idle.
Proof. unfold idle. sock_walk. Qed.
#[local] Hint Resolve n_idle : sock.

Lemma n_daemon_idle : neutral daemonIdle.
Proof. unfold daemonIdle. sock_walk. Qed.
#[local] Hint Resolve n_daemon_idle : sock.

Lemma n_preparation_failed processID p made e : neutral (preparation_failed processID p made e).
Proof. unfold preparation_failed. sock_walk. Qed.
#[local] Hint Resolve n_preparation_failed : sock.

(** A preparation whose entry was superseded. *)
Lemma n_superseded processID q :
  neutral (rt ← crit (mem (socket_runtime q));
           r ← call (CloseRejected processID (rt_supervisorInstanceID rt) q);
           match r with
           | (true, _) => keep_for_cleanup processID (rt_supervisorInstanceID rt)
           | (false, Some e) => crit (fail e)
           | (false, None) => mret tt
           end).
Proof. sock_walk. Qed.

(** What follows the attempt to start a process. *)
Lemma n_after_start processID p q runner err :
  (forall processID p r done, neutral (crit (publish_section processID p r done))) ->
  neutral (r ← handleAcceptedStorageFailure (Some q) err;
           match r with
           | (true, None) => crit (forget_pending processID p)
           | (_, Some e) => crit (fail e)
           | (false, None) => publish_started processID p q runner
           end).
Proof. intros H. unfold publish_started. sock_walk. Qed.

(** ** The workers a protocol may speak about *)

Lemma n_prepare assignment p :
  (forall processID instance pid runner cleanup,
     neutral (crit (new_process_runtime processID instance pid runner cleanup))) ->
  (forall processID p r, neutral (crit (adopt_section processID p r))) ->
  neutral (prepare_job assignment p).
Proof.
  intros H1 H2. unfold prepare_job, sendProcessAccept. sock_walk.
Qed.

Lemma n_start processID p :
  (forall instance, neutral (db_command (CMarkAccepted processID instance))) ->
  (forall p, neutral (crit (apply_termination p))) ->
  (forall processID p r done, neutral (crit (publish_section processID p r done))) ->
  (forall r, neutral (call (StartOnce r))) ->
  neutral (start_job processID p).
Proof.
  intros H1 H2 H3 H4. pose proof (fun i => n_busy _ (H1 i)).
  unfold start_job, pending_runtime, store_write, publish_started. sock_walk.
Qed.

(** Under something that is known and stays so. *)
Ltac known_walk :=
  repeat first [ solve [eauto with sock] | solve [apply (yields_weak (fun _ => True)); sock_walk] | sock_step ].

Lemma n_mutating (ok : Local -> Prop) processID a :
  (forall g g', ok g -> keep g g' -> ok g') ->
  (forall r, yields start (fun _ => True) ok (call (ApplyOnce r processID (pac_action a)))) ->
  yields start (fun _ => True) ok (run_mutating processID a).
Proof.
  intros Hok H. pose proof n_wait_released. unfold run_mutating, apply_loop. known_walk.
Qed.

(** Running an action of which something is known, which [named] says of the entry. *)
Lemma n_run_known (ok : Local -> Prop) (named : pendingAction -> Prop) processID actionID :
  (forall g g', ok g -> keep g g' -> ok g') ->
  yields start (fun r => forall a, r = Some a -> good_action a /\ named a) (fun _ => True)
    (crit (mem (fun m => t_pendingActions m !! actionID))) ->
  (forall r a, named a -> yields start (fun _ => True) ok (call (ApplyOnce r processID (pac_action a)))) ->
  yields start (fun _ => True) ok (runAcceptedAction processID actionID).
Proof.
  intros Hok Hl Ha. unfold runAcceptedAction.
  eapply sock_yields_bind; [done|by eapply sock_yields_mono; [exact Hl|done|]|].
  intros [a|] H; [|known_walk]. destruct (H a eq_refl) as [Hgood Hnamed].
  pose proof (n_accepted_read a Hgood). pose proof (n_mutating ok processID a Hok (fun r => Ha r a Hnamed)).
  known_walk.
Qed.

Lemma n_run_action processID actionID :
  (forall r a, neutral (call (ApplyOnce r processID a))) -> neutral (runAcceptedAction processID actionID).
Proof.
  intros H. apply (n_run_known (fun _ => True) (fun _ => True)); [done| |by intros].
  eapply sock_yields_mono; [apply (d_lookup start)|by intros r Hr a E; split; [apply Hr|]|done].
Qed.

Lemma n_queue processID q :
  (forall r a, neutral (call (ApplyOnce r processID a))) ->
  neutral (crit (dequeueAcceptedAction processID q)) -> neutral (runActionQueue processID q).
Proof.
  intros H1 H2. pose proof (fun actionID => n_run_action processID actionID H1).
  unfold runActionQueue. sock_walk.
Qed.

(** ** The connection *)

Context (startup : localStartupState) (runtime : DaemonRuntime) (sleepAfter : Z) (instanceID : string).

Lemma n_heartbeat st : neutral (heartbeat_case instanceID st).
Proof. unfold heartbeat_case. sock_walk. Qed.

Lemma n_idle_case st now : neutral (idle_case sleepAfter st now).
Proof. unfold idle_case. sock_walk. Qed.

Lemma n_message_case st m :
  good_message m -> yields start (fun _ => True) (heard m) (message_case st m).
Proof.
  intros Hm. unfold message_case.
  eapply (sock_yields_bind _ (fun _ => True)); [by apply (heard_keep start)|by apply n_message|].
  intros err _. by apply sock_yields_ret.
Qed.

Lemma n_main idleTick st : neutral (main_loop sleepAfter instanceID idleTick st).
Proof.
  apply (yields_loop _ (fun _ => True)); [by intros|done|]. clear st. intros st _ n g _.
  apply sock_wp_bind. eapply sock_wp_mono; [|apply (d_select start)]. intros selected g' [K Hm].
  assert (forall p : Sock (LoopState + bool * option error), yields start (fun _ => True)
    (fun x => x = g') p -> wp start n p g' (fun a g2 => match a with inl _ => True | inr _ => True end
                                          /\ keep g g2)) as Hgo.
  { intros p Hp. eapply sock_wp_mono; [|by apply Hp]. intros [?|?] g2 [_ K2]; (split; [done|by etrans]). }
  destruct selected as [|e| |e|e|now|m]; apply Hgo; try (by apply sock_yields_ret).
  - by eapply yields_weak, n_heartbeat.
  - by eapply yields_weak, n_idle_case.
  - destruct (Hm m eq_refl) as [Hheard Hgood].
    eapply sock_yields_mono; [by apply n_message_case|done|]. by intros ? ->.
Qed.

Definition good_startup_actions : Prop :=
  Forall (fun pa => good_action (mkPendingAction pa.1 pa.2 (ProcessStateOther "") 0 true))
    (su_Actions startup).

Lemma n_resume_actions : good_startup_actions -> neutral (resumeStartupActions startup).
Proof.
  intros Hg. apply yields_for_each; [by intros|]. intros [processID action] Hin.
  rewrite merge_sort_Permutation in Hin.
  pose proof (proj1 (Forall_forall _ _) Hg _ Hin) as Ha. simpl in Ha.
  eapply (sock_yields_bind _ (fun _ => True)); [by intros|by apply (d_call start)|]. intros ready _.
  destruct ready; [by apply sock_yields_ret|].
  eapply sock_yields_bind; [by intros|by apply (d_resume start)|]. intros a Ha'. by apply (d_enqueue_action start).
Qed.

Lemma n_connection :
  good_startup_actions -> neutral (run_connection startup runtime sleepAfter instanceID).
Proof.
  intros Hg. pose proof (n_resume_actions Hg). pose proof n_main.
  unfold run_connection, connected. sock_walk.
Qed.

Lemma n_run n g :
  good_startup_actions -> ends g ->
  wp start n (run_job startup runtime sleepAfter instanceID) g (fun _ _ => True).
Proof.
  intros Hg He. unfold run_job. apply sock_wp_bind. eapply sock_wp_mono; [|by apply n_connection].
  intros r g' [_ K]. apply (d_return start). by eapply (ends_keep start).
Qed.

(** The jobs that start with nothing. *)
Lemma n_plain_body j :
  plain_job j -> neutral (body startup runtime sleepAfter instanceID j).
Proof.
  pose proof n_write_job. pose proof n_read_job. pose proof n_finalize.
  destruct j; simpl; intros Hj; try done.
  - apply n_replay.
  - apply n_ready_job.
  - apply n_close_job.
  - apply n_terminate_job.
  - apply n_handle_skill.
Qed.

(** All jobs keep a protocol when those do that it speaks about. *)
Lemma discipline_jobs :
  (forall j h, start j h -> role j h) ->
  good_startup_actions -> (forall h, start JRun h -> ends h) ->
  (forall assignment p h n, start (JPrepare assignment p) h ->
     wp start n (prepare_job assignment p) h (fun _ _ => True)) ->
  (forall processID p h n, start (JStart processID p) h ->
     wp start n (start_job processID p) h (fun _ _ => True)) ->
  (forall processID q h n, start (JQueue processID q) h ->
     wp start n (runActionQueue processID q) h (fun _ _ => True)) ->
  jobs_start start (body startup runtime sleepAfter instanceID).
Proof.
  intros Hr Hg Hend H1 H2 H3 j h Hh. split; [by apply Hr|]. intros n.
  destruct j; try (by eapply sock_wp_mono; [|by apply n_plain_body]); simpl;
    [by apply n_run; [|apply Hend]|by apply H1|by apply H2|by apply H3].
Qed.

(** A job that is neutral. *)
Lemma neutral_job {A} (p : Sock A) n h : neutral p -> wp start n p h (fun _ _ => True).
Proof. intros H. eapply sock_wp_mono; [|by apply H]. done. Qed.
End Handlers.
