(* ===== verification/SocketFrame.v ===== *)
(** * Frames: steps that do not concern a protocol

    Most sections and effects of the connection do not concern a given protocol: they
    leave its part of the memory, of the channels and of the database alone, and add
    only events to the log that its laws do not speak about.  A [Frame] names these
    parts; [Framing] says that such steps keep the protocol.  The lemmas and tactics
    here prove the sections and effects that stay within a frame. *)
From ITree Require Import ITree.
From S2P Require Import Prelude GoStrings DaemonProtocol ProcessCmd DaemonMessages LocalPaths.
From S2P Require Import StateSchema StateQueries StateTx StateReport StateProcess StateAction.
From S2P Require Import StateTrace StateOutbox LocalStore ClientWorld Reconciliation SocketWorld Socket.
From S2P Require Import SocketLogic SocketDiscipline.
From stdpp Require Import options.

Record Frame : Type := mkFrame {
  fr_mem : Mem -> Mem -> Prop;
  fr_chans : Chans -> Chans -> Prop;
  fr_db : DB -> DB -> Prop;
  fr_quiet : Ev -> Prop
}.

Record framed (F : Frame) (s s' : Shared) : Prop := mkFramed {
  framed_mem : fr_mem F (s_mem s) (s_mem s');
  framed_chans : fr_chans F (s_chans s) (s_chans s');
  framed_db : fr_db F (s_db s) (s_db s');
  framed_log : exists l, s_log s' = s_log s ++ l /\ Forall (fr_quiet F) l
}.

(** Effects that no protocol restricts. *)
Definition free_effect {A} (e : SockE A) : Prop :=
  match e with Crit _ | Deliver _ _ | WaitWorkers => False | Launch j => j <> JRun | _ => True end.

Class Framing {RC : ReportCodec} {PR : Protocol} (F : Frame) : Prop := {
  framing_mem :: PreOrder (fr_mem F);
  framing_chans :: PreOrder (fr_chans F);
  framing_db :: PreOrder (fr_db F);
  framing_keeps s s' : framed F s s' -> keeps s s';
  framing_pre A (e : SockE A) g s : free_effect e -> pre e g s;
  framing_crit A (section : M Shared A) g s : framed F s (section s).2 -> pre (Crit section) g s
}.

Section FramedSteps.
Context {RC : ReportCodec} {PR : Protocol} (F : Frame) {FR : Framing F}.
Set Default Proof Using "Type*".

Global Instance framed_preorder : PreOrder (framed F).
Proof.
  split.
  - intros s. constructor; try reflexivity. exists []. by rewrite (right_id_L [] (++)).
  - intros s1 s2 s3 [E1 F1 G1 (l1 & L1 & Q1)] [E2 F2 G2 (l2 & L2 & Q2)].
    constructor; try (by etrans). exists (l1 ++ l2).
    rewrite L2, L1, (assoc_L (++)). split; [done|by apply Forall_app].
Qed.

Lemma framed_event e s : fr_quiet F e -> framed F s (on_log e s).
Proof. intros He. constructor; try reflexivity. exists [e]. by repeat constructor. Qed.

Lemma framed_events l s : Forall (fr_quiet F) l -> framed F s (log_all l s).
Proof.
  intros H. revert s. induction H as [|e l He _ IH]; intros s; simpl; [reflexivity|].
  etrans; [by apply framed_event|apply IH].
Qed.

Lemma framed_mem_step f s : fr_mem F (s_mem s) (f (s_mem s)) -> framed F s (on_mem f s).
Proof. intros H. constructor; try reflexivity; [done|]. exists []. by rewrite (right_id_L [] (++)). Qed.

Lemma framed_chans_step f s : fr_chans F (s_chans s) (f (s_chans s)) -> framed F s (on_chans f s).
Proof. intros H. constructor; try reflexivity; [done|]. exists []. by rewrite (right_id_L [] (++)). Qed.

Lemma frame_mem f : (forall m, fr_mem F m (f m)) -> tracks (framed F) (set_mem f).
Proof. intros H s. by apply framed_mem_step. Qed.

Lemma frame_chans f : (forall c, fr_chans F c (f c)) -> tracks (framed F) (set_chans f).
Proof. intros H s. by apply framed_chans_step. Qed.

Lemma frame_note e : fr_quiet F e -> tracks (framed F) (note e).
Proof. intros He s. by apply framed_event. Qed.

(** Steps of everybody else, when the frame allows them. *)
Lemma framed_environment s s' :
  (forall m pid, fr_mem F m (with_processes (delete pid) m)) ->
  (forall c, fr_chans F c (with_cancelled true c)) ->
  (forall db db', fr_db F db db') -> (forall c, fr_quiet F (VOther c)) ->
  environment s s' -> framed F s s'.
Proof.
  intros Hm Hc Hd Hq [c faults r db s0 _ _|pid s0|s0].
  - constructor; try reflexivity; [apply Hd|]. eexists [_]. by repeat constructor.
  - by apply framed_mem_step.
  - by apply framed_chans_step.
Qed.

(** A select that changes no more of the channels than it takes from them. *)
Definition selects : Prop :=
  forall c x, fr_chans F c (with_fatal x c) /\ fr_chans F c (with_writeDone x c)
    /\ fr_chans F c (with_readDone x c).

Lemma select_inv idleTick rp s x s' :
  selects -> (forall c, fr_chans F c (with_messages None c)) ->
  select idleTick rp s = Some (x, s') ->
  ((forall m, x <> SelMessage m) /\ framed F s s')
  \/ exists m, x = SelMessage m /\ ch_messages (s_chans s) = Some m
       /\ framed F s (on_chans (with_messages None) s)
       /\ s' = on_log (VRecv m) (on_chans (with_messages None) s).
Proof.
  intros Hs Hm. pose proof (Hs (s_chans s) None) as (H1 & H2 & H3).
  unfold select. destruct (tr_ready rp); simpl; try done.
  - case_match; [|done]. intros [= <- <-]. by left.
  - destruct (ch_fatal _); [|done]. intros [= <- <-]. left. split; [done|]. by apply framed_chans_step.
  - intros [= <- <-]. by left.
  - destruct (ch_writeDone _); [|done]. intros [= <- <-]. left. split; [done|]. by apply framed_chans_step.
  - destruct (ch_readDone _); [|done]. intros [= <- <-]. left. split; [done|]. by apply framed_chans_step.
  - destruct idleTick; [|done]. intros [= <- <-]. by left.
  - destruct (ch_messages _) as [m|] eqn:E; [|done]. intros [= <- <-]. right. exists m.
    split_and!; [done|done|by apply framed_chans_step|done].
Qed.
End FramedSteps.

(** ** Effects within the frame *)

Section Framed.
Context {RC : ReportCodec} {PR : Protocol} {PL : ProtocolLaws}.
Context (start : Job -> Local -> Prop) (F : Frame) {FR : Framing F}.
Set Default Proof Using "Type*".

Abbreviation neutral := (yields start (fun _ => True) (fun _ => True)).

Lemma f_effect {A} (P : A -> Prop) ok (e : SockE A) :
  free_effect e ->
  (forall t idle rp a s s' new, inv s -> perform t idle e rp s = Some (a, s', new) ->
     P a /\ framed F s s' /\ new = []) ->
  yields start P ok (eff e).
Proof.
  intros Hp H. apply yields_eff, harmless_keeps; [by intros; apply (framing_pre (F := F))|].
  intros t idle rp a s s' new Hs Hr. destruct (H _ _ _ _ _ _ _ Hs Hr) as (? & ? & ?).
  split_and!; [done|by apply (framing_keeps (F := F))|done].
Qed.

(** Only the value matters, and the state is left as it is. *)
Lemma f_reads {A} ok (e : SockE A) :
  free_effect e -> (forall t idle rp a s s' new, perform t idle e rp s = Some (a, s', new) ->
     s' = s /\ new = []) ->
  yields start (fun _ => True) ok (eff e).
Proof.
  intros Hp H. apply f_effect; [done|]. intros t idle rp a s s' new _ Hr.
  by destruct (H _ _ _ _ _ _ _ Hr) as [-> ->].
Qed.

(** A section whose result satisfies [P] under the invariant. *)
Lemma f_result {A} (P : A -> Prop) ok (section : M Shared A) :
  tracks (framed F) section -> (forall s, inv s -> P (section s).1) -> yields start P ok (crit section).
Proof.
  intros H HP. apply yields_eff, harmless_crit; [by intros; apply (framing_crit (F := F))|].
  intros s Hs. split; [by apply HP|apply (framing_keeps (F := F)), H].
Qed.

Lemma f_section {A} (P : A -> Prop) ok (section : M Shared A) :
  tracks (framed F) section -> (forall a, P a) -> yields start P ok (crit section).
Proof. intros H HP. by apply f_result. Qed.

Lemma f_call {A} (P : A -> Prop) ok (x : Outside A) :
  (forall t, Forall (fr_quiet F) (trace t x)) -> (forall rp, P (answer x rp)) ->
  yields start P ok (call x).
Proof.
  intros Hq H. apply f_effect; [done|]. intros t idle rp a s s' new _ [= <- <- <-].
  split_and!; [done| |done]. apply (framed_events F), Hq.
Qed.

Lemma f_db_write ok c :
  (forall db db', fr_db F db db') -> (forall t uuid faults r, fr_quiet F (VDb t (mkCall (c uuid) faults r))) ->
  yields start (fun _ => True) ok (eff (DbWrite c)).
Proof.
  intros Hd H. apply f_effect; [done|]. intros t idle rp a s s' new _. simpl.
  destruct (run_cmd _ _ _) as [r db]. intros [= <- <- <-]. split_and!; [done| |done].
  constructor; try reflexivity; simpl; [done|]. eexists [_]. by repeat constructor.
Qed.

Lemma f_db_command c :
  (forall db db', fr_db F db db') -> (forall t faults r, fr_quiet F (VDb t (mkCall c faults r))) ->
  neutral (db_command c).
Proof.
  intros Hd H. unfold db_command.
  eapply (sock_yields_bind _ (fun _ => True)); [by intros|by apply f_db_write|]. intros r _. by apply sock_yields_ret.
Qed.

Lemma f_row actionID : (forall t b, fr_quiet F (VRow t actionID b)) -> neutral (eff (DbAction actionID)).
Proof.
  intros Hq. apply f_effect; [done|]. intros t idle rp x s s' new _ [= <- <- <-].
  split_and!; [done| |done]. case_match; [reflexivity|by apply (framed_event F)].
Qed.

Lemma f_launch j : j <> JRun -> start j nothing -> neutral (eff (Launch j)).
Proof. intros Hj Hs. apply yields_launch; [|done]. intros. by apply (framing_pre (F := F)). Qed.

(** A section that may ask for a worker. *)
Lemma f_then_launch {X} (section : M Shared (option X)) (j : X -> Job) :
  tracks (framed F) section -> (forall x, j x <> JRun /\ start (j x) nothing) ->
  neutral (o ← crit section; match o with None => mret tt | Some x => eff (Launch (j x));; mret tt end).
Proof.
  intros H Hj. eapply (sock_yields_bind _ (fun _ => True)); [by intros|by apply f_section|].
  intros [x|] _; [|by apply sock_yields_ret]. destruct (Hj x).
  eapply (sock_yields_bind _ (fun _ => True)); [by intros|by apply f_launch|by intros; apply sock_yields_ret].
Qed.

(** Effects on the channels. *)
Lemma f_handover m : (forall c x, fr_chans F c (with_messages x c)) -> neutral (eff (HandOver m)).
Proof.
  intros H. apply f_effect; [done|]. intros t idle rp x s s' new _ [= <- <- <-].
  split_and!; [done| |done]. by apply (framed_chans_step F).
Qed.

Lemma f_taken : (forall c, fr_chans F c (with_messages None c)) -> neutral (eff AwaitTaken).
Proof.
  intros H. apply f_effect; [done|]. intros t idle rp x s s' new _ Hp. simpl in Hp.
  repeat case_match; simplify_eq; split_and!; try done. by apply (framed_chans_step F).
Qed.

Lemma f_write : (forall c x, fr_chans F c (with_send x c)) -> neutral (eff SelectWrite).
Proof.
  intros H. apply f_effect; [done|]. intros t idle rp x s s' new _ Hp. simpl in Hp.
  unfold select_write in Hp. repeat case_match; simplify_eq/=; split_and!; try done.
  by apply (framed_chans_step F).
Qed.

End Framed.

(** The select of the loop: the goroutine learns which message it received. *)
Section SelectFramed.
Context {RC : ReportCodec} {PR : Protocol} {PL : ProtocolLaws}.
Context (start : Job -> Local -> Prop) (F : Frame) {FR : Framing F} {KN : Knowledge}.
Set Default Proof Using "Type*".

(** What a goroutine has after it learned something. *)
Definition learns (g g' : Local) : Prop :=
  keep g g' /\ (forall k, apart g k -> apart g' k) /\ (forall j, role j g -> role j g').

Lemma f_select n idleTick g :
  selects F -> (forall c, fr_chans F c (with_messages None c)) -> (forall m, fr_quiet F (VRecv m)) ->
  (forall s m, inv s -> ch_messages (s_chans s) = Some m -> good_message m) ->
  (forall s m, inv s -> fine g s -> VRecv m ∈ s_log s ->
     exists g', learns g g' /\ fine g' s /\ heard m g') ->
  wp start n (eff (Select idleTick)) g (fun r g' =>
    keep g g' /\ forall m, r = SelMessage m -> heard m g' /\ good_message m).
Proof.
  intros Hsel Hmsg Hq Hgood Hlearn. apply sock_wp_eff. intros s Hs Hg.
  split; [by apply (framing_pre (F := F))|]. intros t idle rp x s' new Hp. simpl in Hp.
  destruct (select idleTick rp s) as [[x0 s0]|] eqn:E; [|done]. injection Hp as <- <- <-.
  apply (select_inv F) in E as [[Hx Hf]|(m & -> & Em & Hf & ->)]; [..|done|done].
  - exists g, []. split_and!; [done|simpl; lia| |reflexivity|intros m ->; by destruct (Hx m)].
    apply legal_keeps; [done|done|done|]. by apply (framing_keeps (F := F)).
  - set (s1 := on_log (VRecv m) (on_chans (with_messages None) s)).
    assert (framed F s s1) as Hf' by (etrans; [exact Hf|by apply (framed_event F)]).
    destruct (framing_keeps (F := F) _ _ Hf' Hs) as [Hi Hk].
    destruct (Hlearn s1 m Hi (Hk g Hg)) as (g' & (Hkeep & Hap & Hrole) & Hfine & Hh).
    { apply elem_of_app. right. by left. }
    exists g', []. split_and!; [done|simpl; lia| |done|].
    + constructor; [done|done|done|intros k Hfk Ha; by split_and!; [apply Hk|apply Hap|]|done].
    + intros ? [= <-]. split; [done|by apply (Hgood s)].
Qed.

(** When no account is kept. *)
Lemma f_learn_nothing g s m :
  (forall m g, heard m g) -> inv s -> fine g s -> VRecv m ∈ s_log s ->
  exists g', learns g g' /\ fine g' s /\ heard m g'.
Proof. intros H Hs Hg _. exists g. split_and!; [|done|apply H]. split_and!; [reflexivity|done|done]. Qed.
End SelectFramed.

(** ** Reports, for protocols that do not speak about them *)

Class ReportsFramed {RC : ReportCodec} {PR : Protocol} (F : Frame) : Prop := {
  reports_listed m f : fr_mem F m (with_reportAcks f m);
  reports_acks m f : fr_mem F m (with_acks f m);
  reports_fresh m : fr_mem F m (next_fresh m);
  reports_send c x : fr_chans F c (with_send x c);
  reports_sent m : fr_quiet F (VSend m);
  reports_answer t rid a : fr_quiet F (VAnswer t rid a);
  reports_deliver w a g s : pre (Deliver w a) g s
}.

Section ReportsFramed.
Context {RC : ReportCodec} {CC : ClientCodec} {PR : Protocol} {PL : ProtocolLaws}.
Context (start : Job -> Local -> Prop) (F : Frame) {FR : Framing F} {RF : ReportsFramed F}.
Set Default Proof Using "Type*".

Abbreviation neutral := (yields start (fun _ => True) (fun _ => True)).

Lemma f_deliver w a : neutral (eff (Deliver w a)).
Proof.
  apply yields_eff, harmless_keeps; [intros; apply (reports_deliver (F := F))|]. intros t idle rp x s s' new Hs Hp.
  simpl in Hp. repeat case_match; simplify_eq. split_and!; [done| |done].
  apply (framing_keeps (F := F)), (framed_mem_step F), (reports_acks (F := F)).
Qed.

Lemma f_await w : neutral (eff (AwaitAck w)).
Proof.
  apply (f_effect start F); [done|]. intros t idle rp x s s' new _ Hp. simpl in Hp.
  unfold await_ack in Hp. repeat case_match; simplify_eq/=; split_and!; try done.
  etrans; [eapply (framed_mem_step F), (reports_acks (F := F))|].
  apply (framed_event F), (reports_answer (F := F)).
Qed.

Lemma f_failReport rid a : neutral (failReport rid a).
Proof.
  unfold failReport. eapply (sock_yields_bind _ (fun _ => True)); [by intros| |intros ws _].
  - apply (f_section start F); [|done]. unfold take_waiters. repeat tracks_step.
    apply (frame_mem F). intros. apply (reports_listed (F := F)).
  - apply yields_for_each; [by intros|]. intros w _. apply f_deliver.
Qed.

Lemma f_failAll err : neutral (failAllReports err).
Proof.
  unfold failAllReports. eapply (sock_yields_bind _ (fun _ => True)); [by intros| |intros ws _].
  - apply (f_section start F); [|done]. unfold take_all_waiters. repeat tracks_step.
    apply (frame_mem F). intros. apply (reports_listed (F := F)).
  - eapply (sock_yields_bind _ (fun _ => True)); [by intros|by apply (f_call start F); [intros; constructor|]|].
    intros order _. apply yields_for_each; [by intros|]. intros w _. apply f_deliver.
Qed.

Lemma f_enqueue m : neutral (crit (enqueue m)).
Proof.
  apply (f_section start F); [|done]. unfold enqueue. repeat tracks_step.
  - apply (frame_chans F). intros. apply (reports_send (F := F)).
  - apply (frame_note F), (reports_sent (F := F)).
Qed.

Lemma f_SendReport report : neutral (SendReport report).
Proof.
  unfold SendReport. repeat case_match; try by apply sock_yields_ret.
  eapply (sock_yields_bind _ (fun _ => True)); [by intros| |intros [w first] _].
  { apply (f_section start F); [|done]. unfold add_waiter, alloc. repeat tracks_step; apply (frame_mem F); intros;
      first [apply (reports_fresh (F := F))|apply (reports_acks (F := F))|apply (reports_listed (F := F))]. }
  eapply (sock_yields_bind _ (fun _ => True)); [by intros|destruct first; [apply f_enqueue|by apply sock_yields_ret]|].
  intros sent _. eapply (sock_yields_bind _ (fun _ => True)); [by intros|..].
  { destruct sent; [by apply sock_yields_ret|apply f_failReport]. }
  intros _ _. eapply (sock_yields_bind _ (fun _ => True)); [by intros|apply f_await|].
  intros [| |a] _; try by apply sock_yields_ret.
  eapply (sock_yields_bind _ (fun _ => True)); [by intros| |by intros; apply sock_yields_ret].
  apply (f_section start F); [|done]. unfold removeReportWaiter. repeat tracks_step.
  apply (frame_mem F). intros. apply (reports_listed (F := F)).
Qed.

Context {KN : Knowledge}.

Lemma f_send n g report :
  (forall rid a g, answered rid a g) ->
  wp start n (SendReport report) g (fun r g' =>
    keep g g' /\ forall a, r = inr a -> answered (r_ID report) a g').
Proof. intros H. eapply sock_wp_mono; [|by apply f_SendReport]. by intros r g' [_ K]. Qed.

Lemma f_settle ok report a :
  (forall rid, neutral (db_command (CAcknowledgeReport rid))) ->
  (forall rid code text, neutral (db_command (CRejectReport rid code text))) ->
  yields start (fun _ => True) ok (settle_acknowledged report a).
Proof.
  intros H1 H2. apply (sock_yields_mono _ (fun _ => True) _ (fun _ => True)); [|done|done].
  assert (forall c, neutral (db_command c) -> neutral (store_write c)) as H.
  { intros c Hc. unfold store_write. eapply (sock_yields_bind _ (fun _ => True)); [by intros|..].
    - by apply (f_call start F); [intros; constructor|].
    - intros [e|] _; [by apply sock_yields_ret|]. unfold busy_loop.
      apply (yields_loop _ (fun _ => True)); [by intros|done|intros _ _].
      eapply (sock_yields_bind _ (fun _ => True)); [by intros|done|]. intros [e|] _; [|by apply sock_yields_ret].
      case_match; [by apply sock_yields_ret|]. eapply (sock_yields_bind _ (fun _ => True)); [by intros|..].
      + apply (f_reads start F); [done|]. by intros t idle rp x s s' new [= <- <- <-].
      + intros slept _. apply sock_yields_ret. by case_match. }
  unfold settle_acknowledged. case_match; try (by apply sock_yields_ret); by apply H.
Qed.

Lemma f_return n g r :
  (forall g s, pre WaitWorkers g s) -> fr_quiet F VWaited -> (forall b e, fr_quiet F (VReturn b e)) ->
  (forall c x, fr_chans F c (with_stopping x c) /\ fr_chans F c (with_cancelled x c)
               /\ fr_chans F c (with_done x c)) ->
  wp start n (stopAndWait;; crit (note (VReturn r.1 r.2))) g (fun _ _ => True).
Proof.
  intros Hp Hw Hr Hc.
  assert (neutral (stopAndWait;; crit (note (VReturn r.1 r.2)))) as H; [|by eapply sock_wp_mono; [|apply H]].
  unfold stopAndWait.
  repeat first [ apply f_failAll | by apply (f_call start F); [intros; constructor|]
               | apply (f_section start F); [apply (frame_chans F); intros; by apply Hc|done]
               | apply (f_section start F); [by apply (frame_note F)|done]
               | eapply (sock_yields_bind _ (fun _ => True)); [by intros| |intros ? _] ].
  apply yields_eff, harmless_keeps; [done|]. intros t idle rp x s s' new Hs Hq. simpl in Hq.
  destruct idle; [|done]. injection Hq as <- <- <-. split_and!; [done| |done].
  apply (framing_keeps (F := F)). by apply (framed_event F).
Qed.
End ReportsFramed.

(** What an assignment does to the protocol's part of the state. *)
Ltac frame_fields := unfold selects; intros; simpl; repeat case_match;
  split_and?; first [done | lia | idtac].
Ltac frame_leaf :=
  match goal with
  | |- tracks (framed ?F) (set_mem _) => apply (frame_mem F); frame_fields
  | |- tracks (framed ?F) (set_chans _) => apply (frame_chans F); frame_fields
  | |- tracks (framed ?F) (note _) => apply (frame_note F); frame_fields
  end.
Ltac frame_section := open_section; repeat first [tracks_step | frame_leaf].

(** The fields of a [Discipline] that stay within the frame [F]. *)
Ltac frame_field start F :=
  intros;
  first
    [ apply (f_section start F); [solve [frame_section]|done]
    | apply (f_reads start F); [done|]; intros ?; intros; by simplify_eq/=
    | apply (f_launch start F); done
    | apply (f_handover start F); solve [frame_fields]
    | apply (f_taken start F); solve [frame_fields]
    | apply (f_write start F); solve [frame_fields]
    | apply (f_row start F); solve [frame_fields]
    | apply (f_then_launch start F); [solve [frame_section]|done]
    | apply (f_db_command start F); solve [frame_fields] ].

(** The fields about reports and calls, when the protocol does not speak about them. *)
Ltac report_field start F :=
  first
    [ intros; by apply (f_send start F)
    | intros m _; apply (sock_yields_mono _ (fun _ => True) _ (fun _ => True)); [apply (f_failReport start F)|done|done]
    | intros; apply (f_settle start F); intros; apply (f_db_command start F); solve [frame_fields]
    | intros; apply (f_select start F);
        solve [done | frame_fields | intros; by apply (f_learn_nothing start F)]
    | intros; apply (f_return start F); solve [done | frame_fields]
    | intros j Hj; apply (f_launch start F); [by intros ->|by destruct j] ].
