(* ===== verification/SocketAcks.v ===== *)
(** * Acknowledgements of reports over the connection

    The protocol of the channels on which [SendReport] waits: a channel is listed for
    one report, or owed an acknowledgement by the one goroutine that took it off the
    list, or spent; so that sending on it never waits, and what arrives on it is what
    the server said of that report, or a transient error. *)
From ITree Require Import ITree.
From S2P Require Import Prelude GoStrings DaemonProtocol ProcessCmd DaemonMessages LocalPaths.
From S2P Require Import StateSchema StateQueries StateTx StateReport StateProcess StateAction.
From S2P Require Import StateTrace StateOutbox LocalStore ClientWorld Reconciliation SocketWorld Socket.
From S2P Require Import SocketLogic SocketDiscipline SocketFrame.
From stdpp Require Import options.

(** The server acknowledged the report like this. *)
Definition acknowledged (rid : string) (a : daemonReportAck) (l : list Ev) : Prop :=
  exists m, VRecv m ∈ l /\ m_Type m = MessageReportAck /\ m_ReportID m = rid
    /\ a = mkAck (m_AckStatus m) (m_ErrorCode m) (m_Error m).

Definition explained (rid : string) (a : daemonReportAck) (l : list Ev) : Prop :=
  ack_status a = AckStatusTransientError \/ acknowledged rid a l.

(** The commands by which a report is settled. *)
Definition settles (c : Cmd) : option (string * bool) :=
  match c with
  | CAcknowledgeReport rid => Some (rid, true)
  | CRejectReport rid _ _ => Some (rid, false)
  | _ => None
  end.

Definition settled_by (rid : string) (accepted : bool) (l : list Ev) : Prop :=
  exists a, acknowledged rid a l /\
    if accepted then ack_status a = AckStatusCommitted \/ ack_status a = AckStatusCleanupOnly
    else ack_status a = AckStatusPermanentReject.

Definition ack_law (past : list Ev) (e : Ev) : Prop :=
  match e with
  | VAnswer _ rid a => explained rid a past
  | VDb _ c => match settles (c_cmd c) with Some (rid, b) => settled_by rid b past | None => True end
  | _ => True
  end.

Definition ack_quiet (e : Ev) : Prop :=
  match e with
  | VAnswer _ _ _ => False
  | VDb _ c => settles (c_cmd c) = None
  | _ => True
  end.

Record AckLocal : Type := mkAckLocal {
  al_owes : list (nat * daemonReportAck);
  al_mine : list (nat * string);                (**r channels made for a report *)
  al_heard : list Message;
  al_known : list (string * daemonReportAck)    (**r answers received *)
}.

Definition unlisted (w : nat) (s : Shared) : Prop :=
  forall rid ws, t_reportAcks (s_mem s) !! rid = Some ws -> w ∉ ws.

Record ack_inv (s : Shared) : Prop := mkAckInv {
  ai_listed rid ws w :
    t_reportAcks (s_mem s) !! rid = Some ws -> w ∈ ws -> t_acks (s_mem s) !! w = Some (rid, None);
  ai_nodup rid ws : t_reportAcks (s_mem s) !! rid = Some ws -> NoDup ws;
  ai_fresh w x : t_acks (s_mem s) !! w = Some x -> (w < t_fresh (s_mem s))%nat;
  ai_full w rid a : t_acks (s_mem s) !! w = Some (rid, Some a) -> explained rid a (s_log s);
  ai_lawful : lawfully ack_law (s_log s)
}.

Record ack_fine (g : AckLocal) (s : Shared) : Prop := mkAckFine {
  af_nodup : NoDup (al_owes g).*1;
  af_owes w a : (w, a) ∈ al_owes g ->
    unlisted w s /\ exists rid, t_acks (s_mem s) !! w = Some (rid, None) /\ explained rid a (s_log s);
  af_mine w rid : (w, rid) ∈ al_mine g -> exists b, t_acks (s_mem s) !! w = Some (rid, b);
  af_heard m : m ∈ al_heard g -> VRecv m ∈ s_log s;
  af_known rid a : (rid, a) ∈ al_known g -> explained rid a (s_log s)
}.

Definition ack_apart (g h : AckLocal) : Prop := forall w, w ∈ (al_owes g).*1 -> w ∉ (al_owes h).*1.

Record ack_keep (g g' : AckLocal) : Prop := mkAckKeep {
  kp_owes : al_owes g' ≡ₚ al_owes g;
  kp_mine : al_mine g ⊆ al_mine g';
  kp_heard : al_heard g ⊆ al_heard g';
  kp_known : al_known g ⊆ al_known g'
}.

Definition ack_pre (A : Type) (e : SockE A) (g : AckLocal) (s : Shared) : Prop :=
  match e with
  | Deliver w _ => exists rid, t_acks (s_mem s) !! w = Some (rid, None)
  | _ => True
  end.

#[local] Instance acks : Protocol := {|
  Local := AckLocal; inv := ack_inv; fine := ack_fine; apart := ack_apart; keep := ack_keep;
  role _ _ := True; pre := ack_pre; nothing := mkAckLocal [] [] [] [] |}.

Lemma elem_of_concat {A} (x : A) (ls : list (list A)) : x ∈ concat ls <-> exists l, x ∈ l /\ l ∈ ls.
Proof. rewrite list_elem_of_In, in_concat. setoid_rewrite list_elem_of_In. naive_solver. Qed.

(** ** Steps that do not concern acknowledgements *)

Definition ack_frame : Frame := {|
  fr_mem m m' := t_reportAcks m' = t_reportAcks m /\ t_acks m' = t_acks m /\ (t_fresh m <= t_fresh m')%nat;
  fr_chans _ _ := True; fr_db _ _ := True; fr_quiet := ack_quiet |}.

Lemma acknowledged_app rid a l l' : acknowledged rid a l -> acknowledged rid a (l ++ l').
Proof. intros (m & Hm & H). exists m. split; [apply elem_of_app; by left|done]. Qed.

Lemma explained_app rid a l l' : explained rid a l -> explained rid a (l ++ l').
Proof. intros [?|?]; [by left|right; by apply acknowledged_app]. Qed.

(** The log grew; everything else the goroutine has is as it was. *)
Lemma fine_grown g s s' l :
  t_reportAcks (s_mem s') = t_reportAcks (s_mem s) -> t_acks (s_mem s') = t_acks (s_mem s) ->
  s_log s' = s_log s ++ l -> ack_fine g s -> ack_fine g s'.
Proof.
  intros E F L [H1 H2 H3 H4 H5]. constructor; unfold unlisted in *; rewrite ?E, ?F, ?L; [done|..].
  - intros w a Hw. destruct (H2 w a Hw) as (Hu & rid & Hr & Hx). split; [done|].
    exists rid. split; [done|by apply explained_app].
  - done.
  - intros m Hm. apply elem_of_app. by left; auto.
  - intros rid a Hk. by apply explained_app, H5.
Qed.

Lemma ack_law_quiet e past : ack_quiet e -> ack_law past e.
Proof. destruct e; simpl; try done. by intros ->. Qed.

Section Acks.
Context {RC : ReportCodec} {CC : ClientCodec} {SC : SocketCodec}.
Set Default Proof Using "Type*".

Lemma ack_frame_keeps s s' : framed ack_frame s s' -> keeps s s'.
Proof.
  intros [(E & F & G) _ _ (l & L & Q)] [I1 I2 I3 I4 I5]. split.
  - constructor; rewrite ?E, ?F, ?L; [done|done| | |].
    + intros w x Hx. specialize (I3 w x Hx). lia.
    + intros w rid a Hw. by apply explained_app, (I4 w).
    + apply lawfully_quiet; [|done]. intros past e He. apply ack_law_quiet.
      by apply (proj1 (Forall_forall _ _) Q).
  - intros k Hk. by apply (fine_grown k s s' l).
Qed.

Global Instance ack_framing : Framing ack_frame.
Proof.
  split; simpl.
  - split; [by intros m|]. intros m1 m2 m3 (-> & -> & ?) (-> & -> & ?). split_and!; [done|done|lia].
  - done.
  - done.
  - apply ack_frame_keeps.
  - intros A e g s. by destruct e.
  - done.
Qed.

Lemma frame_environment s s' : environment s s' -> framed ack_frame s s'.
Proof. apply (framed_environment ack_frame); frame_fields. Qed.

Global Instance acks_laws : ProtocolLaws.
Proof.
  split.
  - intros g h H w Hh Hg. by apply (H w).
  - intros g w Hw. by apply elem_of_nil in Hw.
  - intros s _. constructor; simpl; [constructor|..]; by intros; set_solver.
  - split; [by intros g; constructor|]. intros g1 g2 g3 [E1] [E2]. constructor; [by rewrite E2|set_solver..].
  - intros s s' He Hs. by apply (ack_frame_keeps s s'); [apply frame_environment|].
  - intros s s' g He Hs Hg. by apply (ack_frame_keeps s s'); [apply frame_environment| |].
Qed.

(** Every job starts with nothing. *)
Definition ack_start (j : Job) (h : Local) : Prop := h = nothing.

Abbreviation neutral := (yields ack_start (fun _ => True) (fun _ => True)).

Lemma n_call {A} ok (x : Outside A) : yields ack_start (fun _ => True) ok (call x).
Proof. apply (f_call ack_start ack_frame); [|done]. intros t. destruct x; repeat constructor. Qed.

(** ** The waiters *)

Definition with_mine (x : nat * string) (g : AckLocal) : AckLocal :=
  mkAckLocal (al_owes g) (x :: al_mine g) (al_heard g) (al_known g).
Definition with_owes (l : list (nat * daemonReportAck)) (g : AckLocal) : AckLocal :=
  mkAckLocal l (al_mine g) (al_heard g) (al_known g).
Definition with_heard (m : Message) (g : AckLocal) : AckLocal :=
  mkAckLocal (al_owes g) (al_mine g) (m :: al_heard g) (al_known g).
Definition with_known (x : string * daemonReportAck) (g : AckLocal) : AckLocal :=
  mkAckLocal (al_owes g) (al_mine g) (al_heard g) (x :: al_known g).

Lemma fine_mine x g s b :
  t_acks (s_mem s) !! x.1 = Some (x.2, b) -> ack_fine g s -> ack_fine (with_mine x g) s.
Proof.
  intros Hx [H1 H2 H3 H4 H5]. constructor; simpl; try done. intros w rid [<-|?]%elem_of_cons; eauto.
Qed.

Lemma fine_known x g s : explained x.1 x.2 (s_log s) -> ack_fine g s -> ack_fine (with_known x g) s.
Proof.
  intros Hx [H1 H2 H3 H4 H5]. constructor; simpl; try done. intros rid a [<-|?]%elem_of_cons; eauto.
Qed.

Lemma fine_heard m g s : VRecv m ∈ s_log s -> ack_fine g s -> ack_fine (with_heard m g) s.
Proof.
  intros Hx [H1 H2 H3 H4 H5]. constructor; simpl; try done. intros m' [<-|?]%elem_of_cons; eauto.
Qed.

Definition waiter_added (rid : string) (w : nat) (s : Shared) : Shared :=
  let ws := default [] (t_reportAcks (s_mem s) !! rid) in
  on_mem (with_reportAcks (insert rid (ws ++ [w])))
    (on_mem (with_acks (insert w (rid, None))) (on_mem next_fresh s)).

Lemma add_waiter_eq rid s :
  add_waiter rid s =
    (t_fresh (s_mem s), bool_decide (default [] (t_reportAcks (s_mem s) !! rid) = []),
     waiter_added rid (t_fresh (s_mem s)) s).
Proof. reflexivity. Qed.

Lemma acks_fresh s : ack_inv s -> t_acks (s_mem s) !! t_fresh (s_mem s) = None.
Proof. intros H. apply eq_None_not_Some. intros [x Hx]. pose proof (ai_fresh s H _ _ Hx). lia. Qed.

Lemma waiter_keeps rid s : keeps s (waiter_added rid (t_fresh (s_mem s)) s).
Proof.
  intros Hs. pose proof (acks_fresh s Hs) as Hf. set (w := t_fresh (s_mem s)) in *.
  pose proof Hs as [I1 I2 I3 I4 I5].
  assert (forall rid' ws' w', t_reportAcks (s_mem (waiter_added rid w s)) !! rid' = Some ws' ->
    w' ∈ ws' -> (w' = w /\ rid' = rid) \/
      exists ws, t_reportAcks (s_mem s) !! rid' = Some ws /\ w' ∈ ws) as Hl.
  { simpl. intros rid' ws' w'. rewrite lookup_insert_Some. intros [[<- <-]|[_ H]] Hw; [|eauto].
    apply elem_of_app in Hw as [Hw|Hw%list_elem_of_singleton]; [|auto].
    destruct (t_reportAcks (s_mem s) !! rid) eqn:E; [eauto|by apply elem_of_nil in Hw]. }
  split.
  - constructor; simpl.
    + intros rid' ws' w' H Hw. destruct (Hl _ _ _ H Hw) as [[-> ->]|(ws & Hr & Hin)].
      * by rewrite lookup_insert_eq.
      * pose proof (I1 _ _ _ Hr Hin) as E. rewrite lookup_insert_ne; [done|]. intros <-. congruence.
    + intros rid' ws'. rewrite lookup_insert_Some. intros [[<- <-]|[_ H]]; [|by eapply I2].
      apply NoDup_app. destruct (t_reportAcks (s_mem s) !! rid) as [ws|] eqn:E; simpl.
      * split_and!; [by eapply I2| |apply list.NoDup_singleton]. intros x Hx ->%list_elem_of_singleton.
        pose proof (I1 _ _ _ E Hx). congruence.
      * split_and!; [constructor|by intros ? ?%elem_of_nil|apply list.NoDup_singleton].
    + intros w' x. rewrite lookup_insert_Some. intros [[<- _]|[_ H]]; [lia|]. pose proof (I3 _ _ H). lia.
    + intros w' rid' a. rewrite lookup_insert_Some. intros [[_ H]|[_ H]]; [done|by eapply I4].
    + done.
  - intros k [H1 H2 H3 H4 H5]. constructor; [done| | |done|done].
    + intros w' a Hw'. destruct (H2 _ _ Hw') as (Hu & rid' & Hr & Hx). split.
      * intros rid2 ws H Hin. destruct (Hl _ _ _ H Hin) as [[-> ->]|(ws2 & ? & ?)]; [congruence|].
        by eapply Hu.
      * exists rid'. split; [|done]. simpl. rewrite lookup_insert_ne; [done|]. intros <-. congruence.
    + intros w' rid' Hw'. destruct (H3 _ _ Hw') as [b Hb]. exists b. simpl.
      rewrite lookup_insert_ne; [done|]. intros <-. congruence.
Qed.

Lemma wp_add_waiter n rid g (Q : nat * bool -> AckLocal -> Prop) :
  (forall w first, Q (w, first) (with_mine (w, rid) g)) ->
  wp ack_start n (crit (add_waiter rid)) g Q.
Proof.
  intros HQ. apply sock_wp_eff. intros s Hs Hg. split; [done|]. intros t idle rp a s' new Hr.
  cbn [perform] in Hr. rewrite add_waiter_eq in Hr. injection Hr as [= <- <- <-].
  destruct (waiter_keeps rid s Hs) as [Hi Hk].
  eexists (with_mine _ g), []. split_and!; [done|simpl; lia| |apply HQ].
  constructor; [done| |done| |done].
  - eapply (fine_mine _ _ _ None); [|by apply Hk]. simpl. by rewrite lookup_insert_eq.
  - intros k Hf Ha. by split_and!; [apply Hk|..].
Qed.

(** Waiters leave the list. *)
Lemma shrink_inv s l :
  (forall rid ws', l !! rid = Some ws' ->
     exists ws, t_reportAcks (s_mem s) !! rid = Some ws /\ ws' `sublist_of` ws) ->
  let s' := on_mem (with_reportAcks (fun _ => l)) s in
  (ack_inv s -> ack_inv s') /\ (forall k, ack_fine k s -> ack_fine k s')
  /\ (forall w, unlisted w s -> unlisted w s').
Proof.
  intros Hl s'.
  assert (forall w, unlisted w s -> unlisted w s') as Hu.
  { intros w Hw rid ws' H Hin. destruct (Hl _ _ H) as (ws & Hr & Hs).
    apply (Hw rid ws Hr). by eapply elem_of_sublist. }
  split_and!; [| |done].
  - intros [I1 I2 I3 I4 I5]. constructor; [|..]; simpl; [| |done|done|done].
    + intros rid ws' w H Hin. destruct (Hl _ _ H) as (ws & Hr & Hs). eapply I1; [done|].
      by eapply elem_of_sublist.
    + intros rid ws' H. destruct (Hl _ _ H) as (ws & Hr & Hs). eapply sublist_NoDup; eauto.
  - intros k [H1 H2 H3 H4 H5]. constructor; [done| |done|done|done].
    intros w a Hw. destruct (H2 w a Hw) as (? & ?). split; [by apply Hu|done].
Qed.

Lemma remove_first_sublist w ws : remove_first w ws `sublist_of` ws.
Proof.
  induction ws as [|x ws IH]; simpl; [done|]. case_bool_decide; [by constructor|by constructor].
Qed.

Lemma n_remove_waiter rid w : neutral (crit (removeReportWaiter rid w)).
Proof.
  apply yields_eff, harmless_crit; [done|]. intros s Hs. split; [done|]. unfold removeReportWaiter.
  unfold mbind, M_bind, mem, get. simpl. case_bool_decide as Hin; [|by intros ?].
  intros _. edestruct (shrink_inv s) as (Hi & Hk & _); [|split; [by apply Hi|exact Hk]].
  intros rid' ws'. destruct (t_reportAcks (s_mem s) !! rid) as [ws|] eqn:E; simpl in *;
    [|by apply elem_of_nil in Hin].
  assert (forall l', l' `sublist_of` ws -> <[rid:=l']> (t_reportAcks (s_mem s)) !! rid' = Some ws' ->
    exists l, t_reportAcks (s_mem s) !! rid' = Some l /\ ws' `sublist_of` l) as H.
  { intros l' Hl'. rewrite lookup_insert_Some. intros [[<- <-]|[_ H]]; eauto. }
  case_bool_decide; [|by apply H, remove_first_sublist].
  rewrite lookup_delete_Some. intros [_ ?]. eauto.
Qed.

(** Taking waiters off the list: the goroutine owes each of them its answer. *)
Lemma wp_take n {A} (section : M Shared A) g (l : A -> list (nat * daemonReportAck)) (Q : A -> AckLocal -> Prop) :
  (forall s, ack_inv s -> ack_fine g s ->
     let a := (section s).1 in
     exists m, (section s).2 = on_mem (with_reportAcks (fun _ => m)) s
     /\ (forall rid ws', m !! rid = Some ws' -> t_reportAcks (s_mem s) !! rid = Some ws')
     /\ NoDup (l a).*1
     /\ forall w x, (w, x) ∈ l a -> exists rid ws, t_reportAcks (s_mem s) !! rid = Some ws /\ w ∈ ws
          /\ m !! rid = None /\ explained rid x (s_log s)) ->
  (forall a, Q a (with_owes (l a ++ al_owes g) g)) ->
  wp ack_start n (crit section) g Q.
Proof.
  intros Hsec HQ. apply sock_wp_eff. intros s Hs Hg. split; [done|]. intros t idle rp a s' new [= E <-].
  destruct (Hsec s Hs Hg) as (m & Es & Hm & Hnd & Hw). rewrite E in Es, Hnd, Hw. simpl in *. subst s'.
  destruct (shrink_inv s m) as (Hi & Hk & Hu); [by eauto|]. pose proof Hs as [I1 I2 I3 I4 I5].
  assert (forall k, ack_fine k s -> forall w, w ∈ (al_owes k).*1 -> w ∉ (l a).*1) as Hdis.
  { intros k Hf w Hin Hin'. apply list_elem_of_fmap in Hin as ([w1 x1] & -> & H1).
    apply list_elem_of_fmap in Hin' as ([w2 x2] & Ew & H2). simpl in Ew. subst w2.
    destruct (Hw _ _ H2) as (rid & ws & Hr & Hws & _).
    destruct (af_owes _ _ Hf _ _ H1) as [Hun _]. by eapply Hun. }
  exists (with_owes (l a ++ al_owes g) g), []. split_and!; [done|simpl; lia| |apply HQ].
  constructor; [by apply Hi| |done| |done].
  - pose proof (Hk g Hg) as [H1 H2 H3 H4 H5]. constructor; [|..]; simpl; [| |done|done|done].
    + rewrite fmap_app. apply NoDup_app. split_and!; [done| |done]. intros w Hin Hin'.
      by apply (Hdis g Hg w).
    + intros w x [Hin|Hin]%elem_of_app; [|by apply H2].
      destruct (Hw _ _ Hin) as (rid & ws & Hr & Hws & Hn & Hx). split.
      * intros rid' ws' Hr' Hin'. simpl in Hr'. pose proof (I1 _ _ _ Hr Hws).
        pose proof (I1 _ _ _ (Hm _ _ Hr') Hin'). simplify_eq.
      * exists rid. split; [by eapply I1|done].
  - intros k Hf Ha. split_and!; [by apply Hk| |done]. intros w. simpl. rewrite fmap_app.
    intros [Hin|Hin]%elem_of_app Hin'; [by apply (Hdis k Hf w)|by apply (Ha w)].
Qed.

(** Answering a waiter that is owed: its channel is empty, so that the send does not
    wait. *)
Lemma wp_deliver n w a rest g (Q : unit -> AckLocal -> Prop) :
  al_owes g ≡ₚ (w, a) :: rest -> Q tt (with_owes rest g) ->
  wp ack_start n (eff (Deliver w a)) g Q.
Proof.
  intros Ho HQ. apply sock_wp_eff. intros s Hs Hg. pose proof Hg as [H1 H2 H3 H4 H5].
  destruct (H2 w a) as (Hu & rid & Hr & Hx); [rewrite Ho; by left|].
  split; [by exists rid|]. intros t idle rp u s' new Hp. simpl in Hp. rewrite Hr in Hp.
  injection Hp as <- <- <-. exists (with_owes rest g), []. split_and!; [done|simpl; lia| |done].
  pose proof Hs as [I1 I2 I3 I4 I5].
  assert (forall k, ack_fine k s -> w ∉ (al_owes k).*1 ->
    ack_fine k (on_mem (with_acks (insert w (rid, Some a))) s)) as Hk.
  { intros k [K1 K2 K3 K4 K5] Hne. constructor; [done| | |done|done].
    - intros w' a' Hw'. destruct (K2 _ _ Hw') as (Hu' & rid' & Hr' & Hx'). split; [done|].
      exists rid'. split; [|done]. simpl. rewrite lookup_insert_ne; [done|]. intros <-.
      apply Hne, list_elem_of_fmap. by exists (w, a').
    - intros w' rid' Hw'. destruct (K3 _ _ Hw') as [b Hb]. simpl. destruct (decide (w = w')) as [<-|].
      + exists (Some a). rewrite lookup_insert_eq. by simplify_eq.
      + exists b. by rewrite lookup_insert_ne. }
  rewrite Ho in H1. simpl in H1. apply NoDup_cons in H1 as [Hn Hrest].
  constructor; [| |done| |done].
  - constructor; simpl; [|done| | |done].
    + intros rid' ws w' Hl Hin. rewrite lookup_insert_ne; [by eapply I1|]. intros <-. by eapply Hu.
    + intros w' x. rewrite lookup_insert_Some. intros [[<- _]|[_ ?]]; eauto.
    + intros w' rid' a'. rewrite lookup_insert_Some. intros [[_ [= <- <-]]|[_ ?]]; eauto.
  - apply Hk; [|done]. constructor; simpl; [done| |done|done|done]. intros w' a' Hin. apply H2.
    rewrite Ho. by right.
  - intros k Hf Ha. split_and!; [apply Hk; [done|]| |done].
    + apply Ha. rewrite Ho. by left.
    + intros w' Hin. apply Ha. rewrite Ho. by right.
Qed.

Lemma wp_deliver_all n a ws rest g :
  al_owes g ≡ₚ ((fun w => (w, a)) <$> ws) ++ rest ->
  wp ack_start n (for_each ws (fun w => eff (Deliver w a))) g
    (fun _ g' => keep (with_owes rest g) g').
Proof.
  revert g. induction ws as [|w ws IH]; intros g Ho; simpl.
  - apply wp_ret. by constructor.
  - apply sock_wp_bind. eapply wp_deliver; [exact Ho|]. eapply sock_wp_mono; [|by apply IH].
    by intros _ g' [K1 K2 K3 K4].
Qed.

Lemma wp_failReport n rid a g :
  (forall s, ack_fine g s -> explained rid a (s_log s)) ->
  wp ack_start n (failReport rid a) g (fun _ g' => keep g g').
Proof.
  intros Hx. unfold failReport. apply sock_wp_bind.
  apply (wp_take _ _ _ (fun ws : list nat => (fun w => (w, a)) <$> ws)).
  - intros s Hs Hg. simpl. eexists. split; [reflexivity|]. split_and!.
    + intros rid' ws'. rewrite lookup_delete_Some. by intros [_ ?].
    + rewrite <- list_fmap_compose. unfold compose. simpl. rewrite list_fmap_id.
      destruct (t_reportAcks (s_mem s) !! rid) eqn:E; simpl; [by eapply ai_nodup|constructor].
    + intros w x (w' & [= <- <-] & Hin)%list_elem_of_fmap.
      destruct (t_reportAcks (s_mem s) !! rid) as [ws|] eqn:E; simpl in Hin; [|by apply elem_of_nil in Hin].
      exists rid, ws. split_and!; [done|done|by rewrite lookup_delete_eq|by apply Hx].
  - intros ws. eapply sock_wp_mono; [|by apply (wp_deliver_all _ _ _ (al_owes g))]. by intros _ g' [K1 K2 K3 K4].
Qed.

Lemma n_failReport rid a : ack_status a = AckStatusTransientError -> neutral (failReport rid a).
Proof.
  intros Ha n g _. eapply sock_wp_mono; [|apply wp_failReport]; [by intros u g' ?|]. intros s _. by left.
Qed.

Lemma waiters_nodup s :
  ack_inv s -> NoDup (concat (map_to_list (t_reportAcks (s_mem s))).*2).
Proof.
  intros [I1 I2 _ _ _]. set (m := t_reportAcks (s_mem s)) in *.
  assert (forall x, x ∈ map_to_list m -> m !! x.1 = Some x.2) as Hx
    by (intros [k v]; apply elem_of_map_to_list).
  pose proof (NoDup_fst_map_to_list m) as Hk. revert Hx Hk.
  induction (map_to_list m) as [|[k v] l IH]; simpl; intros Hx Hk; [constructor|].
  apply NoDup_cons in Hk as [Hn Hk]. apply NoDup_app. split_and!.
  - eapply (I2 k). apply (Hx (k, v)). by left.
  - intros w Hw (v' & Hin & Hv')%elem_of_concat. apply list_elem_of_fmap in Hv' as ([k' v2] & -> & Hl).
    simpl in Hin. pose proof (I1 k v w (Hx (k, v) ltac:(by left)) Hw).
    pose proof (I1 k' v2 w (Hx (k', v2) ltac:(by right)) Hin). simplify_eq.
    apply Hn, list_elem_of_fmap. by exists (k, v2).
  - apply IH; [|done]. intros x Hin. apply Hx. by right.
Qed.

Lemma n_failAll err : neutral (failAllReports err).
Proof.
  intros n g _. unfold failAllReports. apply sock_wp_bind.
  set (all := fun m : gmap string (list nat) => concat (map_to_list m).*2).
  apply (wp_take _ _ _ (fun m => (fun w => (w, transient err)) <$> all m)).
  - intros s Hs Hg. simpl. eexists. split; [reflexivity|]. split_and!.
    + intros rid ws'. by rewrite lookup_empty.
    + rewrite <- list_fmap_compose. unfold compose. simpl. rewrite list_fmap_id. by apply waiters_nodup.
    + intros w x (w' & [= -> ->] & Hin)%list_elem_of_fmap.
      apply elem_of_concat in Hin as (ws & Hin & Hws).
      apply list_elem_of_fmap in Hws as ([rid ws'] & -> & H%elem_of_map_to_list).
      exists rid, ws'. split_and!; [done|done|apply lookup_empty|by left].
  - intros m. apply sock_wp_bind. eapply sock_wp_mono; [|by apply (n_call (fun _ => True))].
    intros order g' [_ K]. pose proof K as [K1 K2 K3 K4].
    eapply sock_wp_mono; [|apply (wp_deliver_all _ _ _ (al_owes g))].
    + intros _ g2 [L1 L2 L3 L4]. split; [done|]. constructor; [by rewrite L1|set_solver..].
    + rewrite K1. simpl. f_equiv. apply fmap_Permutation. unfold all.
      by rewrite shuffle_Permutation.
Qed.

(** Waiting for the answer to a report of one's own. *)
Lemma wp_await n w rid g (Q : AckWait -> AckLocal -> Prop) :
  (w, rid) ∈ al_mine g -> Q WContext g -> Q WDone g ->
  (forall a, Q (WAck a) (with_known (rid, a) g)) ->
  wp ack_start n (eff (AwaitAck w)) g Q.
Proof.
  intros Hw Q1 Q2 Q3. apply sock_wp_eff. intros s Hs Hg. split; [done|]. intros t idle rp x s' new Hp.
  assert (legal g g [] s s) as Hsame by (by apply (@legal_keeps _ acks _ ack_start)).
  simpl in Hp. unfold await_ack in Hp.
  destruct (tr_ready rp); simplify_eq/=; repeat case_match; simplify_eq/=; try by eexists g, []; split_and!; auto.
  destruct (af_mine _ _ Hg _ _ Hw) as [b Hb]. simplify_eq/=. rename d into a.
  eexists (with_known _ g), []. split_and!; [done|auto| |apply Q3].
  pose proof Hs as [I1 I2 I3 I4 I5]. pose proof (I4 _ _ _ H) as Hx.
  match goal with |- legal _ _ _ _ ?x => set (s2 := x) end.
  assert (forall k, ack_fine k s -> ack_fine k s2) as Hk.
  { intros k [K1 K2 K3 K4 K5]. constructor; [done| | | |].
    - intros w' a' Hw'. destruct (K2 _ _ Hw') as (Hu & rid' & Hr & Hx'). split; [done|].
      exists rid'. split; [|by apply explained_app]. simpl. rewrite lookup_insert_ne; [done|].
      intros <-. congruence.
    - intros w' rid' Hw'. destruct (K3 _ _ Hw') as [b Hb']. simpl. destruct (decide (w = w')) as [<-|].
      + exists None. rewrite lookup_insert_eq. by simplify_eq.
      + exists b. by rewrite lookup_insert_ne.
    - intros m Hm. simpl. apply elem_of_app. left. by apply K4.
    - intros rid' a' Hka. by apply explained_app, K5. }
  constructor; [| |done| |done].
  - constructor; simpl; [|done| | |].
    + intros rid' ws w' Hl Hin. pose proof (I1 _ _ _ Hl Hin). rewrite lookup_insert_ne; [done|].
      intros <-. congruence.
    + intros w' y. rewrite lookup_insert_Some. intros [[<- _]|[_ ?]]; eauto.
    + intros w' rid' a'. rewrite lookup_insert_Some. intros [[_ ?]|[_ ?]]; [done|].
      by apply explained_app, (I4 w').
    + by apply lawfully_snoc.
  - apply fine_known; [by apply explained_app|by apply Hk].
  - intros k Hf Ha. by split_and!; [apply Hk|..].
Qed.

(** [keep] leaves what a goroutine knows. *)
Lemma keep_mine x g g' : x ∈ al_mine g -> keep g g' -> x ∈ al_mine g'.
Proof. intros Hx [_ K _ _]. by apply K. Qed.

(** A neutral program before the rest. *)
Lemma wp_neutral {A B} n (p : Sock A) (k : A -> Sock B) g Q :
  neutral p -> (forall a g', keep g g' -> wp ack_start n (k a) g' Q) -> wp ack_start n (p ≫= k) g Q.
Proof. intros Hp Hk. apply sock_wp_bind. eapply sock_wp_mono; [|by apply Hp]. intros a g' [_ K]. by apply Hk. Qed.

Lemma wp_SendReport n g report :
  wp ack_start n (SendReport report) g (fun r g' =>
    keep g g' /\ forall a, r = inr a -> (r_ID report, a) ∈ al_known g').
Proof.
  unfold SendReport. repeat case_match; try (by apply wp_ret; split; [reflexivity|]).
  apply sock_wp_bind, wp_add_waiter. intros w first. cbv beta iota.
  assert (keep g (with_mine (w, r_ID report) g)) as K0 by (constructor; simpl; set_solver).
  assert ((w, r_ID report) ∈ al_mine (with_mine (w, r_ID report) g)) as Hw by (by left).
  set (g0 := with_mine _ g) in *.
  apply wp_neutral; [destruct first; [|by apply sock_yields_ret]; apply (f_section ack_start ack_frame); [frame_section|done]|]. intros sent g1 K1.
  apply wp_neutral; [destruct sent; [by apply sock_yields_ret|by apply n_failReport]|]. intros _ g2 K2.
  assert (keep g g2) as K by (etrans; [exact K0|by etrans]).
  apply sock_wp_bind, (wp_await _ _ (r_ID report)).
  - eapply keep_mine; [|exact K2]. by eapply keep_mine; [|exact K1].
  - apply wp_neutral; [apply n_remove_waiter|]. intros _ g3 K3. apply wp_ret. split; [by etrans|done].
  - apply wp_ret. by split.
  - intros a. apply wp_ret. split; [|intros ? [= <-]; by left].
    etrans; [exact K|]. constructor; simpl; set_solver.
Qed.

Lemma explained_acknowledged rid a l :
  ack_status a <> AckStatusTransientError -> explained rid a l -> acknowledged rid a l.
Proof. by intros Hn [?|?]. Qed.

(** Settling a report whose acknowledgement is known. *)
Lemma k_db_settle c rid (b : bool) a :
  settles c = Some (rid, b) ->
  (if b then ack_status a = AckStatusCommitted \/ ack_status a = AckStatusCleanupOnly
   else ack_status a = AckStatusPermanentReject) ->
  yields ack_start (fun _ => True) (fun g => (rid, a) ∈ al_known g) (db_command c).
Proof.
  intros Hc Ha. unfold db_command. eapply (sock_yields_bind _ (fun _ => True)).
  - intros g g' Hg [_ _ _ K]. by apply K.
  - apply yields_eff. intros g s Hk Hs Hg. split; [done|]. intros t idle rp x s' new Hp. simpl in Hp.
    destruct (run_cmd _ _ _) as [r db]. injection Hp as <- <- <-. split; [done|].
    exists g, []. split_and!; [done|simpl; lia| |reflexivity].
    pose proof Hs as [I1 I2 I3 I4 I5]. constructor; [| |done| |done].
    + constructor; simpl; [done|done|done| |].
      * intros w rid' a' Hw. by apply explained_app, (I4 w).
      * apply lawfully_snoc; [done|]. simpl. rewrite Hc. exists a. split; [|done].
        apply explained_acknowledged; [|by apply (af_known _ _ Hg)]. destruct b; [destruct Ha as [Ha|Ha]|]; by rewrite Ha.
    + by eapply (fine_grown g s).
    + intros k Hf Hap. by split_and!; [eapply (fine_grown k s)|..].
  - intros r _. by apply sock_yields_ret.
Qed.

Lemma k_busy rid a operation :
  yields ack_start (fun _ => True) (fun g => (rid, a) ∈ al_known g) operation ->
  yields ack_start (fun _ => True) (fun g => (rid, a) ∈ al_known g) (busy_loop operation).
Proof.
  intros H. assert (forall g g', (rid, a) ∈ al_known g -> keep g g' -> (rid, a) ∈ al_known g') as Hk
    by (intros g g' Hg [_ _ _ K]; by apply K).
  unfold busy_loop. apply (yields_loop _ (fun _ => True)); [done|done|intros _ _].
  eapply (sock_yields_bind _ (fun _ => True)); [done|done|]. intros [e|] _; [|by apply sock_yields_ret].
  case_match; [by apply sock_yields_ret|].
  eapply (sock_yields_bind _ (fun _ => True)); [done| |].
  - apply (f_reads ack_start ack_frame); [done|]. by intros t idle rp x s s' new [= <- <- <-].
  - intros slept _. apply sock_yields_ret. by case_match.
Qed.

#[local] Instance ack_knowledge : Knowledge := {|
  heard m g := m ∈ al_heard g; answered rid a g := (rid, a) ∈ al_known g;
  good_action _ := True; good_message _ := True; ends _ := True |}.

Lemma wp_select n idleTick g :
  wp ack_start n (eff (Select idleTick)) g (fun r g' =>
    keep g g' /\ forall m, r = SelMessage m -> heard m g' /\ good_message m).
Proof.
  apply (f_select ack_start ack_frame); try done. intros s m Hs Hg Hm. exists (with_heard m g).
  split_and!; [|by apply fine_heard|by left]. split_and!; [|done|done]. constructor; simpl; set_solver.
Qed.

Lemma k_settle report a :
  yields ack_start (fun _ => True) (fun g => (r_ID report, a) ∈ al_known g) (settle_acknowledged report a).
Proof.
  assert (forall c b, settles c = Some (r_ID report, b) ->
    (if b then ack_status a = AckStatusCommitted \/ ack_status a = AckStatusCleanupOnly
     else ack_status a = AckStatusPermanentReject) ->
    yields ack_start (fun _ => True) (fun g => (r_ID report, a) ∈ al_known g) (store_write c)) as H.
  { intros c b Hc Hb. unfold store_write. eapply (sock_yields_bind _ (fun _ => True)).
    - intros g g' Hg [_ _ _ K]. by apply K.
    - by apply n_call.
    - intros [e|] _; [by apply sock_yields_ret|]. by eapply k_busy, k_db_settle. }
  unfold settle_acknowledged. destruct (ack_status a); try (by apply sock_yields_ret).
  - eapply (H _ true); [done|by left].
  - eapply (H _ true); [done|by right].
  - by eapply (H _ false).
Qed.

Lemma n_wait : neutral (eff WaitWorkers).
Proof.
  apply yields_eff, harmless_keeps; [done|]. intros t idle rp a s s' new Hs Hp. simpl in Hp.
  destruct idle; [|done]. injection Hp as <- <- <-. split_and!; [done| |done].
  apply ack_frame_keeps. by apply (framed_event ack_frame).
Qed.

Global Instance ack_discipline : Discipline ack_start.
Proof.
  split; try solve [frame_field ack_start ack_frame].
  - intros m g g' Hg [_ _ K _]. by apply K.
  - intros rid a g g' Hg [_ _ _ K]. by apply K.
  - done.
  - intros j Hj. apply (f_launch ack_start ack_frame); [by intros ->|done].
  - intros A x _. apply n_call.
  - by apply (sock_yields_mono _ (fun _ => True) _ (fun _ => True)); [apply n_call|..].
  - apply wp_select.
  - intros m _. eapply (sock_yields_mono _ (fun _ => True) _ (fun _ => True)); [|done|done].
    apply (f_then_launch ack_start ack_frame); [frame_section|done].
  - intros m Hm n g Hh. eapply sock_wp_mono; [|apply wp_failReport]; [by intros u g' ?|].
    intros s Hs. right. exists m. split_and!; try done. by apply (af_heard _ _ Hs).
  - apply wp_SendReport.
  - apply k_settle.
  - done.
  - intros n g r _.
    assert (neutral (stopAndWait;; crit (note (VReturn r.1 r.2)))) as H; [|by eapply sock_wp_mono; [|apply H]].
    unfold stopAndWait.
    repeat first [ apply n_failAll | apply n_call | apply (f_section ack_start ack_frame); [frame_section|done]
                 | eapply (sock_yields_bind _ (fun _ => True)); [by intros| |intros ? _] ].
    apply n_wait.
Qed.

(** ** Runs *)

Context (startup : localStartupState) (runtime : DaemonRuntime) (sleepAfter : Z) (instanceID : string).
Context {PC : PayloadCodec}.

Lemma ack_jobs : jobs_start ack_start (body startup runtime sleepAfter instanceID).
Proof.
  apply (discipline_jobs ack_start); try done; [by apply Forall_true|..]; intros; apply (neutral_job ack_start).
  - apply (n_prepare ack_start); intros; frame_field ack_start ack_frame.
  - apply (n_start ack_start); intros; first [apply n_call|frame_field ack_start ack_frame].
  - apply (n_queue ack_start); [by intros; apply n_call|]. frame_field ack_start ack_frame.
Qed.

Lemma serve_acks processes runtimes fresh l db n :
  exists gs, Inv ack_start n (serve startup runtime sleepAfter instanceID processes runtimes fresh l db) gs.
Proof.
  eapply (serve_keeps ack_start); [apply ack_jobs|done| |].
  - constructor; simpl; try done. apply lawfully_nil.
  - apply (fine_nothing (PR := acks)). constructor; simpl; try done. apply lawfully_nil.
Qed.
End Acks.
