(* ===== verification/SocketStop.v ===== *)
(** * Ending a connection

    [stopAndWait] and what it needs of the workers: once the connection has stopped
    accepting workers and has seen the last one return, none is left and none comes;
    and while it waits for them, every goroutine whose context has ended can go on. *)
From ITree Require Import ITree.
From S2P Require Import Prelude GoStrings DaemonProtocol ProcessCmd DaemonMessages LocalPaths.
From S2P Require Import StateSchema StateQueries StateTx StateReport StateProcess StateAction.
From S2P Require Import StateTrace StateOutbox LocalStore ClientWorld Reconciliation SocketWorld Socket.
From S2P Require Import SocketLogic SocketDiscipline SocketFrame SocketAcks.
From stdpp Require Import options.

(** The connection's own goroutine; what it has done. *)
Record StopLocal : Type := mkStopLocal { sp_main : bool; sp_stopped : bool; sp_waited : bool }.

Definition stop_law (past : list Ev) (e : Ev) : Prop :=
  match e with VReturn _ _ => VWaited ∈ past | _ => True end.

Definition stop_quiet (e : Ev) : Prop :=
  match e with VReturn _ _ | VWaited => False | _ => True end.

Record stop_inv (s : Shared) : Prop := mkStopInv {
  si_stopping : VWaited ∈ s_log s -> ch_stopping (s_chans s) = true;
  si_lawful : lawfully stop_law (s_log s)
}.

Record stop_fine (g : StopLocal) (s : Shared) : Prop := mkStopFine {
  sf_stopped : sp_stopped g = true -> ch_stopping (s_chans s) = true;
  sf_waited : sp_waited g = true -> VWaited ∈ s_log s
}.

Definition stop_pre (A : Type) (e : SockE A) (g : StopLocal) (s : Shared) : Prop :=
  match e with
  | Crit section => VWaited ∈ s_log (section s).2 -> VWaited ∈ s_log s
  | WaitWorkers => sp_main g = true
  | Launch j => j <> JRun
  | _ => True
  end.

#[local] Instance stops : Protocol := {|
  Local := StopLocal; inv := stop_inv; fine := stop_fine; apart _ _ := True; keep := eq;
  role j g := sp_main g = true -> j = JRun; pre := stop_pre; nothing := mkStopLocal false false false |}.

Definition stop_frame : Frame := {|
  fr_mem _ _ := True; fr_chans c c' := ch_stopping c = true -> ch_stopping c' = true;
  fr_db _ _ := True; fr_quiet := stop_quiet |}.

Lemma waited_quiet l l' : Forall stop_quiet l' -> VWaited ∈ l ++ l' -> VWaited ∈ l.
Proof.
  intros Hq [?|H]%elem_of_app; [done|]. by pose proof (proj1 (Forall_forall _ _) Hq _ H).
Qed.

Section Stop.
Context {RC : ReportCodec} {CC : ClientCodec} {SC : SocketCodec}.
Set Default Proof Using "Type*".

Lemma stop_frame_keeps s s' : framed stop_frame s s' -> keeps s s'.
Proof.
  intros [_ Hc _ (l & L & Q)] [I1 I2]. simpl in *. split.
  - constructor; rewrite L.
    + intros H. by eapply Hc, I1, waited_quiet.
    + apply lawfully_quiet; [|done]. intros past e He.
      pose proof (proj1 (Forall_forall _ _) Q _ He). by destruct e.
  - intros k [K1 K2]. constructor; [auto|]. intros H. rewrite L. apply elem_of_app. auto.
Qed.

Global Instance stop_framing : Framing stop_frame.
Proof.
  split; simpl; try done.
  - split; [by intros c|]. intros c1 c2 c3; auto.
  - apply stop_frame_keeps.
  - intros A e g s. by destruct e.
  - intros A section g s [_ _ _ (l & L & Q)]. rewrite L. by apply waited_quiet.
Qed.

Global Instance stop_reports : ReportsFramed stop_frame.
Proof. split; simpl; try done. Qed.

Lemma stop_environment s s' : environment s s' -> framed stop_frame s s'.
Proof. apply (framed_environment stop_frame); frame_fields. Qed.

Global Instance stops_laws : ProtocolLaws.
Proof.
  split; try done.
  - apply _.
  - intros s s' He Hs. by apply (stop_frame_keeps s s'); [apply stop_environment|].
  - intros s s' g He Hs Hg. by apply (stop_frame_keeps s s'); [apply stop_environment| |].
Qed.

Definition stop_start (j : Job) (h : Local) : Prop :=
  h = mkStopLocal (match j with JRun => true | _ => false end) false false.

#[local] Instance stop_knowledge : Knowledge := {|
  heard _ _ := True; answered _ _ _ := True; good_action _ := True; good_message _ := True;
  ends g := sp_main g = true |}.

Abbreviation neutral := (yields stop_start (fun _ => True) (fun _ => True)).

Lemma stop_call {A} ok (x : Outside A) : yields stop_start (fun _ => True) ok (call x).
Proof. apply (f_call stop_start stop_frame); [|done]. intros t. destruct x; repeat constructor. Qed.

(** One section of the connection's own goroutine. *)
Lemma wp_section {A} n (section : M Shared A) g (g' : Local) (Q : A -> Local -> Prop) :
  (sp_main g' = sp_main g) ->
  (forall s, stop_inv s -> stop_fine g s ->
     keeps s (section s).2 /\ stop_fine g' (section s).2
     /\ (VWaited ∈ s_log (section s).2 -> VWaited ∈ s_log s)) ->
  (forall a, Q a g') -> wp stop_start n (crit section) g Q.
Proof.
  intros Hm H HQ. apply sock_wp_eff. intros s Hs Hg. destruct (H s Hs Hg) as (Hk & Hf & Hw).
  split; [done|]. intros t idle rp a s' new [= E <-]. rewrite E in *. exists g', [].
  split_and!; [done|simpl; lia| |apply HQ]. destruct (Hk Hs) as [Hi Hks].
  constructor; [done|done|done|intros k Hfk _; by split_and!; [apply Hks|..]|].
  intros j. simpl. by rewrite Hm.
Qed.

(** A neutral program before the rest. *)
Lemma wp_then {A B} n (p : Sock A) (k : A -> Sock B) g Q :
  neutral p -> (forall a, wp stop_start n (k a) g Q) -> wp stop_start n (p ≫= k) g Q.
Proof. intros Hp Hk. apply sock_wp_bind. eapply sock_wp_mono; [|by apply Hp]. by intros a g' [_ <-]. Qed.

Lemma wp_return n g r :
  sp_main g = true ->
  wp stop_start n (stopAndWait;; crit (note (VReturn r.1 r.2))) g (fun _ _ => True).
Proof.
  intros Hm. unfold stopAndWait. apply sock_wp_bind, sock_wp_bind.
  apply (wp_section _ _ _ (mkStopLocal true true (sp_waited g))); [done|..].
  { intros s Hs [F1 F2]. split_and!; [|constructor; simpl; auto|done].
    apply stop_frame_keeps. by apply (frame_chans stop_frame). }
  intros _. apply wp_then; [frame_field stop_start stop_frame|]. intros _.
  apply wp_then; [apply stop_call|]. intros _.
  apply wp_then; [apply (f_failAll stop_start stop_frame)|]. intros _.
  apply wp_then; [frame_field stop_start stop_frame|]. intros _.
  apply sock_wp_eff. intros s Hs Hg. split; [done|]. intros t idle rp a s' new Hp. simpl in Hp.
  destruct idle; [|done]. injection Hp as <- <- <-.
  exists (mkStopLocal true true true), []. split_and!; [done|simpl; lia|..].
  - pose proof Hs as [I1 I2]. pose proof Hg as [F1 F2].
    assert (VWaited ∈ s_log s ++ [VWaited]) as Hw by (apply elem_of_app; right; by left).
    constructor; [| |done| |done].
    + constructor; simpl; [auto|by apply lawfully_snoc].
    + constructor; simpl; auto.
    + intros k [K1 K2] _. split_and!; [|done|done]. constructor; simpl; [done|].
      intros H. apply elem_of_app. auto.
  - apply (wp_section _ _ _ (mkStopLocal true true true)); [done| |done].
    clear s Hs Hg. intros s Hs [F1 F2]. simpl in F1, F2.
    split_and!; [|constructor; simpl; [done|]; intros; apply elem_of_app; auto|].
    + intros [I1 I2]. split.
      * constructor; simpl; [auto|]. apply lawfully_snoc; [done|]. simpl. auto.
      * intros k [K1 K2]. constructor; simpl; [done|]. intros H. apply elem_of_app. auto.
    + simpl. intros [?|H]%elem_of_app; [done|]. by apply list_elem_of_singleton in H.
Qed.

Global Instance stop_discipline : Discipline stop_start.
Proof.
  split; try solve [done | frame_field stop_start stop_frame | report_field stop_start stop_frame].
  - intros A x _. apply stop_call.
  - by apply (sock_yields_mono _ (fun _ => True) _ (fun _ => True)); [apply stop_call|..].
  - by intros g g' Hg <-.
  - intros n g r. apply wp_return.
Qed.

(** ** Runs *)

Context {PC : PayloadCodec}.
Context (startup : localStartupState) (runtime : DaemonRuntime) (sleepAfter : Z) (instanceID : string).

Lemma stop_jobs : jobs_start stop_start (body startup runtime sleepAfter instanceID).
Proof.
  apply (discipline_jobs stop_start); [|by apply Forall_true|by intros h ->|..];
    [by intros j h -> Hj; destruct j|..]; intros; apply (neutral_job stop_start).
  - apply (n_prepare stop_start); intros; frame_field stop_start stop_frame.
  - apply (n_start stop_start); intros; first [apply stop_call|frame_field stop_start stop_frame].
  - apply (n_queue stop_start); [by intros; apply stop_call|]. frame_field stop_start stop_frame.
Qed.

Lemma serve_stops processes runtimes fresh l db n :
  exists gs, Inv stop_start n (serve startup runtime sleepAfter instanceID processes runtimes fresh l db) gs.
Proof.
  eapply (serve_keeps stop_start); [apply stop_jobs|done| |].
  - constructor; simpl; [by intros ?%elem_of_nil|apply lawfully_nil].
  - by constructor.
Qed.

(** Only the first goroutine is the connection's own, and after it has seen the last
    worker return there is none. *)
Record Ended (y : System) : Prop := mkEnded {
  en_main t th : y_threads y !! t = Some th -> th_job th = JRun -> t = O;
  en_some : (0 < length (y_threads y))%nat;
  en_gone : VWaited ∈ s_log (y_shared y) -> workers_gone (y_threads y) = true
}.

Lemma gone_lookup threads t th :
  workers_gone threads = true -> threads !! t = Some th -> t <> O -> returned th = true.
Proof.
  unfold workers_gone. rewrite forallb_forall. intros H Ht Hne. destruct t as [|t]; [done|].
  destruct threads as [|th0 threads]; [done|]. apply H, list_elem_of_In, list_elem_of_lookup. by exists t.
Qed.

Lemma workers_left threads :
  workers_gone threads = false -> exists t th, t <> O /\ threads !! t = Some th /\ returned th = false.
Proof.
  destruct threads as [|th0 threads]; [done|]. unfold workers_gone. simpl.
  induction threads as [|th threads IH]; simpl; [done|]. destruct (returned th) eqn:E; simpl; intros H.
  - destruct (IH H) as (t & th' & Hne & Ht & Hr). destruct t as [|t]; [done|]. by exists (S (S t)), th'.
  - by exists 1%nat, th.
Qed.

Lemma insert_tail {A} (l : list A) x : tail (<[0%nat:=x]> l) = tail l.
Proof. by destruct l. Qed.

Lemma log_all_log l s : s_log (log_all l s) = s_log s ++ l.
Proof.
  revert s. induction l as [|e l IH]; intros s; simpl; [by rewrite (right_id_L [] (++))|].
  rewrite IH. simpl. by rewrite <- (assoc_L (++)).
Qed.

Lemma perform_waited {A} t idle (e : SockE A) rp s a s' new g :
  stop_pre A e g s -> perform t idle e rp s = Some (a, s', new) -> VWaited ∈ s_log s' ->
  VWaited ∈ s_log s \/ (idle = true /\ sp_main g = true /\ new = []).
Proof.
  intros Hp Hr Hw. destruct e; simpl in Hr; unfold select, select_write, await_ack in Hr;
    try destruct (run_cmd _ _ _) as [r db]; repeat case_match; simplify_eq/=; try (by left);
    try (by left; eapply (waited_quiet _ [_]); [|exact Hw]; repeat constructor).
  - left. apply Hp. match goal with H : section s = _ |- _ => by rewrite H end.
  - destruct (ch_fatal _); by simplify_eq/=; left.
  - destruct (ch_writeDone _); by simplify_eq/=; left.
  - destruct (ch_readDone _); by simplify_eq/=; left.
  - destruct (ch_messages _); simplify_eq/=. left. eapply (waited_quiet _ [_]); [|exact Hw]. repeat constructor.
  - by right.
  - rewrite log_all_log in Hw. left. eapply waited_quiet; [|exact Hw]. destruct x; repeat constructor.
Qed.

Lemma perform_new {A} t idle (e : SockE A) rp s a s' new g :
  stop_pre A e g s -> perform t idle e rp s = Some (a, s', new) ->
  Forall (fun j => j <> JRun) new /\ (ch_stopping (s_chans s) = true -> new = []).
Proof.
  intros Hp Hr. destruct e; simpl in Hr; try destruct (run_cmd _ _ _) as [r db];
    repeat case_match; simplify_eq/=; try (by split);
    try (by destruct (select _ _ _); simplify_eq/=; split);
    try (by destruct (select_write _ _); simplify_eq/=; split);
    try (by destruct (await_ack _ _ _ _); simplify_eq/=; split).
  split; [by repeat constructor|congruence].
Qed.

Abbreviation bodies := (body startup runtime sleepAfter instanceID).

Lemma step_ended t rp y y' gs :
  Inv stop_start 1 y gs -> Ended y -> step bodies t rp y = Some y' -> Ended y'.
Proof.
  intros [Hi Hf Hw Ha] [M S G]. unfold step. destruct (y_threads y !! t) as [th|] eqn:Et; [|done].
  destruct (Forall2_lookup_l _ _ _ _ _ Hw Et) as (g & Eg & Hrole & Hg).
  pose proof (Forall_lookup_1 _ _ _ _ Hf Eg) as Hfg. simpl in Hrole, Hfg. cbn [wp] in Hg.
  destruct (observe (th_prog th)) as [a|p|X e k] eqn:Eo; [done|..].
  - assert (returned th = false) as Hret by (by unfold returned; rewrite Eo).
    intros [= <-]. constructor; simpl.
    + intros t' th' [(<- & <- & _)|[_ H]]%list_lookup_insert_Some Hj; [by apply (M t th)|by apply (M t' th')].
    + by rewrite length_insert.
    + intros H. destruct (decide (t = O)) as [->|Hne]; [unfold workers_gone; rewrite insert_tail; by apply G|].
      pose proof (gone_lookup _ _ _ (G H) Et Hne). congruence.
  - assert (returned th = false) as Hret by (by unfold returned; rewrite Eo).
    destruct (perform _ _ _ _ _) as [[[a s'] new]|] eqn:Ep; [|done]. intros [= <-].
    destruct (Hg _ Hi Hfg) as [Hpre _].
    destruct (perform_new _ _ _ _ _ _ _ _ _ Hpre Ep) as [Hnew Hnone].
    constructor; simpl.
    + intros t' th' [H|[Hlen H]]%lookup_app_Some Hj.
      * apply list_lookup_insert_Some in H as [(<- & <- & _)|[_ H]]; [by apply (M t th)|by apply (M t' th')].
      * apply list_lookup_fmap_Some in H as (j & -> & Hj'). 
        by pose proof (Forall_lookup_1 _ _ _ _ Hnew Hj').
    + rewrite List.length_app, length_insert. lia.
    + intros H. assert (t = O /\ workers_gone (y_threads y) = true) as [-> Hg0].
      { destruct (perform_waited _ _ _ _ _ _ _ _ _ Hpre Ep H) as [H'|(Hidle & Hmain & Hn)].
        - split; [|by apply G]. destruct (decide (t = O)) as [|Hne]; [done|].
          pose proof (gone_lookup _ _ _ (G H') Et Hne). congruence.
        - split; [|done]. by apply (M t th), Hrole. }
      assert (new = []) as ->.
      { destruct (perform_waited _ _ _ _ _ _ _ _ _ Hpre Ep H) as [H'|(Hidle & Hmain & Hn)].
        - by apply Hnone, (si_stopping _ Hi).
        - done. }
      simpl. rewrite (right_id_L [] (++)). unfold workers_gone. by rewrite insert_tail.
Qed.

Lemma move_ended m y gs : Inv stop_start 1 y gs -> Ended y -> Ended (move bodies y m).
Proof.
  intros HI HE. destruct m as [t rp|c faults|processID|]; simpl.
  - destruct (step bodies t rp y) as [y'|] eqn:E; simpl; [by eapply step_ended|done].
  - destruct (decide (wf_cmd c)); [|done]. destruct (run_cmd c faults _) as [r db].
    destruct HE as [M S G]. constructor; [done|done|]. simpl. intros H.
    apply G. eapply (waited_quiet _ [_]); [|exact H]. repeat constructor.
  - by destruct HE.
  - by destruct HE.
Qed.

Abbreviation run processes runtimes fresh l db :=
  (serve startup runtime sleepAfter instanceID processes runtimes fresh l db).

Lemma serve_snoc processes runtimes fresh l m db :
  run processes runtimes fresh (l ++ [m]) db = move bodies (run processes runtimes fresh l db) m.
Proof. unfold serve, execute. by rewrite fold_left_app. Qed.

Lemma serve_ended processes runtimes fresh l db : Ended (run processes runtimes fresh l db).
Proof.
  induction l as [|m l IH] using rev_ind.
  - constructor; simpl; [|lia|by intros ?%elem_of_nil].
    intros t th H _. by apply list_lookup_singleton_Some in H as [-> _].
  - rewrite serve_snoc. destruct (serve_stops processes runtimes fresh l db 1) as [gs Hgs].
    by eapply move_ended.
Qed.

(** ** No goroutine is stuck *)

(** Whatever an effect waits for, the end of the context is an answer: except for the
    room in a waiter's channel and for the workers to return. *)
Lemma cancelled_performs {A} t idle (e : SockE A) s :
  ch_cancelled (s_chans s) = true -> (forall g, ack_pre A e g s) ->
  (idle = false -> match e with WaitWorkers => False | _ => True end) ->
  exists rp, is_Some (perform t idle e rp s).
Proof.
  intros Hc Hp Hi. exists treply.
  destruct e; simpl; unfold select, select_write, await_ack, cancelled; simpl; rewrite ?Hc; try (by eexists).
  - destruct (Hp (mkAckLocal [] [] [] [])) as [rid ->]. by eexists.
  - by case_match; eexists.
  - destruct idle; [by eexists|]. by destruct Hi.
  - destruct (run_cmd _ _ _) as [r db]. by eexists.
Qed.

(** A goroutine that has not returned can go on, or is the connection's own, waiting
    for a worker. *)
Lemma cancelled_steps processes runtimes fresh l db t th :
  let y := run processes runtimes fresh l db in
  ch_cancelled (s_chans (y_shared y)) = true -> y_threads y !! t = Some th -> returned th = false ->
  (exists rp, is_Some (step bodies t rp y)) \/ (t = O /\ workers_gone (y_threads y) = false).
Proof.
  intros y Hc Et Hret. destruct (serve_ended processes runtimes fresh l db) as [M _ _].
  destruct (serve_stops processes runtimes fresh l db 1) as [gs [Hi Hf Hw _]].
  destruct (serve_acks startup runtime sleepAfter instanceID processes runtimes fresh l db 1)
    as [as_ [Hi' Hf' Hw' _]]. fold y in M, Hi, Hf, Hw, Hi', Hf', Hw'.
  destruct (Forall2_lookup_l _ _ _ _ _ Hw Et) as (g & Eg & Hrole & Hg).
  destruct (Forall2_lookup_l _ _ _ _ _ Hw' Et) as (a & Ea & _ & Ha).
  pose proof (Forall_lookup_1 _ _ _ _ Hf Eg) as Hfg. pose proof (Forall_lookup_1 _ _ _ _ Hf' Ea) as Hfa.
  simpl in Hrole, Hfg, Hfa. cbn [wp] in Hg, Ha. unfold returned in Hret. unfold step. rewrite Et.
  destruct (observe (th_prog th)) as [b|p|X e k] eqn:Eo; [done|left; exists treply; by eexists|].
  destruct (Hg _ Hi Hfg) as [Hpre _]. destruct (Ha _ Hi' Hfa) as [Hpre' _]. clear Hg Ha.
  destruct (decide (workers_gone (y_threads y) = false /\ match e with WaitWorkers => true | _ => false end = true))
    as [[Hgone He]|Hne].
  - right. split; [|done]. destruct e; try done. apply (M t th Et). by apply Hrole.
  - left. destruct (cancelled_performs t (workers_gone (y_threads y)) e (y_shared y) Hc) as [rp [[[x s'] new] Hp]].
    + intros g'. by destruct e.
    + intros Hgone. destruct e; try done. by apply Hne.
    + exists rp. rewrite Hp. by eexists.
Qed.
End Stop.
