(* ===== verification/SocketHistory.v ===== *)
(** * The connection and the state database

    What a connection writes, and what others write meanwhile, is a history of the
    state database (StateTrace.v): its theorems hold along every run of a connection.
    The sequence numbers of the actions that the connection resolves are Go integers,
    since the server's messages carry no others. *)
From ITree Require Import ITree.
From S2P Require Import Prelude GoStrings DaemonProtocol ProcessCmd DaemonMessages LocalPaths.
From S2P Require Import StateSchema StateQueries StateTx StateReport StateProcess StateAction.
From S2P Require Import StateTrace StateOutbox LocalStore ClientWorld Reconciliation SocketWorld Socket.
From S2P Require Import SocketLogic SocketDiscipline SocketFrame.
From stdpp Require Import options.

(** The calls of the database, in the order in which they were made. *)
Definition call_of (e : Ev) : option Call :=
  match e with VDb _ c | VOther c => Some c | _ => None end.
Definition calls (l : list Ev) : list Call := omap call_of l.

Definition seq_ok (a : pendingAction) : Prop := is_int64 (pa_Seq (pac_action a)).
Definition actions_ok (l : gmap string pendingAction) : Prop := forall id a, l !! id = Some a -> seq_ok a.
Definition message_ok (x : option Message) : Prop := forall m, x = Some m -> message_in_range m.

Section History.
Context {RC : ReportCodec} {CC : ClientCodec} {SC : SocketCodec}.
Context (db0 : DB).
Set Default Proof Using "Type*".

Record history_inv (s : Shared) : Prop := mkHistoryInv {
  hi_runs : runs db0 (calls (s_log s)) (s_db s);
  hi_actions : actions_ok (t_pendingActions (s_mem s));
  hi_message : message_ok (ch_messages (s_chans s))
}.

#[local] Instance history : Protocol := {|
  Local := unit; inv := history_inv; fine _ _ := True; apart _ _ := True; keep _ _ := True;
  role _ _ := True; pre _ _ _ _ := True; nothing := tt |}.

Definition history_frame : Frame := {|
  fr_mem m m' := actions_ok (t_pendingActions m) -> actions_ok (t_pendingActions m');
  fr_chans c c' := message_ok (ch_messages c) -> message_ok (ch_messages c');
  fr_db := eq; fr_quiet e := call_of e = None |}.

Lemma connection_calls_app l l' : calls (l ++ l') = calls l ++ calls l'.
Proof. apply omap_app. Qed.

Lemma calls_quiet l l' : Forall (fun e => call_of e = None) l' -> calls (l ++ l') = calls l.
Proof.
  intros H. rewrite connection_calls_app. replace (calls l') with (@nil Call); [by rewrite (right_id_L [] (++))|].
  induction H as [|e l' He _ IH]; [done|]. simpl. by rewrite He.
Qed.

Lemma history_snoc db h db1 c faults r db2 :
  runs db h db1 -> wf_cmd c -> run_cmd c faults db1 = (r, db2) -> runs db (h ++ [mkCall c faults r]) db2.
Proof. intros H Hc Hr. induction H; simpl; econstructor; eauto. constructor. Qed.

Global Instance history_framing : Framing history_frame.
Proof.
  split; simpl; try done.
  - split; [by intros m|]. intros m1 m2 m3; auto.
  - split; [by intros m|]. intros m1 m2 m3; auto.
  - apply _.
  - intros s s' [Hm Hc Hd (l & L & Q)] [H1 H2 H3]. split; [|done]. simpl in *.
    constructor; [|auto|auto]. by rewrite L, calls_quiet, <- Hd.
Qed.

Global Instance history_reports : ReportsFramed history_frame.
Proof. split; simpl; try done. Qed.

Global Instance history_laws : ProtocolLaws.
Proof.
  split; try done. intros s s' [c faults r db s0 Hc Hr|pid s0|s0] [H1 H2 H3]; constructor; simpl; try done.
  rewrite connection_calls_app. by apply (history_snoc _ _ (s_db s0)).
Qed.

Definition history_start (j : Job) (h : Local) : Prop := True.

#[local] Instance history_knowledge : Knowledge := {|
  heard _ _ := True; answered _ _ _ := True; good_action := seq_ok; good_message := message_in_range;
  ends _ := True |}.

Abbreviation neutral := (yields history_start (fun _ => True) (fun _ => True)).

Lemma h_call {A} ok (x : Outside A) : yields history_start (fun _ => True) ok (call x).
Proof. apply (f_call history_start history_frame); [|done]. intros t. destruct x; repeat constructor. Qed.

Lemma h_command c : wf_cmd c -> neutral (db_command c).
Proof.
  intros Hc. unfold db_command. eapply (sock_yields_bind _ (fun _ => True)); [by intros| |by intros; apply sock_yields_ret].
  apply yields_eff, harmless_keeps; [done|]. intros t idle rp a s s' new Hs Hp. simpl in Hp.
  destruct (run_cmd _ _ _) as [r db] eqn:E. injection Hp as <- <- <-. split_and!; [done| |done].
  intros [H1 H2 H3]. split; [|done]. constructor; [|done|done]. simpl. rewrite connection_calls_app.
  by apply (history_snoc _ _ (s_db s)).
Qed.

Lemma actions_insert l id a : seq_ok a -> actions_ok l -> actions_ok (<[id:=a]> l).
Proof. intros Ha Hl id' a'. rewrite lookup_insert_Some. intros [[_ <-]|[_ H]]; eauto. Qed.

Lemma actions_delete l id : actions_ok l -> actions_ok (delete id l).
Proof. intros Hl id' a'. rewrite lookup_delete_Some. intros [_ H]. eauto. Qed.

Lemma actions_filter (P : string * pendingAction -> Prop) `{!forall x, Decision (P x)} l :
  actions_ok l -> actions_ok (filter P l).
Proof. intros Hl id' a'. rewrite map_lookup_filter_Some. intros [Hf _]. eauto. Qed.

Ltac history_section :=
  intros; apply (f_section history_start history_frame); [|done]; frame_section;
  auto using actions_insert, actions_delete, actions_filter.

Global Instance history_discipline : Discipline history_start.
Proof.
  split; try solve [done | frame_field history_start history_frame | report_field history_start history_frame
                   | history_section].
  - intros m offer Hm E. red in Hm. simpl in Hm. unfold message_in_range in Hm. by rewrite E in Hm.
  - intros m Hm. apply (f_effect history_start history_frame); [done|].
    intros t idle rp x s s' new Hs [= <- <- <-]. split_and!; [done| |done].
    apply (framed_chans_step history_frame). intros _ m' [= <-]. done.
  - intros A x _. apply h_call.
  - apply (f_call history_start history_frame); [intros; constructor|]. intros rp m. simpl.
    case_decide; [|done]. by destruct (tr_err rp); intros; simplify_eq.
  - intros. apply (f_select history_start history_frame);
      try solve [done | frame_fields | intros; by apply (f_learn_nothing history_start history_frame)].
    intros s m Hs E. by apply (hi_message _ Hs).
  - intros pid. apply (f_section history_start history_frame); [|done]. frame_section.
    by apply actions_filter.
  - intros id. apply (f_result history_start history_frame); [frame_section|]. intros s Hs a E. exact (hi_actions _ Hs id a E).
  - intros grant. apply yields_eff, harmless_crit; [done|]. intros s Hs. pose proof Hs as [H1 H2 H3].
    unfold grant_section, mbind, M_bind, mem, get. simpl.
    destruct (t_pendingActions (s_mem s) !! _) as [a|] eqn:E; [|by split]. pose proof (H2 _ _ E) as Ha.
    case_match; [by split|]. split; [by intros ? [= <-]|]. intros _. split; [|done].
    constructor; simpl; [done| |done]. by apply actions_insert.
  - intros pid action Ha. apply (f_result history_start history_frame); [|done]. frame_section.
    by apply actions_insert.
  - intros report a. apply (f_settle history_start history_frame); intros; by apply h_command.
  - intros a pid inst Ha. by apply h_command.
Qed.

(** ** Runs *)

Context {PC : PayloadCodec}.
Context (startup : localStartupState) (runtime : DaemonRuntime) (sleepAfter : Z) (instanceID : string).

Lemma history_jobs :
  Forall (fun pa => is_int64 (pa_Seq pa.2)) (su_Actions startup) ->
  jobs_start history_start (body startup runtime sleepAfter instanceID).
Proof.
  intros Hs. apply (discipline_jobs history_start); try done; intros; apply (neutral_job history_start).
  - apply (n_prepare history_start); intros; frame_field history_start history_frame.
  - apply (n_start history_start); intros;
      first [apply h_call|by apply h_command|frame_field history_start history_frame].
  - apply (n_queue history_start); [by intros; apply h_call|]. frame_field history_start history_frame.
Qed.

Lemma serve_history processes runtimes fresh l :
  Forall (fun pa => is_int64 (pa_Seq pa.2)) (su_Actions startup) ->
  let s := y_shared (serve startup runtime sleepAfter instanceID processes runtimes fresh l db0) in
  runs db0 (calls (s_log s)) (s_db s).
Proof.
  intros Hs. edestruct (serve_keeps history_start startup runtime sleepAfter instanceID processes runtimes
    fresh l db0 tt 0) as [gs HI]; [by apply history_jobs|done| |done|].
  - constructor; simpl; [constructor|done|done].
  - apply (hi_runs _ (in_inv _ _ _ _ HI)).
Qed.
End History.
