(* ===== verification/SocketQueues.v ===== *)
(** * The actions of a process, one at a time and in the order they were granted

    The protocol of the action queues: a process has at most one queue in the table
    and at most one goroutine that takes from it; what was taken, followed by what is
    still waiting, is what was granted, in that order, with nothing added. *)
From ITree Require Import ITree.
From S2P Require Import Prelude GoStrings DaemonProtocol ProcessCmd DaemonMessages LocalPaths.
From S2P Require Import StateSchema StateQueries StateTx StateReport StateProcess StateAction.
From S2P Require Import StateTrace StateOutbox LocalStore ClientWorld Reconciliation SocketWorld Socket.
From S2P Require Import SocketLogic SocketDiscipline SocketFrame.
From stdpp Require Import options.

(** The actions of a process that were queued, and those that were taken. *)
Definition queued_of (pid : string) (e : Ev) : option string :=
  match e with VEnqueue p a => if bool_decide (p = pid) then Some a else None | _ => None end.
Definition taken_of (pid : string) (e : Ev) : option string :=
  match e with VDequeue p a => if bool_decide (p = pid) then Some a else None | _ => None end.
Definition queued (pid : string) (l : list Ev) : list string := omap (queued_of pid) l.
Definition taken (pid : string) (l : list Ev) : list string := omap (taken_of pid) l.

Definition queue_law (past : list Ev) (e : Ev) : Prop :=
  match e with
  | VDequeue pid a => (taken pid past ++ [a]) `sublist_of` queued pid past
  | VApply _ pid a => last (taken pid past) = Some a
  | _ => True
  end.

Definition queue_quiet (e : Ev) : Prop :=
  match e with VEnqueue _ _ | VDequeue _ _ | VApply _ _ _ => False | _ => True end.

(** The queues a goroutine serves, and the action it is at. *)
Record QueueLocal : Type := mkQueueLocal {
  ql_queues : list (string * nat);
  ql_current : option (string * string)
}.

Definition waiting (pid : string) (m : Mem) : list string :=
  match t_actionQueues m !! pid with Some q => default [] (t_queues m !! q) | None => [] end.

Definition named (l : gmap string pendingAction) : Prop :=
  forall id a, l !! id = Some a -> pa_ID (pac_action a) = id.

Record queue_inv (s : Shared) : Prop := mkQueueInv {
  qi_fifo pid : (taken pid (s_log s) ++ waiting pid (s_mem s)) `sublist_of` queued pid (s_log s);
  qi_inj pid pid' q :
    t_actionQueues (s_mem s) !! pid = Some q -> t_actionQueues (s_mem s) !! pid' = Some q -> pid = pid';
  qi_fresh pid q : t_actionQueues (s_mem s) !! pid = Some q -> (q < t_fresh (s_mem s))%nat;
  qi_named : named (t_pendingActions (s_mem s));
  qi_lawful : lawfully queue_law (s_log s)
}.

Record queue_fine (g : QueueLocal) (s : Shared) : Prop := mkQueueFine {
  qf_nodup : NoDup (ql_queues g).*1;
  qf_queue pid q : (pid, q) ∈ ql_queues g -> t_actionQueues (s_mem s) !! pid = Some q;
  qf_current pid a : ql_current g = Some (pid, a) ->
    pid ∈ (ql_queues g).*1 /\ last (taken pid (s_log s)) = Some a
}.

Definition queue_apart (g h : QueueLocal) : Prop := forall pid, pid ∈ (ql_queues g).*1 -> pid ∉ (ql_queues h).*1.

#[local] Instance queues : Protocol := {|
  Local := QueueLocal; inv := queue_inv; fine := queue_fine; apart := queue_apart; keep := eq;
  role _ _ := True; pre _ _ _ _ := True; nothing := mkQueueLocal [] None |}.

Definition queue_frame : Frame := {|
  fr_mem m m' := t_actionQueues m' = t_actionQueues m /\ t_queues m' = t_queues m
    /\ (t_fresh m <= t_fresh m')%nat /\ (named (t_pendingActions m) -> named (t_pendingActions m'));
  fr_chans _ _ := True; fr_db _ _ := True; fr_quiet := queue_quiet |}.

(** ** Logs *)

Lemma queued_app pid l l' : queued pid (l ++ l') = queued pid l ++ queued pid l'.
Proof. apply omap_app. Qed.

Lemma taken_app pid l l' : taken pid (l ++ l') = taken pid l ++ taken pid l'.
Proof. apply omap_app. Qed.

Lemma quiet_logs pid l : Forall queue_quiet l -> queued pid l = [] /\ taken pid l = [].
Proof. induction 1 as [|e l He _ [IH1 IH2]]; [done|]. by destruct e. Qed.

Lemma grown_logs pid l l' :
  Forall queue_quiet l' -> queued pid (l ++ l') = queued pid l /\ taken pid (l ++ l') = taken pid l.
Proof.
  intros H. destruct (quiet_logs pid l' H) as [E1 E2].
  by rewrite queued_app, taken_app, E1, E2, !(right_id_L [] (++)).
Qed.

Section Queues.
Context {RC : ReportCodec} {CC : ClientCodec} {SC : SocketCodec}.
Set Default Proof Using "Type*".

Global Instance queue_framing : Framing queue_frame.
Proof.
  split; simpl; try done.
  - split; [by intros m|]. intros m1 m2 m3 (-> & -> & ? & ?) (-> & -> & ? & ?). split_and!; [done|done|lia|auto].
  - intros s s' [(E1 & E2 & E3 & E4) _ _ (l & L & Q)] [I1 I2 I3 I4 I5]. simpl in *. split.
    + constructor; unfold waiting; rewrite ?L, ?E1, ?E2; [|done| |auto|].
      * intros pid. destruct (grown_logs pid (s_log s) l Q) as [-> ->]. apply I1.
      * intros pid q H. pose proof (I3 pid q H). lia.
      * apply lawfully_quiet; [|done]. intros past e He.
        pose proof (proj1 (Forall_forall _ _) Q _ He). by destruct e.
    + intros k [K1 K2 K3]. constructor; rewrite ?L, ?E1; [done|done|]. intros pid a H.
      destruct (grown_logs pid (s_log s) l Q) as [_ ->]. by apply K3.
Qed.

Lemma queue_environment s s' : environment s s' -> framed queue_frame s s'.
Proof. apply (framed_environment queue_frame); frame_fields. Qed.

Global Instance queues_laws : ProtocolLaws.
Proof.
  split; try done.
  - intros g h H pid Hh Hg. by apply (H pid).
  - intros g pid Hp. by apply elem_of_nil in Hp.
  - intros s _. constructor; simpl; [constructor|by intros ? ? ?%elem_of_nil|done].
  - apply _.
  - intros s s' He Hs. by apply (framing_keeps (F := queue_frame) s s'); [apply queue_environment|].
  - intros s s' g He Hs Hg. by apply (framing_keeps (F := queue_frame) s s'); [apply queue_environment| |].
Qed.

Global Instance queue_reports : ReportsFramed queue_frame.
Proof. split; simpl; try done. intros m. split_and!; [done|done|lia|done]. Qed.

(** The worker of a queue starts with it. *)
Definition queue_start (j : Job) (h : Local) : Prop :=
  h = match j with JQueue pid q => mkQueueLocal [(pid, q)] None | _ => nothing end.

#[local] Instance queue_knowledge : Knowledge := {|
  heard _ _ := True; answered _ _ _ := True; good_action _ := True; good_message _ := True; ends _ := True |}.

Abbreviation neutral := (yields queue_start (fun _ => True) (fun _ => True)).

Lemma q_call {A} ok (x : Outside A) : plain_call x -> yields queue_start (fun _ => True) ok (call x).
Proof.
  intros Hx. apply (f_call queue_start queue_frame); [|done]. intros t. destruct x; try done; repeat constructor.
Qed.

(** ** Queueing *)

Lemma queued_snoc pid l e : queued pid (l ++ [e]) = queued pid l ++ option_list (queued_of pid e).
Proof. rewrite queued_app. unfold queued at 2. simpl. by destruct (queued_of pid e). Qed.

Lemma taken_snoc pid l e : taken pid (l ++ [e]) = taken pid l ++ option_list (taken_of pid e).
Proof. rewrite taken_app. unfold taken at 2. simpl. by destruct (taken_of pid e). Qed.

(** The state after queueing an action: in the queue of its process, or in a new one. *)
Definition appended (pid aid : string) (q : nat) (s : Shared) : Shared :=
  on_log (VEnqueue pid aid) (on_mem (with_queues (alter (fun l => l ++ [aid]) q)) s).
Definition queue_made (pid : string) (s : Shared) : Shared :=
  on_mem (with_actionQueues (insert pid (t_fresh (s_mem s))))
    (on_mem (with_queues (insert (t_fresh (s_mem s)) [])) (on_mem next_fresh s)).

Lemma enqueue_eq a s :
  let pid := pac_processID a in
  enqueue_section a s =
    match t_actionQueues (s_mem s) !! pid with
    | Some q => (None, appended pid (pa_ID (pac_action a)) q s)
    | None => (Some (t_fresh (s_mem s)),
               appended pid (pa_ID (pac_action a)) (t_fresh (s_mem s)) (queue_made pid s))
    end.
Proof.
  unfold enqueue_section, mbind, M_bind, mem, get. simpl.
  by destruct (t_actionQueues (s_mem s) !! pac_processID a).
Qed.

Lemma appended_keeps pid aid q s : t_actionQueues (s_mem s) !! pid = Some q -> keeps s (appended pid aid q s).
Proof.
  intros Hq [I1 I2 I3 I4 I5]. split.
  - constructor; simpl; [|done|done|done|by apply lawfully_snoc].
    intros pid'. rewrite queued_snoc, taken_snoc. simpl. rewrite (right_id_L [] (++)).
    specialize (I1 pid'). unfold waiting in *. simpl. case_bool_decide as Hp; simpl.
    + subst pid'. rewrite Hq in *. destruct (t_queues (s_mem s) !! q) as [l|] eqn:E.
      * rewrite lookup_alter_eq, E. simpl in *. rewrite (assoc_L (++)). by apply sublist_app.
      * rewrite lookup_alter_eq, E. simpl in *. by apply sublist_inserts_r.
    + rewrite (right_id_L [] (++)). destruct (t_actionQueues (s_mem s) !! pid') as [q'|] eqn:E; [|done].
      rewrite lookup_alter_ne; [done|]. intros <-. by apply Hp, (I2 _ _ q).
  - intros k [K1 K2 K3]. constructor; simpl; [done|done|]. intros pid' a H. rewrite taken_snoc. simpl.
    rewrite (right_id_L [] (++)). by apply K3.
Qed.

Lemma made_keeps pid s : t_actionQueues (s_mem s) !! pid = None -> keeps s (queue_made pid s).
Proof.
  intros Hn [I1 I2 I3 I4 I5].
  assert (forall pid' q, t_actionQueues (s_mem s) !! pid' = Some q -> q <> t_fresh (s_mem s)) as Hf
    by (intros pid' q H; pose proof (I3 _ _ H); lia).
  split.
  - constructor; simpl; [|..]; [| | |done|done].
    + intros pid'. specialize (I1 pid'). unfold waiting in *. simpl.
      destruct (decide (pid = pid')) as [<-|Hne].
      * rewrite lookup_insert_eq, lookup_insert_eq. by rewrite Hn in I1.
      * rewrite lookup_insert_ne by done. destruct (t_actionQueues (s_mem s) !! pid') eqn:E; [|done].
        rewrite lookup_insert_ne; [done|]. intros <-. by eapply Hf.
    + intros p1 p2 q. rewrite !lookup_insert_Some. intros [[<- <-]|[_ H1]] [[<- H2]|[_ H2]]; try done.
      * by apply Hf in H2.
      * subst q. by apply Hf in H1.
      * by eapply I2.
    + intros p q. rewrite lookup_insert_Some. intros [[<- <-]|[_ H]]; [lia|]. pose proof (I3 _ _ H). lia.
  - intros k [K1 K2 K3]. constructor; simpl; [done| |done]. intros p q Hin. rewrite lookup_insert_ne.
    + by apply K2.
    + intros <-. rewrite (K2 _ _ Hin) in Hn. done.
Qed.

Definition serving (x : string * nat) (g : QueueLocal) : QueueLocal :=
  mkQueueLocal (x :: ql_queues g) (ql_current g).

(** The action at hand is one of a queue it serves. *)
Definition at_own (g : QueueLocal) : Prop :=
  forall pid a, ql_current g = Some (pid, a) -> pid ∈ (ql_queues g).*1.

(** Queueing an action; the first one of a process makes its queue. *)
Lemma wp_enqueue n a g (Q : option nat -> QueueLocal -> Prop) :
  Q None g -> (forall q, at_own g -> Q (Some q) (serving (pac_processID a, q) g)) ->
  wp queue_start n (crit (enqueue_section a)) g Q.
Proof.
  intros Q1 Q2. apply sock_wp_eff. intros s Hs Hg. split; [done|]. intros t idle rp x s' new [= E <-].
  rewrite enqueue_eq in E. set (pid := pac_processID a) in *.
  destruct (t_actionQueues (s_mem s) !! pid) as [q|] eqn:Eq; simplify_eq.
  - exists g, []. split_and!; [done|simpl; lia| |done].
    apply (@legal_keeps _ queues _ queue_start); [done|done|]. by apply appended_keeps.
  - set (q := t_fresh (s_mem s)) in *. set (s1 := queue_made pid s) in *.
    destruct (made_keeps pid s Eq Hs) as [Hs1 K1]. fold s1 in Hs1, K1.
    assert (t_actionQueues (s_mem s1) !! pid = Some q) as Eq1 by (simpl; by rewrite lookup_insert_eq).
    destruct (appended_keeps pid (pa_ID (pac_action a)) q s1 Eq1 Hs1) as [Hs2 K2].
    exists (serving (pid, q) g), []. pose proof Hg as [G1 G2 G3].
    split_and!; [done|simpl; lia| |apply Q2; intros p x H; by destruct (G3 p x H)].
    assert (forall k, queue_fine k s -> pid ∉ (ql_queues k).*1) as Hnot.
    { intros k [_ F2 _] ([p q'] & Ep & Hin)%list_elem_of_fmap. simpl in Ep. subst p.
      rewrite (F2 _ _ Hin) in Eq. done. }
    constructor; [done| |done| |done].
    + destruct (K2 g (K1 g Hg)) as [F1 F2 F3]. constructor; simpl.
      * apply NoDup_cons. split; [by apply Hnot|done].
      * intros p q' [[= -> ->]|Hin]%elem_of_cons; [done|by apply F2].
      * intros p x H. destruct (F3 p x H). split; [by right|done].
    + intros k Hk Ha. split_and!; [by apply K2, K1| |done]. intros p. simpl.
      intros [->|Hin]%elem_of_cons; [by apply Hnot|by apply Ha].
Qed.

(** Handing the new queue to its worker. *)
Lemma wp_launch_queue n pid q g (Q : bool -> QueueLocal -> Prop) :
  at_own g -> (forall b, Q b g) ->
  wp queue_start n (eff (Launch (JQueue pid q))) (serving (pid, q) g) Q.
Proof.
  intros Hown HQ. apply sock_wp_eff. intros s Hs Hg. split; [done|]. intros t idle rp x s' new Hp. simpl in Hp.
  pose proof Hg as [G1 G2 G3]. simpl in G1. apply NoDup_cons in G1 as [Hnot G1].
  assert (queue_fine (mkQueueLocal [(pid, q)] None) s) as Hnew.
  { constructor; simpl; [apply list.NoDup_singleton| |done].
    intros p q' [= -> ->]%list_elem_of_singleton. apply G2. by left. }
  injection Hp as <- <- <-. exists g, (if ch_stopping (s_chans s) then [] else [mkQueueLocal [(pid, q)] None]).
  split_and!; [by destruct (ch_stopping _); repeat constructor|by destruct (ch_stopping _); simpl; lia| |apply HQ].
  constructor; [done| | | |done].
  - constructor; [done| |].
    + intros p q' Hin. apply G2. by right.
    + intros p x H. split; [by eapply Hown|]. by destruct (G3 p x H).
  - destruct (ch_stopping _); [constructor|]. apply Forall_singleton. split; [done|].
    intros p Hp. simpl. intros ->%list_elem_of_singleton. done.
  - intros k Hk Ha. split_and!; [done| |].
    + intros p Hp. apply Ha. by right.
    + destruct (ch_stopping _); [constructor|]. apply Forall_singleton. intros p Hp. simpl.
      intros ->%list_elem_of_singleton. apply (Ha pid); [by left|done].
Qed.

Lemma q_enqueue_action a : neutral (enqueueAcceptedAction a).
Proof.
  intros n g _. unfold enqueueAcceptedAction. apply sock_wp_bind, wp_enqueue; [by apply wp_ret|].
  intros q Hown. apply sock_wp_bind, wp_launch_queue; [done|]. intros b. by apply wp_ret.
Qed.

(** ** Taking *)

Definition at_action (pid aid : string) (q : nat) : QueueLocal := mkQueueLocal [(pid, q)] (Some (pid, aid)).

Lemma nothing_fine s : queue_fine nothing s.
Proof. constructor; simpl; [constructor|by intros ? ? ?%elem_of_nil|done]. Qed.

(** The queue is empty: it leaves the table. *)
Lemma legal_close pid q c s :
  queue_inv s -> queue_fine (mkQueueLocal [(pid, q)] c) s -> waiting pid (s_mem s) = [] ->
  legal (mkQueueLocal [(pid, q)] c) nothing [] s (on_mem (with_actionQueues (delete pid)) s).
Proof.
  intros [I1 I2 I3 I4 I5] [G1 G2 G3] Hw. constructor; [|apply nothing_fine|done| |done].
  - constructor; simpl; [| | |done|done].
    + intros p. specialize (I1 p). destruct (decide (p = pid)) as [->|Hp].
      * unfold waiting at 1. simpl. rewrite lookup_delete_eq. by rewrite Hw in I1.
      * unfold waiting in *. simpl. by rewrite lookup_delete_ne.
    + intros p1 p2 q'. rewrite !lookup_delete_Some. intros [_ ?] [_ ?]. by eapply I2.
    + intros p q'. rewrite lookup_delete_Some. intros [_ ?]. by eapply I3.
  - intros k [K1 K2 K3] Ha. split_and!; [|by intros p Hp%elem_of_nil|done].
    constructor; [done| |done]. intros p q' Hin. simpl. rewrite lookup_delete_ne; [by apply K2|]. intros <-.
    apply (Ha pid); [by left|]. apply list_elem_of_fmap. by exists (pid, q').
Qed.

(** The first action is taken. *)
Definition action_taken (pid aid : string) (q : nat) (rest : list string) (s : Shared) : Shared :=
  on_log (VDequeue pid aid) (on_mem (with_queues (insert q rest)) s).

Lemma taken_after p pid aid q rest s :
  taken p (s_log (action_taken pid aid q rest s))
  = taken p (s_log s) ++ (if bool_decide (pid = p) then [aid] else []).
Proof. unfold action_taken. simpl. rewrite taken_snoc. simpl. by case_bool_decide. Qed.

Lemma taken_inv pid q aid rest s :
  queue_inv s -> t_actionQueues (s_mem s) !! pid = Some q -> waiting pid (s_mem s) = aid :: rest ->
  queue_inv (action_taken pid aid q rest s).
Proof.
  intros [I1 I2 I3 I4 I5] Hq Hw. constructor; [|done|done|done|].
  - intros p. rewrite taken_after. unfold action_taken at 2. simpl. rewrite queued_snoc. simpl.
    rewrite (right_id_L [] (++)). specialize (I1 p). case_bool_decide as Hp.
    + subst p. rewrite Hw in I1. unfold waiting. simpl. rewrite Hq, lookup_insert_eq. simpl.
      by rewrite <- (assoc_L (++)).
    + rewrite (right_id_L [] (++)). unfold waiting in *. simpl.
      destruct (t_actionQueues (s_mem s) !! p) as [q'|] eqn:E; [|done].
      rewrite lookup_insert_ne; [done|]. intros <-. by apply Hp, (I2 _ _ q).
  - apply lawfully_snoc; [done|]. simpl. specialize (I1 pid). rewrite Hw in I1.
    etrans; [|exact I1]. apply sublist_app; [done|]. apply sublist_skip, sublist_nil_l.
Qed.

Lemma legal_take pid q c aid rest s :
  queue_inv s -> queue_fine (mkQueueLocal [(pid, q)] c) s -> waiting pid (s_mem s) = aid :: rest ->
  legal (mkQueueLocal [(pid, q)] c) (at_action pid aid q) [] s (action_taken pid aid q rest s).
Proof.
  intros Hs [G1 G2 G3] Hw. assert (t_actionQueues (s_mem s) !! pid = Some q) as Hq by (apply G2; by left).
  constructor; [by apply taken_inv| |done| |done].
  - constructor; [apply list.NoDup_singleton|done|].
    intros p a [= <- <-]. split; [by left|]. rewrite taken_after, bool_decide_true by done. apply last_snoc.
  - intros k [K1 K2 K3] Ha. split_and!; [|done|done]. constructor; [done|done|].
    intros p a H. destruct (K3 p a H) as [Hin Hl]. split; [done|]. rewrite taken_after, bool_decide_false.
    + by rewrite (right_id_L [] (++)).
    + intros <-. apply (Ha pid); [by left|done].
Qed.

Lemma wp_dequeue n pid q c (Q : option string -> QueueLocal -> Prop) :
  Q None nothing -> (forall aid, Q (Some aid) (at_action pid aid q)) ->
  wp queue_start n (crit (dequeueAcceptedAction pid q)) (mkQueueLocal [(pid, q)] c) Q.
Proof.
  intros Q1 Q2. apply sock_wp_eff. intros s Hs Hg. split; [done|]. intros t idle rp x s' new [= E <-].
  assert (t_actionQueues (s_mem s) !! pid = Some q) as Hq by (apply (qf_queue _ _ Hg); by left).
  assert (waiting pid (s_mem s) = default [] (t_queues (s_mem s) !! q)) as Hw
    by (unfold waiting; by rewrite Hq).
  unfold dequeueAcceptedAction, mbind, M_bind, mem, get in E. simpl in E. rewrite <- Hw in E.
  destruct (waiting pid (s_mem s)) as [|aid rest] eqn:El.
  - rewrite Hq, bool_decide_true in E by done. injection E as <- <-.
    exists nothing, []. split_and!; [done|simpl; lia|by apply legal_close|done].
  - injection E as <- <-. exists (at_action pid aid q), [].
    split_and!; [done|simpl; lia|by apply legal_take|apply Q2].
Qed.

(** ** The other sections *)

Lemma named_insert l id a : pa_ID (pac_action a) = id -> named l -> named (<[id:=a]> l).
Proof. intros Ha Hl id' a'. rewrite lookup_insert_Some. intros [[<- <-]|[_ H]]; eauto. Qed.

Lemma named_delete l id : named l -> named (delete id l).
Proof. intros Hl id' a'. rewrite lookup_delete_Some. intros [_ H]. eauto. Qed.

Lemma named_filter (P : string * pendingAction -> Prop) {HP : forall x, Decision (P x)} l :
  named l -> named (filter P l).
Proof. intros Hl id' a'. rewrite map_lookup_filter_Some. intros [H _]. eauto. Qed.

(** A queue is emptied. *)
Lemma emptied_keeps pid q s :
  t_actionQueues (s_mem s) !! pid = Some q -> keeps s (on_mem (with_queues (insert q [])) s).
Proof.
  intros Hq [I1 I2 I3 I4 I5]. split; [|by intros k [K1 K2 K3]].
  constructor; simpl; [|done|done|done|done]. intros p. specialize (I1 p). etrans; [|exact I1].
  apply sublist_app; [done|]. unfold waiting. simpl.
  destruct (t_actionQueues (s_mem s) !! p) as [q'|] eqn:E; [|done].
  destruct (decide (q = q')) as [<-|Hne].
  - rewrite lookup_insert_eq. apply sublist_nil_l.
  - by rewrite lookup_insert_ne.
Qed.

Lemma q_forget_actions pid : neutral (crit (forgetResolvedProcessActions pid)).
Proof.
  apply yields_eff, harmless_crit; [done|]. intros s Hs. split; [done|].
  unfold forgetResolvedProcessActions, mbind, M_bind, mem, get. simpl.
  set (s1 := on_mem _ s). assert (framed queue_frame s s1) as Hf.
  { apply (framed_mem_step queue_frame). simpl. split_and!; [done|done|done|]. apply named_filter. }
  intros Hi. destruct (framing_keeps (F := queue_frame) s s1 Hf Hi) as [Hs1 K1].
  destruct (t_actionQueues (s_mem s) !! pid) as [q|] eqn:E; [|done].
  destruct (emptied_keeps pid q s1 E Hs1) as [Hs2 K2]. split; [done|]. auto.
Qed.

Ltac queue_section :=
  intros; apply (f_section queue_start queue_frame); [|done]; frame_section;
  auto using named_insert, named_delete, named_filter.

Global Instance queue_discipline : Discipline queue_start.
Proof.
  split; try solve [done | frame_field queue_start queue_frame | report_field queue_start queue_frame
                   | queue_section].
  - intros A x Hx. by apply q_call.
  - apply (f_call queue_start queue_frame); [intros; constructor|done].
  - apply q_forget_actions.
  - intros grant. apply yields_eff, harmless_crit; [done|]. intros s Hs. pose proof Hs as [I1 I2 I3 I4 I5].
    split; [done|]. unfold grant_section, mbind, M_bind, mem, get. simpl.
    destruct (t_pendingActions (s_mem s) !! _) as [a|] eqn:E; [|done]. case_match; [done|].
    apply (framing_keeps (F := queue_frame)), (framed_mem_step queue_frame).
    simpl. split_and!; [done|done|done|]. apply named_insert. exact (I4 _ _ E).
  - intros a _. apply q_enqueue_action.
Qed.

(** ** The worker of a queue *)

Definition at_hand (pid aid : string) (g : Local) : Prop := ql_current g = Some (pid, aid).

(** Only the action at hand is applied. *)
Lemma q_apply r pid action :
  yields queue_start (fun _ => True) (at_hand pid (pa_ID action)) (call (ApplyOnce r pid action)).
Proof.
  apply yields_eff. intros g s Hat Hs Hg. split; [done|]. intros t idle rp a s' new [= <- <- <-].
  split; [done|]. exists g, []. split_and!; [done|simpl; lia| |done].
  pose proof Hs as [I1 I2 I3 I4 I5]. pose proof Hg as [G1 G2 G3].
  assert (forall p, queued p (s_log s ++ [VApply t pid (pa_ID action)]) = queued p (s_log s)
    /\ taken p (s_log s ++ [VApply t pid (pa_ID action)]) = taken p (s_log s)) as He.
  { intros p. rewrite queued_snoc, taken_snoc. simpl. by rewrite !(right_id_L [] (++)). }
  assert (forall k, queue_fine k s -> queue_fine k (on_log (VApply t pid (pa_ID action)) s)) as Hk.
  { intros k [K1 K2 K3]. constructor; [done|done|]. intros p x H. simpl. destruct (He p) as [_ ->]. by apply K3. }
  constructor; [|by apply Hk|done|by intros k Hfk Ha; split_and!; [apply Hk|..]|done].
  constructor; simpl; [|done|done|done|].
  - intros p. destruct (He p) as [-> ->]. apply I1.
  - apply lawfully_snoc; [done|]. simpl. by destruct (G3 _ _ Hat).
Qed.

Context {PC : PayloadCodec}.

Lemma q_run_action pid aid : yields queue_start (fun _ => True) (at_hand pid aid) (runAcceptedAction pid aid).
Proof.
  assert (forall g g', at_hand pid aid g -> keep g g' -> at_hand pid aid g') as Hkeep by (by intros g g' ? <-).
  apply (n_run_known queue_start _ (fun a => pa_ID (pac_action a) = aid)); [done|..].
  - apply (f_result queue_start queue_frame); [frame_section|]. intros s Hs a E. split; [done|].
    exact (qi_named _ Hs _ _ E).
  - intros r a <-. apply q_apply.
Qed.

Lemma q_queue n pid q :
  wp queue_start n (runActionQueue pid q) (mkQueueLocal [(pid, q)] None) (fun _ _ => True).
Proof.
  unfold runActionQueue. eapply (wp_loop queue_start _ _ _ _ (fun _ g => exists c, g = mkQueueLocal [(pid, q)] c)); [eauto|].
  intros m _ g [c ->]. apply sock_wp_bind, wp_dequeue; [by apply wp_ret|]. intros aid.
  apply sock_wp_bind. eapply sock_wp_mono; [|by apply (q_run_action pid aid)]. intros [e|] g [_ <-].
  - apply sock_wp_bind. eapply sock_wp_mono; [|by apply (d_failed queue_start)]. intros b g' [_ <-].
    apply wp_ret. destruct b; [done|]. by eexists.
  - apply wp_ret. by eexists.
Qed.

(** ** Runs *)

Context (startup : localStartupState) (runtime : DaemonRuntime) (sleepAfter : Z) (instanceID : string).

Lemma queue_jobs : jobs_start queue_start (body startup runtime sleepAfter instanceID).
Proof.
  apply (discipline_jobs queue_start); try done; [by apply Forall_true|..]; intros.
  - apply (neutral_job queue_start), (n_prepare queue_start); intros; frame_field queue_start queue_frame.
  - apply (neutral_job queue_start), (n_start queue_start); intros;
      first [frame_field queue_start queue_frame
            |by apply (f_call queue_start queue_frame); [intros; repeat constructor|]].
  - unfold queue_start in *. subst h. apply q_queue.
Qed.

Lemma serve_queues processes runtimes fresh l db :
  queue_inv (y_shared (serve startup runtime sleepAfter instanceID processes runtimes fresh l db)).
Proof.
  edestruct (serve_keeps queue_start startup runtime sleepAfter instanceID processes runtimes
    fresh l db nothing 0) as [gs HI]; [by apply queue_jobs|done| |apply nothing_fine|].
  - constructor; simpl; try done. apply lawfully_nil.
  - apply (in_inv _ _ _ _ HI).
Qed.
End Queues.
