(* ===== verification/SocketStarts.v ===== *)
(** * A process is started once, and only after the server accepted it

    The protocol of the pending processes: the worker that prepares a process is the
    only one that gives its pending entry a runtime; the entry is accepted once, and
    the worker that starts it is the only one that does. *)
From ITree Require Import ITree.
From S2P Require Import Prelude GoStrings DaemonProtocol ProcessCmd DaemonMessages LocalPaths.
From S2P Require Import StateSchema StateQueries StateTx StateReport StateProcess StateAction.
From S2P Require Import StateTrace StateOutbox LocalStore ClientWorld Reconciliation SocketWorld Socket.
From S2P Require Import SocketLogic SocketDiscipline SocketFrame.
From stdpp Require Import options.

(** The server accepted the process, and it had been prepared. *)
Definition granted (pid : string) (r : nat) (l : list Ev) : Prop :=
  exists m p, VRecv m ∈ l /\ m_Type m = MessageProcessAcceptAck /\ m_ProcessID m = pid
    /\ VPrepared pid p r ∈ l.

(** The acceptance is in the state database. *)
Definition recorded (pid : string) (l : list Ev) : Prop :=
  exists t instance faults o, VDb t (mkCall (CMarkAccepted pid instance) faults (inr o)) ∈ l.

Definition unstarted (r : nat) (l : list Ev) : Prop := forall t, VStart t r ∉ l.

Definition start_law (past : list Ev) (e : Ev) : Prop :=
  match e with
  | VStart _ r => unstarted r past /\ exists pid, granted pid r past /\ recorded pid past
  | VDb _ c => match c_cmd c with CMarkAccepted pid _ => exists r, granted pid r past | _ => True end
  | _ => True
  end.

Definition start_quiet (e : Ev) : Prop :=
  match e with
  | VStart _ _ => False
  | VDb _ c => match c_cmd c with CMarkAccepted _ _ => False | _ => True end
  | _ => True
  end.

Definition no_start (e : Ev) : Prop := match e with VStart _ _ => False | _ => True end.

(** To prepare a pending entry; a runtime that no entry has yet; to start an entry
    that has been accepted, with its runtime. *)
Inductive Token : Type := TPrepare (p : nat) | TMade (r : nat) | TStart (p r : nat).

Definition token_key (x : Token) : nat * nat :=
  match x with TPrepare p => (0, p) | TMade r => (1, r) | TStart p _ => (2, p) end%nat.

Record StartLocal : Type := mkStartLocal { sl_tokens : list Token; sl_seen : list Ev }.

Definition keys (g : StartLocal) : list (nat * nat) := map token_key (sl_tokens g).

Definition has_runner (r : nat) (m : Mem) : Prop :=
  exists rt, t_runtimes m !! r = Some rt /\ rt_runner rt = Some r.

Definition token_ok (x : Token) (s : Shared) : Prop :=
  match x with
  | TPrepare p => exists y, t_pendings (s_mem s) !! p = Some y /\ pn_runtime y = None
  | TMade r =>
      has_runner r (s_mem s) /\ unstarted r (s_log s) /\ (r < t_fresh (s_mem s))%nat
      /\ forall p y, t_pendings (s_mem s) !! p = Some y -> pn_runtime y <> Some r
  | TStart p r =>
      unstarted r (s_log s)
      /\ exists y, t_pendings (s_mem s) !! p = Some y /\ pn_accepted y = true /\ pn_runtime y = Some r
  end.

Record start_inv (s : Shared) : Prop := mkStartInv {
  st_fresh p y : t_pendings (s_mem s) !! p = Some y -> (p < t_fresh (s_mem s))%nat;
  st_pending pid p : t_pendingProcesses (s_mem s) !! pid = Some p -> is_Some (t_pendings (s_mem s) !! p);
  st_inj pid pid' p :
    t_pendingProcesses (s_mem s) !! pid = Some p -> t_pendingProcesses (s_mem s) !! pid' = Some p -> pid = pid';
  st_runtime p y r : t_pendings (s_mem s) !! p = Some y -> pn_runtime y = Some r ->
    has_runner r (s_mem s) /\ (r < t_fresh (s_mem s))%nat
    /\ exists pid, VPrepared pid p r ∈ s_log s
       /\ forall pid', t_pendingProcesses (s_mem s) !! pid' = Some p -> pid' = pid;
  st_owner p p' y y' r : t_pendings (s_mem s) !! p = Some y -> t_pendings (s_mem s) !! p' = Some y' ->
    pn_runtime y = Some r -> pn_runtime y' = Some r -> p = p';
  st_unstarted p y r : t_pendings (s_mem s) !! p = Some y -> pn_accepted y = false ->
    pn_runtime y = Some r -> unstarted r (s_log s);
  st_started t r : VStart t r ∈ s_log s -> (r < t_fresh (s_mem s))%nat;
  st_lawful : lawfully start_law (s_log s)
}.

Record start_fine (g : StartLocal) (s : Shared) : Prop := mkStartFine {
  stf_nodup : NoDup (keys g);
  stf_tokens x : x ∈ sl_tokens g -> token_ok x s;
  stf_seen e : e ∈ sl_seen g -> e ∈ s_log s
}.

Definition start_apart (g h : StartLocal) : Prop := forall k, k ∈ keys g -> k ∉ keys h.

Record start_keep (g g' : StartLocal) : Prop := mkStartKeep {
  sk_tokens : sl_tokens g' = sl_tokens g;
  sk_seen : sl_seen g ⊆ sl_seen g'
}.

Global Instance start_keep_preorder : PreOrder start_keep.
Proof.
  split; [by intros g; constructor|]. intros g1 g2 g3 [A1 A2] [B1 B2]. constructor; [congruence|set_solver].
Qed.

#[local] Instance starts : Protocol := {|
  Local := StartLocal; inv := start_inv; fine := start_fine; apart := start_apart; keep := start_keep;
  role _ _ := True; pre _ _ _ _ := True; nothing := mkStartLocal [] [] |}.

(** What other sections leave alone: entries leave the table of pending processes,
    but keep their runtime and whether they were accepted; runtimes keep their runner. *)
Definition entry_of (y : pendingProcess) : option nat * bool := (pn_runtime y, pn_accepted y).

Record starts_kept (m m' : Mem) : Prop := mkStartsKept {
  sk_listed pid p : t_pendingProcesses m' !! pid = Some p -> t_pendingProcesses m !! pid = Some p;
  sk_pendings p : entry_of <$> t_pendings m' !! p = entry_of <$> t_pendings m !! p;
  sk_runner r : (r < t_fresh m)%nat -> rt_runner <$> t_runtimes m' !! r = rt_runner <$> t_runtimes m !! r;
  sk_fresh : (t_fresh m <= t_fresh m')%nat
}.

Definition start_frame : Frame := {|
  fr_mem := starts_kept; fr_chans _ _ := True; fr_db _ _ := True; fr_quiet := start_quiet |}.

(** ** Kept entries *)

Lemma kept_entry m m' p y' :
  starts_kept m m' -> t_pendings m' !! p = Some y' ->
  exists y, t_pendings m !! p = Some y /\ pn_runtime y = pn_runtime y' /\ pn_accepted y = pn_accepted y'.
Proof.
  intros [_ H _ _] E. specialize (H p). rewrite E in H. destruct (t_pendings m !! p) as [y|]; [|done].
  simpl in H. injection H as H1 H2. by exists y.
Qed.

Lemma kept_entry' m m' p y :
  starts_kept m m' -> t_pendings m !! p = Some y ->
  exists y', t_pendings m' !! p = Some y' /\ pn_runtime y' = pn_runtime y /\ pn_accepted y' = pn_accepted y.
Proof.
  intros [_ H _ _] E. specialize (H p). rewrite E in H. destruct (t_pendings m' !! p) as [y'|]; [|done].
  simpl in H. injection H as H1 H2. by exists y'.
Qed.

Lemma kept_runner m m' r :
  starts_kept m m' -> (r < t_fresh m)%nat -> has_runner r m -> has_runner r m'.
Proof.
  intros [_ _ H _] Hr (rt & E & Hrt). specialize (H r Hr). rewrite E in H.
  destruct (t_runtimes m' !! r) as [rt'|] eqn:E'; [|done]. exists rt'. split; [done|].
  simpl in H. by injection H as ->.
Qed.

Lemma quiet_no_start l : Forall start_quiet l -> Forall no_start l.
Proof. intros H. eapply Forall_impl; [exact H|]. by intros []. Qed.

Lemma unstarted_quiet r l l' : Forall no_start l' -> unstarted r l -> unstarted r (l ++ l').
Proof.
  intros Hq Hu t [H|H]%elem_of_app; [by apply (Hu t)|].
  by pose proof (proj1 (Forall_forall _ _) Hq _ H).
Qed.

Global Instance starts_kept_preorder : PreOrder starts_kept.
Proof.
  split; [by constructor|]. intros m1 m2 m3 [A1 A2 A3 A4] [B1 B2 B3 B4]. constructor; [auto| | |lia].
  - intros p. by rewrite B2.
  - intros r Hr. rewrite B3 by lia. auto.
Qed.

(** Nothing was started and no entry was changed. *)
Lemma kept_token x s s' l :
  starts_kept (s_mem s) (s_mem s') -> s_log s' = s_log s ++ l -> Forall no_start l ->
  token_ok x s -> token_ok x s'.
Proof.
  intros K L Q. destruct x as [p|r|p r]; simpl; rewrite ?L.
  - intros (y & Hy & Hn). destruct (kept_entry' _ _ _ _ K Hy) as (y' & Hy' & E1 & _).
    exists y'. split; [done|congruence].
  - intros (Hr & Hu & Hf & Hno). split_and!; [by eapply kept_runner|by apply unstarted_quiet| |].
    + pose proof (sk_fresh _ _ K). lia.
    + intros p y' Hy'. destruct (kept_entry _ _ _ _ K Hy') as (y & Hy & E1 & _). rewrite <- E1. by eapply Hno.
  - intros (Hu & y & Hy & Ha & Hr). split; [by apply unstarted_quiet|].
    destruct (kept_entry' _ _ _ _ K Hy) as (y' & Hy' & E1 & E2). exists y'. split_and!; [done|congruence|congruence].
Qed.

Lemma kept_inv s s' l :
  starts_kept (s_mem s) (s_mem s') -> s_log s' = s_log s ++ l -> Forall no_start l ->
  lawfully start_law (s_log s ++ l) -> start_inv s -> start_inv s'.
Proof.
  intros K L Q Hlaw [I1 I2 I3 I4 I5 I6 I7 I8]. pose proof (sk_fresh _ _ K) as Hf. constructor; rewrite ?L.
  - intros p y' Hy'. destruct (kept_entry _ _ _ _ K Hy') as (y & Hy & _). pose proof (I1 _ _ Hy). lia.
  - intros pid p H. destruct (I2 pid p) as [y Hy]; [by apply (sk_listed _ _ K)|].
    destruct (kept_entry' _ _ _ _ K Hy) as (y' & Hy' & _). by exists y'.
  - intros pid pid' p H H'. by apply (I3 _ _ p); apply (sk_listed _ _ K).
  - intros p y' r Hy' Hr. destruct (kept_entry _ _ _ _ K Hy') as (y & Hy & E1 & _).
    destruct (I4 p y r) as (Hrun & Hlt & pid & Hp & Hpid); [done|congruence|].
    split_and!; [by eapply kept_runner|lia|]. exists pid. split; [apply elem_of_app; by left|].
    intros pid' H. by apply Hpid, (sk_listed _ _ K).
  - intros p p' y' y2' r H H' Hr Hr'. destruct (kept_entry _ _ _ _ K H) as (y & Hy & E1 & _).
    destruct (kept_entry _ _ _ _ K H') as (y2 & Hy2 & E2 & _). apply (I5 p p' y y2 r); congruence.
  - intros p y' r Hy' Ha Hr. destruct (kept_entry _ _ _ _ K Hy') as (y & Hy & E1 & E2).
    apply unstarted_quiet; [done|]. apply (I6 p y r); congruence.
  - intros t r [H|H]%elem_of_app; [specialize (I7 t r H); lia|].
    by pose proof (proj1 (Forall_forall _ _) Q _ H).
  - done.
Qed.

Lemma start_law_quiet l l' : Forall start_quiet l' -> lawfully start_law l -> lawfully start_law (l ++ l').
Proof.
  intros Q Hl. apply lawfully_quiet; [|done]. intros past e He.
  pose proof (proj1 (Forall_forall _ _) Q _ He) as Hq.
  destruct e as [| |t c| | | | | | | | | | |]; simpl in *; try done. by destruct (c_cmd c).
Qed.

(** Leaves of the frame. *)
Lemma kept_same m m' :
  t_pendingProcesses m' = t_pendingProcesses m -> t_pendings m' = t_pendings m ->
  t_runtimes m' = t_runtimes m -> (t_fresh m <= t_fresh m')%nat -> starts_kept m m'.
Proof. intros E1 E2 E3 E4. constructor; rewrite ?E1, ?E2, ?E3; done. Qed.

Lemma kept_delete pid m : starts_kept m (with_pendingProcesses (delete pid) m).
Proof. constructor; simpl; [|done|done|done]. intros pid' p. rewrite lookup_delete_Some. by intros [_ ?]. Qed.

Lemma kept_alter f p m :
  (forall y, entry_of (f y) = entry_of y) -> starts_kept m (with_pendings (alter f p) m).
Proof.
  intros H. constructor; simpl; [done| |done|done]. intros p'. destruct (decide (p = p')) as [<-|].
  - rewrite lookup_alter_eq. destruct (t_pendings m !! p); simpl; [by rewrite H|done].
  - by rewrite lookup_alter_ne.
Qed.

Lemma kept_runtime f r m :
  (forall rt, rt_runner (f rt) = rt_runner rt) -> starts_kept m (with_runtimes (alter f r) m).
Proof.
  intros H. constructor; simpl; [done|done| |done]. intros r' _. destruct (decide (r = r')) as [<-|].
  - rewrite lookup_alter_eq. destruct (t_runtimes m !! r); simpl; [by rewrite H|done].
  - by rewrite lookup_alter_ne.
Qed.

(** A new runtime. *)
Definition runtime_made (rt : Runtime) (s : Shared) : Shared :=
  on_mem (with_runtimes (insert (t_fresh (s_mem s)) rt)) (on_mem next_fresh s).

Lemma kept_made rt s : starts_kept (s_mem s) (s_mem (runtime_made rt s)).
Proof.
  constructor; simpl; [done|done| |lia]. intros r Hr. rewrite lookup_insert_ne; [done|lia].
Qed.

Lemma tracks_made pid inst pid' runner cleanup :
  tracks (framed start_frame) (new_process_runtime pid inst pid' runner cleanup).
Proof.
  intros s. constructor; [apply kept_made|done|done|]. exists []. by rewrite (right_id_L [] (++)).
Qed.

Section Starts.
Context {RC : ReportCodec} {CC : ClientCodec} {SC : SocketCodec}.
Set Default Proof Using "Type*".

Global Instance start_framing : Framing start_frame.
Proof.
  split; simpl; try done; [apply _|].
  intros s s' [K _ _ (l & L & Q)] Hs. pose proof (quiet_no_start l Q) as Q'. split.
  { eapply kept_inv; eauto using start_law_quiet, st_lawful. }
  intros k [K1 K2 K3]. constructor; [done|by eauto using kept_token|].
  intros e He. rewrite L. apply elem_of_app. auto.
Qed.


Lemma start_environment s s' : environment s s' -> framed start_frame s s'.
Proof. apply (framed_environment start_frame); done. Qed.

Lemma start_nothing s : start_fine nothing s.
Proof. constructor; simpl; [constructor|by intros ? ?%elem_of_nil|by intros ? ?%elem_of_nil]. Qed.

Global Instance starts_laws : ProtocolLaws.
Proof.
  split.
  - intros g h H k Hh Hg. by apply (H k).
  - intros g k Hk. by apply elem_of_nil in Hk.
  - intros s _. apply start_nothing.
  - apply start_keep_preorder.
  - intros s s' He Hs. by apply (framing_keeps (F := start_frame) s s'); [apply start_environment|].
  - intros s s' g He Hs Hg. by apply (framing_keeps (F := start_frame) s s'); [apply start_environment| |].
Qed.

Global Instance start_reports : ReportsFramed start_frame.
Proof. split; simpl; try done; intros; apply kept_same; simpl; try done; lia. Qed.

(** The worker that prepares a process, the one that starts it. *)
Definition start_start (j : Job) (h : Local) : Prop :=
  match j with
  | JPrepare _ p => h = mkStartLocal [TPrepare p] []
  | JStart pid p =>
      exists r m, h = mkStartLocal [TStart p r] [VRecv m; VPrepared pid p r]
        /\ m_Type m = MessageProcessAcceptAck /\ m_ProcessID m = pid
  | _ => h = nothing
  end.

#[local] Instance start_knowledge : Knowledge := {|
  heard m g := VRecv m ∈ sl_seen g; answered _ _ _ := True; good_action _ := True; good_message _ := True;
  ends _ := True |}.

Abbreviation neutral := (yields start_start (fun _ => True) (fun _ => True)).

Lemma s_call {A} ok (x : Outside A) : plain_call x -> yields start_start (fun _ => True) ok (call x).
Proof.
  intros Hx. apply (f_call start_start start_frame); [|done]. intros t. destruct x; try done; repeat constructor.
Qed.

(** ** Tokens *)

Definition with_token (x : Token) (g : StartLocal) : StartLocal := mkStartLocal (x :: sl_tokens g) (sl_seen g).
Definition with_seen (l : list Ev) (g : StartLocal) : StartLocal := mkStartLocal (sl_tokens g) (l ++ sl_seen g).

(** A step that gives the goroutine a token that nobody has. *)
Lemma legal_token x l g s s' :
  start_inv s' -> (forall k, start_fine k s -> start_fine k s') -> (forall e, e ∈ l -> e ∈ s_log s') ->
  token_ok x s' -> (forall k, start_fine k s -> token_key x ∉ keys k) -> start_fine g s ->
  legal g (with_token x (with_seen l g)) [] s s'.
Proof.
  intros Hi Hk Hl Hx Hnew Hg. constructor; [done| |done| |done].
  - destruct (Hk g Hg) as [F1 F2 F3]. constructor; simpl.
    + apply NoDup_cons. split; [by apply (Hnew g)|done].
    + intros y [->|Hy]%elem_of_cons; auto.
    + intros e [He|He]%elem_of_app; auto.
  - intros k Hf Ha. split_and!; [by apply Hk| |done]. intros y. simpl.
    intros [->|Hy]%elem_of_cons; [by apply Hnew|by apply Ha].
Qed.

(** Handing a token to a worker. *)
Lemma wp_launch_token n j x g h (Q : bool -> StartLocal -> Prop) :
  start_start j h -> sl_tokens h = [x] -> sl_seen h ⊆ sl_seen g -> (forall b, Q b g) ->
  wp start_start n (eff (Launch j)) (with_token x g) Q.
Proof.
  intros Hj Ht Hseen HQ. apply sock_wp_eff. intros s Hs [G1 G2 G3]. split; [done|].
  intros t idle rp b s' new Hp. simpl in Hp. simpl in G1. apply NoDup_cons in G1 as [Hnot G1].
  assert (start_fine h s) as Hnew.
  { constructor; unfold keys; rewrite ?Ht; [apply list.NoDup_singleton| |].
    - intros y ->%list_elem_of_singleton. apply G2. by left.
    - intros e He. by apply G3, Hseen. }
  injection Hp as <- <- <-. exists g, (if ch_stopping (s_chans s) then [] else [h]).
  split_and!; [by destruct (ch_stopping _); repeat constructor|by destruct (ch_stopping _); simpl; lia| |apply HQ].
  constructor; [done| | | |done].
  - constructor; [done| |done]. intros y Hy. apply G2. by right.
  - destruct (ch_stopping _); [constructor|]. apply Forall_singleton. split; [done|].
    intros k Hk. unfold keys. rewrite Ht. simpl. intros ->%list_elem_of_singleton. done.
  - intros k Hk Ha. split_and!; [done| |].
    + intros y Hy. apply Ha. by right.
    + destruct (ch_stopping _); [constructor|]. apply Forall_singleton. intros y Hy. unfold keys. rewrite Ht. simpl.
      intros ->%list_elem_of_singleton. apply (Ha (token_key x)); [by left|done].
Qed.

(** ** Offering *)

Definition entry_made (pid : string) (s : Shared) : Shared :=
  on_mem (with_pendingProcesses (insert pid (t_fresh (s_mem s))))
    (on_mem (with_pendings (insert (t_fresh (s_mem s)) pending_zero)) (on_mem next_fresh s)).

Lemma offer_eq pid s :
  offer_section pid s =
    match t_pendingProcesses (s_mem s) !! pid, t_processes (s_mem s) !! pid with
    | None, None => (Some (t_fresh (s_mem s)), entry_made pid s)
    | _, _ => (None, s)
    end.
Proof.
  unfold offer_section, mbind, M_bind, local_process, mem, get. simpl.
  by destruct (t_pendingProcesses (s_mem s) !! pid), (t_processes (s_mem s) !! pid).
Qed.

Lemma entry_lookup pid s p y :
  t_pendings (s_mem (entry_made pid s)) !! p = Some y ->
  (p = t_fresh (s_mem s) /\ y = pending_zero) \/ (p <> t_fresh (s_mem s) /\ t_pendings (s_mem s) !! p = Some y).
Proof. simpl. rewrite lookup_insert_Some. intros [[<- <-]|[H ?]]; auto. Qed.

Lemma pending_fresh s : start_inv s -> t_pendings (s_mem s) !! t_fresh (s_mem s) = None.
Proof. intros Hs. apply eq_None_not_Some. intros [y Hy]. pose proof (st_fresh _ Hs _ _ Hy). lia. Qed.

Lemma entry_inv pid s : start_inv s -> t_pendingProcesses (s_mem s) !! pid = None -> start_inv (entry_made pid s).
Proof.
  intros Hs Hn. pose proof (pending_fresh s Hs) as Hf. pose proof Hs as [I1 I2 I3 I4 I5 I6 I7 I8].
  assert (forall pid' p, t_pendingProcesses (s_mem s) !! pid' = Some p -> p <> t_fresh (s_mem s)) as Hp
    by (intros pid' p H ->; destruct (I2 _ _ H); congruence).
  constructor; [..|done].
  - intros p y [[-> _]|[_ H]]%(entry_lookup pid s); simpl; [lia|]. pose proof (I1 _ _ H). lia.
  - intros pid' p. simpl. rewrite lookup_insert_Some. intros [[<- <-]|[_ H]]; [by rewrite lookup_insert_eq|].
    rewrite lookup_insert_ne; [by eapply I2|]. intros <-. by eapply Hp.
  - intros p1 p2 p. simpl. rewrite !lookup_insert_Some. intros [[<- <-]|[_ H1]] [[<- H2]|[_ H2]]; try done.
    + by apply Hp in H2.
    + subst p. by apply Hp in H1.
    + by eapply I3.
  - intros p y r [[-> ->]|[Hne H]]%(entry_lookup pid s) Hr; [done|].
    destruct (I4 p y r H Hr) as (Hrun & Hlt & pid' & Hin & Hpid). split_and!; [done|simpl; lia|].
    exists pid'. split; [done|]. intros p'. simpl. rewrite lookup_insert_Some. intros [[_ ?]|[_ ?]]; [congruence|auto].
  - intros p p' y y' r [[-> ->]|[_ H]]%(entry_lookup pid s) [[-> ->]|[_ H']]%(entry_lookup pid s) Hr Hr'; try done. by eapply I5.
  - intros p y r [[-> ->]|[_ H]]%(entry_lookup pid s) Ha Hr; [done|]. by eapply I6.
  - intros t r H. simpl. pose proof (I7 t r H). lia.
Qed.

Lemma entry_token pid x s : start_inv s -> token_ok x s -> token_ok x (entry_made pid s).
Proof.
  intros Hs. pose proof (pending_fresh s Hs) as Hf.
  assert (forall p y, t_pendings (s_mem s) !! p = Some y -> t_pendings (s_mem (entry_made pid s)) !! p = Some y) as Hk.
  { intros p y H. simpl. rewrite lookup_insert_ne; [done|]. intros <-. congruence. }
  destruct x as [p|r|p r]; simpl token_ok.
  - intros (y & Hy & Hn). by exists y; split; [apply Hk|].
  - intros (H1 & H2 & H3 & H4). split_and!; [done|done|simpl; lia|].
    intros p y [[-> ->]|[_ H]]%(entry_lookup pid s); [done|by eapply H4].
  - intros (Hu & y & Hy & H). split; [done|]. by exists y; split; [apply Hk|].
Qed.

Lemma s_offer_process offer : neutral (offerProcess offer).
Proof.
  intros n g _. unfold offerProcess. apply sock_wp_bind, sock_wp_eff. intros s Hs Hg. split; [done|].
  intros t idle rp x s' new [= E <-]. rewrite offer_eq in E. set (pid := po_ProcessID offer) in *.
  destruct (t_pendingProcesses (s_mem s) !! pid) eqn:Ep, (t_processes (s_mem s) !! pid);
    injection E as <- <-;
    try (exists g, []; split_and!; [done|simpl; lia|by apply (@legal_keeps _ starts _ start_start)|by apply wp_ret]).
  set (p := t_fresh (s_mem s)) in *. eexists _, []. split_and!; [done|simpl; lia|..].
  - apply (legal_token (TPrepare p) []).
    + by apply entry_inv.
    + intros k [K1 K2 K3]. constructor; [done| |done]. intros y Hy. by apply entry_token; [|apply K2].
    + by intros e ?%elem_of_nil.
    + exists pending_zero. simpl. by rewrite lookup_insert_eq.
    + intros k [K1 K2 K3] (y & Ey & Hy)%list_elem_of_In%in_map_iff. apply list_elem_of_In in Hy.
      destruct y as [p'|r|p' r]; simplify_eq/=. destruct (K2 _ Hy) as (y & Hy' & _).
      pose proof (pending_fresh s Hs) as Hpf. fold p in Hpf. congruence.
    + done.
  - apply sock_wp_bind, (wp_launch_token _ _ _ _ (mkStartLocal [TPrepare p] [])); [done|done|by intros ? ?%elem_of_nil|].
    intros b. apply wp_ret. by split; [|constructor].
Qed.

(** ** Acceptance *)

Definition entry_accepted (p : nat) (s : Shared) : Shared :=
  on_mem (with_pendings (alter (fun x => mkPending (pn_runtime x) true (pn_closing x)
    (pn_terminationReason x) (pn_terminationApplied x)) p)) s.

Lemma accept_eq pid s :
  accept_section pid s =
    match t_pendingProcesses (s_mem s) !! pid with
    | None => (None, s)
    | Some p =>
        let x := pending_at p (s_mem s) in
        if bool_decide (pn_runtime x = None) || pn_accepted x then (None, s)
        else (Some p, entry_accepted p s)
    end.
Proof.
  unfold accept_section, mbind, M_bind, mem, get. simpl.
  destruct (t_pendingProcesses (s_mem s) !! pid) as [p|]; [|done].
  by destruct (bool_decide _ || _).
Qed.

(** An entry after a change to one of them. *)
Lemma alter_lookup (f : pendingProcess -> pendingProcess) p (l : gmap nat pendingProcess) q y :
  alter f p l !! q = Some y ->
  exists x, l !! q = Some x /\ ((q = p /\ y = f x) \/ (q <> p /\ y = x)).
Proof.
  rewrite lookup_alter_Some. intros [(<- & x & H & ->)|[Hne H]]; eauto.
Qed.

Lemma accepted_inv p s : start_inv s -> start_inv (entry_accepted p s).
Proof.
  intros [I1 I2 I3 I4 I5 I6 I7 I8]. constructor; simpl; [..|done|done].
  - intros q y (x & H & _)%alter_lookup. by eapply I1.
  - intros pid q H. apply lookup_alter_is_Some. by eapply I2.
  - done.
  - intros q y r (x & H & Hx)%alter_lookup Hr. apply (I4 q x r H).
    destruct Hx as [[_ ->]|[_ ->]]; done.
  - intros q q' y y' r (x & H & Hx)%alter_lookup (x' & H' & Hx')%alter_lookup Hr Hr'.
    apply (I5 q q' x x' r H H'); [destruct Hx as [[_ ->]|[_ ->]]|destruct Hx' as [[_ ->]|[_ ->]]]; done.
  - intros q y r (x & H & Hx)%alter_lookup Ha Hr. destruct Hx as [[_ ->]|[_ ->]]; [done|]. by eapply I6.
Qed.

Lemma accepted_token p x s : token_ok x s -> token_ok x (entry_accepted p s).
Proof.
  destruct x as [q|r|q r]; simpl.
  - intros (y & Hy & Hn). rewrite lookup_alter. case_decide; subst; rewrite Hy; simpl; eauto.
  - intros (H1 & H2 & H3 & H4). split_and!; [done|done|done|].
    intros q y (x & H & Hx)%alter_lookup. pose proof (H4 q x H). by destruct Hx as [[_ ->]|[_ ->]].
  - intros (Hu & y & Hy & Ha & Hr). split; [done|]. rewrite lookup_alter.
    case_decide; subst; rewrite Hy; simpl; eauto.
Qed.

Lemma wp_accept n m g :
  m_Type m = MessageProcessAcceptAck -> VRecv m ∈ sl_seen g ->
  wp start_start n (startAcceptedProcess (m_ProcessID m)) g (fun _ g' => True /\ keep g g').
Proof.
  intros Hm Hseen. unfold startAcceptedProcess. set (pid := m_ProcessID m).
  apply sock_wp_bind, sock_wp_eff. intros s Hs Hg. split; [done|]. intros t idle rp x s' new [= E <-].
  assert (forall s, start_inv s -> start_fine g s -> exists g' hs, Forall2 start_start [] hs /\ (length hs <= 1)%nat
    /\ legal g g' hs s s /\ wp start_start n (mret tt) g' (fun _ g' => True /\ keep g g')) as Hnone.
  { intros s0 Hs0 Hg0. exists g, []. split_and!; [done|simpl; lia|by apply (@legal_keeps _ starts _ start_start)|].
    apply wp_ret. split; [done|reflexivity]. }
  rewrite accept_eq in E. destruct (t_pendingProcesses (s_mem s) !! pid) as [p|] eqn:Ep;
    [|injection E as <- <-; by apply Hnone].
  destruct (st_pending _ Hs _ _ Ep) as [y Hy]. unfold pending_at in E. rewrite Hy in E. simpl in E.
  destruct (pn_runtime y) as [r|] eqn:Er; [|injection E as <- <-; by apply Hnone].
  destruct (pn_accepted y) eqn:Ea; [injection E as <- <-; by apply Hnone|]. injection E as <- <-.
  destruct (st_runtime _ Hs _ _ _ Hy Er) as (Hrun & Hlt & pid' & Hprep & Hpid).
  rewrite <- (Hpid pid Ep) in Hprep.
  eexists _, []. split_and!; [done|simpl; lia|..].
  - apply (legal_token (TStart p r) [VPrepared pid p r]).
    + by apply accepted_inv.
    + intros k [K1 K2 K3]. constructor; [done| |done]. intros z Hz. by apply accepted_token, K2.
    + by intros e ->%list_elem_of_singleton.
    + simpl. split; [by eapply (st_unstarted _ Hs)|]. rewrite lookup_alter_eq, Hy. simpl. eauto.
    + intros k [K1 K2 K3] (z & Ez & Hz)%list_elem_of_In%in_map_iff. apply list_elem_of_In in Hz.
      destruct z as [q|r'|q r']; simplify_eq/=. destruct (K2 _ Hz) as (_ & y' & Hy' & Ha' & _). congruence.
    + done.
  - apply sock_wp_bind, (wp_launch_token _ _ _ _ (mkStartLocal [TStart p r] [VRecv m; VPrepared pid p r])).
    + by exists r, m.
    + done.
    + intros e. simpl. set_solver.
    + intros b. apply wp_ret. split; [done|]. constructor; simpl; [done|set_solver].
Qed.

(** ** Preparation *)

(** The runtime of a new supervisor: nobody else has it. *)
Lemma wp_made n pid inst spid cleanup g (Q : nat -> StartLocal -> Prop) :
  (forall r, Q r (with_token (TMade r) g)) ->
  wp start_start n (crit (new_process_runtime pid inst spid true cleanup)) g Q.
Proof.
  intros HQ. apply sock_wp_eff. intros s Hs Hg. split; [done|]. intros t idle rp x s' new [= <- <- <-].
  set (r := t_fresh (s_mem s)). exists (with_token (TMade r) g), []. split_and!; [done|simpl; lia| |apply HQ].
  destruct (framing_keeps (F := start_frame) s _ (tracks_made pid inst spid true cleanup s) Hs) as [Hi Hk].
  pose proof (legal_token (TMade r) [] g s _ Hi Hk) as H. apply H; clear H.
  - by intros e ?%elem_of_nil.
  - simpl. split_and!; [|by intros t' Hin; pose proof (st_started _ Hs _ _ Hin); lia|lia|].
    + eexists. simpl. by rewrite lookup_insert_eq.
    + intros p y Hy E. destruct (st_runtime _ Hs _ _ _ Hy E) as (_ & Hlt & _). lia.
  - intros k [K1 K2 K3] (z & Ez & Hz)%list_elem_of_In%in_map_iff. apply list_elem_of_In in Hz.
    destruct z as [q|r'|q r']; simplify_eq/=. destruct (K2 _ Hz) as (_ & _ & Hlt & _). unfold r in Hlt. lia.
  - done.
Qed.

Definition entry_adopted (pid : string) (p r : nat) (s : Shared) : Shared :=
  on_log (VPrepared pid p r) (on_mem (with_pendings (alter (fun x => mkPending (Some r) (pn_accepted x)
    (pn_closing x) (pn_terminationReason x) (pn_terminationApplied x)) p)) s).

Lemma quiet_prepared r pid p r' l : unstarted r l -> unstarted r (l ++ [VPrepared pid p r']).
Proof. apply unstarted_quiet. by repeat constructor. Qed.

Lemma adopted_inv pid p r s :
  start_inv s -> t_pendingProcesses (s_mem s) !! pid = Some p -> token_ok (TMade r) s ->
  start_inv (entry_adopted pid p r s).
Proof.
  intros [I1 I2 I3 I4 I5 I6 I7 I8] Hpid (H1 & H2 & H3 & H4). constructor; simpl.
  - intros q y (x & H & _)%alter_lookup. by eapply I1.
  - intros pid' q H. apply lookup_alter_is_Some. by eapply I2.
  - done.
  - intros q y r' (x & H & [[-> ->]|[Hne ->]])%alter_lookup Hr.
    + injection Hr as <-. split_and!; [done|done|]. exists pid.
      split; [apply elem_of_app; right; by left|]. intros pid' H'. by eapply I3.
    + destruct (I4 q x r' H Hr) as (Hrun & Hlt & pid' & Hin & Hq). split_and!; [done|done|].
      exists pid'. split; [apply elem_of_app; by left|done].
  - intros q q' y y' r' (x & H & [[-> ->]|[Hne ->]])%alter_lookup (x' & H' & [[-> ->]|[Hne' ->]])%alter_lookup Hr Hr';
      simplify_eq/=; [done|by destruct (H4 q' x')|by destruct (H4 q x)|by eapply I5].
  - intros q y r' (x & H & [[-> ->]|[Hne ->]])%alter_lookup Ha Hr; apply quiet_prepared; [by simplify_eq/=|].
    by eapply I6.
  - intros t r' [H|H%list_elem_of_singleton]%elem_of_app; [by eapply I7|done].
  - by apply lawfully_snoc.
Qed.

(** The tokens of the others. *)
Lemma adopted_token pid p r s x :
  token_ok x s -> token_ok (TPrepare p) s -> token_key x <> token_key (TPrepare p) ->
  token_key x <> token_key (TMade r) -> token_ok x (entry_adopted pid p r s).
Proof.
  intros Hx (z & Hz & Hzn) Hp Hr. destruct x as [q|r'|q r']; simpl in *.
  - destruct Hx as (y & Hy & Hn). rewrite lookup_alter_ne by congruence. eauto.
  - destruct Hx as (H1 & H2 & H3 & H4). split_and!; [done|by apply quiet_prepared|done|].
    intros q y (x & H & [[-> ->]|[_ ->]])%alter_lookup; [simpl; congruence|by eapply H4].
  - destruct Hx as (Hu & y & Hy & Ha & Hrt). split; [by apply quiet_prepared|].
    rewrite lookup_alter_ne; [eauto|]. intros <-. congruence.
Qed.

Lemma adopt_eq pid p r s :
  adopt_section pid p r s =
    if bool_decide (t_pendingProcesses (s_mem s) !! pid = Some p) then (true, entry_adopted pid p r s)
    else (false, s).
Proof. unfold adopt_section, mbind, M_bind, mem, get. simpl. by case_bool_decide. Qed.

(** The entry is still pending: it gets the runtime, and both tokens are spent. *)
Lemma wp_adopt n pid p r g (Q : bool -> StartLocal -> Prop) :
  sl_tokens g = [TMade r; TPrepare p] -> Q true nothing -> Q false g ->
  wp start_start n (crit (adopt_section pid p r)) g Q.
Proof.
  intros Hg0 Q1 Q2. apply sock_wp_eff. intros s Hs Hg. split; [done|]. intros t idle rp x s' new [= E <-].
  rewrite adopt_eq in E. case_bool_decide as Hp; injection E as <- <-.
  - pose proof Hg as [G1 G2 G3]. exists nothing, []. split_and!; [done|simpl; lia| |done].
    assert (token_ok (TMade r) s) as Hr by (apply G2; rewrite Hg0; left).
    assert (token_ok (TPrepare p) s) as Hpr by (apply G2; rewrite Hg0; right; left).
    constructor; [by apply adopted_inv|apply start_nothing|done| |done].
    intros k [K1 K2 K3] Ha. split_and!; [|by intros y Hy%elem_of_nil|done].
    assert (forall z, z ∈ [token_key (TMade r); token_key (TPrepare p)] -> z ∉ keys k) as Ha'
      by (intros z Hz; apply Ha; unfold keys; by rewrite Hg0).
    assert (forall z, z ∈ sl_tokens k -> token_key z ∈ keys k) as Hkey
      by (intros z Hz; apply list_elem_of_In, in_map, list_elem_of_In, Hz).
    constructor; [done| |intros e He; apply elem_of_app; left; by apply K3].
    intros z Hz. apply adopted_token; [by apply K2|done|..]; intros E.
    + apply (Ha' (token_key z)); [rewrite E; right; left|by apply Hkey].
    + apply (Ha' (token_key z)); [rewrite E; left|by apply Hkey].
  - exists g, [].
    split_and!; [done|simpl; lia|by apply (@legal_keeps _ starts _ start_start)|done].
Qed.

(** ** The other sections *)

Ltac start_leaf :=
  match goal with
  | |- tracks _ (new_process_runtime _ _ _ _ _) => apply tracks_made
  | |- tracks _ (set_mem _) =>
      apply (frame_mem start_frame); intros ?; simpl;
      first [ by apply kept_same; simpl; try done; lia | apply kept_delete
            | by apply kept_alter | by apply kept_runtime ]
  | |- tracks _ (set_chans _) => apply (frame_chans start_frame); frame_fields
  | |- tracks _ (note _) => apply (frame_note start_frame); frame_fields
  end.
Ltac open_start :=
  unfold claim_storage_failure, forgetResolvedProcessActions, settle_storage_failure,
    runner_of_runtime, forget_pending, reject_section, pending_runtime, apply_termination,
    publish_section, terminate_section, forgetRejectedActionOffer, offer_action_section, enqueue_section,
    grant_section, dequeueAcceptedAction, forget_action, failed_section, cleanup_only, resume_section,
    add_process, live_process, local_process, set_reporting, set_pending, SendSkillReport, enqueue_or_fail, enqueue, fail.
Ltac start_section :=
  intros; apply (f_section start_start start_frame); [|done]; open_start; repeat first [tracks_step | start_leaf].

Global Instance start_discipline : Discipline start_start.
Proof.
  split; try solve [done | start_section | frame_field start_start start_frame | report_field start_start start_frame].
  - intros m g g' Hm [_ K]. by apply K.
  - intros A x Hx. by apply s_call.
  - apply (f_call start_start start_frame); [intros; constructor|done].
  - intros n idleTick g. apply (f_select start_start start_frame); try done. intros s m Hs [G1 G2 G3] Hm.
    exists (with_seen [VRecv m] g). split_and!; [| |by left].
    + split_and!; [|done|done]. constructor; simpl; [done|set_solver].
    + constructor; [done|done|]. by intros e [->|He]%elem_of_cons; [|apply G3].
  - apply s_offer_process.
  - intros m Hm n g Hh. by apply wp_accept.
  - intros a _. apply (f_then_launch start_start start_frame (enqueue_section a) (JQueue (pac_processID a))); [|done].
    unfold enqueue_section, alloc. repeat first [tracks_step | start_leaf].
Qed.

(** ** The workers *)

Context {PC : PayloadCodec}.

Lemma s_prepare_job n assignment p :
  wp start_start n (prepare_job assignment p) (mkStartLocal [TPrepare p] []) (fun _ _ => True).
Proof.
  assert (forall {A} m (q : Sock A) g, neutral q -> wp start_start m q g (fun _ _ => True)) as Hend
    by (intros; by apply (neutral_job start_start)).
  unfold prepare_job. apply sock_wp_bind. eapply sock_wp_mono; [|by apply (s_call (fun _ => True))].
  intros [made err] g [_ [Eg _]]. simpl in Eg. apply sock_wp_bind.
  assert (forall runtime g e, wp start_start n (preparation_failed (as_ID assignment) p runtime e) g (fun _ _ => True)) as Hf
    by (intros; apply Hend, (n_preparation_failed start_start)).
  destruct made as [[[inst spid] cleanup]|].
  - apply sock_wp_bind, wp_made. intros r. apply wp_ret. destruct err as [e|]; [apply Hf|].
    apply sock_wp_bind, wp_adopt; [by simpl; rewrite Eg|..].
    + apply Hend. apply (d_enqueue_or_fail start_start).
    + apply Hend, (n_superseded start_start).
  - apply wp_ret. destruct err as [e|]; [apply Hf|by apply wp_ret].
Qed.

(** What the worker that starts a process has seen. *)
Definition seen_grant (pid : string) (r : nat) (g : StartLocal) : Prop :=
  exists m p, VRecv m ∈ sl_seen g /\ m_Type m = MessageProcessAcceptAck /\ m_ProcessID m = pid
    /\ VPrepared pid p r ∈ sl_seen g.
Definition seen_record (pid : string) (g : StartLocal) : Prop :=
  exists t instance faults o, VDb t (mkCall (CMarkAccepted pid instance) faults (inr o)) ∈ sl_seen g.

Lemma grant_seen pid r g s : start_fine g s -> seen_grant pid r g -> granted pid r (s_log s).
Proof. intros [_ _ F] (m & p & H1 & H2 & H3 & H4). exists m, p. split_and!; auto. Qed.

Lemma record_seen pid g s : start_fine g s -> seen_record pid g -> recorded pid (s_log s).
Proof. intros [_ _ F] (t & i & f & o & H). exists t, i, f, o. auto. Qed.

Lemma grant_keep pid r g g' : seen_grant pid r g -> keep g g' -> seen_grant pid r g'.
Proof. intros (m & p & H1 & H2 & H3 & H4) [_ K]. exists m, p. split_and!; auto. Qed.

Lemma record_keep pid g g' : seen_record pid g -> keep g g' -> seen_record pid g'.
Proof. intros (t & i & f & o & H) [_ K]. exists t, i, f, o. auto. Qed.

(** Recording the acceptance. *)
Lemma wp_mark n pid inst r g :
  seen_grant pid r g ->
  wp start_start n (db_command (CMarkAccepted pid inst)) g
    (fun err g' => keep g g' /\ (err = None -> seen_record pid g')).
Proof.
  intros Hseen. unfold db_command. apply sock_wp_bind, sock_wp_eff. intros s Hs Hg. split; [done|].
  intros t idle rp x s' new Hp. cbn [perform] in Hp. set (c := CMarkAccepted pid inst) in *.
  destruct (run_cmd c (tr_faults rp) (s_db s)) as [res db]. injection Hp as <- <- <-.
  set (e := VDb t (mkCall c (tr_faults rp) res)). set (s2 := on_log e (on_db db s)).
  assert (starts_kept (s_mem s) (s_mem s2)) as K by reflexivity.
  assert (Forall no_start [e]) as Q by (by repeat constructor).
  assert (start_inv s2) as Hs2.
  { apply (kept_inv s s2 [e]); [done|done|done| |done]. apply lawfully_snoc; [apply Hs|]. simpl.
    exists r. by eapply grant_seen. }
  assert (forall k, start_fine k s -> start_fine k s2) as Hk.
  { intros k [K1 K2 K3]. constructor; [done|by intros y Hy; eapply (kept_token y s s2); eauto|].
    intros e' He. apply elem_of_app. left. by apply K3. }
  exists (with_seen [e] g), []. split_and!; [done|simpl; lia|..].
  - constructor; [done| |done|intros k Hfk Ha; by split_and!; [apply Hk|..]|done].
    destruct (Hk g Hg) as [F1 F2 F3]. constructor; [done|done|].
    intros e' [->|He]%elem_of_cons; [|by apply F3]. apply elem_of_app. right. by left.
  - apply wp_ret. split; [constructor; simpl; [done|set_solver]|]. destruct res as [err|o]; [done|].
    intros _. exists t, inst, (tr_faults rp), o. by left.
Qed.

Lemma wp_store_mark n pid inst r g :
  seen_grant pid r g ->
  wp start_start n (store_write (CMarkAccepted pid inst)) g
    (fun err g' => keep g g' /\ (err = None -> seen_record pid g')).
Proof.
  intros Hseen. unfold store_write. apply sock_wp_bind.
  eapply sock_wp_mono; [|by apply (s_call (fun _ => True))]. intros [e|] g1 [_ K1]; [by apply wp_ret|].
  unfold busy_loop. eapply (wp_loop start_start _ _ _ _ (fun _ g' => start_keep g g')); [done|].
  intros m _ g2 K2. apply sock_wp_bind.
  eapply sock_wp_mono; [|by apply (wp_mark _ _ _ r), (grant_keep _ _ g)]. intros [e|] g3 [K3 H3].
  - assert (keep g g3) as K by (by etrans). case_match; [by apply wp_ret|]. apply sock_wp_bind.
    eapply sock_wp_mono; [|by apply (d_sleep start_start)]. intros slept g4 [_ K4]. apply wp_ret.
    destruct slept; [by etrans|]. split; [by etrans|done].
  - apply wp_ret. split; [by etrans|]. intros _. by apply H3.
Qed.

(** Starting the process: the token is spent. *)
Lemma started_inv p r t pid s :
  start_inv s -> token_ok (TStart p r) s -> granted pid r (s_log s) -> recorded pid (s_log s) ->
  start_inv (on_log (VStart t r) s).
Proof.
  intros [I1 I2 I3 I4 I5 I6 I7 I8] (Hu & y & Hy & Ha & Hr) Hgr Hrec.
  constructor; simpl; [done|done|done| |done| | |].
  - intros q z r' Hz Hzr. destruct (I4 q z r' Hz Hzr) as (H1 & H2 & pid' & H3 & H4). split_and!; [done|done|].
    exists pid'. split; [apply elem_of_app; by left|done].
  - intros q z r' Hz Haz Hzr t' [H|H]%elem_of_app; [by eapply (I6 q z r')|].
    apply list_elem_of_singleton in H as [= -> ->]. assert (q = p) as -> by (by eapply I5). congruence.
  - intros t' r' [H|H]%elem_of_app; [by eapply I7|]. apply list_elem_of_singleton in H as [= -> ->].
    by destruct (I4 p y r Hy Hr) as (_ & Hlt & _).
  - apply lawfully_snoc; [done|]. simpl. split; [done|]. by exists pid.
Qed.

Lemma started_token p r t s x :
  start_inv s -> token_ok (TStart p r) s -> token_ok x s -> token_key x <> token_key (TStart p r) ->
  token_ok x (on_log (VStart t r) s).
Proof.
  intros Hs (Hu & y & Hy & Ha & Hr) Hx Hne.
  assert (forall r', r' <> r -> unstarted r' (s_log s) -> unstarted r' (s_log s ++ [VStart t r])) as Hun.
  { intros r' Hr' H t' [Hin|Hin]%elem_of_app; [by apply (H t')|]. by apply list_elem_of_singleton in Hin as [= -> ->]. }
  destruct x as [q|r'|q r']; simpl in *.
  - done.
  - destruct Hx as (H1 & H2 & H3 & H4). split_and!; [done| |done|done]. apply Hun; [|done].
    intros ->. by apply (H4 p y).
  - destruct Hx as (H1 & z & Hz & Haz & Hrz). split; [|eauto]. apply Hun; [|done]. intros ->.
    assert (q = p) as -> by (by eapply (st_owner _ Hs)). done.
Qed.

Lemma wp_start_once n p r pid g :
  sl_tokens g = [TStart p r] -> seen_grant pid r g -> seen_record pid g ->
  wp start_start n (call (StartOnce r)) g (fun _ _ => True).
Proof.
  intros Ht Hgr Hrec. apply sock_wp_eff. intros s Hs Hg. split; [done|].
  intros t idle rp x s' new [= <- <- <-]. exists nothing, []. split_and!; [done|simpl; lia| |done].
  pose proof Hg as [G1 G2 G3]. assert (token_ok (TStart p r) s) as Htok by (apply G2; rewrite Ht; left).
  constructor; [by eapply started_inv; eauto using grant_seen, record_seen|apply start_nothing|done| |done].
  intros k [K1 K2 K3] Ha. split_and!; [|by intros y Hy%elem_of_nil|done].
  constructor; [done| |intros e He; apply elem_of_app; left; by apply K3].
  intros z Hz. apply (started_token p); [done|done|by apply K2|]. intros E.
  apply (Ha (token_key z)); [unfold keys; rewrite Ht, E; left|].
  apply list_elem_of_In, in_map, list_elem_of_In, Hz.
Qed.

(** The runtime of an accepted entry. *)
Lemma wp_pending_runtime n p r g (Q : option (nat * Runtime) -> StartLocal -> Prop) :
  TStart p r ∈ sl_tokens g -> (forall rt, rt_runner rt = Some r -> Q (Some (r, rt)) g) ->
  wp start_start n (crit (pending_runtime p)) g Q.
Proof.
  intros Ht HQ. apply sock_wp_eff. intros s Hs Hg. split; [done|]. intros t idle rp x s' new [= E <- <-].
  exists g, []. split_and!; [done|simpl; lia|by apply (@legal_keeps _ starts _ start_start)|].
  destruct (stf_tokens _ _ Hg _ Ht) as (_ & y & Hy & Ha & Hr).
  destruct (st_runtime _ Hs _ _ _ Hy Hr) as ((rt & Hrt & Hrun) & _).
  unfold pending_at in E. rewrite Hy in E. simpl in E. rewrite Hr in E. simpl in E. subst x.
  unfold socket_runtime. rewrite Hrt. by apply HQ.
Qed.

Lemma s_start_job n pid p h :
  start_start (JStart pid p) h -> wp start_start n (start_job pid p) h (fun _ _ => True).
Proof.
  intros (r & m & -> & Hm & Hpid).
  assert (forall processID p r done, neutral (crit (publish_section processID p r done))) as Hpub by start_section.
  unfold start_job. apply sock_wp_bind, (wp_pending_runtime _ _ r); [left|]. intros [p0 inst spid runner cl rep] Hrun.
  simpl in Hrun. subst runner. set (g := mkStartLocal _ _).
  assert (seen_grant pid r g) as Hgr by (exists m, p; split_and!; [left|done|done|right; left]).
  apply sock_wp_bind. eapply sock_wp_mono; [|by apply (wp_store_mark _ _ _ r)]. intros err g1 [K1 Hrec].
  assert (forall err g, wp start_start n (r0 ← handleAcceptedStorageFailure (Some r) err;
    match r0 with
    | (true, None) => crit (forget_pending pid p)
    | (_, Some e) => crit (fail e)
    | (false, None) => publish_started pid p r r
    end) g (fun _ _ => True)) as Htail
    by (intros; apply (neutral_job start_start), (n_after_start start_start); done).
  apply sock_wp_bind. destruct err as [e|]; [apply wp_ret, Htail|].
  apply sock_wp_bind. eapply sock_wp_mono; [|by apply (f_section start_start start_frame (fun _ => True) (fun _ => True));
    [unfold apply_termination, set_pending; repeat first [tracks_step | start_leaf]|done|done]].
  intros reason g2 [_ K2]. case_match.
  - eapply sock_wp_mono; [|by apply (s_call (fun _ => True))]. intros err g3 _. apply Htail.
  - eapply sock_wp_mono; [|eapply (wp_start_once _ p r pid)].
    + intros err g3 _. apply Htail.
    + rewrite (sk_tokens _ _ K2), (sk_tokens _ _ K1). done.
    + by eapply grant_keep, K2; eapply grant_keep.
    + by eapply record_keep, K2; apply Hrec.
Qed.

(** ** Runs *)

Context (startup : localStartupState) (runtime : DaemonRuntime) (sleepAfter : Z) (instanceID : string).

Lemma start_jobs : jobs_start start_start (body startup runtime sleepAfter instanceID).
Proof.
  apply (discipline_jobs start_start); try done; [by apply Forall_true|..].
  - intros assignment p h n ->. apply s_prepare_job.
  - intros pid p h n Hh. by apply s_start_job.
  - intros pid q h n _. apply (neutral_job start_start), (n_queue start_start).
    + intros r a. by apply (f_call start_start start_frame); [intros; repeat constructor|].
    + start_section.
Qed.

Lemma serve_starts processes runtimes fresh l db :
  start_inv (y_shared (serve startup runtime sleepAfter instanceID processes runtimes fresh l db)).
Proof.
  edestruct (serve_keeps start_start startup runtime sleepAfter instanceID processes runtimes
    fresh l db nothing 0) as [gs HI]; [by apply start_jobs|done| |apply start_nothing|].
  - constructor; simpl; try done; [by intros ? ? ?%elem_of_nil|apply lawfully_nil].
  - apply (in_inv _ _ _ _ HI).
Qed.
End Starts.
