(* ===== verification/SocketScenario.v ===== *)
(** * A connection, run

    One connection from the dial to its end: a process is offered, prepared, accepted
    and started; two actions are granted and applied; a report of the outbox is sent,
    acknowledged and settled; then the context ends and the workers return. *)
From ITree Require Import ITree.
From S2P Require Import Prelude GoStrings DaemonProtocol ProcessCmd DaemonMessages LocalPaths.
From S2P Require Import StateSchema StateQueries StateTx StateReport StateProcess StateAction.
From S2P Require Import StateTrace StateOutbox StateScenario LocalStore ClientWorld Reconciliation.
From S2P Require Import SocketWorld Socket.
From stdpp Require Import options.
Local Open Scope Z_scope.

Definition demo_line_codec : ClientCodec := {|
  marshal_event := fun _ => Some "exited"; marshal_result := fun _ => Some "{}" |}.
Definition demo_payload_codec : PayloadCodec := {|
  unmarshal_fields := fun _ => Some (Some []); decode_write := fun _ => None;
  decode_read := fun _ => None; decode_empty := fun _ => None; only_space := fun _ => true |}.
Definition demo_socket_codec : SocketCodec := {|
  marshal_observation := fun _ => Some "{}"; error_string := fun _ => "error";
  observed_platform := "linux" |}.
#[export] Existing Instances demo_line_codec demo_payload_codec demo_socket_codec.

Definition demo_runtime : DaemonRuntime := mkDaemonRuntime "rt1" 1000.

(** ** The server's messages *)

Definition offer_p2 : Message :=
  mkMessage MessageProcessOffer "" "" "" (Some (mkProcessOffer "p2" "" IOModePipe "sleep 1" ShellDefault
    "/" [] 0 0)) None None None None None uuid_Nil "" 0 (AckStatusOther "") "" "".
Definition action_offer (aid : string) (seq : Z) : Message :=
  mkMessage MessageActionOffer "" "" "" None (Some (mkActionOffer "p2" aid KindWrite seq "{}")) None None None None
    uuid_Nil "" 0 (AckStatusOther "") "" "".
Definition action_grant (aid : string) : Message :=
  mkMessage MessageActionAcceptAck "" "" "" None None (Some (mkActionGrant "p2" aid ProcessStateRunning 0)) None None
    None uuid_Nil "" 0 (AckStatusOther "") "" "".

(** ** Moves *)

(** Several steps of a goroutine; a step that is not possible changes nothing. *)
Definition steps (n t : nat) (rp : TReply) : list Move := repeat (MStep t rp) n.

Definition reply (ready : Ready) (flag : bool) : TReply :=
  mkTReply None flag 0 0 "" ready DialOk (message MessageHeartbeatAck) None [] [] [] "".
Definition read_of (m : Message) : TReply := mkTReply None true 0 0 "" RContext DialOk m None [] [] [] "".
Definition prepared : TReply :=
  mkTReply None true 0 0 "" RContext DialOk (message MessageHeartbeatAck) (Some ("s2", 77, false)) [] [] [] "".
Definition broken : TReply :=
  mkTReply (Some (failure "closed")) false 0 0 "" RContext DialOk (message MessageHeartbeatAck) None [] [] [] "".

(** The reader hands a message over and the loop takes it. *)
Definition receive (m : Message) : list Move := steps 6 4 (read_of m) ++ steps 14 0 (reply RMessage true).

Definition opening : list Move := steps 12 0 (reply RMessage true).
Definition preparing : list Move :=
  receive offer_p2
  ++ [MOther (CReserveProcess (new_process_row "p2" "s2" "t2")) []; MOther (CMarkPrepared "p2" "s2") []]
  ++ steps 8 5 prepared.
Definition starting : list Move :=
  receive (process_message MessageProcessAcceptAck "p2") ++ steps 14 6 (reply RContext false).
Definition acting : list Move :=
  receive (action_offer "a1" 1) ++ receive (action_offer "a2" 2)
  ++ receive (action_grant "a1") ++ receive (action_grant "a2") ++ steps 30 7 (reply RContext false).
Definition reporting : list Move :=
  steps 10 2 (reply RAck true)
  ++ receive (report_ack_message "rpt_u0" AckStatusCommitted "" "") ++ steps 8 2 (reply RAck true).
Definition ending : list Move :=
  [MCancel] ++ steps 12 0 (reply RContext true)
  ++ steps 6 1 (reply RContext false) ++ steps 12 2 (reply RContext false)
  ++ steps 6 3 (reply RContext false) ++ steps 6 4 broken ++ steps 4 0 (reply RContext true).

Definition demo_connection : list Move := opening ++ preparing ++ starting ++ acting ++ reporting ++ ending.

Abbreviation demo_serve l := (serve startup_empty demo_runtime 0 "d1" ∅ ∅ 0 l booted_db).
Abbreviation demo_log l := (s_log (y_shared (demo_serve l))).
