(* ===== verification/SocketProperties.v ===== *)
(** * What holds of every run of a connection

    For every startup state, process table and database, and every sequence of moves:
    whatever the server sends, whichever goroutine runs next, whatever calls fail,
    whenever the context ends. *)
From ITree Require Import ITree.
From S2P Require Import Prelude GoStrings DaemonProtocol ProcessCmd DaemonMessages LocalPaths.
From S2P Require Import StateSchema StateQueries StateTx StateReport StateProcess StateAction.
From S2P Require Import StateInvariant StateTrace StateOutbox StateScenario LocalStore ClientWorld Reconciliation.
From S2P Require Import SocketWorld Socket SocketLogic SocketAcks SocketStop SocketHistory SocketQueues SocketStarts.
From S2P Require Import SocketScenario.
From stdpp Require Import options.

Section Properties.
Context {RC : ReportCodec} {CC : ClientCodec} {PC : PayloadCodec} {SC : SocketCodec}.
Context (startup : localStartupState) (runtime : DaemonRuntime) (sleepAfter : Z) (instanceID : string).
Context (processes : gmap string nat) (runtimes : gmap nat Runtime) (fresh : nat).

Abbreviation after l db := (serve startup runtime sleepAfter instanceID processes runtimes fresh l db).
Abbreviation log l db := (s_log (y_shared (after l db))).



(** C21: a report is settled in the state database only by what the server said of it
    on this connection: acknowledged after it answered committed or cleanup-only,
    rejected after it answered so. *)
Theorem reports_settle_by_the_servers_answer l db past t c later rid accepted :
  log l db = past ++ VDb t c :: later -> settles (c_cmd c) = Some (rid, accepted) ->
  exists m, VRecv m ∈ past /\ m_Type m = MessageReportAck /\ m_ReportID m = rid
    /\ if accepted then m_AckStatus m = AckStatusCommitted \/ m_AckStatus m = AckStatusCleanupOnly
       else m_AckStatus m = AckStatusPermanentReject.
Proof.
  intros H Hs. destruct (serve_acks startup runtime sleepAfter instanceID processes runtimes fresh l db 0) as [gs HI].
  pose proof (ai_lawful _ (in_inv _ _ _ _ HI) _ _ _ H) as Hlaw. simpl in Hlaw. rewrite Hs in Hlaw.
  destruct Hlaw as (a & (m & Hm & Ht & Hr & ->) & Ha). by exists m.
Qed.

(** C22: once its context has ended a connection is never stuck: a goroutine that has
    not returned can take a step, or is the connection's own and waits for a worker
    that can. *)
Theorem ending_connection_is_never_stuck l db t th :
  let y := after l db in
  ch_cancelled (s_chans (y_shared y)) = true -> y_threads y !! t = Some th -> returned th = false ->
  exists t' rp, (t' = t \/ t = O) /\ is_Some (step (body startup runtime sleepAfter instanceID) t' rp y).
Proof.
  intros y Hc Ht Hr.
  pose proof (cancelled_steps startup runtime sleepAfter instanceID processes runtimes fresh l db) as H.
  destruct (H t th Hc Ht Hr) as [[rp Hs]|[-> Hg]]; [by exists t, rp; auto|].
  destruct (workers_left _ Hg) as (t' & th' & Hne & Ht' & Hr').
  destruct (H t' th' Hc Ht' Hr') as [[rp Hs]|[-> _]]; [|done]. exists t', rp. auto.
Qed.

(** C23: when a connection has returned, every worker it had started has returned. *)
Theorem no_worker_outlives_the_connection l db acknowledged err t th :
  VReturn acknowledged err ∈ log l db -> y_threads (after l db) !! t = Some th -> t <> O ->
  returned th = true.
Proof.
  intros Hin Ht Hne. destruct (serve_stops startup runtime sleepAfter instanceID processes runtimes fresh l db 0) as [gs HI].
  apply list_elem_of_split in Hin as (past & later & E).
  pose proof (si_lawful _ (in_inv _ _ _ _ HI) _ _ _ E) as Hw. simpl in Hw.
  eapply (gone_lookup _ t th); [|done|done].
  apply (en_gone _ (serve_ended startup runtime sleepAfter instanceID processes runtimes fresh l db)).
  rewrite E. apply elem_of_app. by left.
Qed.

End Properties.

(** ** The connection of SocketScenario.v *)

(** A log cut before its [n]th event. *)
Definition before (n : nat) (l : list Ev) : list Ev := firstn n l.
Definition behind (n : nat) (l : list Ev) : list Ev := skipn (S n) l.



Lemma reports_settle_by_the_servers_answer_witness :
  exists m, VRecv m ∈ before 25 (demo_log demo_connection) /\ m_ReportID m = "rpt_u0"
    /\ (m_AckStatus m = AckStatusCommitted \/ m_AckStatus m = AckStatusCleanupOnly).
Proof.
  assert (demo_log demo_connection
    = before 25 (demo_log demo_connection)
      ++ VDb 2 (mkCall (CAcknowledgeReport "rpt_u0") [] (inr ODone)) :: behind 25 (demo_log demo_connection)) as E
    by (vm_compute; reflexivity).
  destruct (reports_settle_by_the_servers_answer startup_empty demo_runtime 0 "d1" ∅ ∅ 0
    demo_connection booted_db _ _ _ _ "rpt_u0" true E eq_refl) as (m & Hm & _ & Hr & Ha).
  exists m. split; [exact Hm|]. split; [exact Hr|exact Ha].
Defined.

(** The context has ended and the connection's own goroutine waits for its workers. *)
Definition demo_ending : list Move :=
  opening ++ preparing ++ starting ++ acting ++ reporting ++ [MCancel] ++ steps 12 0 (reply RContext true).

Lemma ending_connection_is_never_stuck_witness :
  ch_cancelled (s_chans (y_shared (demo_serve demo_ending))) = true
  /\ (returned <$> y_threads (demo_serve demo_ending) !! 0%nat) = Some false
  /\ exists t' rp,
       is_Some (step (body startup_empty demo_runtime 0 "d1") t' rp (demo_serve demo_ending)).
Proof.
  assert (ch_cancelled (s_chans (y_shared (demo_serve demo_ending))) = true) as Hc by (vm_compute; reflexivity).
  assert ((returned <$> y_threads (demo_serve demo_ending) !! 0%nat) = Some false) as Hr by (vm_compute; reflexivity).
  split; [exact Hc|]. split; [exact Hr|].
  destruct (y_threads (demo_serve demo_ending) !! 0%nat) as [th|] eqn:Et; [|discriminate Hr].
  injection Hr as Hr.
  destruct (ending_connection_is_never_stuck startup_empty demo_runtime 0 "d1" ∅ ∅ 0
    demo_ending booted_db 0 th Hc Et Hr) as (t' & rp & _ & Hs).
  exists t', rp. exact Hs.
Defined.

Lemma no_worker_outlives_the_connection_witness :
  forallb returned (y_threads (demo_serve demo_connection)) = true
  /\ exists th, y_threads (demo_serve demo_connection) !! 6%nat = Some th /\ returned th = true.
Proof.
  split; [vm_compute; reflexivity|].
  destruct (y_threads (demo_serve demo_connection) !! 6%nat) as [th|] eqn:Et;
    [|apply (f_equal (fun x => bool_decide (is_Some x))) in Et; vm_compute in Et; discriminate Et].
  exists th. split; [reflexivity|].
  refine (no_worker_outlives_the_connection startup_empty demo_runtime 0 "d1" ∅ ∅ 0
    demo_connection booted_db false (Some [SContext]) 6 th _ Et _).
  - assert (demo_log demo_connection = before 27 (demo_log demo_connection) ++ [VReturn false (Some [SContext])]) as E
      by (vm_compute; reflexivity).
    rewrite E. apply elem_of_app. right. apply list_elem_of_singleton. reflexivity.
  - discriminate.
Defined.

