(* ===== verification/SupervisorWorld.v ===== *)
(** * Threads, locks and system calls of a process supervisor

    A supervisor ([internal/machinedaemon/runner_server.go]) serves control
    connections and watches one child process; each connection and each watcher is a
    goroutine.  This file holds what its programs are made of.

    A program is a tree of effects ([Prog]), one atomic step each: taking or giving
    back a lock, reading or writing the memory a lock guards, a call of the state
    database, a system call, starting a goroutine, waiting for a channel.  The memory
    is split by the lock that guards it: [Guarded] under [mu], a process group under
    its own mutex, the stdin flag under [stdinMu]; the rest is atomics, channels and
    one-line critical sections of private mutexes.

    [move] runs one step of one thread against one reply of the environment, or
    lets somebody else write the database, or accepts a connection.  Theorems hold
    for all sequences of moves.

    A lock is an [RWMutex]: a writer first announces itself, which keeps new readers
    out, and enters when the readers are gone.  Which thread holds what is kept with
    the thread, in [Ghost]; the other fields of [Ghost] are not read by any step and
    only serve the proofs. *)
From S2P Require Import Prelude GoStrings DaemonProtocol ProcessCmd DaemonMessages LocalPaths.
From S2P Require Import StateSchema StateQueries.
From S2P Require Import StateTx StateReport StateProcess StateAction StateTrace ClientWorld.
From stdpp Require Import options.
Local Open Scope Z_scope.

(** ** Data *)

Inductive runnerMethod : Type :=
  | runnerMethodBeginReconciliation
  | runnerMethodStatus
  | runnerMethodPrepare
  | runnerMethodStartOnce
  | runnerMethodApplyOnce
  | runnerMethodCloseUngranted
  | runnerMethodTerminate
  | runnerMethodOther (s : string).

Inductive runnerErrorCode : Type :=
  | runnerErrorNone
  | runnerErrorActionBlocked
  | runnerErrorSupervisorIdentityMismatch
  | runnerErrorStorageExhaustion
  | runnerErrorStorageExhaustionReady.

Global Instance runnerErrorCode_eq_dec : EqDecision runnerErrorCode.
Proof. solve_decision. Defined.
Global Instance processStartOutcome_eq_dec : EqDecision processStartOutcome.
Proof. solve_decision. Defined.
Global Instance ProcessAction_eq_dec : EqDecision ProcessAction.
Proof. solve_decision. Defined.

Record runnerRequest : Type := mkRequest {
  rq_SupervisorToken : string;
  rq_SupervisorInstanceID : string;
  rq_Method : runnerMethod;
  rq_Payload : string
}.

(** [rs_StartOutcome] is [None] for the empty string. *)
Record runnerResponse : Type := mkResponse {
  rs_OK : bool;
  rs_StartOutcome : option processStartOutcome;
  rs_Error : string;
  rs_ErrorCode : runnerErrorCode
}.

(** [processRunnerExit]; the empty state is [ProcessStateOther ""]. *)
Record processRunnerExit : Type := mkExit {
  ex_State : ProcessState;
  ex_ExitCode : option Z;
  ex_ExitSignal : string;
  ex_StateReasonCode : string;
  ex_StateReasonMessage : string;
  ex_WaitErr : option error;
  ex_EndedAt : Time
}.

Definition exit_zero : processRunnerExit := mkExit (ProcessStateOther "") None "" "" "" None 0.

(** [unixProcessGroup]; [g_observer] tells whether there is one. *)
Record unixProcessGroup : Type := mkGroup {
  g_pgid : Z;
  g_observer : bool;
  g_signalSafe : bool;
  g_closed : bool;
  g_reaped : bool;
  g_waitErr : option error
}.

(** [localProcessRunner] without the parts under [stdinMu] and the group.
    [lr_process] is [cmd.Process != nil]; [lr_published] that the channel of the
    terminal result is closed; [lr_outputDone] that there is an output goroutine. *)
Record LocalRunner : Type := mkLocalRunner {
  lr_cmd : bool;
  lr_process : option Z;
  lr_startErr : option error;
  lr_startedAt : Time;
  lr_ptyMode : bool;
  lr_outputDone : bool;
  lr_exit : processRunnerExit;
  lr_published : bool;
  lr_terminal : processRunnerExit
}.

(** The fields of [runnerServerState] under [mu]. *)
Record Guarded : Type := mkGuarded {
  m_prepared : option nat;
  m_assignment : ProcessAssignment;
  m_packageBody : string;
  m_startOutcome : option processStartOutcome;
  m_localClosed : bool;
  m_ungrantedClosed : bool;
  m_storageExhaustionReady : bool;
  m_inflight : gmap string nat
}.

(** The assignments to these fields. *)
Inductive Update : Type :=
  | UPrepared (runner : option nat)
  | UPackage (runner : nat) (assignment : ProcessAssignment) (body : string)
  | UStarted (runner : nat)
  | UStartOutcome (outcome : processStartOutcome)
  | ULocalClosed
  | UUngrantedClosed
  | UStorageExhaustionReady
  | UInflight (actionID : string) (call : nat)
  | UForgetCall (actionID : string) (call : nat).

Definition update (u : Update) (m : Guarded) : Guarded :=
  let '(mkGuarded prepared assignment body outcome closed ungranted exhausted inflight) := m in
  match u with
  | UPrepared r => mkGuarded r assignment body outcome closed ungranted exhausted inflight
  | UPackage r a b => mkGuarded (Some r) a b outcome closed ungranted exhausted inflight
  | UStarted r =>
      mkGuarded (Some r) assignment body (Some processStarted) closed ungranted exhausted inflight
  | UStartOutcome o => mkGuarded prepared assignment body (Some o) closed ungranted exhausted inflight
  | ULocalClosed => mkGuarded prepared assignment body outcome true ungranted exhausted inflight
  | UUngrantedClosed => mkGuarded prepared assignment body outcome closed true exhausted inflight
  | UStorageExhaustionReady => mkGuarded prepared assignment body outcome closed ungranted true inflight
  | UInflight id c =>
      mkGuarded prepared assignment body outcome closed ungranted exhausted (<[id := c]> inflight)
  | UForgetCall id c =>
      mkGuarded prepared assignment body outcome closed ungranted exhausted
        (if bool_decide (inflight !! id = Some c) then delete id inflight else inflight)
  end.

(** [runnerActionCall] without its channel. *)
Record ActionCall : Type := mkActionCall { ca_action : ProcessAction; ca_err : option error }.

(** ** Locks, channels, goroutines *)

Inductive LockId : Type :=
  | LRecon | LStart | LEffect | LMu
  | LStdin (r : nat) | LGroup (r : nat).

(** A lock that is read, announced for writing, or held for writing. *)
Inductive Mode : Type := Reading | Announced | Writing.

(** [startedDone] and the [done] of an action call. *)
Inductive Chan : Type := ChStarted | ChCall (call : nat).

Global Instance LockId_eq_dec : EqDecision LockId.
Proof. solve_decision. Defined.
Global Instance Mode_eq_dec : EqDecision Mode.
Proof. solve_decision. Defined.
Global Instance Chan_eq_dec : EqDecision Chan.
Proof. solve_decision. Defined.

Inductive Job : Type :=
  | JMain
  | JConn
  | JFreezeInitial (r : nat)
  | JObserveExit (r : nat)
  | JFinishStart (r : option nat) (exit : processRunnerExit) (containmentKnownEmpty : bool)
  | JTimeout (r : nat) (timeout : Z).

(** ** System calls *)

Inductive Signal : Type := SIGINT | SIGTERM | SIGKILL.
Global Instance Signal_eq_dec : EqDecision Signal.
Proof. solve_decision. Defined.

(** On whose behalf a process is touched: an action of the server, or the
    supervisor itself.  An annotation for the theorems. *)
Inductive Cause : Type := ByAction (id : string) (seq : Z) | ByItself.
Global Instance Cause_eq_dec : EqDecision Cause.
Proof. solve_decision. Defined.

Inductive SysCall : Type -> Type :=
  | CtxErr : SysCall (option error)
  | Draw : SysCall nat                                     (**r pauses until a context ends *)
  | Now : SysCall Z
  | BeforeDeadline : SysCall bool
  | ReadRequest : SysCall (error + runnerRequest)
  | WriteResponse (response : runnerResponse) : SysCall (option error)
  | EnsureDir (path : string) : SysCall (option error)
  | WriteOutputFile (path : string) : SysCall (option error)
  | StatDir (path : string) : SysCall (error + bool)
  | SafeObservation : SysCall bool
  | StdinPipe (r : nat) : SysCall (option error)
  | StartCommand (r : nat) : SysCall (error + Z)           (**r the process id *)
  | InspectGroup (pid : Z) : SysCall (error + Z)
  | NewObserver (pid : Z) : SysCall (option error)
  | CloseObserver (r : nat) : SysCall (option error)
  | AwaitExit (r : nat) : SysCall (option error)
  | KillGroup (why : Cause) (r : nat) (pgid : Z) (signal : Signal) : SysCall (option error)
  | KillLeader (r : nat) : SysCall (option error)
  | SignalLeader (why : Cause) (r : nat) : SysCall (option error)
  | HasLiveMembers (pgid : Z) : SysCall (error + bool)
  | ReapLeader (r : nat) : SysCall (option error * bool)   (**r [Wait], [ProcessState != nil] *)
  | WaitUngrouped (r : nat) : SysCall (option error)
  | SetWriteDeadline (r : nat) : SysCall (option error)
  | WriteString (why : Cause) (r : nat) (data : string) : SysCall (option (Z * option error))
  | LateWrite (r : nat) : SysCall (option (Z * option error))
  | CloseStdin (r : nat) : SysCall (option error)
  | OutputSlice (r : nat) : SysCall (string * Z * Z * bool * option error)
  | OutputClose (r : nat) : SysCall (option error)
  | OutputDrained (r : nat) : SysCall (option (option error))
  | AwaitTimeout (r : nat) (timeout : Z) : SysCall bool
  | CloseListener : SysCall (option error)
  | RemoveEndpoint : SysCall (option error)
  | CloseDatabase : SysCall (option error)
  | ReleaseLifetimeLock : SysCall (option error)
  | RemoveLifetimeLock : SysCall (option error).

(** ** Effects and programs *)

Inductive Eff : Type -> Type :=
  | Announce (l : LockId) : Eff unit
  | Enter (l : LockId) : Eff unit
  | Unlock (l : LockId) : Eff unit
  | RLock (l : LockId) : Eff unit
  | RUnlock (l : LockId) : Eff unit
  | ReadMu : Eff Guarded
  | WriteMu (u : Update) : Eff unit
  | PeekAssignment : Eff ProcessAssignment                 (**r without [mu] *)
  | LoadContainment (r : nat) : Eff (option Z)             (**r the group's identifier *)
  | PublishGroup (r : nat) (g : unixProcessGroup) : Eff Z  (**r compare-and-swap, then load *)
  | ReadGroup (r : nat) : Eff unixProcessGroup
  | WriteGroup (r : nat) (g : unixProcessGroup) : Eff unit
  | ReadStdinOK (r : nat) : Eff bool
  | WriteStdinOK (r : nat) (ok : bool) : Eff unit
  | InitStdin (r : nat) : Eff unit                         (**r before the runner is shared *)
  | NewRunner (x : LocalRunner) : Eff nat
  | ReadRunner (r : nat) : Eff LocalRunner
  | UpdateRunner (r : nat) (f : LocalRunner -> LocalRunner) : Eff unit
  | NewCall (action : ProcessAction) : Eff nat
  | ReadCall (c : nat) : Eff ActionCall
  | SetCallErr (c : nat) (err : option error) : Eff unit
  | CloseChan (c : Chan) : Eff unit
  | Wait (c : Chan) : Eff bool                             (**r [false]: the context ended *)
  | Spawn (j : Job) : Eff unit
  | DbWrite (c : string -> Cmd) : Eff (error + Outcome)
  | DbProcess : Eff (error + Process)
  | Os {A : Type} (x : SysCall A) : Eff A
  | Shutdown : Eff unit
  | WaitShutdown : Eff (option error)
  | WaitConnections : Eff unit.

Inductive Prog (A : Type) : Type :=
  | Ret (a : A)
  | Vis {X : Type} (e : Eff X) (k : X -> Prog A).
Arguments Ret {A} a.
Arguments Vis {A X} e k.

Global Instance Prog_ret : MRet Prog := fun A a => Ret a.
Global Instance Prog_bind : MBind Prog := fun A B f =>
  fix go (p : Prog A) : Prog B :=
    match p with
    | Ret a => f a
    | Vis e k => Vis e (fun x => go (k x))
    end.

Definition eff {A} (e : Eff A) : Prog A := Vis e Ret.
Definition os {A} (x : SysCall A) : Prog A := eff (Os x).
Definition lock (l : LockId) : Prog unit := eff (Announce l);; eff (Enter l).
Definition unlock (l : LockId) : Prog unit := eff (Unlock l).

(** [l.Lock(); defer l.Unlock(); body] *)
Definition locked {A} (l : LockId) (body : Prog A) : Prog A :=
  lock l;; a ← body; unlock l;; mret a.
(** [l.RLock(); defer l.RUnlock(); body] *)
Definition read_locked {A} (l : LockId) (body : Prog A) : Prog A :=
  eff (RLock l);; a ← body; eff (RUnlock l);; mret a.

(** Reading the fields under [mu], assigning them. *)
Definition with_mu {A} (f : Guarded -> A) : Prog A :=
  read_locked LMu (m ← eff ReadMu; mret (f m)).
Definition set_mu (u : Update) : Prog unit := locked LMu (eff (WriteMu u)).

(** ** What a thread holds *)

(** [gh_held] and [gh_owes] are the locks and the channels it has to give back or
    close.  The rest is for the proofs: that [startedDone] will be closed
    ([gh_started]), that it was authorised to start the command ([gh_start]), the
    action it was told to execute and whether its effect is still to come
    ([gh_action], [gh_unused]), the groups it knows to exist
    ([gh_grouped]) and may signal ([gh_safe]), those it has
    reaped without noting it ([gh_dirty]) and those it knows to be reaped
    ([gh_reaped]), the process it watches ([gh_watch]), that it recorded the local
    closure ([gh_closed]) or has seen the flag ([gh_removable]). *)
Record Ghost : Type := mkGhost {
  gh_held : list (LockId * Mode);
  gh_owes : list Chan;
  gh_started : bool;
  gh_start : bool;
  gh_action : option (string * Z);
  gh_unused : bool;
  gh_grouped : list nat;
  gh_safe : list nat;
  gh_dirty : list nat;
  gh_reaped : list nat;
  gh_watch : option nat;
  gh_closed : bool;
  gh_removable : bool
}.

Definition ghost_zero : Ghost := mkGhost [] [] false false None false [] [] [] [] None false false.

Definition ghost_of (j : Job) : Ghost :=
  match j with
  | JFreezeInitial _ => mkGhost [] [ChStarted] false false None false [] [] [] [] None false false
  | JObserveExit r => mkGhost [] [] true false None false [r] [] [] [] (Some r) false false
  | JFinishStart (Some r) _ _ => mkGhost [] [] false false None false [r] [] [] [] (Some r) false false
  | _ => ghost_zero
  end.

Section Ghosts.
Implicit Types (g : Ghost).

Definition set_held (x : list (LockId * Mode)) g : Ghost :=
  mkGhost x (gh_owes g) (gh_started g) (gh_start g) (gh_action g) (gh_unused g) (gh_grouped g)
    (gh_safe g) (gh_dirty g) (gh_reaped g) (gh_watch g) (gh_closed g) (gh_removable g).
Definition set_owes (x : list Chan) g : Ghost :=
  mkGhost (gh_held g) x (gh_started g) (gh_start g) (gh_action g) (gh_unused g) (gh_grouped g)
    (gh_safe g) (gh_dirty g) (gh_reaped g) (gh_watch g) (gh_closed g) (gh_removable g).
Definition set_started (x : bool) g : Ghost :=
  mkGhost (gh_held g) (gh_owes g) x (gh_start g) (gh_action g) (gh_unused g) (gh_grouped g)
    (gh_safe g) (gh_dirty g) (gh_reaped g) (gh_watch g) (gh_closed g) (gh_removable g).
Definition set_start (x : bool) g : Ghost :=
  mkGhost (gh_held g) (gh_owes g) (gh_started g) x (gh_action g) (gh_unused g) (gh_grouped g)
    (gh_safe g) (gh_dirty g) (gh_reaped g) (gh_watch g) (gh_closed g) (gh_removable g).
Definition set_action (x : option (string * Z)) (unused : bool) g : Ghost :=
  mkGhost (gh_held g) (gh_owes g) (gh_started g) (gh_start g) x unused (gh_grouped g) (gh_safe g)
    (gh_dirty g) (gh_reaped g) (gh_watch g) (gh_closed g) (gh_removable g).
Definition set_groups (safe dirty reaped : list nat) g : Ghost :=
  mkGhost (gh_held g) (gh_owes g) (gh_started g) (gh_start g) (gh_action g) (gh_unused g) (gh_grouped g) safe
    dirty reaped (gh_watch g) (gh_closed g) (gh_removable g).
Definition set_grouped (x : list nat) g : Ghost :=
  mkGhost (gh_held g) (gh_owes g) (gh_started g) (gh_start g) (gh_action g) (gh_unused g) x
    (gh_safe g) (gh_dirty g) (gh_reaped g) (gh_watch g) (gh_closed g) (gh_removable g).
Definition set_closed (x : bool) g : Ghost :=
  mkGhost (gh_held g) (gh_owes g) (gh_started g) (gh_start g) (gh_action g) (gh_unused g) (gh_grouped g)
    (gh_safe g) (gh_dirty g) (gh_reaped g) (gh_watch g) x (gh_removable g).
Definition set_removable (x : bool) g : Ghost :=
  mkGhost (gh_held g) (gh_owes g) (gh_started g) (gh_start g) (gh_action g) (gh_unused g) (gh_grouped g)
    (gh_safe g) (gh_dirty g) (gh_reaped g) (gh_watch g) (gh_closed g) x.

Definition without {A} `{EqDecision A} (x : A) (l : list A) : list A :=
  List.filter (fun y => bool_decide (y <> x)) l.

(** Giving back a lock ends what was known under it. *)
Definition give_back (l : LockId) (m : Mode) g : Ghost :=
  let g := set_held (without (l, m) (gh_held g)) g in
  match l with
  | LEffect => set_action None false g
  | LGroup r => set_groups (without r (gh_safe g)) (gh_dirty g) (gh_reaped g) g
  | _ => g
  end.

Definition after_db (c : Cmd) (r : error + Outcome) g : Ghost :=
  match c, r with
  | CAuthorizeSpawnOnce _, inr (OSpawn true) => set_start true g
  | CApplyOnce _ a, inr (OApply ApplyExecute _) => set_action (Some (a_ID a, a_Seq a)) true g
  | CMarkLocalClosed _ _, inr _ => set_closed true g
  | _, _ => g
  end.

(** What reading or writing a group shows: it may be signalled, or it was reaped. *)
Definition after_group (r : nat) (x : unixProcessGroup) g : Ghost :=
  set_groups (if g_signalSafe x then r :: without r (gh_safe g) else without r (gh_safe g))
    (if g_signalSafe x then gh_dirty g else without r (gh_dirty g))
    (if g_reaped x then r :: gh_reaped g else gh_reaped g) g.

Definition after_os {A} (x : SysCall A) : A -> Ghost -> Ghost :=
  match x in SysCall A return A -> Ghost -> Ghost with
  | StartCommand _ => fun _ => set_start false
  | KillGroup (ByAction id seq) _ _ SIGINT => fun _ g => set_action (gh_action g) false g
  | SignalLeader (ByAction id seq) _ => fun _ g => set_action (gh_action g) false g
  | WriteString _ _ _ => fun _ g => set_action (gh_action g) false g
  | ReapLeader r => fun a g =>
      if a.2 : bool
      then set_groups (without r (gh_safe g)) (r :: gh_dirty g) (r :: gh_reaped g) g else g
  | _ => fun _ g => g
  end.

(** [uuid]: the identifier the write drew. *)
Definition post {A} (uuid : string) (e : Eff A) : A -> Ghost -> Ghost :=
  match e in Eff A return A -> Ghost -> Ghost with
  | Announce l => fun _ g => set_held ((l, Announced) :: gh_held g) g
  | Enter l => fun _ g => set_held ((l, Writing) :: without (l, Announced) (gh_held g)) g
  | Unlock l => fun _ => give_back l Writing
  | RLock l => fun _ g => set_held ((l, Reading) :: gh_held g) g
  | RUnlock l => fun _ => give_back l Reading
  | ReadMu => fun m g => if m_localClosed m then set_removable true g else g
  | LoadContainment r => fun x g =>
      match x with Some _ => set_grouped (r :: gh_grouped g) g | None => g end
  | PublishGroup r _ => fun _ g => set_grouped (r :: gh_grouped g) g
  | ReadGroup r => fun x => after_group r x
  | WriteGroup r x => fun _ => after_group r x
  | NewCall _ => fun c g => set_owes (ChCall c :: gh_owes g) g
  | CloseChan c => fun _ g => set_owes (without c (gh_owes g)) g
  | Spawn (JFreezeInitial _) => fun _ => set_started true
  | DbWrite c => fun r => after_db (c uuid) r
  | Os x => after_os x
  | _ => fun _ g => g
  end.
End Ghosts.
Global Arguments without {A _} x l : simpl never.

(** ** The system *)

Record Thread : Type := mkThread { th_job : Job; th_prog : Prog unit; th_ghost : Ghost }.

(** What a step leaves in the log. *)
Inductive Ev : Type :=
  | VDb (t : nat) (c : Call)
  | VOther (c : Call)
  | VStart (t r : nat) (ok : bool)
  | VSignal (t : nat) (why : Cause) (r : nat) (signal : option Signal)   (**r [None]: the leader *)
  | VWrite (t : nat) (why : Cause) (r : nat)
  | VReap (t r : nat)
  | VRemoveLock (t : nat).

Record Sys : Type := mkSys {
  y_db : DB;
  y_mu : Guarded;
  y_groups : gmap nat unixProcessGroup;
  y_stdin : gmap nat bool;
  y_runners : gmap nat LocalRunner;
  y_calls : gmap nat ActionCall;
  y_pending : gset nat;                   (**r calls whose channel is open *)
  y_startedDone : bool;                   (**r [startedDone] is closed *)
  y_shutdown : bool;
  y_fresh : nat;
  y_threads : list Thread;
  y_log : list Ev
}.

(** A reply of the environment. *)
Record SReply : Type := mkSReply {
  sr_err : option error;
  sr_flag : bool;
  sr_nat : nat;
  sr_z : Z;
  sr_z2 : Z;
  sr_text : string;
  sr_request : runnerRequest;
  sr_faults : Faults;
  sr_uuid : string
}.

Definition sreply : SReply :=
  mkSReply None true 0 1 1 "" (mkRequest "" "" runnerMethodStatus "") [] "".

Definition answer {A} (x : SysCall A) (rp : SReply) : A :=
  let sum {B} (b : B) : error + B := match sr_err rp with Some e => inl e | None => inr b end in
  match x in SysCall A return A with
  | CtxErr => sr_err rp
  | Draw => sr_nat rp
  | Now => sr_z rp
  | BeforeDeadline => sr_flag rp
  | ReadRequest => sum (sr_request rp)
  | WriteResponse _ => sr_err rp
  | EnsureDir _ | WriteOutputFile _ => sr_err rp
  | StatDir _ => sum (sr_flag rp)
  | SafeObservation => sr_flag rp
  | StdinPipe _ => sr_err rp
  | StartCommand _ => sum (sr_z rp)
  | InspectGroup _ => sum (sr_z rp)
  | NewObserver _ | CloseObserver _ | AwaitExit _ => sr_err rp
  | KillGroup _ _ _ _ | KillLeader _ | SignalLeader _ _ => sr_err rp
  | HasLiveMembers _ => sum (negb (sr_flag rp))
  | ReapLeader _ => (sr_err rp, sr_flag rp)
  | WaitUngrouped _ => sr_err rp
  | SetWriteDeadline _ => sr_err rp
  | WriteString _ _ _ | LateWrite _ => if sr_flag rp then Some (sr_z rp, sr_err rp) else None
  | CloseStdin _ => sr_err rp
  | OutputSlice _ => (sr_text rp, sr_z rp, sr_z2 rp, sr_flag rp, sr_err rp)
  | OutputClose _ => sr_err rp
  | OutputDrained _ => if sr_flag rp then Some (sr_err rp) else None
  | AwaitTimeout _ _ => sr_flag rp
  | CloseListener | RemoveEndpoint | CloseDatabase | ReleaseLifetimeLock | RemoveLifetimeLock =>
      sr_err rp
  end.

Definition os_event {A} (t : nat) (x : SysCall A) : A -> list Ev :=
  match x in SysCall A return A -> list Ev with
  | StartCommand r => fun a => [VStart t r (match a with inr _ => true | inl _ => false end)]
  | KillGroup why r _ signal => fun _ => [VSignal t why r (Some signal)]
  | SignalLeader why r => fun _ => [VSignal t why r None]
  | WriteString why r _ => fun _ => [VWrite t why r]
  | ReapLeader r => fun a => if a.2 : bool then [VReap t r] else []
  | RemoveLifetimeLock => fun _ => [VRemoveLock t]
  | _ => fun _ => []
  end.

Definition has (l : LockId) (m : Mode) (th : Thread) : bool :=
  bool_decide ((l, m) ∈ gh_held (th_ghost th)).
(** Announced for writing, or held for writing, by some thread. *)
Definition claimed (l : LockId) (y : Sys) : bool :=
  existsb (fun th => has l Announced th || has l Writing th) (y_threads y).
Definition being_read (l : LockId) (y : Sys) : bool := existsb (has l Reading) (y_threads y).

Definition finished (th : Thread) : bool := match th_prog th with Ret _ => true | Vis _ _ => false end.
Definition is_conn (th : Thread) : bool := match th_job th with JConn => true | _ => false end.

Definition group_zero : unixProcessGroup := mkGroup 0 false false false false None.
Definition runner_zero : LocalRunner :=
  mkLocalRunner false None None 0 false false exit_zero false exit_zero.

Section Setters.
Implicit Types (y : Sys).
Definition put_db (x : DB) (e : list Ev) y : Sys :=
  mkSys x (y_mu y) (y_groups y) (y_stdin y) (y_runners y) (y_calls y) (y_pending y)
    (y_startedDone y) (y_shutdown y) (y_fresh y) (y_threads y) (y_log y ++ e).
Definition put_mu (x : Guarded) y : Sys :=
  mkSys (y_db y) x (y_groups y) (y_stdin y) (y_runners y) (y_calls y) (y_pending y)
    (y_startedDone y) (y_shutdown y) (y_fresh y) (y_threads y) (y_log y).
Definition put_groups (x : gmap nat unixProcessGroup) y : Sys :=
  mkSys (y_db y) (y_mu y) x (y_stdin y) (y_runners y) (y_calls y) (y_pending y)
    (y_startedDone y) (y_shutdown y) (y_fresh y) (y_threads y) (y_log y).
Definition put_stdin (x : gmap nat bool) y : Sys :=
  mkSys (y_db y) (y_mu y) (y_groups y) x (y_runners y) (y_calls y) (y_pending y)
    (y_startedDone y) (y_shutdown y) (y_fresh y) (y_threads y) (y_log y).
Definition put_runners (x : gmap nat LocalRunner) (n : nat) y : Sys :=
  mkSys (y_db y) (y_mu y) (y_groups y) (y_stdin y) x (y_calls y) (y_pending y)
    (y_startedDone y) (y_shutdown y) n (y_threads y) (y_log y).
Definition put_calls (x : gmap nat ActionCall) (p : gset nat) (n : nat) y : Sys :=
  mkSys (y_db y) (y_mu y) (y_groups y) (y_stdin y) (y_runners y) x p
    (y_startedDone y) (y_shutdown y) n (y_threads y) (y_log y).
Definition put_startedDone (x : bool) y : Sys :=
  mkSys (y_db y) (y_mu y) (y_groups y) (y_stdin y) (y_runners y) (y_calls y) (y_pending y)
    x (y_shutdown y) (y_fresh y) (y_threads y) (y_log y).
Definition put_shutdown (x : bool) y : Sys :=
  mkSys (y_db y) (y_mu y) (y_groups y) (y_stdin y) (y_runners y) (y_calls y) (y_pending y)
    (y_startedDone y) x (y_fresh y) (y_threads y) (y_log y).
Definition put_threads (x : list Thread) y : Sys :=
  mkSys (y_db y) (y_mu y) (y_groups y) (y_stdin y) (y_runners y) (y_calls y) (y_pending y)
    (y_startedDone y) (y_shutdown y) (y_fresh y) x (y_log y).
End Setters.

Section Steps.
Context {RC : ReportCodec} (sup : Supervisor) (body : Job -> Prog unit).

Definition new_thread (j : Job) : Thread := mkThread j (body j) (ghost_of j).

(** One effect of thread [t]; [None] when it has to wait. *)
Definition perform {A} (t : nat) (e : Eff A) (rp : SReply) (y : Sys) : option (A * Sys) :=
  match e in Eff A return option (A * Sys) with
  | Announce l => if claimed l y then None else Some (tt, y)
  | Enter l => if being_read l y then None else Some (tt, y)
  | RLock l => if claimed l y then None else Some (tt, y)
  | Unlock _ | RUnlock _ => Some (tt, y)
  | ReadMu => Some (y_mu y, y)
  | WriteMu u => Some (tt, put_mu (update u (y_mu y)) y)
  | PeekAssignment => Some (m_assignment (y_mu y), y)
  | LoadContainment r => Some (g_pgid <$> y_groups y !! r, y)
  | PublishGroup r g =>
      match y_groups y !! r with
      | Some g' => Some (g_pgid g', y)
      | None => Some (g_pgid g, put_groups (<[r := g]> (y_groups y)) y)
      end
  | ReadGroup r => Some (default group_zero (y_groups y !! r), y)
  | WriteGroup r g => Some (tt, put_groups (<[r := g]> (y_groups y)) y)
  | ReadStdinOK r => Some (default false (y_stdin y !! r), y)
  | WriteStdinOK r b => Some (tt, put_stdin (<[r := b]> (y_stdin y)) y)
  | InitStdin r => Some (tt, put_stdin (<[r := true]> (y_stdin y)) y)
  | NewRunner x =>
      Some (y_fresh y, put_runners (<[y_fresh y := x]> (y_runners y)) (S (y_fresh y)) y)
  | ReadRunner r => Some (default runner_zero (y_runners y !! r), y)
  | UpdateRunner r f => Some (tt, put_runners (alter f r (y_runners y)) (y_fresh y) y)
  | NewCall a =>
      Some (y_fresh y, put_calls (<[y_fresh y := mkActionCall a None]> (y_calls y))
                         ({[ y_fresh y ]} ∪ y_pending y) (S (y_fresh y)) y)
  | ReadCall c => Some (default (mkActionCall (mkProcessAction KindRead 0 "" "") None) (y_calls y !! c), y)
  | SetCallErr c err =>
      Some (tt, put_calls (alter (fun x => mkActionCall (ca_action x) err) c (y_calls y))
                  (y_pending y) (y_fresh y) y)
  | CloseChan ChStarted => Some (tt, put_startedDone true y)
  | CloseChan (ChCall c) => Some (tt, put_calls (y_calls y) (y_pending y ∖ {[ c ]}) (y_fresh y) y)
  | Wait c =>
      if negb (sr_flag rp) then Some (false, y)
      else if match c with ChStarted => y_startedDone y | ChCall c => bool_decide (c ∉ y_pending y) end
      then Some (true, y) else None
  | Spawn j => Some (tt, put_threads (y_threads y ++ [new_thread j]) y)
  | DbWrite c =>
      let '(r, db) := run_cmd (c (sr_uuid rp)) (sr_faults rp) (y_db y) in
      Some (match r with inl e => inl [SState e] | inr o => inr o end,
            put_db db [VDb t (mkCall (c (sr_uuid rp)) (sr_faults rp) r)] y)
  | DbProcess =>
      Some (match fst (Supervisor_Process sup (sr_faults rp) (y_db y)) with
            | inl e => inl [SState e] | inr p => inr p
            end, y)
  | Os x => Some (answer x rp, put_db (y_db y) (os_event t x (answer x rp)) y)
  | Shutdown => Some (tt, put_shutdown true y)
  | WaitShutdown =>
      if y_shutdown y then Some (None, y)
      else if negb (sr_flag rp) then Some (None, put_shutdown true y)   (**r the context ended *)
      else match sr_err rp with Some e => Some (Some e, y) | None => None end
  | WaitConnections =>
      if forallb (fun th => negb (is_conn th) || finished th) (y_threads y) then Some (tt, y) else None
  end.

Inductive Move : Type :=
  | MStep (t : nat) (rp : SReply)
  | MOther (c : Cmd) (faults : Faults)
  | MAccept.

(** The first thread is the main one; when it returns the program has ended. *)
Definition alive (y : Sys) : bool :=
  match y_threads y with th :: _ => negb (finished th) | [] => false end.

Definition step_thread (t : nat) (rp : SReply) (y : Sys) : option Sys :=
  match y_threads y !! t with
  | Some (mkThread j (Vis e k) g) =>
      match perform t e rp y with
      | Some (a, y') =>
          Some (put_threads (<[t := mkThread j (k a) (post (sr_uuid rp) e a g)]> (y_threads y')) y')
      | None => None
      end
  | _ => None
  end.

Definition move (m : Move) (y : Sys) : option Sys :=
  if negb (alive y) then None
  else
    match m with
    | MStep t rp => step_thread t rp y
    | MOther c faults =>
        if decide (wf_cmd c) then
          let '(r, db) := run_cmd c faults (y_db y) in
          Some (put_db db [VOther (mkCall c faults r)] y)
        else None
    | MAccept =>
        if y_shutdown y then None else Some (put_threads (y_threads y ++ [new_thread JConn]) y)
    end.

(** A move that is not possible is skipped. *)
Definition execute (l : list Move) (y : Sys) : Sys := fold_left (fun y m => default y (move m y)) l y.

Definition boot (db : DB) : Sys :=
  mkSys db
    (mkGuarded None (mkAssignment "" "" "" "" "" [] "" 0 0) "" None false false false ∅)
    ∅ ∅ ∅ ∅ ∅ false false 0 [new_thread JMain] [].
End Steps.
