(* ===== verification/ProcessGroup.v ===== *)
(** * The child process of a supervisor

    Models [internal/machinedaemon/process_control_unix.go] (the process group that
    contains the command) and the methods of [localProcessRunner] in
    runtime_types.go: input, interruption, termination, terminal results.

    The leader of the group is not reaped before the group is proved empty: until
    then its identifier cannot be recycled, so that signalling the group is safe.

    Errors the code tells apart by identity are texts here ([ESRCH] and the like). *)
From S2P Require Import Prelude GoStrings DaemonProtocol ProcessCmd DaemonMessages LocalPaths StateSchema StateQueries.
From S2P Require Import StateTx StateReport StateProcess StateAction StateTrace ClientWorld SupervisorWorld.
From stdpp Require Import options.
Local Open Scope Z_scope.

Definition ESRCH : Sentinel := SText "ESRCH".
Definition DeadlineExceeded : Sentinel := SText "context deadline exceeded".
Definition ErrNoDeadline : Sentinel := SText "file type does not support deadline".
Definition ErrDeadlineExceeded : Sentinel := SText "i/o timeout".
Definition ErrClosed : Sentinel := SText "file already closed".
Definition errInterruptUnsupported : Sentinel :=
  SText "interrupt-mode stop is not supported on this platform".

Definition not_started : error := failure "process has not started".
Definition ownership_missing : error := failure "process-group ownership is missing".

(** [unixProcessGroupFor]: is there a group? *)
Definition hasGroup (r : nat) : Prog bool :=
  pgid ← eff (LoadContainment r); mret (bool_decide (is_Some pgid)).

(** ** The group ([unixProcessGroup]) *)

Definition containmentEmptyObservations : nat := 2.

Definition mark_group_closed (g : unixProcessGroup) : unixProcessGroup :=
  mkGroup (g_pgid g) (g_observer g) (g_signalSafe g) true (g_reaped g) (g_waitErr g).
Definition set_observer (b : bool) (g : unixProcessGroup) : unixProcessGroup :=
  mkGroup (g_pgid g) b (g_signalSafe g) (g_closed g) (g_reaped g) (g_waitErr g).
Definition mark_reaped (waitErr : option error) (g : unixProcessGroup) : unixProcessGroup :=
  mkGroup (g_pgid g) (g_observer g) false (g_closed g) true waitErr.

(** [waitProcessGroupLiveMembersGone]: the context lets [polls] pauses pass;
    [missing] more empty observations are needed. *)
Fixpoint wait_gone (polls missing : nat) (pgid : Z) (ended : error) : Prog (option error) :=
  live ← os (HasLiveMembers pgid);
  match live with
  | inl e => mret (Some e)
  | inr live =>
      let missing := if live : bool then containmentEmptyObservations else (missing - 1)%nat in
      if (missing =? 0)%nat then mret None
      else match polls with
           | O => mret (Some ended)
           | S n => wait_gone n missing pgid ended
           end
  end.

(** [ended] is the error of the context when it ends. *)
Definition waitForLiveMembersGone (pgid : Z) : Prog (option error) :=
  polls ← os Draw; ended ← os CtxErr;
  wait_gone polls containmentEmptyObservations pgid
    (default [DeadlineExceeded] ended).

Definition unsafe_to_signal : error :=
  failure "process containment identity is no longer safe to signal".

Definition group_signal (why : Cause) (r : nat) (signal : Signal) : Prog (option error) :=
  locked (LGroup r) (
    g ← eff (ReadGroup r);
    if g_closed g then mret (Some (failure "process containment is closed"))
    else if negb (g_signalSafe g) then mret (Some unsafe_to_signal)
    else
      err ← os (KillGroup why r (g_pgid g) signal);
      match err with
      | None => mret None
      | Some e =>
          if errors_Is e ESRCH
          then eff (WriteGroup r (mark_group_closed g));;
               mret (Some (failure "process containment is already empty"))
          else mret (Some e)
      end).

(** What is left of a failed signal: [ESRCH] is no failure here. *)
Definition unless_gone (err : option error) : option error :=
  match err with
  | Some e => if errors_Is e ESRCH then None else Some e
  | None => None
  end.

(** [close], from the first signal on. *)
Definition close_by_force (why : Cause) (r : nat) (g : unixProcessGroup) (grace : bool)
    : Prog (option error) :=
  let finish : Prog (option error) := eff (WriteGroup r (mark_group_closed g));; mret None in
  termErr ← os (KillGroup why r (g_pgid g) SIGTERM);
  let resultErr := unless_gone termErr in
  let kill_now : Prog (option error) :=
    killErr ← os (KillGroup why r (g_pgid g) SIGKILL);
    let resultErr := errors_Join [resultErr; unless_gone killErr] in
    err ← waitForLiveMembersGone (g_pgid g);
    match err with
    | Some e => mret (errors_Join [resultErr; Some e])
    | None => finish
    end in
  if grace then
    err ← waitForLiveMembersGone (g_pgid g);
    match err with
    | None => finish
    | Some _ =>
        ended ← os CtxErr;
        match ended with
        | Some e => mret (errors_Join [resultErr; Some e])
        | None => kill_now
        end
    end
  else kill_now.

Definition group_close (why : Cause) (r : nat) : Prog (option error) :=
  locked (LGroup r) (
    g ← eff (ReadGroup r);
    if g_closed g then mret None
    else if negb (g_signalSafe g) then mret (Some unsafe_to_signal)
    else
      probeErr ← waitForLiveMembersGone (g_pgid g);
      match probeErr with
      | None => eff (WriteGroup r (mark_group_closed g));; mret None
      | Some probeErr =>
          ended ← os CtxErr;
          match ended with
          | Some e => mret (Some e)
          | None =>
              if negb (errors_Is probeErr DeadlineExceeded) then mret (Some probeErr)
              else close_by_force why r g true
          end
      end).

Definition beginForcedClosure (r : nat) : Prog (option error) :=
  locked (LGroup r) (
    g ← eff (ReadGroup r);
    if g_closed g then mret None
    else if negb (g_signalSafe g) then mret (Some unsafe_to_signal)
    else
      err ← os (KillGroup ByItself r (g_pgid g) SIGKILL);
      match err with
      | None => mret None
      | Some e =>
          if errors_Is e ESRCH then eff (WriteGroup r (mark_group_closed g));; mret None
          else mret (Some e)
      end).

Definition finishClosure (r : nat) : Prog (option error) :=
  locked (LGroup r) (
    g ← eff (ReadGroup r);
    if g_closed g then mret None
    else
      err ← waitForLiveMembersGone (g_pgid g);
      match err with
      | Some e => mret (Some e)
      | None => eff (WriteGroup r (mark_group_closed g));; mret None
      end).

Definition waitLeaderExit (r : nat) : Prog (option error) :=
  g ← locked (LGroup r) (eff (ReadGroup r));
  if negb (g_observer g) then mret (Some (failure "process exit observer is missing"))
  else os (AwaitExit r).

(** The second component is the group afterwards. *)
Definition reapLocked (r : nat) (g : unixProcessGroup) : Prog (option error * unixProcessGroup) :=
  if g_reaped g then mret (g_waitErr g, g)
  else if negb (g_closed g)
  then mret (Some (failure "cannot reap process leader before containment closure is proved"), g)
  else
    waited ← os (ReapLeader r);
    let '(waitErr, exited) := waited in
    if exited : bool
    then eff (WriteGroup r (mark_reaped waitErr g));; mret (waitErr, mark_reaped waitErr g)
    else mret (Some (SText "reap closed process leader" :: default [] waitErr), g).

Definition reap (r : nat) : Prog (option error) :=
  locked (LGroup r) (
    g ← eff (ReadGroup r);
    result ← reapLocked r g;
    mret result.1).

Definition closeObserver (r : nat) : Prog (option error) :=
  observer ← locked (LGroup r) (
    g ← eff (ReadGroup r);
    eff (WriteGroup r (set_observer false g));;
    mret (g_observer g));
  if observer : bool then os (CloseObserver r) else mret None.

(** ** Commands *)

(** [command == nil || command.Process == nil] *)
Definition never_started (x : LocalRunner) : bool :=
  negb (lr_cmd x) || bool_decide (lr_process x = None).

(** The observer is attached, unless there is one. *)
Definition attach_observer (r : nat) : Prog bool :=
  locked (LGroup r) (
    g ← eff (ReadGroup r);
    if g_observer g then mret true
    else eff (WriteGroup r (set_observer true g));; mret false).

(** [process] is [command.Process], which the caller has just set. *)
Definition afterStartProcessCommand (r : nat) (process : option Z) : Prog (option error) :=
  match process with
  | None => mret (Some not_started)
  | Some pid =>
      pgid ← eff (PublishGroup r (mkGroup pid false true false false None));
      if pgid <>? pid
      then mret (Some (failure "process command has conflicting containment identity"))
      else
        actual ← os (InspectGroup pid);
        match actual with
        | inl e => mret (Some (SText "inspect started process group" :: e))
        | inr actual =>
            if actual <>? pgid then mret (Some (failure "started process group differs"))
            else
              err ← os (NewObserver pid);
              match err with
              | Some e => mret (Some (SText "establish safe process exit observation" :: e))
              | None =>
                  present ← attach_observer r;
                  if present : bool
                  then os (CloseObserver r);;
                       mret (Some (failure "process command already has an exit observer"))
                  else mret None
              end
        end
  end.

(** [releaseProcessCommand], with the group's mutex held. *)
Definition release_locked (r : nat) : Prog (option error) :=
  g ← eff (ReadGroup r);
  closed ← (if g_closed g then mret (inr g)
            else if negb (g_signalSafe g)
            then mret (inl (failure
                   "process containment was reaped before live-member closure was proved"))
            else
              err ← waitForLiveMembersGone (g_pgid g);
              match err with
              | Some e =>
                  if negb (errors_Is e DeadlineExceeded) then mret (inl e)
                  else mret (inl (failure "process group is still active"))
              | None =>
                  eff (WriteGroup r (mark_group_closed g));; mret (inr (mark_group_closed g))
              end);
  match closed with
  | inl e => mret (Some e)
  | inr g =>
      result ← reapLocked r g;
      if negb (g_reaped result.2)
      then mret (Some (failure "closed process containment could not be reaped"))
      else mret None
  end.

Definition releaseProcessCommand (r : nat) : Prog (option error) :=
  grouped ← hasGroup r;
  if negb grouped then
    x ← eff (ReadRunner r);
    mret (if lr_cmd x && bool_decide (is_Some (lr_process x)) then Some ownership_missing else None)
  else locked (LGroup r) (release_locked r).

Definition interruptProcessCommand (why : Cause) (r : nat) : Prog (option error) :=
  grouped ← hasGroup r;
  if grouped : bool then group_signal why r SIGINT
  else
    x ← eff (ReadRunner r);
    if never_started x then mret (Some not_started) else os (SignalLeader why r).

(** [processClosureResult] *)
Record processClosureResult : Type := mkClosure {
  cr_WaitErr : option error;
  cr_ContainmentErr : option error
}.

Definition terminateAndReapProcessCommand (r : nat) : Prog processClosureResult :=
  x ← eff (ReadRunner r);
  if never_started x then mret (mkClosure (Some not_started) (Some not_started))
  else
    grouped ← hasGroup r;
    if negb grouped then
      killErr ← os (KillLeader r);
      waitErr ← os (WaitUngrouped r);
      mret (mkClosure waitErr (errors_Join [Some ownership_missing; killErr]))
    else
      beginErr ← beginForcedClosure r;
      finishErr ← finishClosure r;
      waitErr ← (match finishErr with None => reap r | Some _ => mret None end);
      observerErr ← closeObserver r;
      mret (mkClosure waitErr (errors_Join [errors_Join [beginErr; finishErr]; observerErr])).

Definition waitProcessCommandLeaderExit (r : nat) : Prog (option error) :=
  x ← eff (ReadRunner r);
  if never_started x then mret (Some not_started)
  else
    grouped ← hasGroup r;
    if negb grouped then mret (Some ownership_missing) else waitLeaderExit r.

(** The observation of the leader failed: the group is killed. *)
Definition close_unobserved (r : nat) (observationErr : error) : Prog processClosureResult :=
  forced ← beginForcedClosure r;
  forcedErr ← (match forced with
               | None => mret None
               | Some e => killErr ← os (KillLeader r); mret (errors_Join [Some e; killErr])
               end);
  let containmentErr :=
    errors_Join [Some (SText "observe process leader exit" :: observationErr); forcedErr] in
  finishErr ← finishClosure r;
  let containmentErr := errors_Join [containmentErr; finishErr] in
  waitErr ← (match finishErr with None => reap r | Some _ => mret None end);
  observerErr ← closeObserver r;
  mret (mkClosure waitErr (errors_Join [containmentErr; observerErr])).

Definition closeAndReapProcessCommand (r : nat) (observationErr : option error)
    : Prog processClosureResult :=
  x ← eff (ReadRunner r);
  if never_started x then mret (mkClosure (Some not_started) (Some not_started))
  else
    grouped ← hasGroup r;
    if negb grouped then
      waitErr ← os (WaitUngrouped r);
      mret (mkClosure waitErr (errors_Join [observationErr; Some ownership_missing]))
    else
      match observationErr with
      | Some e => close_unobserved r e
      | None =>
          containmentErr ← group_close ByItself r;
          waitErr ← (match containmentErr with None => reap r | Some _ => mret None end);
          observerErr ← closeObserver r;
          mret (mkClosure waitErr (errors_Join [containmentErr; observerErr]))
      end.

Definition requestTerminateProcessCommand (why : Cause) (r : nat) : Prog (option error) :=
  x ← eff (ReadRunner r);
  if never_started x then mret (Some not_started)
  else
    grouped ← hasGroup r;
    if grouped : bool then group_close why r
    else killErr ← os (KillLeader r); mret (errors_Join [Some ownership_missing; killErr]).

Definition closeProcessCommandContainment (r : nat) : Prog (option error) :=
  grouped ← hasGroup r;
  if negb grouped then mret (Some ownership_missing) else group_close ByItself r.

(** [group.pgid] does not change after publication. *)
Definition processCommandContainmentID (r : nat) : Prog Z :=
  pgid ← eff (LoadContainment r);
  match pgid with
  | Some pgid => mret pgid
  | None => x ← eff (ReadRunner r); mret (if never_started x then 0 else default 0 (lr_process x))
  end.

(** ** The runner (runtime_types.go) *)

Definition with_exit (exit : processRunnerExit) (x : LocalRunner) : LocalRunner :=
  mkLocalRunner (lr_cmd x) (lr_process x) (lr_startErr x) (lr_startedAt x) (lr_ptyMode x)
    (lr_outputDone x) exit true (lr_terminal x).
Definition with_terminal (exit : processRunnerExit) (x : LocalRunner) : LocalRunner :=
  mkLocalRunner (lr_cmd x) (lr_process x) (lr_startErr x) (lr_startedAt x) (lr_ptyMode x)
    (lr_outputDone x) (lr_exit x) (lr_published x) exit.

Definition publishTerminalResult (r : nat) (exit : processRunnerExit) : Prog unit :=
  eff (UpdateRunner r (with_exit exit)).

Definition hasTerminalResult (r : nat) : Prog bool := x ← eff (ReadRunner r); mret (lr_published x).

Definition terminalResult (r : nat) : Prog processRunnerExit :=
  x ← eff (ReadRunner r); mret (lr_exit x).

Definition sourceTimeNow (r : nat) : Prog Time :=
  x ← eff (ReadRunner r);
  if Time_IsZero (lr_startedAt x) then mret 0 else os Now.

Definition no_state : ProcessState := ProcessStateOther "".

Definition setTerminalOverride (r : nat) (exit : processRunnerExit) : Prog unit :=
  eff (UpdateRunner r (fun x =>
    if bool_decide (ex_State (lr_terminal x) = no_state) then with_terminal exit x else x)).

Definition override (state : ProcessState) (code message : string) : processRunnerExit :=
  mkExit state None "" code message None 0.

Definition isDeadline (err : option error) : bool :=
  match err with Some e => errors_Is e ErrDeadlineExceeded | None => false end.

(** The write was not over in time: the input is closed, and a PTY's process is
    terminated, since its write may still be blocked ([pending]). *)
Definition write_timed_out (why : Cause) (r : nat) (timeoutErr : error) (pending : bool)
    : Prog (option error) :=
  eff (WriteStdinOK r false);;
  closeErr ← os (CloseStdin r);
  x ← eff (ReadRunner r);
  terminateErr ← (if lr_ptyMode x then
                    setTerminalOverride r (override ProcessStateUnknown "stdin_write_timeout"
                      "a blocked stdin write forced process termination");;
                    requestTerminateProcessCommand why r
                  else mret None);
  late ← (if pending then os (LateWrite r) else mret None);
  let writeErr :=
    match late with
    | Some (_, Some e) =>
        if errors_Is e ErrClosed || errors_Is e ErrDeadlineExceeded then None else Some e
    | _ => None
    end in
  mret (errors_Join [Some (SText "stdin write stopped" :: timeoutErr); writeErr; closeErr; terminateErr]).

(** The write returned; [deadlineErr] is what setting the deadline said. *)
Definition write_returned (r : nat) (data : string) (deadlineErr : option error)
    (written : Z) (writeErr : option error) : Prog (option error) :=
  if bool_decide (writeErr = None) && (written =? Z.of_nat (String.length data)) then
    resetErr ← (match deadlineErr with None => os (SetWriteDeadline r) | Some e => mret (Some e) end);
    (match resetErr with
     | Some e =>
         if negb (errors_Is e ErrNoDeadline)
         then eff (WriteStdinOK r false);; os (CloseStdin r);; mret tt else mret tt
     | None => mret tt
     end);;
    mret None
  else
    eff (WriteStdinOK r false);;
    closeErr ← os (CloseStdin r);
    mret (errors_Join [Some (SText "stdin write stopped" :: default (failure "short write") writeErr);
                       closeErr]).

(** [WriteInput]; its callers bound the context. *)
Definition WriteInput (why : Cause) (r : nat) (data : string) : Prog (option error) :=
  locked (LStdin r) (
    ok ← eff (ReadStdinOK r);
    if negb ok then mret (Some (failure "stdin is closed"))
    else
      ended ← os CtxErr;
      match ended with
      | Some e => mret (Some e)
      | None =>
          deadlineErr ← os (SetWriteDeadline r);
          if match deadlineErr with Some e => negb (errors_Is e ErrNoDeadline) | None => false end
          then
            eff (WriteStdinOK r false);;
            closeErr ← os (CloseStdin r);
            mret (errors_Join [deadlineErr; closeErr])
          else
            first ← os (WriteString why r data);
            match first with
            | None => ended ← os CtxErr; write_timed_out why r (default [DeadlineExceeded] ended) true
            | Some (written, writeErr) =>
                if isDeadline writeErr then write_timed_out why r [DeadlineExceeded] false
                else write_returned r data deadlineErr written writeErr
            end
      end).

Definition CloseInput (r : nat) : Prog (option error) :=
  x ← eff (ReadRunner r);
  if lr_ptyMode x
  then mret (Some (failure "close_stdin is not supported for pty-backed processes"))
  else
    locked (LStdin r) (
      ok ← eff (ReadStdinOK r);
      if negb ok then mret None
      else eff (WriteStdinOK r false);; os (CloseStdin r)).

Definition Interrupt (why : Cause) (r : nat) : Prog (option error) := interruptProcessCommand why r.

Definition terminate_runner (why : Cause) (r : nat) : Prog (option error) :=
  requestTerminateProcessCommand why r.

Definition terminateForAction (why : Cause) (r : nat) : Prog (option error) :=
  setTerminalOverride r (override ProcessStateKilled "terminate_requested"
    "terminate-mode stop requested");;
  requestTerminateProcessCommand why r.

Definition waitOutputDrain (r : nat) : Prog (option error) :=
  x ← eff (ReadRunner r);
  if negb (lr_outputDone x) then os (OutputClose r)
  else
    drained ← os (OutputDrained r);
    match drained with
    | Some outputErr => closeErr ← os (OutputClose r); mret (errors_Join [outputErr; closeErr])
    | None => mret (Some (failure "timed out waiting for process output to finish"))
    end.

(** [errors.As(err, &exitErr)] *)
Fixpoint exit_error (err : error) : option (Z * string) :=
  match err with
  | [] => None
  | SExit code signal :: _ => Some (code, signal)
  | _ :: rest => exit_error rest
  end.

Definition exitSignalFromError (err : option error) : string :=
  match err with
  | Some e => match exit_error e with Some (_, signal) => signal | None => "" end
  | None => ""
  end.
