(* ===== verification/Supervisor.v ===== *)
(** * The process supervisor

    Models [internal/machinedaemon/runner_server.go]: one program per goroutine
    ([body]) and one definition per handler, over the effects of SupervisorWorld.v and
    the process control of ProcessGroup.v.

    The daemon's requests arrive over control connections; a connection that begins a
    reconciliation holds [reconciliationMu] for writing until it is closed, every
    other mutating request and every write the supervisor makes on its own holds it
    for reading.  [startMu] makes starting, closing and terminating exclusive;
    [effectBoundaryMu] is held from the admission of an action to the end of its
    effect.

    [SupervisorCodec] holds the JSON encodings and the texts of errors. *)
From S2P Require Import Prelude GoStrings DaemonProtocol ProcessCmd DaemonMessages LocalPaths StateSchema StateQueries.
From S2P Require Import StateTx StateReport StateProcess StateAction StateTrace ClientWorld Reconciliation.
From S2P Require Import SupervisorWorld ProcessGroup.
From stdpp Require Import options pretty.
Local Open Scope Z_scope.

(** The result object of an observation or of a terminal report. *)
Record ObservedResult : Type := mkObserved {
  or_process_id : option string;
  or_state : ProcessState;
  or_exit_code : option Z;
  or_output : string;
  or_cursor : Z;
  or_next_cursor : Z;
  or_truncated : bool;
  or_done : bool;
  or_error : string
}.

Class SupervisorCodec : Type := {
  unmarshal_assignment : string -> option ProcessAssignment;
  marshal_assignment : ProcessAssignment -> option string;
  unmarshal_action : string -> option ProcessAction;
  unmarshal_reason : string -> option string;
  marshal_observed : ObservedResult -> option string;
  error_text : error -> string;                            (**r [err.Error()] *)
  GOOS : string                                            (**r [runtime.GOOS] *)
}.

(** ** Exits (runner_exit.go) *)

Definition exitCodeFromError (err : option error) : option Z :=
  match err with
  | Some e => fst <$> exit_error e
  | None => None
  end.

Definition state_text (s : ProcessState) : string :=
  match s with
  | ProcessStateQueued => "queued"
  | ProcessStateStarting => "starting"
  | ProcessStateRunning => "running"
  | ProcessStateExited => "exited"
  | ProcessStateFailed => "failed"
  | ProcessStateKilled => "killed"
  | ProcessStateUnknown => "unknown"
  | ProcessStateOther s => s
  end.

Definition processTerminalErrorMessage (exit : processRunnerExit) : string :=
  if ex_StateReasonMessage exit <>? "" then ex_StateReasonMessage exit
  else if ex_StateReasonCode exit <>? "" then ex_StateReasonCode exit
  else if ex_ExitSignal exit <>? "" then ex_ExitSignal exit
  else
    match ex_ExitCode exit with
    | Some code =>
        if code <>? 0 then "exit code " +:+ pretty code
        else if (ex_State exit <>? no_state) && (ex_State exit <>? ProcessStateExited)
        then state_text (ex_State exit) else ""
    | None =>
        if (ex_State exit <>? no_state) && (ex_State exit <>? ProcessStateExited)
        then state_text (ex_State exit) else ""
    end.

Section Supervisor.
Context {RC : ReportCodec} {CC : ClientCodec} {SC : SupervisorCodec} {PC : PayloadCodec}.
Context (bootstrap : supervisorIdentityBootstrap).

Definition processID : string := sb_ProcessID bootstrap.
Definition instanceID : string := sb_SupervisorInstanceID bootstrap.
(** The handle [statedb.OpenSupervisor] returned. *)
Definition processState : Supervisor := mkSupervisor processID instanceID.

Definition runnerExitFromWait (waitErr : option error) (reason : string) : processRunnerExit :=
  match waitErr with
  | None => mkExit ProcessStateExited (Some 0) "" reason "" None 0
  | Some e =>
      let message := error_text e in
      let exitSignal := exitSignalFromError waitErr in
      let '(exitCode, reason, message) :=
        if reason ==? "timeout" then (0, reason, message)
        else
          match exitCodeFromError waitErr with
          | Some code =>
              if exitSignal <>? "" then (code, "signal", exitSignal)
              else if reason ==? "" then (code, "nonzero_exit", "")
              else (code, reason, message)
          | None => (0, if reason ==? "" then "wait_failed" else reason, message)
          end in
      mkExit ProcessStateFailed (if exitCode <>? 0 then Some exitCode else None) exitSignal
        reason message waitErr 0
  end.

Definition exitFromWait (r : nat) (waitErr : option error) (reason : string)
    : Prog processRunnerExit :=
  let exit := runnerExitFromWait waitErr reason in
  endedAt ← sourceTimeNow r;
  x ← eff (ReadRunner r);
  let terminal := lr_terminal x in
  if bool_decide (ex_State terminal = no_state)
  then mret (mkExit (ex_State exit) (ex_ExitCode exit) (ex_ExitSignal exit) (ex_StateReasonCode exit)
               (ex_StateReasonMessage exit) (ex_WaitErr exit) endedAt)
  else mret (mkExit (ex_State terminal) (ex_ExitCode terminal) (ex_ExitSignal exit)
               (ex_StateReasonCode terminal) (ex_StateReasonMessage terminal) waitErr
               (if Time_IsZero (ex_EndedAt terminal) then endedAt else ex_EndedAt terminal)).

(** ** Responses *)

Definition ok_response : runnerResponse := mkResponse true None "" runnerErrorNone.
Definition refusal (message : string) : runnerResponse := mkResponse false None message runnerErrorNone.

Definition runnerErrorResponse (err : error) : runnerResponse :=
  mkResponse false None (error_text err)
    (if errors_Is err (SState ErrActionBlocked) then runnerErrorActionBlocked
     else if errors_Is err SStorageExhaustionTerminalReady then runnerErrorStorageExhaustionReady
     else if isStorageExhaustion err then runnerErrorStorageExhaustion
     else runnerErrorNone).

(** The client's side of it (runner_protocol.go). *)
Definition runnerResponseError (response : runnerResponse) : option error :=
  if rs_OK response then None
  else if rs_Error response ==? "" then Some (failure "supervisor request failed")
  else Some (
    let text := SText (rs_Error response) in
    match rs_ErrorCode response with
    | runnerErrorActionBlocked => [SState ErrActionBlocked; text]
    | runnerErrorSupervisorIdentityMismatch => [SRunnerIdentityMismatch; text]
    | runnerErrorStorageExhaustion => [SRunnerStorageExhaustion; text]
    | runnerErrorStorageExhaustionReady => [SStorageExhaustionTerminalReady; text]
    | runnerErrorNone => [text]
    end).

(** ** Writes of the supervisor *)

Definition db_error (r : error + Outcome) : option error :=
  match r with inl e => Some e | inr _ => None end.
Definition db_call (c : string -> Cmd) : Prog (option error) :=
  r ← eff (DbWrite c); mret (db_error r).

Definition CloseActionAdmission : Prog (option error) :=
  db_call (fun _ => CCloseActionAdmission processID instanceID).
Definition MarkContainmentEmpty : Prog (option error) :=
  db_call (fun _ => CMarkContainmentEmpty processID instanceID).
Definition MarkLocalClosed : Prog (option error) :=
  db_call (fun _ => CMarkLocalClosed processID instanceID).
Definition FreezeTerminalReport (report : Report) : Prog (option error) :=
  db_call (fun uuid => CFreezeTerminalReport processID instanceID uuid report).
Definition FreezeStartedReport_ (report : Report) : Prog (option error) :=
  db_call (fun uuid => CFreezeStartedReport processState uuid report).
Definition FreezeActionReport (actionID : string) (report : Report) : Prog (option error) :=
  db_call (fun uuid => CFreezeActionReport processID instanceID uuid actionID report).

(** The loop of [retrySupervisorStateWrite]; [sleeps] pauses pass before the context
    ends. *)
Fixpoint retry_write (sleeps : nat) (write : Prog (option error)) : Prog (option error) :=
  err ← write;
  match err with
  | None => mret None
  | Some e =>
      if errors_Is e (SState ErrStateConflict) || errors_Is e (SState ErrSupervisorIdentityMismatch)
         || errors_Is e (SState ErrFull)
      then mret (Some e)
      else match sleeps with
           | O => mret (errors_Join [Some e; Some [SContext]])
           | S n => retry_write n write
           end
  end.

Definition retrySupervisorStateWrite (write : Prog (option error)) : Prog (option error) :=
  sleeps ← os Draw; retry_write sleeps write.

Definition markStorageExhaustionReady : Prog unit := set_mu UStorageExhaustionReady.

(** The runner is closed for good; [Some e]: its containment could not be. *)
Definition close_exhausted_runner (r : nat) : Prog (option error) :=
  CloseInput r;;
  x ← eff (ReadRunner r);
  if never_started x then os (OutputClose r);; mret None
  else
    closure ← terminateAndReapProcessCommand r;
    containmentErr ← (match cr_ContainmentErr closure with
                      | None => releaseProcessCommand r
                      | Some e => mret (Some e)
                      end);
    match containmentErr with
    | Some e => mret (Some e)
    | None => waitOutputDrain r;; mret None
    end.

Definition closeForStorageExhaustion : Prog error :=
  locked LEffect (
    m ← with_mu id;
    if m_storageExhaustionReady m then mret [SStorageExhaustionTerminalReady]
    else
      failed ← (match m_prepared m with Some r => close_exhausted_runner r | None => mret None end);
      match failed with
      | Some e => mret e
      | None => markStorageExhaustionReady;; mret [SStorageExhaustionTerminalReady]
      end).

Definition autonomousStateWrite (write : Prog (option error)) : Prog (option error) :=
  read_locked LRecon (
    ready ← with_mu m_storageExhaustionReady;
    if ready : bool then mret (Some [SStorageExhaustionTerminalReady])
    else
      err ← retrySupervisorStateWrite write;
      match err with
      | Some e => if isStorageExhaustion e then e' ← closeForStorageExhaustion; mret (Some e')
                  else mret (Some e)
      | None => mret None
      end).

Definition markLocallyClosed : Prog unit := set_mu ULocalClosed;; eff Shutdown.

Definition autonomousLocalClosure : Prog unit :=
  err ← autonomousStateWrite MarkLocalClosed;
  match err with None => markLocallyClosed | Some _ => mret tt end.

(** ** Terminal reports *)

Definition report_for (actionID : string) (kind : ReportKind) (body : string) : Report :=
  mkReport "" processID actionID kind body ReportStateUnset "" "".

Definition processTerminalReport (exit : processRunnerExit) (result : string) (r : option nat)
    : Prog (error + Report) :=
  startedAt ← (match r with
               | Some r => x ← eff (ReadRunner r); mret (lr_startedAt x)
               | None => mret 0
               end);
  let event := mkReportedEvent EventProcessFinished processID "" (ex_State exit) (ex_ExitCode exit)
    (ex_ExitSignal exit) (ex_StateReasonCode exit) (ex_StateReasonMessage exit) result startedAt
    (ex_EndedAt exit) 0 in
  mret (match marshal_event event with
        | None => inl (failure "json")
        | Some body => inr (report_for "" ReportProcessTerminal body)
        end).

Definition recordOutputCaptureFailure (exit : processRunnerExit) (err : error) : processRunnerExit :=
  let '(code, message) :=
    if ex_StateReasonCode exit ==? ""
    then ("output_capture_failed",
          if ex_StateReasonMessage exit ==? "" then error_text err else ex_StateReasonMessage exit)
    else
      let detail := "output capture failed: " +:+ error_text err in
      (ex_StateReasonCode exit,
       if ex_StateReasonMessage exit ==? "" then detail
       else ex_StateReasonMessage exit +:+ "; " +:+ detail) in
  mkExit (ex_State exit) (ex_ExitCode exit) (ex_ExitSignal exit) code message
    (errors_Join [ex_WaitErr exit; Some err]) (ex_EndedAt exit).

(** [marshalJSON]'s error is dropped: the result is then empty. *)
Definition captureTerminalResult (r : option nat) (exit : processRunnerExit)
    (captureErr : option error) : Prog (string * processRunnerExit) :=
  read ← (match r with
          | Some r => os (OutputSlice r)
          | None => mret ("", 0, 0, false, None)
          end);
  let '(output, start, next, truncated, readErr) := read in
  let captureErr := match captureErr with Some e => Some e | None => readErr end in
  let '(truncated, exit) :=
    match captureErr with
    | Some e => (true, recordOutputCaptureFailure exit e)
    | None => (truncated, exit)
    end in
  mret (default "" (marshal_observed (mkObserved None (ex_State exit) (ex_ExitCode exit) output start
          next truncated true (processTerminalErrorMessage exit))), exit).

(** ** Watching the process *)

(** The loop of [retryContainmentClosure]. *)
Fixpoint retry_closure (sleeps : nat) (r : nat) : Prog (option error) :=
  ended ← os CtxErr;
  match ended with
  | Some e => mret (Some e)
  | None =>
      closeErr ← closeProcessCommandContainment r;
      closeErr ← (match closeErr with None => releaseProcessCommand r | Some e => mret (Some e) end);
      match closeErr with
      | None => mret None
      | Some _ => match sleeps with O => mret (Some [SContext]) | S n => retry_closure n r end
      end
  end.

Definition retryContainmentClosure (r : nat) : Prog (option error) :=
  sleeps ← os Draw; retry_closure sleeps r.

(** From the frozen terminal report on. *)
Definition settle_terminal (r : nat) (containmentClosed : bool) : Prog unit :=
  closed ← (if containmentClosed then mret None
            else
              err ← retryContainmentClosure r;
              match err with
              | Some e => mret (Some e)
              | None => waitOutputDrain r;; mret None
              end);
  match closed with
  | Some _ => mret tt
  | None =>
      err ← autonomousStateWrite MarkContainmentEmpty;
      match err with
      | Some _ => mret tt
      | None => autonomousLocalClosure
      end
  end.

(** Exit of a process whose containment was not closed. *)
Definition containment_failed (exit : processRunnerExit) (err : error) : processRunnerExit :=
  mkExit ProcessStateUnknown None (ex_ExitSignal exit) "containment_close_failed" (error_text err)
    (errors_Join [ex_WaitErr exit; Some err]) 0.

Definition with_end (exit : processRunnerExit) (endedAt : Time) : processRunnerExit :=
  mkExit (ex_State exit) (ex_ExitCode exit) (ex_ExitSignal exit) (ex_StateReasonCode exit)
    (ex_StateReasonMessage exit) (ex_WaitErr exit) endedAt.

(** From the published result on. *)
Definition freeze_terminal (r : nat) (exit : processRunnerExit) (result : string)
    (waitForStarted containmentClosed : bool) : Prog unit :=
  started ← (if waitForStarted then eff (Wait ChStarted) else mret true);
  if negb started then mret tt
  else
    report ← processTerminalReport exit result (Some r);
    match report with
    | inl _ => mret tt
    | inr report =>
        err ← autonomousStateWrite (FreezeTerminalReport report);
        match err with
        | Some _ => mret tt
        | None => settle_terminal r containmentClosed
        end
    end.

Definition finishTerminalRunner (r : nat) (exit : processRunnerExit) (containmentErr : option error)
    (waitForStarted : bool) : Prog unit :=
  containmentErr ← (match containmentErr with
                    | None => releaseProcessCommand r
                    | Some e => mret (Some e)
                    end);
  let containmentClosed := bool_decide (containmentErr = None) in
  outputErr ← (if containmentClosed then waitOutputDrain r else mret None);
  if containmentClosed
     && match outputErr with Some e => isStorageExhaustion e | None => false end
  then markStorageExhaustionReady
  else
    exit ← (match containmentErr with
            | Some e => mret (containment_failed exit e)
            | None =>
                if Time_IsZero (ex_EndedAt exit)
                then now ← sourceTimeNow r; mret (with_end exit now) else mret exit
            end);
    captured ← captureTerminalResult (Some r) exit outputErr;
    let '(result, exit) := captured in
    publishTerminalResult r exit;;
    freeze_terminal r exit result waitForStarted containmentClosed.

Definition observeProcessExit (r : nat) : Prog unit :=
  observationErr ← waitProcessCommandLeaderExit r;
  eff (RLock LRecon);;
  lock LEffect;;
  retrySupervisorStateWrite CloseActionAdmission;;
  eff (RUnlock LRecon);;
  closure ← closeAndReapProcessCommand r observationErr;
  unlock LEffect;;
  exit ← exitFromWait r (cr_WaitErr closure) "";
  finishTerminalRunner r exit (cr_ContainmentErr closure) true.

(** [finishStartWithoutExactOutcome] without a runner. *)
Definition finish_without_runner (exit : processRunnerExit) (containmentKnownEmpty : bool) : Prog unit :=
  autonomousStateWrite CloseActionAdmission;;
  captured ← captureTerminalResult None exit None;
  let '(result, exit) := captured in
  report ← processTerminalReport exit result None;
  match report with
  | inl _ => mret tt
  | inr report =>
      autonomousStateWrite (FreezeTerminalReport report);;
      if containmentKnownEmpty
      then autonomousStateWrite MarkContainmentEmpty;; autonomousLocalClosure
      else mret tt
  end.

Definition finishStartWithoutExactOutcome (r : option nat) (exit : processRunnerExit)
    (containmentKnownEmpty : bool) : Prog unit :=
  match r with
  | None => finish_without_runner exit containmentKnownEmpty
  | Some r =>
      eff (RLock LRecon);;
      lock LEffect;;
      retrySupervisorStateWrite CloseActionAdmission;;
      eff (RUnlock LRecon);;
      closure ← terminateAndReapProcessCommand r;
      unlock LEffect;;
      let exit := mkExit (ex_State exit) (ex_ExitCode exit) (ex_ExitSignal exit)
        (ex_StateReasonCode exit) (ex_StateReasonMessage exit)
        (errors_Join [ex_WaitErr exit; cr_WaitErr closure]) (ex_EndedAt exit) in
      finishTerminalRunner r exit (cr_ContainmentErr closure) false
  end.

(** ** The initial observation *)

Definition observation (assignment : ProcessAssignment) (r : nat) (output : string)
    (start next : Z) (truncated : bool) (observationErr : option error) (finished : bool)
    : Prog (option string * Time * bool) :=
  let '(truncated, message) :=
    match observationErr with
    | Some e => (true, "process started, but its initial output could not be read: " +:+ error_text e)
    | None => (truncated, "")
    end in
  result ← (if finished then
              exit ← terminalResult r;
              mret (mkObserved (Some (as_ID assignment))
                      (if bool_decide (ex_State exit = no_state) then ProcessStateUnknown else ex_State exit)
                      (ex_ExitCode exit) output start next truncated finished
                      (processTerminalErrorMessage exit))
            else mret (mkObserved (Some (as_ID assignment)) ProcessStateRunning None output start next
                         truncated finished message));
  observedAt ← sourceTimeNow r;
  mret (marshal_observed result, observedAt, finished).

(** The loop of [initialProcessObservation]; [None]: the context ended. *)
Fixpoint observe_initial (sleeps : nat) (assignment : ProcessAssignment) (r : nat)
    : Prog (option (option string * Time * bool)) :=
  ended ← os CtxErr;
  match ended with
  | Some _ => mret None
  | None =>
      read ← os (OutputSlice r);
      let '(output, start, next, truncated, observationErr) := read in
      finished ← hasTerminalResult r;
      early ← os BeforeDeadline;
      if (output <>? "") || finished || bool_decide (is_Some observationErr)
         || (wrap64 (as_WaitMs assignment * 1000000) <=? 0) || negb early
      then o ← observation assignment r output start next truncated observationErr finished;
           mret (Some o)
      else match sleeps with O => mret None | S n => observe_initial n assignment r end
  end.

Definition initialProcessObservation (assignment : ProcessAssignment) (r : nat)
    : Prog (option (option string * Time * bool)) :=
  sleeps ← os Draw; observe_initial sleeps assignment r.

Definition freezeInitialObservation (r : nat) : Prog unit :=
  assignment ← eff PeekAssignment;
  o ← initialProcessObservation assignment r;
  (match o with
   | Some (Some result, observedAt, false) =>
       x ← eff (ReadRunner r);
       match marshal_event (mkReportedEvent EventProcessStarted (as_ID assignment) "" no_state None ""
               "" "" result (lr_startedAt x) 0 observedAt) with
       | None => mret tt
       | Some body =>
           autonomousStateWrite
             (FreezeStartedReport_ (mkReport "" (as_ID assignment) "" ReportProcessStarted body
                ReportStateUnset "" ""));;
           mret tt
       end
   | _ => mret tt
   end);;
  eff (CloseChan ChStarted).

Definition enforceTimeout (r : nat) (timeout : Z) : Prog unit :=
  fired ← os (AwaitTimeout r timeout);
  if negb fired then mret tt
  else
    over ← hasTerminalResult r;
    if over : bool then mret tt
    else
      setTerminalOverride r (override ProcessStateFailed "timeout"
        "process exceeded its configured timeout");;
      terminate_runner ByItself r;;
      mret tt.

(** ** Preparing and starting *)

Definition prepared_runner (startErr : option error) (cmd pty : bool) : LocalRunner :=
  mkLocalRunner cmd None startErr 0 pty false exit_zero false exit_zero.

(** [pty]: the runner's mode has been set. *)
Definition preparedRunnerWithStartFailure (pty : bool) (err : error) : Prog (error + nat) :=
  r ← eff (NewRunner (prepared_runner (Some err) false pty)); mret (inr r).

Definition processArgvForLocalOS (assignment : ProcessAssignment) : string + list string :=
  ResolveShellCommand (as_Command assignment) (as_ShellSelector assignment) GOOS.

(** The command of a directory that exists. *)
Definition prepare_command (assignment : ProcessAssignment) : Prog (error + nat) :=
  ended ← os CtxErr;
  match ended with
  | Some e => mret (inl e)
  | None =>
      match processArgvForLocalOS assignment with
      | inl msg => preparedRunnerWithStartFailure false (failure msg)
      | inr _ =>
          match NormalizeIOMode (as_IOMode assignment) with
          | inl msg => preparedRunnerWithStartFailure false (failure msg)
          | inr ioMode =>
              if (ioMode ==? IOModePTY) && (GOOS ==? "windows")
              then preparedRunnerWithStartFailure false
                     (failure "pty-backed processes are not supported on this platform")
              else
                supported ← os SafeObservation;
                if negb supported
                then preparedRunnerWithStartFailure (ioMode ==? IOModePTY)
                       (failure "safe process-tree exit observation is not supported on this platform")
                else r ← eff (NewRunner (prepared_runner None true (ioMode ==? IOModePTY))); mret (inr r)
          end
      end
  end.

Definition prepareLocalRunner (assignment : ProcessAssignment) : Prog (error + nat) :=
  ended ← os CtxErr;
  match ended with
  | Some e => mret (inl e)
  | None =>
      match Machine (sb_OmnaraHome bootstrap) (sb_InstallationID bootstrap) (sb_MachineID bootstrap) with
      | inl msg => mret (inl (failure msg))
      | inr machine =>
          match OutputBufferPath machine (as_ID assignment) with
          | inl msg => mret (inl (failure msg))
          | inr outputPath =>
              dirErr ← os (EnsureDir (Dir outputPath));
              match dirErr with
              | Some e => mret (inl e)
              | None =>
                  fileErr ← os (WriteOutputFile outputPath);
                  match fileErr with
                  | Some e => mret (inl e)
                  | None =>
                      if as_PreparationError assignment <>? ""
                      then r ← eff (NewRunner (prepared_runner None false false)); mret (inr r)
                      else
                        info ← os (StatDir (as_Cwd assignment));
                        match info with
                        | inl e => preparedRunnerWithStartFailure false e
                        | inr false =>
                            preparedRunnerWithStartFailure false
                              (failure "command working directory is not a directory")
                        | inr true => prepare_command assignment
                        end
                  end
              end
          end
      end
  end.

Definition prepare (payload : string) : Prog runnerResponse :=
  match unmarshal_assignment payload with
  | None => mret (refusal "json")
  | Some assignment =>
      if as_ID assignment <>? processID
      then mret (refusal "process assignment does not match supervisor")
      else
        match marshal_assignment assignment with
        | None => mret (refusal "json")
        | Some canonical =>
            locked LMu (
              m ← eff ReadMu;
              match m_prepared m with
              | Some _ =>
                  mret (if m_packageBody m ==? canonical then ok_response
                        else refusal "supervisor package conflicts with prepared package")
              | None =>
                  if bool_decide (is_Some (m_startOutcome m)) || m_ungrantedClosed m
                  then mret (refusal "supervisor can no longer prepare a launch package")
                  else
                    runner ← prepareLocalRunner assignment;
                    match runner with
                    | inl e => mret (runnerErrorResponse e)
                    | inr r => eff (WriteMu (UPackage r assignment canonical));; mret ok_response
                    end
              end)
        end
  end.

Definition with_process (pid : Z) (pty : bool) (x : LocalRunner) : LocalRunner :=
  mkLocalRunner (lr_cmd x) (Some pid) (lr_startErr x) (lr_startedAt x) (lr_ptyMode x)
    pty (lr_exit x) (lr_published x) (lr_terminal x).
Definition with_start (now : Time) (x : LocalRunner) : LocalRunner :=
  mkLocalRunner (lr_cmd x) (lr_process x) (lr_startErr x) now (lr_ptyMode x)
    (lr_outputDone x) (lr_exit x) (lr_published x) (lr_terminal x).

(** What follows a successful [Start]. *)
Definition after_start (r : nat) (pid : Z) (pty : bool)
    : Prog (option nat * processStartOutcome * option error) :=
  eff (UpdateRunner r (with_process pid pty));;
  (if pty then eff (InitStdin r) else mret tt);;
  now ← os Now;
  eff (UpdateRunner r (with_start now));;
  err ← afterStartProcessCommand r (Some pid);
  mret (match err with
        | Some e => (Some r, processAmbiguous, Some e)
        | None => (Some r, processStarted, None)
        end).

(** A command's environment is never nil: [workloadProcessEnv] builds it. *)
Definition startPreparedLocalRunner (r : nat)
    : Prog (option nat * processStartOutcome * option error) :=
  let fails e : Prog (option nat * processStartOutcome * option error) :=
    mret (None, processNotStarted, Some e) in
  x ← eff (ReadRunner r);
  if negb (lr_cmd x) then fails (failure "prepared command is missing")
  else if lr_ptyMode x then
    started ← os (StartCommand r);
    match started with
    | inl e => fails e
    | inr pid => after_start r pid true
    end
  else
    pipeErr ← os (StdinPipe r);
    match pipeErr with
    | Some e => fails e
    | None =>
        eff (InitStdin r);;
        started ← os (StartCommand r);
        match started with
        | inl e => fails e
        | inr pid => after_start r pid false
        end
    end.

Definition rememberStartOutcome (outcome : processStartOutcome) : Prog unit :=
  set_mu (UStartOutcome outcome).

Definition terminalStartResult (outcome : processStartOutcome) (state : ProcessState)
    (reason message : string) : runnerResponse * processRunnerExit :=
  (mkResponse true (Some outcome) "" runnerErrorNone, mkExit state None "" reason message None 0).

(** Remember the outcome of a start that did not succeed and report it. *)
Definition end_start (outcome : processStartOutcome) (state : ProcessState) (reason message : string)
    (runner : option nat) (containmentKnownEmpty : bool) : Prog runnerResponse :=
  let '(response, exit) := terminalStartResult outcome state reason message in
  rememberStartOutcome outcome;;
  eff (Spawn (JFinishStart runner exit containmentKnownEmpty));;
  mret response.

(** From a successful start of the command on. *)
Definition record_started (r : nat) : Prog runnerResponse :=
  containmentID ← processCommandContainmentID r;
  recorded ← db_call (fun _ => CRecordSpawned processState processContainmentKind (pretty containmentID));
  match recorded with
  | Some e =>
      if isStorageExhaustion e then set_mu (UPrepared (Some r));; mret (runnerErrorResponse e)
      else
        set_mu (UPrepared (Some r));;
        end_start processAmbiguous ProcessStateUnknown "spawn_evidence_failed" (error_text e)
          (Some r) false
  | None =>
      set_mu (UStarted r);;
      eff (Spawn (JFreezeInitial r));;
      eff (Spawn (JObserveExit r));;
      assignment ← eff PeekAssignment;
      (if 0 <? as_TimeoutSeconds assignment
       then eff (Spawn (JTimeout r (wrap64 (as_TimeoutSeconds assignment * 1000000000))))
       else mret tt);;
      mret (mkResponse true (Some processStarted) "" runnerErrorNone)
  end.

(** The command is started, if the database says so. *)
Definition authorized_start (prepared : nat) : Prog runnerResponse :=
  authorized ← eff (DbWrite (fun _ => CAuthorizeSpawnOnce processState));
  match authorized with
  | inl e => mret (runnerErrorResponse e)
  | inr (OSpawn true) =>
      started ← startPreparedLocalRunner prepared;
      let '(runner, outcome, startErr) := started in
      match startErr, runner with
      | Some e, _ =>
          if isStorageExhaustion e
          then set_mu (UPrepared runner);; mret (runnerErrorResponse e)
          else
            set_mu (UPrepared runner);;
            end_start outcome
              (if outcome ==? processAmbiguous then ProcessStateUnknown else ProcessStateFailed)
              (if outcome ==? processAmbiguous then "spawn_outcome_ambiguous" else "start_failed")
              (error_text e) runner (outcome ==? processNotStarted)
      | None, Some r => record_started r
      | None, None => mret (refusal "unreachable")
      end
  | inr _ =>
      end_start processAmbiguous ProcessStateUnknown "execution_boundary_already_committed"
        "execution was already committed without live start state" None false
  end.

Definition startOnce : Prog runnerResponse :=
  locked LStart (
    m ← with_mu id;
    if m_storageExhaustionReady m
    then mret (runnerErrorResponse [SStorageExhaustionTerminalReady])
    else
      match m_startOutcome m with
      | Some outcome => mret (mkResponse true (Some outcome) "" runnerErrorNone)
      | None =>
          if m_ungrantedClosed m then mret (refusal "ungranted supervisor preparation is closed")
          else
            match m_prepared m with
            | None => mret (refusal "supervisor is not prepared")
            | Some prepared =>
                x ← eff (ReadRunner prepared);
                match lr_startErr x with
                | Some e => if isStorageExhaustion e then mret (Some e) else mret None
                | None => mret None
                end ≫= fun exhausted =>
                match exhausted with
                | Some e => mret (runnerErrorResponse e)
                | None =>
                    assignment ← eff PeekAssignment;
                    let startError :=
                      if as_PreparationError assignment <>? "" then as_PreparationError assignment
                      else match lr_startErr x with Some e => error_text e | None => "" end in
                    if startError <>? "" then
                      os (OutputClose prepared);;
                      end_start processNotStarted ProcessStateFailed "start_failed" startError None true
                    else authorized_start prepared
                end
            end
      end).

(** ** Actions *)

Record processActionResult : Type := mkActionResult {
  ar_EventType : ReportedEventType;
  ar_StateReasonCode : string;
  ar_StateReasonMessage : string
}.

Definition unknownActionResult (code message : string) : processActionResult :=
  mkActionResult EventProcessActionUnknown code message.
Definition failedActionResult (code message : string) : processActionResult :=
  mkActionResult EventProcessActionFailed code message.

Definition terminalProcessActionResult (action : ProcessAction) : processActionResult :=
  if pa_ActionKind action <>? KindTerminate
  then failedActionResult "process_not_running" "the process is already terminal"
  else mkActionResult EventProcessActionApplied "already_stopped" "".

Definition preflightActionResult (action : ProcessAction) (ioMode : IOMode)
    : option processActionResult :=
  let invalid msg := Some (failedActionResult "invalid_payload" msg) in
  match pa_ActionKind action with
  | KindWrite =>
      match DecodeWritePayload (pa_Payload action) with
      | inl msg => invalid msg
      | inr payload =>
          if wp_CloseStdin payload && (ioMode ==? IOModePTY)
          then Some (failedActionResult "not_supported"
                       "close_stdin is not supported for PTY-backed processes")
          else None
      end
  | KindInterrupt | KindTerminate =>
      match DecodeEmptyPayload (pa_Payload action) with
      | inl msg => invalid msg
      | inr _ => None
      end
  | _ => invalid "unsupported process action kind"
  end.

Definition validRunnerActionKind (kind : Kind) : bool :=
  match kind with
  | KindWrite | KindInterrupt | KindTerminate => true
  | _ => false
  end.

Definition localAction (action : ProcessAction) : Action :=
  mkAction (pa_ID action) processID (pa_ActionKind action) (pa_Seq action) false.

Definition actionReport (action : ProcessAction) (result : processActionResult) : error + Report :=
  match marshal_event (mkReportedEvent (ar_EventType result) processID (pa_ID action) no_state None ""
          (ar_StateReasonCode result) (ar_StateReasonMessage result) "" 0 0 0) with
  | None => inl (failure "json")
  | Some body => inr (report_for (pa_ID action) ReportActionTerminal body)
  end.

Definition freezeActionResult (action : ProcessAction) (result : processActionResult)
    : Prog (option error) :=
  match actionReport action result with
  | inl e => mret (Some e)
  | inr report => retrySupervisorStateWrite (FreezeActionReport (pa_ID action) report)
  end.

Definition cause_of (action : ProcessAction) : Cause := ByAction (pa_ID action) (pa_Seq action).

(** The effect of a write: the data, then the end of input. *)
Definition apply_write (action : ProcessAction) (r : nat) : Prog processActionResult :=
  match DecodeWritePayload (pa_Payload action) with
  | inl msg => mret (failedActionResult "invalid_payload" msg)
  | inr payload =>
      writeErr ← (if wp_Data payload <>? "" then WriteInput (cause_of action) r (wp_Data payload)
                  else mret None);
      match writeErr with
      | Some e => mret (unknownActionResult "stdin_write_unknown" (error_text e))
      | None =>
          closeErr ← (if wp_CloseStdin payload then CloseInput r else mret None);
          mret (match closeErr with
                | Some e => unknownActionResult "stdin_close_unknown" (error_text e)
                | None => mkActionResult EventProcessActionApplied "" ""
                end)
      end
  end.

Definition applyLiveAction (action : ProcessAction) : Prog processActionResult :=
  let applied := mkActionResult EventProcessActionApplied "" "" in
  let unavailable := unknownActionResult "runner_unavailable"
    "the accepted action has no live process runner" in
  prepared ← with_mu m_prepared;
  match prepared with
  | None => mret unavailable
  | Some r =>
      x ← eff (ReadRunner r);
      if never_started x then mret unavailable
      else
        over ← hasTerminalResult r;
        if over : bool then mret (terminalProcessActionResult action)
        else
          match pa_ActionKind action with
          | KindWrite => apply_write action r
          | KindInterrupt =>
              err ← Interrupt (cause_of action) r;
              mret (match err with
                    | None => applied
                    | Some e =>
                        if errors_Is e errInterruptUnsupported
                        then failedActionResult "not_supported" (error_text e)
                        else unknownActionResult "interrupt_unknown" (error_text e)
                    end)
          | KindTerminate =>
              err ← terminateForAction (cause_of action) r;
              mret (match err with
                    | None => applied
                    | Some e => unknownActionResult "terminate_unknown" (error_text e)
                    end)
          | _ => mret (failedActionResult "unsupported_action" "unsupported process action kind")
          end
  end.

Definition finishNoEffectDecision (action : ProcessAction) (decision : NoEffectDecision)
    : Prog (option error) :=
  match decision with
  | NoEffectRecorded | NoEffectAlreadyReported | NoEffectAlreadyResolved => mret None
  | NoEffectLostToApply =>
      freezeActionResult action (unknownActionResult "action_outcome_unknown"
        "the action crossed its effect boundary before the no-effect outcome was recorded")
  | NoEffectBlocked => mret (Some [SState ErrActionBlocked])
  | NoEffectAdmissionClosed => mret (Some [SState ErrStateConflict])
  end.

(** [processState.RecordActionWithoutEffect] *)
Definition RecordWithoutEffect (action : ProcessAction) (report : Report)
    : Prog (error + NoEffectDecision) :=
  r ← eff (DbWrite (fun uuid =>
        CRecordActionWithoutEffect processState uuid (localAction action) report));
  mret (match r with
        | inl e => inl e
        | inr (ONoEffect decision _) => inr decision
        | inr _ => inl (failure "unreachable")
        end).

Definition recordActionWithoutEffect (action : ProcessAction) (result : processActionResult)
    : Prog (option error) :=
  match actionReport action result with
  | inl e => mret (Some e)
  | inr report =>
      r ← locked LEffect (RecordWithoutEffect action report);
      match r with
      | inl e => mret (Some e)
      | inr decision => finishNoEffectDecision action decision
      end
  end.

(** The part of [runApplyOnce] under [effectBoundaryMu]: the decision, with the
    result of the live action or the decision about one without effect. *)
Inductive Admission : Type :=
  | Executed (result : processActionResult)
  | NotExecuted (decision : ApplyDecision)
  | WithoutEffect (decision : NoEffectDecision).

Definition admit_action (action : ProcessAction) : Prog (error + Admission) :=
  locked LEffect (
    storageReady ← with_mu m_storageExhaustionReady;
    if storageReady : bool then mret (inl [SRunnerStorageExhaustion])
    else
      r ← eff (DbWrite (fun _ => CApplyOnce processState (localAction action)));
      match r with
      | inl e => mret (inl e)
      | inr (OApply ApplyExecute _) =>
          result ← applyLiveAction action; mret (inr (Executed result))
      | inr (OApply ApplyAdmissionClosed _) =>
          match actionReport action (terminalProcessActionResult action) with
          | inl e => mret (inl e)
          | inr report =>
              noEffect ← RecordWithoutEffect action report;
              mret (match noEffect with inl e => inl e | inr d => inr (WithoutEffect d) end)
          end
      | inr (OApply decision _) => mret (inr (NotExecuted decision))
      | inr _ => mret (inl (failure "unreachable"))
      end).

Definition runApplyOnce (action : ProcessAction) : Prog (option error) :=
  assignment ← eff PeekAssignment;
  match preflightActionResult action (as_IOMode assignment) with
  | Some preflight => recordActionWithoutEffect action preflight
  | None =>
      admission ← admit_action action;
      match admission with
      | inl e => mret (Some e)
      | inr (Executed result) => freezeActionResult action result
      | inr (NotExecuted ApplyAlreadyReported) | inr (NotExecuted ApplyAlreadyResolved) => mret None
      | inr (NotExecuted ApplyOutcomeUnknown) =>
          freezeActionResult action (unknownActionResult "action_outcome_unknown"
            "the action crossed its effect boundary without durable result evidence")
      | inr (NotExecuted ApplyBlocked) => mret (Some [SState ErrActionBlocked])
      | inr (WithoutEffect decision) => finishNoEffectDecision action decision
      | inr (NotExecuted _) => mret (Some (failure "invalid local action decision"))
      end
  end.

(** [(call, first)], or the refusal. *)
Definition actionCall (action : ProcessAction) : Prog (string + (nat * bool)) :=
  if (pa_ID action ==? "") || (pa_Seq action <=? 0) || negb (validRunnerActionKind (pa_ActionKind action))
  then mret (inl "valid process action identity is required")
  else
    locked LMu (
      m ← eff ReadMu;
      match m_inflight m !! pa_ID action with
      | Some existing =>
          call ← eff (ReadCall existing);
          let other := ca_action call in
          if (pa_ActionKind other <>? pa_ActionKind action) || (pa_Seq other <>? pa_Seq action)
             || (pa_Payload other <>? pa_Payload action)
          then mret (inl "process action identity changed")
          else mret (inr (existing, false))
      | None =>
          call ← eff (NewCall action);
          eff (WriteMu (UInflight (pa_ID action) call));;
          mret (inr (call, true))
      end).

Definition finishActionCall (actionID : string) (call : nat) : Prog unit :=
  set_mu (UForgetCall actionID call).

(** [json.Unmarshal] refuses a sequence number that is not an [int64]. *)
Definition decode_action (payload : string) : option ProcessAction :=
  match unmarshal_action payload with
  | Some action => if bool_decide (is_int64 (pa_Seq action)) then Some action else None
  | None => None
  end.

Definition applyOnce (payload : string) : Prog runnerResponse :=
  match decode_action payload with
  | None => mret (refusal "json")
  | Some action =>
      r ← actionCall action;
      match r with
      | inl msg => mret (refusal msg)
      | inr (call, true) =>
          err ← runApplyOnce action;
          eff (SetCallErr call err);;
          eff (CloseChan (ChCall call));;
          finishActionCall (pa_ID action) call;;
          mret (match err with Some e => runnerErrorResponse e | None => ok_response end)
      | inr (call, false) =>
          done ← eff (Wait (ChCall call));
          if negb done then mret (refusal "context")
          else
            c ← eff (ReadCall call);
            mret (match ca_err c with Some e => runnerErrorResponse e | None => ok_response end)
      end
  end.

(** ** Closing and terminating *)

Definition closeUngranted : Prog runnerResponse :=
  locked LStart (
    process ← eff DbProcess;
    match process with
    | inl e => mret (runnerErrorResponse e)
    | inr process =>
        if p_ExecCommitted process || (p_Phase process ==? ProcessAccepted)
           || (p_Phase process ==? ProcessTerminal)
        then mret (refusal "execution grant has already been accepted")
        else
          runner ← locked LMu (
            m ← eff ReadMu; eff (WriteMu UUngrantedClosed);; mret (m_prepared m));
          (match runner with Some r => os (OutputClose r);; mret tt | None => mret tt end);;
          eff Shutdown;;
          mret ok_response
    end).

(** [terminate] without a started process. *)
Definition terminate_unstarted (startOutcome : option processStartOutcome) (reason : string)
    : Prog runnerResponse :=
  process ← eff DbProcess;
  match process with
  | inl e => mret (runnerErrorResponse e)
  | inr process =>
      if (p_Phase process ==? ProcessTerminal)
         || match startOutcome with Some o => o <>? processStarted | None => false end
      then mret ok_response
      else if (p_Phase process ==? ProcessAccepted) && negb (p_ExecCommitted process)
      then
        end_start processNotStarted ProcessStateUnknown reason
          "the accepted process was administratively closed before execution" None true;;
        mret ok_response
      else mret (refusal "process has not started")
  end.

Definition ProcessReasonMachineStorageExhausted : string := "machine_storage_exhausted".

Definition terminate (payload : string) : Prog runnerResponse :=
  locked LStart (
    match (if payload ==? "" then Some "" else unmarshal_reason payload) with
    | None => mret (refusal "json")
    | Some reason =>
        let reason := if reason ==? "" then "machine_deleted" else reason in
        if reason ==? ProcessReasonMachineStorageExhausted
        then e ← closeForStorageExhaustion; mret (runnerErrorResponse e)
        else
          m ← with_mu id;
          if m_storageExhaustionReady m then eff Shutdown;; mret ok_response
          else
            match m_prepared m with
            | None => terminate_unstarted (m_startOutcome m) reason
            | Some r =>
                x ← eff (ReadRunner r);
                if never_started x then terminate_unstarted (m_startOutcome m) reason
                else
                  setTerminalOverride r (override ProcessStateUnknown reason
                    "the local process supervisor was administratively terminated");;
                  err ← terminate_runner ByItself r;
                  mret (match err with Some e => runnerErrorResponse e | None => ok_response end)
            end
    end).

(** ** Requests *)

Definition status : Prog runnerResponse :=
  ready ← with_mu m_storageExhaustionReady;
  if ready : bool then mret (runnerErrorResponse [SStorageExhaustionTerminalReady])
  else
    process ← eff DbProcess;
    mret (match process with inl e => runnerErrorResponse e | inr _ => ok_response end).

Definition handle (request : runnerRequest) : Prog runnerResponse :=
  let guarded (p : Prog runnerResponse) : Prog runnerResponse :=
    response ← p;
    if rs_ErrorCode response ==? runnerErrorStorageExhaustion
    then e ← closeForStorageExhaustion; mret (runnerErrorResponse e)
    else mret response in
  match rq_Method request with
  | runnerMethodStatus => status
  | runnerMethodPrepare => prepare (rq_Payload request)
  | runnerMethodStartOnce => guarded startOnce
  | runnerMethodApplyOnce => guarded (applyOnce (rq_Payload request))
  | runnerMethodCloseUngranted => closeUngranted
  | runnerMethodTerminate => guarded (terminate (rq_Payload request))
  | _ => mret (refusal "unsupported supervisor method")
  end.

Definition runnerMethodMutates (method : runnerMethod) : bool :=
  match method with
  | runnerMethodPrepare | runnerMethodStartOnce | runnerMethodApplyOnce
  | runnerMethodCloseUngranted | runnerMethodTerminate => true
  | _ => false
  end.

Definition identity_refusal (message : string) : runnerResponse :=
  mkResponse false None message runnerErrorSupervisorIdentityMismatch.

(** The loop of [serveRunnerReconciliationConn]: at most [requests] arrive before the
    connection ends. *)
Fixpoint serve_session (requests : nat) : Prog unit :=
  next ← os ReadRequest;
  match next with
  | inl _ => mret tt
  | inr next =>
      if (rq_SupervisorInstanceID next <>? instanceID)
         || (rq_SupervisorToken next <>? sb_SupervisorToken bootstrap)
      then os (WriteResponse (identity_refusal "supervisor reconciliation identity changed"));; mret tt
      else
        match rq_Method next with
        | runnerMethodBeginReconciliation =>
            os (WriteResponse (refusal "supervisor reconciliation is already active"));; mret tt
        | _ =>
            response ← handle next;
            err ← os (WriteResponse response);
            match err, requests with
            | None, S n => serve_session n
            | _, _ => mret tt
            end
        end
  end.

Definition serveRunnerReconciliationConn : Prog unit :=
  locked LRecon (
    response ← status;
    err ← os (WriteResponse response);
    match err with
    | Some _ => mret tt
    | None => requests ← os Draw; serve_session requests
    end).

Definition serveRunnerConn : Prog unit :=
  request ← os ReadRequest;
  match request with
  | inl e => os (WriteResponse (refusal (error_text e)));; mret tt
  | inr request =>
      if rq_SupervisorInstanceID request <>? instanceID
      then os (WriteResponse (identity_refusal "supervisor instance ID mismatch"));; mret tt
      else if rq_SupervisorToken request <>? sb_SupervisorToken bootstrap
      then os (WriteResponse (identity_refusal "supervisor token mismatch"));; mret tt
      else
        match rq_Method request with
        | runnerMethodBeginReconciliation => serveRunnerReconciliationConn
        | _ =>
            let serve : Prog unit :=
              response ← handle request; os (WriteResponse response);; mret tt in
            if runnerMethodMutates (rq_Method request) then read_locked LRecon serve else serve
        end
  end.

(** ** The main thread *)

Definition stopForSupervisorExit : Prog (option error) :=
  m ← with_mu id;
  match m_prepared m with
  | None => mret None
  | Some r =>
      if m_localClosed m || m_ungrantedClosed m || m_storageExhaustionReady m then mret None
      else
        x ← eff (ReadRunner r);
        if never_started x then mret None
        else
          setTerminalOverride r (override ProcessStateUnknown "supervisor_shutdown"
            "the local process supervisor stopped");;
          terminate_runner ByItself r
  end.

Definition safeToRemoveLock : Prog bool := with_mu m_localClosed.

(** [serveCommandSupervisor]: connections are accepted by [MAccept]. *)
Definition serveCommandSupervisor : Prog (option error) :=
  acceptErr ← eff WaitShutdown;
  eff Shutdown;;
  eff WaitConnections;;
  stopErr ← stopForSupervisorExit;
  mret (errors_Join [acceptErr; stopErr]).

(** [runCommandSupervisor] from the listening socket on. *)
Definition runCommandSupervisor : Prog (option error) :=
  resultErr ← serveCommandSupervisor;
  os CloseListener;;
  cleanupErr ← os RemoveEndpoint;
  safe ← safeToRemoveLock;
  lockErr ← (if safe : bool then os RemoveLifetimeLock else os ReleaseLifetimeLock);
  closeErr ← os CloseDatabase;
  mret (errors_Join [resultErr; cleanupErr; lockErr; closeErr]).

Definition body (j : Job) : Prog unit :=
  match j with
  | JMain => runCommandSupervisor;; mret tt
  | JConn => serveRunnerConn
  | JFreezeInitial r => freezeInitialObservation r
  | JObserveExit r => observeProcessExit r
  | JFinishStart r exit known => finishStartWithoutExactOutcome r exit known
  | JTimeout r timeout => enforceTimeout r timeout
  end.

(** A supervisor that runs from database [db] through the moves [l]. *)
Definition supervise (l : list Move) (db : DB) : Sys :=
  execute processState body l (boot body db).
End Supervisor.
