(* ===== verification/SupervisorLogic.v ===== *)
(** * A program logic for the supervisor's threads

    [pre] says what a thread must hold or know when it performs an effect, [post]
    (SupervisorWorld.v) what it holds and knows afterwards.  [wp p g Q] says that the
    program [p], run by a thread in state [g], respects [pre] at every step whatever
    the other threads and the environment answer, and ends in [Q].

    Locks are ordered by [rank]; a thread takes a lock, or waits for a channel, only
    above everything it holds.  Functions that neither change what is held nor use up
    a permission are [calm]; the rules for [calm] follow the structure of programs. *)
From S2P Require Import Prelude GoStrings DaemonProtocol ProcessCmd DaemonMessages LocalPaths StateSchema StateQueries.
From S2P Require Import StateTx StateReport StateProcess StateAction StateTrace ClientWorld Reconciliation.
From S2P Require Import SupervisorWorld ProcessGroup Supervisor.
From stdpp Require Import options.
Local Open Scope Z_scope.

(** ** Conditions on effects *)

Definition rank (l : LockId) : nat :=
  match l with
  | LRecon => 1 | LStart => 2 | LEffect => 4 | LStdin _ => 5 | LGroup _ => 6 | LMu => 7
  end.
Definition chan_rank (c : Chan) : nat := match c with ChStarted => 0 | ChCall _ => 3 end.

(** Everything the thread holds or owes is below [n]. *)
Definition above (n : nat) (g : Ghost) : Prop :=
  Forall (fun lm => rank lm.1 < n)%nat (gh_held g) /\ Forall (fun c => chan_rank c < n)%nat (gh_owes g).

Definition writes (l : LockId) (g : Ghost) : Prop := (l, Writing) ∈ gh_held g.
Definition reads (l : LockId) (g : Ghost) : Prop := (l, Reading) ∈ gh_held g \/ writes l g.

(** A process is touched for an action only between its admission and the end of
    its effect; [once]: and only if that has not happened. *)
Definition caused (why : Cause) (once : bool) (g : Ghost) : Prop :=
  match why with
  | ByAction id seq =>
      writes LEffect g /\ gh_action g = Some (id, seq) /\ (once = true -> gh_unused g = true)
  | ByItself => once = false
  end.

Section Pre.
Context (sup : Supervisor).

(** The calls of this supervisor are about its own process. *)
Definition own_call (c : Cmd) : Prop :=
  match c with
  | CAuthorizeSpawnOnce s | CRecordSpawned s _ _ | CApplyOnce s _
  | CRecordActionWithoutEffect s _ _ _ | CFreezeStartedReport s _ _ => s = sup
  | CCloseActionAdmission pid i | CMarkContainmentEmpty pid i | CMarkLocalClosed pid i
  | CFreezeActionReport pid i _ _ _ | CFreezeTerminalReport pid i _ _ =>
      pid = sv_processID sup /\ i = sv_supervisorInstanceID sup
  | _ => False
  end.

Definition db_pre (c : Cmd) (g : Ghost) : Prop :=
  wf_cmd c /\ own_call c /\ reads LRecon g
  /\ match c with
     | CApplyOnce _ _ => writes LEffect g /\ gh_unused g = false
     | CMarkContainmentEmpty _ _ =>
         match gh_watch g with Some r => r ∈ gh_reaped g | None => True end
     | _ => True
     end.

Definition os_pre {A} (x : SysCall A) (g : Ghost) : Prop :=
  match x with
  | StartCommand _ => gh_start g = true
  | KillGroup why r _ signal =>
      writes (LGroup r) g /\ r ∈ gh_safe g
      /\ caused why (bool_decide (signal = SIGINT)) g
  | SignalLeader why r => caused why true g
  | WriteString why r _ => writes (LStdin r) g /\ caused why true g
  | ReapLeader r => writes (LGroup r) g /\ r ∈ gh_safe g
  | RemoveLifetimeLock => gh_removable g = true
  | _ => True
  end.

(** A group may be signalled exactly until its leader is reaped. *)
Definition coherent (x : unixProcessGroup) : Prop := g_signalSafe x = negb (g_reaped x).

Definition pre {A} (e : Eff A) (g : Ghost) : Prop :=
  match e with
  | Announce l | RLock l => above (rank l) g
  | Enter l =>
      exists held, gh_held g = (l, Announced) :: held /\ above (rank l) (set_held held g)
  | Unlock l =>
      writes l g /\ match l with LGroup r => r ∉ gh_dirty g | _ => True end
  | RUnlock l => (l, Reading) ∈ gh_held g
  | ReadMu => reads LMu g
  | WriteMu u =>
      writes LMu g
      /\ match u with
         | ULocalClosed => gh_closed g = true
         | UStarted _ | UStartOutcome _ => writes LStart g
         | _ => True
         end
  | PublishGroup _ x => coherent x /\ g_reaped x = false
  | ReadGroup r => writes (LGroup r) g /\ r ∈ gh_grouped g /\ r ∉ gh_dirty g
  | WriteGroup r x =>
      writes (LGroup r) g /\ r ∈ gh_grouped g /\ coherent x
      /\ (if g_signalSafe x then r ∈ gh_safe g else r ∈ gh_reaped g)
  | ReadStdinOK r | WriteStdinOK r _ => writes (LStdin r) g
  | CloseChan c => c ∈ gh_owes g
  | Wait ChStarted => above (chan_rank ChStarted) g /\ gh_started g = true
  | Wait (ChCall c) => above (chan_rank (ChCall c)) g
  | Spawn JMain | Spawn JConn => False
  | Spawn (JObserveExit r) => gh_started g = true /\ r ∈ gh_grouped g
  | Spawn (JFinishStart (Some r) _ _) => r ∈ gh_grouped g
  | DbWrite c => forall uuid, db_pre (c uuid) g
  | Os x => os_pre x g
  | WaitShutdown | WaitConnections => above 0 g
  | _ => True
  end.

(** What an effect can answer. *)
Definition possible {A} (e : Eff A) (g : Ghost) : A -> Prop :=
  match e in Eff A return A -> Prop with
  | LoadContainment r => fun x => r ∈ gh_grouped g -> is_Some x
  | ReadGroup r => fun x => coherent x
  | _ => fun _ => True
  end.

Fixpoint wp {A} (p : Prog A) (g : Ghost) (Q : A -> Ghost -> Prop) : Prop :=
  match p with
  | Ret a => Q a g
  | Vis e k => pre e g /\ forall uuid a, possible e g a -> wp (k a) (post uuid e a g) Q
  end.

Lemma wp_mono {A} (p : Prog A) g (Q Q' : A -> Ghost -> Prop) :
  (forall a g, Q a g -> Q' a g) -> wp p g Q -> wp p g Q'.
Proof.
  intros HQ. revert g. induction p as [a|X e k IH]; intros g; simpl; [apply HQ|].
  intros [Hpre H]. split; [done|]. eauto.
Qed.

Lemma wp_bind {A B} (p : Prog A) (k : A -> Prog B) g Q :
  wp p g (fun a g' => wp (k a) g' Q) -> wp (p ≫= k) g Q.
Proof.
  revert g. induction p as [a|X e f IH]; intros g; simpl; [done|].
  intros [Hpre H]. split; [done|]. intros uuid a Ha. apply IH. eauto.
Qed.

Lemma wp_eff {A B} (e : Eff A) (k : A -> Prog B) g Q :
  pre e g -> (forall uuid a, possible e g a -> wp (k a) (post uuid e a g) Q) -> wp (eff e ≫= k) g Q.
Proof. by split. Qed.

(** ** Calm programs *)

(** What a calm program leaves alone: all but the permission to start. *)
Record keep (g g' : Ghost) : Prop := mkKeep {
  keep_held : gh_held g' = gh_held g;
  keep_owes : gh_owes g' = gh_owes g;
  keep_started : gh_started g = true -> gh_started g' = true;
  keep_action : gh_action g' = gh_action g;
  keep_unused : gh_unused g' = gh_unused g;
  keep_grouped r : r ∈ gh_grouped g -> r ∈ gh_grouped g';
  keep_dirty : gh_dirty g' = gh_dirty g;
  keep_reaped r : r ∈ gh_reaped g -> r ∈ gh_reaped g';
  keep_watch : gh_watch g' = gh_watch g;
  keep_closed : gh_closed g = true -> gh_closed g' = true;
  keep_removable : gh_removable g = true -> gh_removable g' = true
}.

Global Instance keep_preorder : PreOrder keep.
Proof.
  split; [by constructor|]. intros g1 g2 g3 [] []. constructor; try congruence; eauto.
Qed.

(** No action has been admitted: so it is whenever [LEffect] is not held. *)
Definition idle (g : Ghost) : Prop := gh_action g = None /\ gh_unused g = false.

Lemma idle_keep g g' : keep g g' -> idle g -> idle g'.
Proof. intros K [H1 H2]. split; [by rewrite (keep_action _ _ K)|by rewrite (keep_unused _ _ K)]. Qed.

(** What is known at a point of a program: locks held, on whose behalf a process may
    be touched, groups that exist and groups that were reaped, the process the thread
    watches, that [startedDone] will be closed. *)
Record Facts : Type := mkFacts {
  f_locks : list (LockId * Mode);
  f_cause : Cause;
  f_groups : list nat;
  f_reaped : list nat;
  f_watch : option nat;
  f_started : bool
}.
Definition locking (l : LockId) (m : Mode) (F : Facts) : Facts :=
  mkFacts ((l, m) :: f_locks F) (f_cause F) (f_groups F) (f_reaped F) (f_watch F) (f_started F).
Definition grouping (r : nat) (F : Facts) : Facts :=
  mkFacts (f_locks F) (f_cause F) (r :: f_groups F) (f_reaped F) (f_watch F) (f_started F).
Definition reaping (r : nat) (F : Facts) : Facts :=
  mkFacts (f_locks F) (f_cause F) (f_groups F) (r :: f_reaped F) (f_watch F) (f_started F).
Definition starting (F : Facts) : Facts :=
  mkFacts (f_locks F) (f_cause F) (f_groups F) (f_reaped F) (f_watch F) true.

(** There is room for locks from [n] on, and [F] is known. *)
Record at_ (n : nat) (F : Facts) (g : Ghost) : Prop := mkAt {
  at_above : above n g;
  at_dirty : gh_dirty g = [];
  at_locks : Forall (fun lm => lm ∈ gh_held g) (f_locks F);
  at_idle : (n <= rank LEffect)%nat -> idle g;
  at_caused : caused (f_cause F) false g;
  at_groups : Forall (fun r => r ∈ gh_grouped g) (f_groups F);
  at_reaped : Forall (fun r => r ∈ gh_reaped g) (f_reaped F);
  at_watch : gh_watch g = f_watch F;
  at_started : f_started F = true -> gh_started g = true
}.

Lemma caused_keep w once g g' : keep g g' -> caused w once g -> caused w once g'.
Proof.
  intros K. destruct w; simpl; [|done]. unfold writes.
  by rewrite (keep_held _ _ K), (keep_action _ _ K), (keep_unused _ _ K).
Qed.

Lemma at_keep n F g g' : keep g g' -> at_ n F g -> at_ n F g'.
Proof.
  intros K [[Hh Ho] Hd HL Hi Hc Hg Hr Hw Hs]. constructor; [split|..].
  - by rewrite (keep_held _ _ K).
  - by rewrite (keep_owes _ _ K).
  - by rewrite (keep_dirty _ _ K).
  - by rewrite (keep_held _ _ K).
  - intros Hn. eapply idle_keep; eauto.
  - by eapply caused_keep.
  - eapply Forall_impl; [exact Hg|]. apply (keep_grouped _ _ K).
  - eapply Forall_impl; [exact Hr|]. apply (keep_reaped _ _ K).
  - by rewrite (keep_watch _ _ K).
  - intros Hf. by apply (keep_started _ _ K), Hs.
Qed.

Definition calm_at {A} (n : nat) (F : Facts) (p : Prog A) : Prop :=
  forall g, at_ n F g -> wp p g (fun _ g' => keep g g').

Lemma calm_ret {A} n F (a : A) : calm_at n F (Ret a).
Proof. intros g _. simpl. reflexivity. Qed.

Lemma wp_calm {A} n F (p : Prog A) g (Q : A -> Ghost -> Prop) :
  calm_at n F p -> at_ n F g -> (forall a g', keep g g' -> Q a g') -> wp p g Q.
Proof. intros Hp Hg HQ. eapply wp_mono; [|by apply Hp]. intros a g' K. by apply HQ. Qed.

Lemma calm_bind {A B} n F (p : Prog A) (k : A -> Prog B) :
  calm_at n F p -> (forall a, calm_at n F (k a)) -> calm_at n F (p ≫= k).
Proof.
  intros Hp Hk g Hg. apply wp_bind. eapply wp_calm; [exact Hp|exact Hg|]. intros a g' K.
  eapply wp_calm; [apply Hk|by eapply at_keep|]. intros b g'' K'. by etrans.
Qed.

Lemma above_le n m g : (n <= m)%nat -> above n g -> above m g.
Proof. intros Hle [H1 H2]. split; eapply Forall_impl; eauto; simpl; lia. Qed.

Definition weaker (F' F : Facts) : Prop :=
  Forall (fun lm => lm ∈ f_locks F) (f_locks F') /\ (f_cause F' = ByItself \/ f_cause F' = f_cause F)
  /\ Forall (fun r => r ∈ f_groups F) (f_groups F') /\ Forall (fun r => r ∈ f_reaped F) (f_reaped F')
  /\ f_watch F' = f_watch F /\ (f_started F' = true -> f_started F = true).

Lemma at_weaken n m F F' g : (n <= m)%nat -> weaker F' F -> at_ n F g -> at_ m F' g.
Proof.
  intros Hle (HL & Hw & HG & HR & HW & HS) [Ha Hd Hh Hi Hc Hg Hr Hwt Hst].
  repeat match goal with H : Forall _ _ |- _ => rewrite Forall_forall in H end.
  constructor; [by eapply above_le|done|..]; try (apply Forall_forall; by auto).
  - intros Hm. apply Hi. lia.
  - by destruct Hw as [->| ->].
  - congruence.
  - auto.
Qed.

Lemma calm_weaken {A} n m F F' (p : Prog A) :
  (n <= m)%nat -> weaker F' F -> calm_at m F' p -> calm_at n F p.
Proof. intros Hle HF Hp g Hg. apply Hp. by eapply at_weaken. Qed.

(** A calm program whose answer tells more. *)
Definition yields {A} (n : nat) (F : Facts) (p : Prog A) (more : A -> Facts) : Prop :=
  forall g, at_ n F g -> wp p g (fun a g' => keep g g' /\ at_ n (more a) g').

Lemma calm_yields {A} n F (p : Prog A) : calm_at n F p -> yields n F p (fun _ => F).
Proof.
  intros Hp g Hg. eapply wp_mono; [|by apply Hp]. intros a g' K. split; [done|]. exact (at_keep _ _ _ _ K Hg).
Qed.

Lemma yields_calm {A} n F (p : Prog A) more : yields n F p more -> calm_at n F p.
Proof. intros Hp g Hg. eapply wp_mono; [|by apply Hp]. by intros a g' [K _]. Qed.

Lemma yields_ret {A} n F (a : A) more : weaker (more a) F -> yields n F (Ret a) more.
Proof. intros HF g Hg. split; [done|]. by eapply at_weaken. Qed.

Lemma calm_yields_bind {A B} n F (p : Prog A) (k : A -> Prog B) more :
  yields n F p more -> (forall a, calm_at n (more a) (k a)) -> calm_at n F (p ≫= k).
Proof.
  intros Hp Hk g Hg. apply wp_bind. eapply wp_mono; [|by apply Hp]. intros a g' [K Ha].
  eapply wp_mono; [|by apply Hk]. intros b g'' K'. by etrans.
Qed.

Lemma weaker_refl F : weaker F F.
Proof. split_and!; try done; try (by apply Forall_forall). by right. Qed.

(** An effect that changes nothing the thread holds. *)
Lemma calm_eff {A} n F (e : Eff A) :
  (forall g, at_ n F g -> pre e g /\ forall uuid a, possible e g a -> keep g (post uuid e a g)) ->
  calm_at n F (eff e).
Proof. intros H g Hg. destruct (H g Hg) as [Hpre Hk]. split; [done|]. simpl. auto. Qed.

(** ** Locks *)

Lemma without_absent {A} `{EqDecision A} (x : A) l : x ∉ l -> without x l = l.
Proof.
  intros H. unfold without. induction l as [|y l IH]; [done|]. simpl.
  rewrite bool_decide_true by set_solver. f_equal. apply IH. set_solver.
Qed.

Lemma without_cons {A} `{EqDecision A} (x : A) l : without x (x :: l) = without x l.
Proof. unfold without. simpl. by rewrite bool_decide_false by (intros E; done). Qed.

Lemma above_absent n l m g : (n <= rank l)%nat -> above n g -> (l, m) ∉ gh_held g.
Proof.
  intros Hle [Hh _] Hin. rewrite Forall_forall in Hh. specialize (Hh _ Hin). simpl in Hh. lia.
Qed.

(** A thread that has taken [l] on top of what it held. *)
Definition hold (l : LockId) (m : Mode) (g : Ghost) : Ghost := set_held ((l, m) :: gh_held g) g.

Lemma hold_back l m g : (l, m) ∉ gh_held g -> without (l, m) (gh_held (hold l m g)) = gh_held g.
Proof. intros H. simpl. rewrite without_cons. by apply without_absent. Qed.

Lemma wp_lock {B} l g (k : unit -> Prog B) Q :
  above (rank l) g -> wp (k tt) (hold l Writing g) Q -> wp (lock l ≫= k) g Q.
Proof.
  intros Ha Hk. unfold lock. simpl. split; [done|]. intros _ [] _. split.
  { exists (gh_held g). split; [done|]. exact Ha. }
  intros _ [] _. simpl. rewrite without_cons, without_absent by (by eapply above_absent).
  exact Hk.
Qed.

Lemma wp_locked {A} l (body : Prog A) g Q :
  above (rank l) g ->
  wp body (hold l Writing g) (fun a g' =>
    writes l g' /\ match l with LGroup r => r ∉ gh_dirty g' | _ => True end
    /\ Q a (give_back l Writing g')) ->
  wp (locked l body) g Q.
Proof.
  intros Ha Hb. unfold locked, lock. simpl. split; [done|]. intros _ [] _. split.
  { exists (gh_held g). split; [done|]. exact Ha. }
  intros _ [] _. simpl. rewrite without_cons, without_absent by (by eapply above_absent).
  apply wp_bind. eapply wp_mono; [|exact Hb]. intros a g' (Hw & Hd & HQ). simpl.
  split; [done|]. by intros _ [] _.
Qed.

Lemma wp_read_locked {A} l (body : Prog A) g Q :
  above (rank l) g ->
  wp body (hold l Reading g) (fun a g' =>
    (l, Reading) ∈ gh_held g' /\ Q a (give_back l Reading g')) ->
  wp (read_locked l body) g Q.
Proof.
  intros Ha Hb. unfold read_locked. simpl. split; [done|]. intros _ [] _.
  apply wp_bind. eapply wp_mono; [|exact Hb]. intros a g' (Hw & HQ). simpl.
  split; [done|]. by intros _ [] _.
Qed.

Lemma above_hold n l m g : (n <= rank l)%nat -> above n g -> above (S (rank l)) (hold l m g).
Proof.
  intros Hle [Hh Ho]. split; simpl.
  - constructor; [simpl; lia|]. eapply Forall_impl; [exact Hh|]. simpl. lia.
  - eapply Forall_impl; [exact Ho|]. simpl. lia.
Qed.

Lemma at_hold n F l m g :
  (n <= rank l)%nat -> at_ n F g -> at_ (S (rank l)) (locking l m F) (hold l m g).
Proof.
  intros Hle [Ha Hd HL Hi Hc Hg Hr Hwt Hst]. constructor; [by eapply above_hold|done|..].
  - constructor; [simpl; left|]. eapply Forall_impl; [exact HL|]. simpl. intros lm Hin. by right.
  - intros Hn. apply Hi. lia.
  - simpl. destruct (f_cause F); simpl; [|done]. destruct Hc as (Hw & Ha' & _).
    split_and!; [by right|done|done].
  - exact Hg.
  - exact Hr.
  - exact Hwt.
  - exact Hst.
Qed.

(** Giving back a lock loses nothing that [keep] mentions. *)
Lemma keep_give_back l m g g' :
  (l = LEffect -> idle g) -> (l, m) ∉ gh_held g -> keep (hold l m g) g' -> keep g (give_back l m g').
Proof.
  intros Hl Hin K. destruct K. simpl in *.
  assert (without (l, m) (gh_held g') = gh_held g) as Hh.
  { rewrite keep_held0. by apply hold_back. }
  destruct l; try (constructor; simpl; by auto). destruct Hl as [H1 H2]; [done|].
  constructor; simpl; by auto.
Qed.

Lemma at_idle_effect n F l g : (n <= rank l)%nat -> at_ n F g -> l = LEffect -> idle g.
Proof. intros Hle Hg ->. by apply Hg. Qed.

Lemma calm_locked {A} n F l (body : Prog A) :
  (n <= rank l)%nat -> calm_at (S (rank l)) (locking l Writing F) body -> calm_at n F (locked l body).
Proof.
  intros Hle Hb g Hg. destruct (id Hg) as [Ha Hd HL Hi Hc _ _ _ _].
  apply wp_locked; [by eapply above_le|].
  eapply wp_calm; [exact Hb|by apply (at_hold n)|]. intros a g' K. split_and!.
  - unfold writes. rewrite (keep_held _ _ K). simpl. left.
  - destruct l; try done. rewrite (keep_dirty _ _ K). simpl. rewrite Hd. apply not_elem_of_nil.
  - apply keep_give_back; [by eapply at_idle_effect| |done]. by eapply above_absent.
Qed.

Lemma calm_read_locked {A} n F l (body : Prog A) :
  (n <= rank l)%nat -> calm_at (S (rank l)) (locking l Reading F) body ->
  calm_at n F (read_locked l body).
Proof.
  intros Hle Hb g Hg. destruct (id Hg) as [Ha Hd HL Hi Hc _ _ _ _].
  apply wp_read_locked; [by eapply above_le|].
  eapply wp_calm; [exact Hb|by apply (at_hold n)|]. intros a g' K. split.
  - rewrite (keep_held _ _ K). simpl. left.
  - apply keep_give_back; [by eapply at_idle_effect| |done]. by eapply above_absent.
Qed.
End Pre.
