(* ===== verification/SupervisorCalm.v ===== *)
(** * The supervisor's functions respect the logic

    For every function of ProcessGroup.v and Supervisor.v, what it needs to hold and
    that it leaves the thread as it found it. *)
From S2P Require Import Prelude GoStrings DaemonProtocol ProcessCmd DaemonMessages LocalPaths StateSchema StateQueries.
From S2P Require Import StateTx StateReport StateProcess StateAction StateTrace ClientWorld Reconciliation.
From S2P Require Import SupervisorWorld ProcessGroup Supervisor SupervisorLogic.
From stdpp Require Import options.
Local Open Scope Z_scope.

Section Groups.
Context (sup : Supervisor).
Local Abbreviation wp := (wp sup).
Local Abbreviation calm_at := (calm_at sup).

(** ** System calls *)

(** System calls that no theorem is about. *)
Definition plain {A} (x : SysCall A) : bool :=
  match x with
  | StartCommand _ | KillGroup _ _ _ _ | SignalLeader _ _ | WriteString _ _ _ | ReapLeader _
  | RemoveLifetimeLock => false
  | _ => true
  end.

Lemma plain_pre {A} (x : SysCall A) g : plain x = true -> os_pre x g.
Proof. by destruct x. Qed.
Lemma plain_after {A} (x : SysCall A) a g : plain x = true -> after_os x a g = g.
Proof. by destruct x. Qed.

Lemma wp_os {A B} (x : SysCall A) (k : A -> Prog B) g Q :
  plain x = true -> (forall a, wp (k a) g Q) -> wp (os x ≫= k) g Q.
Proof.
  intros Hx Hk. split; [by apply plain_pre|]. intros uuid a _. simpl. rewrite plain_after by done.
  apply Hk.
Qed.

Lemma calm_os {A} n F (x : SysCall A) : plain x = true -> calm_at n F (os x).
Proof.
  intros Hx g _. split; [by apply plain_pre|]. intros uuid a _. simpl. by rewrite plain_after.
Qed.

(** ** Groups *)

Lemma wp_wait_gone polls missing pgid ended g (Q : option error -> Ghost -> Prop) :
  (forall a, Q a g) -> wp (wait_gone polls missing pgid ended) g Q.
Proof.
  intros HQ. revert missing. induction polls as [|n IH]; intros missing; simpl wait_gone;
    (apply wp_os; [done|]); intros [e|live]; try apply HQ; destruct (_ =? _)%nat; try apply HQ.
  apply IH.
Qed.

Lemma wp_waitForLiveMembersGone pgid g (Q : option error -> Ghost -> Prop) :
  (forall a, Q a g) -> wp (waitForLiveMembersGone pgid) g Q.
Proof.
  intros HQ. unfold waitForLiveMembersGone. apply wp_os; [done|]. intros polls.
  apply wp_os; [done|]. intros ended. by apply wp_wait_gone.
Qed.

Lemma keep_after_group r x g : gh_dirty g = [] -> keep g (after_group r x g).
Proof.
  intros Hd. constructor; simpl; try done.
  - rewrite Hd. by destruct (g_signalSafe x).
  - intros q Hq. destruct (g_reaped x); [by right|done].
Qed.

Lemma after_group_safe r x g : g_signalSafe x = true -> r ∈ gh_safe (after_group r x g).
Proof. intros H. simpl. rewrite H. left. Qed.
Lemma after_group_reaped r x g : g_reaped x = true -> r ∈ gh_reaped (after_group r x g).
Proof. intros H. simpl. rewrite H. left. Qed.

Lemma after_kill why r pgid signal (a : option error) g :
  signal <> SIGINT -> after_os (KillGroup why r pgid signal) a g = g.
Proof. destruct why, signal; congruence || done. Qed.

(** A thread that holds the group's mutex and has read the group. *)
Record in_group (r : nat) (w : Cause) (x : unixProcessGroup) (g : Ghost) : Prop := mkInGroup {
  in_writes : writes (LGroup r) g;
  in_grouped : r ∈ gh_grouped g;
  in_dirty : gh_dirty g = [];
  in_coherent : coherent x;
  in_known : if g_signalSafe x then r ∈ gh_safe g else r ∈ gh_reaped g;
  in_caused : caused w false g
}.

Lemma wp_kill {B} why r x signal (k : option error -> Prog B) g Q :
  in_group r why x g -> g_signalSafe x = true -> signal <> SIGINT ->
  (forall a, wp (k a) g Q) -> wp (os (KillGroup why r (g_pgid x) signal) ≫= k) g Q.
Proof.
  intros [Hw _ _ _ Hs Hc] Hx Hsig Hk. rewrite Hx in Hs. split.
  - simpl. split_and!; [done|done|]. by rewrite bool_decide_false.
  - intros uuid a _. cbn [post]. rewrite after_kill by done. apply Hk.
Qed.

(** Writing back a group with the same permission to signal. *)
Lemma wp_write_group {B} r w x x' (k : unit -> Prog B) g Q :
  in_group r w x g -> g_signalSafe x' = g_signalSafe x -> g_reaped x' = g_reaped x ->
  (forall g', keep g g' -> in_group r w x' g' -> wp (k tt) g' Q) ->
  wp (eff (WriteGroup r x') ≫= k) g Q.
Proof.
  intros [Hw Hgr Hd Hx Hs Hc] Es Er Hk.
  assert (coherent x') as Hx' by (unfold coherent in *; congruence). split.
  - simpl. split_and!; [done|done|done|]. by rewrite Es.
  - intros ? [] _. apply Hk; [by apply keep_after_group|]. constructor; simpl; try done.
    + rewrite Hd. by destruct (g_signalSafe x').
    + unfold coherent in Hx'. destruct (g_signalSafe x'); [left|]. destruct (g_reaped x'); [left|done].
Qed.

Lemma wp_read_group {B} n F r (k : unixProcessGroup -> Prog B) g Q :
  at_ n (locking (LGroup r) Writing (grouping r F)) g ->
  (forall x g', keep g g' -> in_group r (f_cause F) x g' -> wp (k x) g' Q) ->
  wp (eff (ReadGroup r) ≫= k) g Q.
Proof.
  intros [Ha Hd HL _ Hc Hg _ _ _] Hk. apply Forall_cons in HL as [Hw _]. apply Forall_cons in Hg as [Hg _].
  split; [split_and!; [done|done|rewrite Hd; apply not_elem_of_nil]|].
  intros ? x Hx. pose proof (keep_after_group r x g Hd) as K.
  apply Hk; [done|]. simpl in Hx. constructor.
  - exact Hw.
  - exact Hg.
  - etrans; [exact (keep_dirty _ _ K)|done].
  - exact Hx.
  - unfold coherent in Hx. simpl. rewrite Hx. destruct (g_reaped x); left.
  - by eapply caused_keep.
Qed.

Lemma finish_group r w x x' g (a : option error) g0 :
  in_group r w x g -> keep g0 g -> g_signalSafe x' = g_signalSafe x -> g_reaped x' = g_reaped x ->
  wp (eff (WriteGroup r x') ≫= fun _ => Ret a) g (fun _ g' => keep g0 g').
Proof.
  intros Hin K Es Er. eapply wp_write_group; [done..|]. intros g' K' _. simpl. by etrans.
Qed.

Lemma close_by_force_keeps r w x g g0 :
  in_group r w x g -> g_signalSafe x = true -> keep g0 g ->
  wp (close_by_force w r x true) g (fun _ g' => keep g0 g').
Proof.
  intros Hin Hs K. unfold close_by_force. eapply wp_kill; [done..|]. intros termErr.
  apply wp_bind, wp_waitForLiveMembersGone. intros [e|]; [|by eapply finish_group].
  apply wp_os; [done|]. intros [e'|]; [exact K|]. eapply wp_kill; [done..|]. intros killErr.
  apply wp_bind, wp_waitForLiveMembersGone. intros [e'|]; [exact K|]. by eapply finish_group.
Qed.

(** Opens a function that takes the group's mutex and reads the group. *)
Ltac group_body := apply calm_locked; [done|]; intros g Hg; eapply wp_read_group; [exact Hg|];
  let x := fresh "x" in let g1 := fresh "g1" in intros x g1 K Hin.

Lemma group_close_calm F r :
  calm_at (rank (LGroup r)) (grouping r F) (group_close (f_cause F) r).
Proof.
  group_body. destruct (g_closed x); [exact K|].
  destruct (g_signalSafe x) eqn:Hs; [|exact K]. simpl negb. cbn iota.
  apply wp_bind, wp_waitForLiveMembersGone. intros [e|]; [|by eapply finish_group].
  apply wp_os; [done|]. intros [e'|]; [exact K|].
  destruct (negb (errors_Is e DeadlineExceeded)); [exact K|]. by eapply close_by_force_keeps.
Qed.

Definition by_itself (F : Facts) : Facts :=
  mkFacts (f_locks F) ByItself (f_groups F) (f_reaped F) (f_watch F) (f_started F).

Lemma calm_by_itself {A} n F (p : Prog A) : calm_at n (by_itself F) p -> calm_at n F p.
Proof.
  apply calm_weaken; [done|]. split_and!; try done; try (by apply Forall_forall). by left.
Qed.

Lemma beginForcedClosure_calm F r : calm_at (rank (LGroup r)) (grouping r F) (beginForcedClosure r).
Proof.
  apply calm_by_itself. change (by_itself (grouping r F)) with (grouping r (by_itself F)).
  group_body. destruct (g_closed x); [exact K|].
  destruct (g_signalSafe x) eqn:Hs; [|exact K]. simpl negb. cbn iota.
  eapply wp_kill; [done..|]. intros [e|]; [|exact K]. destruct (errors_Is e ESRCH); [|exact K].
  by eapply finish_group.
Qed.

Lemma finishClosure_calm F r : calm_at (rank (LGroup r)) (grouping r F) (finishClosure r).
Proof.
  group_body. destruct (g_closed x); [exact K|].
  apply wp_bind, wp_waitForLiveMembersGone. intros [e|]; [exact K|]. by eapply finish_group.
Qed.

Lemma closeObserver_calm F r : calm_at (rank (LGroup r)) (grouping r F) (closeObserver r).
Proof.
  apply calm_bind.
  - group_body. eapply wp_write_group; [done..|]. intros g' K' _. simpl. by etrans.
  - intros []; [by apply calm_os|apply calm_ret].
Qed.

Lemma waitLeaderExit_calm F r : calm_at (rank (LGroup r)) (grouping r F) (waitLeaderExit r).
Proof.
  apply calm_bind.
  - apply calm_locked; [done|]. intros g Hg. split.
    + destruct Hg as [_ Hd HL _ _ HG _ _ _]. apply Forall_cons in HL as [Hw _].
      apply Forall_cons in HG as [HG _]. split_and!; [done|done|rewrite Hd; apply not_elem_of_nil].
    + intros ? x _. apply keep_after_group, Hg.
  - intros x. destruct (g_observer x); simpl; [by apply calm_os|apply calm_ret].
Qed.

(** Reaping: the leader of a closed group that may still be signalled. *)
Lemma reapLocked_keeps r w x g g0 Q :
  in_group r w x g -> keep g0 g ->
  (forall a g', keep g0 g' -> (g_reaped a.2 = true -> r ∈ gh_reaped g') -> Q a g') ->
  wp (reapLocked r x) g Q.
Proof.
  intros [Hw Hgr Hd Hx Hs Hc] K HQ. unfold reapLocked. unfold coherent in Hx.
  destruct (g_reaped x) eqn:Er; rewrite Hx in Hs; simpl in Hs; [by apply HQ|].
  destruct (g_closed x) eqn:Ec; simpl negb; cbn iota; [|by apply HQ; simpl; congruence].
  split; [done|]. intros ? [waitErr []] _; simpl; [|by apply HQ; simpl; congruence].
  split; [split_and!; [done|done|done|left]|]. intros ? [] _. apply HQ; [|by left].
  etrans; [exact K|]. constructor; simpl; try done.
  - rewrite Hd. rewrite without_cons. done.
  - intros q Hq. by do 2 right.
Qed.

Lemma reap_calm F r : calm_at (rank (LGroup r)) (grouping r F) (reap r).
Proof.
  group_body. apply wp_bind. eapply reapLocked_keeps; [exact Hin|exact K|]. by intros [] g' K' _.
Qed.

(** When the command is released its leader has been reaped. *)
Lemma release_locked_keeps n F r g :
  at_ n (locking (LGroup r) Writing (grouping r F)) g ->
  wp (release_locked r) g (fun err g' => keep g g' /\ (err = None -> r ∈ gh_reaped g')).
Proof.
  intros Hg. unfold release_locked. eapply wp_read_group; [exact Hg|]. intros x g1 K Hin.
  apply wp_bind.
  assert (forall x' g', keep g g' -> in_group r (f_cause F) x' g' ->
    wp (reapLocked r x' ≫= fun result =>
        if negb (g_reaped result.2)
        then mret (Some (failure "closed process containment could not be reaped")) else mret None)
      g' (fun err g' => keep g g' /\ (err = None -> r ∈ gh_reaped g'))) as Hreap.
  { intros x' g' K' Hin'. apply wp_bind. eapply reapLocked_keeps; [exact Hin'|exact K'|].
    intros [e x''] g'' K'' Hr. simpl in *. destruct (g_reaped x''); (split; [done|]); auto; discriminate. }
  destruct (g_closed x) eqn:Ec; [by apply Hreap|].
  destruct (g_signalSafe x) eqn:Hs; simpl negb; cbn iota; [|by split].
  apply wp_bind, wp_waitForLiveMembersGone. intros [e|].
  - destruct (negb (errors_Is e DeadlineExceeded)); by split.
  - eapply wp_write_group; [done..|]. intros g' K' Hin'. apply Hreap; [by etrans|done].
Qed.

(** ** Rules for the functions that use a group *)

Lemma calm_grouped {A} n F r (p : Prog A) :
  calm_at (rank (LGroup r)) (grouping r F) p ->
  (n <= 6)%nat -> r ∈ f_groups F -> calm_at n F p.
Proof.
  intros Hp Hn Hr. eapply calm_weaken; [exact Hn| |exact Hp].
  split_and!; try done; try (by apply Forall_forall); [by right|]. constructor; [done|by apply Forall_forall].
Qed.

Lemma calm_hasGroup {A} n F r (k : bool -> Prog A) :
  calm_at n (grouping r F) (k true) -> calm_at n F (k false) -> calm_at n F (hasGroup r ≫= k).
Proof.
  intros Ht Hf g Hg. split; [done|]. intros ? [pgid|] _; simpl.
  - set (g' := set_grouped _ _). assert (keep g g') as K.
    { constructor; simpl; try done. intros q Hq. by right. }
    eapply wp_calm; [exact Ht| |intros a g'' K'; by etrans].
    destruct (at_keep _ _ _ _ K Hg). constructor; simpl; try done. constructor; [left|done].
  - by apply Hf.
Qed.

(** Effects without conditions. *)
Definition quiet {A} (e : Eff A) : bool :=
  match e with
  | PeekAssignment | LoadContainment _ | NewRunner _ | ReadRunner _ | UpdateRunner _ _ | ReadCall _
  | SetCallErr _ _ | InitStdin _ | DbProcess | Shutdown
  | Spawn (JTimeout _ _) | Spawn (JFinishStart None _ _) | Spawn (JFreezeInitial _) => true
  | _ => false
  end.

Lemma calm_quiet {A} n F (e : Eff A) : quiet e = true -> calm_at n F (eff e).
Proof.
  intros Hq. apply calm_eff. intros g Hg.
  destruct e; try discriminate Hq; try match goal with j : Job |- _ => destruct j end;
    try match goal with r : option nat |- _ => destruct r end;
    try discriminate Hq; (split; [done|]); intros ? a _; try reflexivity; try (by constructor).
  destruct a; [|done]. constructor; simpl; try done. intros q Hq'. by right.
Qed.

Lemma calm_waitShutdown F : calm_at 0 F (eff WaitShutdown).
Proof. apply calm_eff. intros g Hg. split; [apply Hg|done]. Qed.
Lemma calm_waitConnections F : calm_at 0 F (eff WaitConnections).
Proof. apply calm_eff. intros g Hg. split; [apply Hg|done]. Qed.

Lemma at_lock n F g l m : at_ n F g -> (l, m) ∈ f_locks F -> (l, m) ∈ gh_held g.
Proof. intros [_ _ HL _ _ _ _ _ _]. rewrite Forall_forall in HL. auto. Qed.

Lemma calm_read_mu n F m : m <> Announced -> (LMu, m) ∈ f_locks F -> calm_at n F (eff ReadMu).
Proof.
  intros Hm Hin. apply calm_eff. intros g Hg. pose proof (at_lock _ _ _ _ _ Hg Hin) as Hh. split.
  - destruct m; [by left|done|by right].
  - intros ? x _. simpl. destruct (m_localClosed x); [|done]. by constructor.
Qed.

(** Assignments that need no more than [mu] (and [startMu] for the outcome). *)
Definition free_update (F : Facts) (u : Update) : Prop :=
  match u with
  | ULocalClosed => False
  | UStarted _ | UStartOutcome _ => (LStart, Writing) ∈ f_locks F
  | _ => True
  end.

Lemma calm_write_mu n F u :
  (LMu, Writing) ∈ f_locks F -> free_update F u -> calm_at n F (eff (WriteMu u)).
Proof.
  intros Hin Hu. apply calm_eff. intros g Hg. split; [|done].
  split; [by eapply at_lock|]. destruct u; simpl in *; try done; by eapply at_lock.
Qed.

Lemma calm_stdin_read n F r : (LStdin r, Writing) ∈ f_locks F -> calm_at n F (eff (ReadStdinOK r)).
Proof. intros Hin. apply calm_eff. intros g Hg. split; [by eapply at_lock|done]. Qed.
Lemma calm_stdin_write n F r b :
  (LStdin r, Writing) ∈ f_locks F -> calm_at n F (eff (WriteStdinOK r b)).
Proof. intros Hin. apply calm_eff. intros g Hg. split; [by eapply at_lock|done]. Qed.

Lemma calm_with_mu {A} n F (f : Guarded -> A) : (n <= 7)%nat -> calm_at n F (with_mu f).
Proof.
  intros Hn. apply calm_read_locked; [done|]. apply calm_bind; [|intros; apply calm_ret].
  eapply (calm_read_mu _ _ Reading); [done|left].
Qed.

Lemma calm_set_mu n F u : (n <= 7)%nat -> free_update F u -> calm_at n F (set_mu u).
Proof.
  intros Hn Hu. apply calm_locked; [done|]. apply calm_write_mu; [left|].
  destruct u; simpl in *; try done; by right.
Qed.

(** Writes of the database that need no more than the lock. *)
Definition ordinary (c : Cmd) : Prop :=
  wf_cmd c /\ own_call sup c
  /\ match c with
     | CApplyOnce _ _ | CMarkContainmentEmpty _ _ => False
     | _ => True
     end.

Lemma at_recon n F g m :
  m <> Announced -> at_ n F g -> (LRecon, m) ∈ f_locks F -> reads LRecon g.
Proof. intros Hm Hg Hin. pose proof (at_lock _ _ _ _ _ Hg Hin). destruct m; [by left|done|by right]. Qed.

Lemma calm_db n F m (c : string -> Cmd) :
  m <> Announced -> (LRecon, m) ∈ f_locks F -> (forall uuid, ordinary (c uuid)) ->
  calm_at n F (eff (DbWrite c)).
Proof.
  intros Hm Hin Hc. apply calm_eff. intros g Hg. split.
  - intros uuid. destruct (Hc uuid) as (Hwf & Hown & Hord). split_and!; [done|done|by eapply at_recon|].
    by destruct (c uuid).
  - intros uuid a _. destruct (Hc uuid) as (_ & _ & Hord). simpl. unfold after_db.
    destruct (c uuid); try done; (destruct a as [e|o]; [done|]); try (by constructor).
    destruct o as [| [] | | |]; try done.
Qed.
End Groups.

(** ** Automation *)

Create HintDb calm discriminated.
#[export] Hint Constants Opaque : calm.
#[export] Hint Resolve calm_waitShutdown calm_waitConnections : calm.
#[export] Hint Extern 1 (_ <= _)%nat => simpl; lia : calm.
#[export] Hint Extern 1 (_ ∈ f_groups _) => simpl; repeat (first [left; reflexivity|right]) : calm.

(** Decides membership in a list that is written out. *)
Ltac listed := simpl; first [assumption | apply list_elem_of_here | apply list_elem_of_further; listed].

Ltac calm_step :=
  lazymatch goal with
  | |- calm_at _ _ _ (Ret _) => apply calm_ret
  | |- calm_at _ _ _ (mret _) => apply calm_ret
  | |- calm_at _ _ _ (match ?x with _ => _ end) => destruct x
  | |- calm_at _ _ _ (hasGroup _ ≫= _) => apply calm_hasGroup; simpl negb; cbn iota
  | |- calm_at _ _ _ (_ ≫= _) => apply calm_bind; [|intros]
  | |- calm_at _ _ _ (os _) => apply calm_os; reflexivity
  | |- calm_at _ _ _ (with_mu _) => apply calm_with_mu; simpl; lia
  | |- calm_at _ _ _ (set_mu _) => apply calm_set_mu; [simpl; lia|first [exact I|listed]]
  | |- calm_at _ _ _ (locked _ _) => apply calm_locked; [simpl; lia|]
  | |- calm_at _ _ _ (read_locked _ _) => apply calm_read_locked; [simpl; lia|]
  | |- calm_at _ _ _ (eff ReadMu) =>
      first [eapply (calm_read_mu _ _ _ Writing); [discriminate|listed]
            |eapply (calm_read_mu _ _ _ Reading); [discriminate|listed]]
  | |- calm_at _ _ _ (eff (WriteMu _)) => apply calm_write_mu; [listed|first [exact I|listed]]
  | |- calm_at _ _ _ (eff (ReadStdinOK _)) => apply calm_stdin_read; listed
  | |- calm_at _ _ _ (eff (WriteStdinOK _ _)) => apply calm_stdin_write; listed
  | |- calm_at _ _ _ (eff (DbWrite _)) =>
      first [eapply (calm_db _ _ _ Writing); [discriminate|listed|]
            |eapply (calm_db _ _ _ Reading); [discriminate|listed|]]
  | |- calm_at _ _ _ (eff _) => apply calm_quiet; reflexivity
  end.
Ltac calm := repeat first [calm_step | solve [auto with calm] | progress cbv zeta].
