(* ===== verification/SupervisorRespects.v ===== *)
(** * Every goroutine of the supervisor respects the logic

    The functions of ProcessGroup.v and Supervisor.v one by one, and at the end the
    bodies of the goroutines: each starts with what [ghost_of] says and ends holding
    nothing. *)
From S2P Require Import Prelude GoStrings DaemonProtocol ProcessCmd DaemonMessages LocalPaths StateSchema StateQueries.
From S2P Require Import StateTx StateReport StateProcess StateAction StateTrace ClientWorld Reconciliation.
From S2P Require Import SupervisorWorld ProcessGroup Supervisor SupervisorLogic SupervisorCalm.
From stdpp Require Import options.
Local Open Scope Z_scope.

Section Commands.
Context (sup : Supervisor).
Local Abbreviation wp := (wp sup).
Local Abbreviation calm_at := (calm_at sup).
Local Abbreviation yields := (yields sup).

(** ** Process groups and commands *)

Lemma calm_group_close n F r w :
  (n <= 6)%nat -> r ∈ f_groups F -> w = f_cause F \/ w = ByItself -> calm_at n F (group_close w r).
Proof.
  intros Hn Hr [->| ->].
  - eapply calm_grouped; [apply group_close_calm|done|done].
  - apply calm_by_itself. eapply calm_grouped; [apply (group_close_calm sup (by_itself F))|done|done].
Qed.
Lemma calm_beginForcedClosure n F r : (n <= 6)%nat -> r ∈ f_groups F -> calm_at n F (beginForcedClosure r).
Proof. intros. eapply calm_grouped; [apply beginForcedClosure_calm|done|done]. Qed.
Lemma calm_finishClosure n F r : (n <= 6)%nat -> r ∈ f_groups F -> calm_at n F (finishClosure r).
Proof. intros. eapply calm_grouped; [apply finishClosure_calm|done|done]. Qed.
Lemma calm_closeObserver n F r : (n <= 6)%nat -> r ∈ f_groups F -> calm_at n F (closeObserver r).
Proof. intros. eapply calm_grouped; [apply closeObserver_calm|done|done]. Qed.
Lemma calm_waitLeaderExit n F r : (n <= 6)%nat -> r ∈ f_groups F -> calm_at n F (waitLeaderExit r).
Proof. intros. eapply calm_grouped; [apply waitLeaderExit_calm|done|done]. Qed.
Lemma calm_reap n F r : (n <= 6)%nat -> r ∈ f_groups F -> calm_at n F (reap r).
Proof. intros. eapply calm_grouped; [apply reap_calm|done|done]. Qed.
End Commands.

#[export] Hint Resolve calm_beginForcedClosure calm_finishClosure calm_closeObserver
  calm_waitLeaderExit calm_reap : calm.
#[export] Hint Extern 2 (calm_at _ _ _ (group_close _ _)) =>
  apply calm_group_close; [simpl; lia|listed|first [left; reflexivity|right; reflexivity]] : calm.

Section Commands2.
Context (sup : Supervisor).
Local Abbreviation wp := (wp sup).
Local Abbreviation calm_at := (calm_at sup).
Local Abbreviation yields := (yields sup).

Lemma calm_terminateAndReap n F r : (n <= 6)%nat -> calm_at n F (terminateAndReapProcessCommand r).
Proof. intros Hn. unfold terminateAndReapProcessCommand. calm. Qed.

(** Releasing the command of a group that exists: on success its leader was reaped. *)
Definition if_reaped (r : nat) (F : Facts) (err : option error) : Facts :=
  match err with None => reaping r F | Some _ => F end.

Lemma at_if_reaped n F r err g : at_ n F g -> (err = None -> r ∈ gh_reaped g) -> at_ n (if_reaped r F err) g.
Proof.
  intros Hg Hr. destruct err; [done|]. destruct Hg. constructor; try done. constructor; auto.
Qed.

Lemma locked_release_yields n F r :
  (n <= 6)%nat -> r ∈ f_groups F ->
  yields n F (locked (LGroup r) (release_locked r)) (if_reaped r F).
Proof.
  intros Hn Hr g Hg. assert (at_ n (grouping r F) g) as Hg'.
  { destruct Hg. constructor; try done. constructor; [|done]. rewrite Forall_forall in at_groups. auto. }
  pose proof (above_le _ _ _ Hn (at_above _ _ _ Hg)) as Ha.
  assert ((LGroup r, Writing) ∉ gh_held g) as Hnot by (by eapply (above_absent 6)).
  apply wp_locked; [exact Ha|]. eapply wp_mono; [|eapply release_locked_keeps, at_hold; [|exact Hg']]; [|done].
  intros err g' [K Hreaped].
  assert (keep g (give_back (LGroup r) Writing g')) as K' by (by apply keep_give_back).
  split_and!.
  - unfold writes. rewrite (keep_held _ _ K). left.
  - rewrite (keep_dirty _ _ K). simpl. rewrite (at_dirty _ _ _ Hg). apply not_elem_of_nil.
  - exact K'.
  - apply at_if_reaped; [exact (at_keep _ _ _ _ K' Hg)|]. exact Hreaped.
Qed.

Lemma release_yields n F r :
  (n <= 6)%nat -> r ∈ f_groups F -> yields n F (releaseProcessCommand r) (if_reaped r F).
Proof.
  intros Hn Hr g Hg. split; [done|]. intros uuid a Ha. simpl in Ha.
  assert (r ∈ gh_grouped g) as Hin by (destruct Hg; rewrite Forall_forall in at_groups; auto).
  destruct (Ha Hin) as [pgid ->].
  assert (keep g (post uuid (LoadContainment r) (Some pgid) g)) as K.
  { constructor; simpl; try done. intros q Hq. by right. }
  eapply wp_mono; [|exact (locked_release_yields n F r Hn Hr _ (at_keep _ _ _ _ K Hg))].
  intros err g'' [K' Ha']. split; [by etrans|done].
Qed.

Lemma calm_release n F r : (n <= 6)%nat -> calm_at n F (releaseProcessCommand r).
Proof.
  intros Hn. unfold releaseProcessCommand. apply calm_hasGroup; simpl negb; cbn iota.
  - eapply yields_calm, locked_release_yields; [done|left].
  - calm.
Qed.

Lemma calm_waitLeader n F r : (n <= 6)%nat -> calm_at n F (waitProcessCommandLeaderExit r).
Proof. intros Hn. unfold waitProcessCommandLeaderExit. calm. Qed.

Lemma calm_closeAndReap n F r err : (n <= 6)%nat -> calm_at n F (closeAndReapProcessCommand r err).
Proof. intros Hn. unfold closeAndReapProcessCommand, close_unobserved. calm. Qed.

Lemma calm_requestTerminate n F r w :
  (n <= 6)%nat -> w = f_cause F \/ w = ByItself -> calm_at n F (requestTerminateProcessCommand w r).
Proof.
  intros Hn Hw. unfold requestTerminateProcessCommand. calm.
  apply calm_group_close; [done|left|]. done.
Qed.

Lemma calm_closeContainment n F r : (n <= 6)%nat -> calm_at n F (closeProcessCommandContainment r).
Proof. intros Hn. unfold closeProcessCommandContainment. calm. Qed.

Lemma calm_waitOutputDrain n F r : calm_at n F (waitOutputDrain r).
Proof. unfold waitOutputDrain. calm. Qed.
Lemma calm_sourceTimeNow n F r : calm_at n F (sourceTimeNow r).
Proof. unfold sourceTimeNow. calm. Qed.
Lemma calm_setTerminalOverride n F r exit : calm_at n F (setTerminalOverride r exit).
Proof. unfold setTerminalOverride. calm. Qed.
Lemma calm_publish n F r exit : calm_at n F (publishTerminalResult r exit).
Proof. unfold publishTerminalResult. calm. Qed.
Lemma calm_hasTerminalResult n F r : calm_at n F (hasTerminalResult r).
Proof. unfold hasTerminalResult. calm. Qed.
Lemma calm_terminalResult n F r : calm_at n F (terminalResult r).
Proof. unfold terminalResult. calm. Qed.
Lemma calm_containmentID n F r : calm_at n F (processCommandContainmentID r).
Proof. unfold processCommandContainmentID. calm. Qed.
Lemma calm_CloseInput n F r : (n <= 5)%nat -> calm_at n F (CloseInput r).
Proof. intros Hn. unfold CloseInput. calm. Qed.
End Commands2.

#[export] Hint Resolve calm_terminateAndReap calm_release calm_waitLeader calm_closeAndReap
  calm_closeContainment calm_waitOutputDrain calm_sourceTimeNow calm_setTerminalOverride calm_publish
  calm_hasTerminalResult calm_terminalResult calm_containmentID calm_CloseInput : calm.
#[export] Hint Extern 2 (calm_at _ _ _ (requestTerminateProcessCommand _ _)) =>
  apply calm_requestTerminate; [simpl; lia|first [left; reflexivity|right; reflexivity]] : calm.
#[export] Hint Extern 2 (calm_at _ _ _ (terminate_runner _ _)) =>
  apply calm_requestTerminate; [simpl; lia|first [left; reflexivity|right; reflexivity]] : calm.

(** ** The supervisor *)

Section Supervisor.
Context {RC : ReportCodec} {CC : ClientCodec} {SC : SupervisorCodec} {PC : PayloadCodec}.
Context (bootstrap : supervisorIdentityBootstrap).
Local Abbreviation wp := (wp (processState bootstrap)).
Local Abbreviation calm_at := (calm_at (processState bootstrap)).
Local Abbreviation yields := (yields (processState bootstrap)).

Lemma calm_retry_write n F sleeps write : calm_at n F write -> calm_at n F (retry_write sleeps write).
Proof. intros Hw. induction sleeps as [|k IH]; simpl retry_write; calm. Qed.

Lemma calm_retry_state n F write : calm_at n F write -> calm_at n F (retrySupervisorStateWrite write).
Proof. intros Hw. unfold retrySupervisorStateWrite. calm. by apply calm_retry_write. Qed.

Lemma calm_markReady n F : (n <= 7)%nat -> calm_at n F markStorageExhaustionReady.
Proof. intros Hn. unfold markStorageExhaustionReady. calm. Qed.

Lemma calm_exhausted n F : (n <= 4)%nat -> calm_at n F closeForStorageExhaustion.
Proof. intros Hn. unfold closeForStorageExhaustion, close_exhausted_runner, markStorageExhaustionReady. calm. Qed.

Lemma calm_autonomous n F write :
  (n <= 1)%nat -> calm_at 2 (locking LRecon Reading F) write ->
  calm_at n F (autonomousStateWrite write).
Proof.
  intros Hn Hw. unfold autonomousStateWrite. calm.
  - by apply calm_retry_state.
  - apply calm_exhausted. simpl. lia.
Qed.

(** The database calls; [F] must hold the reconciliation lock. *)
Definition reconciling (F : Facts) : Prop := exists m, m <> Announced /\ (LRecon, m) ∈ f_locks F.

Lemma reconciling_locking l m F : reconciling F -> reconciling (locking l m F).
Proof. intros (m' & Hm & Hin). exists m'. split; [done|]. by right. Qed.
Lemma reconciling_reading F : reconciling (locking LRecon Reading F).
Proof. exists Reading. split; [done|left]. Qed.
Lemma reconciling_writing F : reconciling (locking LRecon Writing F).
Proof. exists Writing. split; [done|left]. Qed.

Lemma calm_ordinary n F c :
  reconciling F -> (forall uuid, ordinary (processState bootstrap) (c uuid)) ->
  calm_at n F (eff (DbWrite c)).
Proof. intros (m & Hm & Hin) Hc. by eapply calm_db. Qed.

Lemma calm_db_call n F c :
  reconciling F -> (forall uuid, ordinary (processState bootstrap) (c uuid)) ->
  calm_at n F (db_call c).
Proof. intros HF Hc. unfold db_call. apply calm_bind; [by apply calm_ordinary|]. intros; apply calm_ret. Qed.

Lemma calm_closeAdmission n F : reconciling F -> calm_at n F (CloseActionAdmission bootstrap).
Proof. intros HF. by apply calm_db_call. Qed.
Lemma calm_freezeTerminal n F report :
  reconciling F -> calm_at n F (FreezeTerminalReport bootstrap report).
Proof. intros HF. by apply calm_db_call. Qed.
Lemma calm_freezeStarted n F report :
  reconciling F -> calm_at n F (FreezeStartedReport_ bootstrap report).
Proof. intros HF. by apply calm_db_call. Qed.
Lemma calm_freezeAction n F id report :
  reconciling F -> calm_at n F (FreezeActionReport bootstrap id report).
Proof. intros HF. by apply calm_db_call. Qed.

(** A watcher records that nothing is left of its process only after reaping it. *)
Lemma calm_markEmpty n F :
  reconciling F -> match f_watch F with Some r => r ∈ f_reaped F | None => True end ->
  calm_at n F (MarkContainmentEmpty bootstrap).
Proof.
  intros (m & Hm & Hin) Hw. apply calm_bind; [|intros; apply calm_ret].
  apply calm_eff. intros g Hg. split.
  - intros uuid. split_and!; [done|done|by eapply at_recon|]. simpl. rewrite (at_watch _ _ _ Hg).
    destruct (f_watch F) as [r|]; [|done]. pose proof (at_reaped _ _ _ Hg) as HR.
    rewrite Forall_forall in HR. auto.
  - intros uuid [e|o] _; done.
Qed.

(** Programs after whose success [P] holds. *)
Definition tells (n : nat) (F : Facts) (P : Ghost -> Prop) (p : Prog (option error)) : Prop :=
  forall g, at_ n F g -> wp p g (fun err g' => keep g g' /\ (err = None -> P g')).

Definition closed (g : Ghost) : Prop := gh_closed g = true.

Lemma tells_markClosed n F : reconciling F -> tells n F closed (MarkLocalClosed bootstrap).
Proof.
  intros (m & Hm & Hin) g Hg. split.
  - intros uuid. split_and!; [done|done|by eapply at_recon|done].
  - intros uuid [e|o] _; (split; [|done]); [done|]. by constructor.
Qed.

Lemma tells_retry_write n F P sleeps write :
  tells n F P write -> tells n F P (retry_write sleeps write).
Proof.
  intros Hw. induction sleeps as [|k IH]; intros g Hg; simpl retry_write;
    apply wp_bind; (eapply wp_mono; [|by apply Hw]); intros [e|] g' [K HP]; try (by split; auto).
  - destruct (_ || _ || _); by split.
  - destruct (_ || _ || _); [by split|]. eapply wp_mono; [|apply IH; exact (at_keep _ _ _ _ K Hg)].
    intros err g'' [K' HP']. split; [by etrans|done].
Qed.

Lemma tells_autonomous n F write :
  (n <= 1)%nat -> tells 2 (locking LRecon Reading F) closed write ->
  tells n F closed (autonomousStateWrite write).
Proof.
  intros Hn Hw g Hg. apply wp_read_locked; [by eapply above_le, Hg|].
  pose proof (at_hold _ F LRecon Reading _ Hn Hg) as Hg1. set (g1 := hold LRecon Reading g) in *.
  assert (forall (err : option error) g', keep g1 g' -> (err = None -> closed g') ->
    (LRecon, Reading) ∈ gh_held g' /\ keep g (give_back LRecon Reading g')
    /\ (err = None -> closed (give_back LRecon Reading g'))) as Hend.
  { intros err g' K HP. split_and!; [rewrite (keep_held _ _ K); left| |done].
    apply keep_give_back; [done| |done]. by eapply above_absent, Hg. }
  apply wp_bind. eapply wp_calm; [apply (calm_with_mu _ 2); lia|exact Hg1|]. intros [] g2 K2.
  { by apply Hend. }
  apply wp_bind. unfold retrySupervisorStateWrite. apply wp_os; [done|]. intros sleeps.
  eapply wp_mono; [|exact (tells_retry_write _ _ _ sleeps _ Hw _ (at_keep _ _ _ _ K2 Hg1))].
  intros [e|] g3 [K3 HP]; [|apply Hend; [by etrans|done]].
  destruct (isStorageExhaustion e); [|apply Hend; [by etrans|done]].
  apply wp_bind. eapply wp_calm; [apply (calm_exhausted 2); simpl; lia| |].
  - exact (at_keep _ _ _ _ K3 (at_keep _ _ _ _ K2 Hg1)).
  - intros a g4 K4. apply Hend; [|done]. do 2 (etrans; [eassumption|]). done.
Qed.

Lemma calm_localClosure n F : (n <= 1)%nat -> calm_at n F (autonomousLocalClosure bootstrap).
Proof.
  intros Hn g Hg. unfold autonomousLocalClosure. apply wp_bind.
  eapply wp_mono; [|exact (tells_autonomous n F _ Hn (tells_markClosed _ _ (reconciling_reading F)) g Hg)].
  intros [e|] g' [K HP]; [done|]. specialize (HP eq_refl).
  pose proof (at_keep _ _ _ _ K Hg) as Hg'. apply wp_bind, wp_locked; [eapply above_le, Hg'; simpl; lia|].
  assert (keep g' (give_back LMu Writing (hold LMu Writing g'))) as K'.
  { apply (keep_give_back LMu); [done| |reflexivity]. eapply above_absent, Hg'. simpl. lia. }
  split; [split; [left|exact HP]|]. intros ? [] _. split_and!; [left|done|]. split; [done|].
  intros ? [] _. exact (transitivity K K').
Qed.
End Supervisor.

#[export] Hint Resolve calm_markReady reconciling_locking reconciling_reading reconciling_writing calm_closeAdmission
  calm_freezeTerminal calm_freezeStarted calm_freezeAction calm_localClosure calm_exhausted
  calm_autonomous calm_retry_state : calm.
