(* ===== verification/SupervisorJobs.v ===== *)
(** * The goroutines of the supervisor respect the logic

    Watching the process, starting it, applying actions, serving connections, and at
    the end [body_respects]: every goroutine starts with what [ghost_of] says and
    ends holding nothing. *)
From S2P Require Import Prelude GoStrings DaemonProtocol ProcessCmd DaemonMessages LocalPaths StateSchema StateQueries.
From S2P Require Import StateTx StateReport StateProcess StateAction StateTrace ClientWorld Reconciliation.
From S2P Require Import SupervisorWorld ProcessGroup Supervisor SupervisorLogic SupervisorCalm SupervisorRespects.
From stdpp Require Import options.
Local Open Scope Z_scope.

(** ** Watching *)

Section Watching.
Context {RC : ReportCodec} {CC : ClientCodec} {SC : SupervisorCodec} {PC : PayloadCodec}.
Context (bootstrap : supervisorIdentityBootstrap).
Local Abbreviation wp := (wp (processState bootstrap)).
Local Abbreviation calm_at := (calm_at (processState bootstrap)).
Local Abbreviation yields := (yields (processState bootstrap)).

Lemma calm_terminalReport n F exit result r :
  calm_at n F (processTerminalReport bootstrap exit result r).
Proof. unfold processTerminalReport. calm. Qed.

Lemma calm_captureResult n F r exit err : calm_at n F (captureTerminalResult r exit err).
Proof. unfold captureTerminalResult. calm. Qed.

Lemma calm_exitFromWait n F r err reason : calm_at n F (exitFromWait r err reason).
Proof. unfold exitFromWait. calm. Qed.

Lemma keep_give_back_below l g g' :
  l <> (LRecon, Reading) -> (LRecon, Reading) ∉ gh_held g ->
  keep (set_held (l :: (LRecon, Reading) :: gh_held g) g) g' ->
  keep (set_held (l :: gh_held g) g) (give_back LRecon Reading g').
Proof.
  intros Hl Hin [Hh]. constructor; simpl in *; try done. rewrite Hh. unfold without. simpl.
  rewrite bool_decide_true by done. f_equal.
  by apply without_absent.
Qed.

(** The reconciliation lock is given back while the effect lock is still held. *)
Lemma calm_handover {A B} n F (p : Prog B) (q : Prog A) (k : A -> Prog unit) :
  (n <= 1)%nat ->
  calm_at 5 (locking LEffect Writing (locking LRecon Reading F)) p ->
  calm_at 5 (locking LEffect Writing F) q -> (forall a, calm_at n F (k a)) ->
  calm_at n F (eff (RLock LRecon) ≫= fun _ => lock LEffect ≫= fun _ => p ≫= fun _ =>
               eff (RUnlock LRecon) ≫= fun _ => q ≫= fun a => unlock LEffect ≫= fun _ => k a).
Proof.
  intros Hn Hp Hq Hk g Hg. apply wp_eff; [eapply above_le, Hg; simpl; lia|]. intros ? [] _.
  pose proof (at_hold _ F LRecon Reading _ Hn Hg) as Hg1. set (g1 := hold LRecon Reading g) in *.
  eapply (wp_lock _ LEffect g1); [eapply above_le, Hg1; simpl; lia|].
  assert (at_ 5 (locking LEffect Writing (locking LRecon Reading F)) (hold LEffect Writing g1)) as Hg2.
  { exact (at_hold 2 _ LEffect Writing _ ltac:(simpl; lia) Hg1). }
  apply wp_bind. eapply wp_calm; [exact Hp|exact Hg2|]. intros b g3 K3.
  assert (keep (hold LEffect Writing g) (give_back LRecon Reading g3)) as K4.
  { apply keep_give_back_below; [done|by eapply above_absent, Hg|exact K3]. }
  apply wp_eff; [change ((LRecon, Reading) ∈ gh_held g3); rewrite (keep_held _ _ K3); right; left|]. intros ? [] _.
  pose proof (at_hold n F LEffect Writing g ltac:(simpl; lia) Hg) as Hg3.
  apply wp_bind. eapply wp_calm; [exact Hq|exact (at_keep _ _ _ _ K4 Hg3)|]. intros a g5 K5.
  pose proof (transitivity K4 K5) as K6.
  assert (keep g (give_back LEffect Writing g5)) as K7.
  { apply keep_give_back; [intros _; apply Hg; simpl; lia| |exact K6].
    eapply above_absent, Hg. simpl. lia. }
  apply wp_eff; [split; [unfold writes; rewrite (keep_held _ _ K6); left|done]|]. intros ? [] _.
  eapply wp_calm; [apply Hk|exact (at_keep _ _ _ _ K7 Hg)|]. intros c g6 K8. by etrans.
Qed.

(** Retrying the closure of a group that exists: it succeeds by reaping the leader. *)
Lemma yields_mono {A} n F (p : Prog A) more more' :
  (forall a, weaker (more' a) (more a)) -> yields n F p more -> yields n F p more'.
Proof.
  intros Hm Hp g Hg. eapply wp_mono; [|by apply Hp]. intros a g' [K Ha].
  split; [done|]. by eapply at_weaken.
Qed.

Lemma yields_bind {A B} n F (p : Prog A) (k : A -> Prog B) mid more :
  yields n F p mid -> (forall a, yields n (mid a) (k a) more) -> yields n F (p ≫= k) more.
Proof.
  intros Hp Hk g Hg. apply wp_bind. eapply wp_mono; [|by apply Hp]. intros a g' [K Ha].
  eapply wp_mono; [|by apply Hk]. intros b g'' [K' Hb]. split; [by etrans|done].
Qed.

Lemma calm_yields_then {A B} n F (p : Prog A) (k : A -> Prog B) more :
  calm_at n F p -> (forall a, yields n F (k a) more) -> yields n F (p ≫= k) more.
Proof. intros Hp Hk. eapply yields_bind; [by apply calm_yields|done]. Qed.

Lemma retry_closure_yields n F r sleeps :
  (n <= 6)%nat -> r ∈ f_groups F -> yields n F (retry_closure sleeps r) (if_reaped r F).
Proof.
  intros Hn Hr. induction sleeps as [|k IH]; cbn [retry_closure].
  all: apply calm_yields_then; [calm|]; intros [e|]; [apply yields_ret, weaker_refl|].
  all: apply calm_yields_then; [calm|]; intros closeErr.
  all: eapply yields_bind with (mid := if_reaped r F);
    [destruct closeErr; [apply yields_ret, weaker_refl|by apply release_yields]|].
  all: intros [e|]; [|apply yields_ret, weaker_refl].
  - apply yields_ret, weaker_refl.
  - exact IH.
Qed.

(** A watcher of [r]. *)
Definition watching (r : nat) (F : Facts) : Prop := r ∈ f_groups F /\ f_watch F = Some r.

Lemma calm_markEmpty_autonomous n F r :
  (n <= 1)%nat -> f_watch F = Some r -> r ∈ f_reaped F ->
  calm_at n F (autonomousStateWrite (MarkContainmentEmpty bootstrap)).
Proof.
  intros Hn Hw Hr. apply calm_autonomous; [done|]. apply calm_markEmpty; [apply reconciling_reading|].
  simpl. by rewrite Hw.
Qed.

Lemma calm_settle n F r closed :
  (n <= 1)%nat -> watching r F -> (closed = true -> r ∈ f_reaped F) ->
  calm_at n F (settle_terminal bootstrap r closed).
Proof.
  intros Hn [Hg Hw] Hc. unfold settle_terminal.
  eapply calm_yields_bind with (more := if_reaped r F).
  - destruct closed.
    + apply yields_ret. destruct (weaker_refl F) as (?&?&?&?&?&?). split_and!; try done.
      constructor; auto.
    + eapply yields_bind; [apply calm_yields_then; [calm|]; intros sleeps|].
      { apply retry_closure_yields; [lia|done]. }
      intros [e|]; [apply yields_ret, weaker_refl|].
      apply calm_yields_then; [calm|]. intros ?. apply yields_ret, weaker_refl.
  - intros [e|]; [calm|]. apply calm_bind; [|intros; calm].
    apply (calm_markEmpty_autonomous _ _ r); [done|done|left].
Qed.

Lemma calm_wait_started F : f_started F = true -> calm_at 0 F (eff (Wait ChStarted)).
Proof.
  intros HF. apply calm_eff. intros g Hg. split; [|done]. split; [apply Hg|]. by apply Hg.
Qed.

Lemma calm_freeze_terminal F r exit result w closed :
  watching r F -> (closed = true -> r ∈ f_reaped F) -> (w = true -> f_started F = true) ->
  calm_at 0 F (freeze_terminal bootstrap r exit result w closed).
Proof.
  intros HF Hc Hs. unfold freeze_terminal. apply calm_bind.
  - destruct w; [apply calm_wait_started; auto|calm].
  - intros []; simpl negb; cbn iota; [|calm]. apply calm_bind; [apply calm_terminalReport|]. intros [e|report]; [calm|].
    apply calm_bind.
    + apply calm_autonomous; [lia|]. auto with calm.
    + intros [e|]; [calm|]. by apply calm_settle; [lia|..].
Qed.

Lemma calm_finishTerminal F r exit err w :
  watching r F -> (w = true -> f_started F = true) ->
  calm_at 0 F (finishTerminalRunner bootstrap r exit err w).
Proof.
  intros [Hg Hw] Hs. unfold finishTerminalRunner.
  eapply calm_yields_bind with (more := if_reaped r F).
  { destruct err; [apply yields_ret, weaker_refl|]. apply release_yields; [lia|done]. }
  intros containmentErr. set (closed := bool_decide _).
  assert (watching r (if_reaped r F containmentErr)) as HF by (by destruct containmentErr).
  assert (closed = true -> r ∈ f_reaped (if_reaped r F containmentErr)) as Hc.
  { intros E. apply bool_decide_eq_true in E as ->. left. }
  assert (w = true -> f_started (if_reaped r F containmentErr) = true) as Hs'.
  { intros E. destruct containmentErr; auto. }
  calm; try apply calm_captureResult; by apply calm_freeze_terminal.
Qed.

Lemma calm_observeExit F r :
  watching r F -> f_started F = true -> calm_at 0 F (observeProcessExit bootstrap r).
Proof.
  intros HF Hs. unfold observeProcessExit. apply calm_bind; [auto with calm|]. intros observationErr.
  apply calm_handover; [lia|auto with calm|auto with calm|]. intros closure.
  apply calm_bind; [apply calm_exitFromWait|]. intros exit. by apply calm_finishTerminal.
Qed.

Lemma calm_without_runner F exit known :
  f_watch F = None -> calm_at 0 F (finish_without_runner bootstrap exit known).
Proof.
  intros Hw. unfold finish_without_runner. apply calm_bind; [auto with calm|]. intros ?.
  apply calm_bind; [apply calm_captureResult|]. intros [result exit'].
  apply calm_bind; [apply calm_terminalReport|]. intros [e|report]; [calm|].
  apply calm_bind; [auto with calm|]. intros ?. destruct known; [|calm].
  apply calm_bind; [|intros; calm]. apply calm_autonomous; [lia|].
  apply calm_markEmpty; [apply reconciling_reading|]. simpl. by rewrite Hw.
Qed.

Lemma calm_finishStart F r exit known :
  match r with Some r => watching r F | None => f_watch F = None end ->
  calm_at 0 F (finishStartWithoutExactOutcome bootstrap r exit known).
Proof.
  intros HF. destruct r as [r|]; [|by apply calm_without_runner].
  apply calm_handover; [lia|auto with calm|auto with calm|]. intros closure. by apply calm_finishTerminal.
Qed.

Lemma calm_enforceTimeout F r timeout : calm_at 0 F (enforceTimeout r timeout).
Proof. unfold enforceTimeout. calm. Qed.

(** ** The initial observation *)

Lemma calm_observation n F a r output start next truncated err finished :
  calm_at n F (observation a r output start next truncated err finished).
Proof. unfold observation. calm. Qed.

Lemma calm_observe_initial n F sleeps a r : calm_at n F (observe_initial sleeps a r).
Proof.
  induction sleeps as [|k IH]; cbn [observe_initial]; calm; try apply calm_observation; exact IH.
Qed.

Lemma calm_initialObservation n F a r : calm_at n F (initialProcessObservation a r).
Proof. unfold initialProcessObservation. calm. apply calm_observe_initial. Qed.
End Watching.

#[export] Hint Resolve calm_terminalReport calm_captureResult calm_exitFromWait calm_initialObservation
  calm_enforceTimeout : calm.

(** ** Starting *)

Section Starting.
Context {RC : ReportCodec} {CC : ClientCodec} {SC : SupervisorCodec} {PC : PayloadCodec}.
Context (bootstrap : supervisorIdentityBootstrap).
Local Abbreviation wp := (wp (processState bootstrap)).
Local Abbreviation calm_at := (calm_at (processState bootstrap)).
Local Abbreviation yields := (yields (processState bootstrap)).

Lemma calm_startFailure n F pty e : calm_at n F (preparedRunnerWithStartFailure pty e).
Proof. unfold preparedRunnerWithStartFailure. calm. Qed.

Lemma calm_prepareRunner n F a : calm_at n F (prepareLocalRunner bootstrap a).
Proof. unfold prepareLocalRunner, prepare_command. calm; apply calm_startFailure. Qed.

Lemma calm_prepare n F payload : (n <= 7)%nat -> calm_at n F (prepare bootstrap payload).
Proof. intros Hn. unfold prepare. calm. apply calm_prepareRunner. Qed.

(** The facts after a start: the group of a runner that is returned exists. *)
Definition if_grouped (F : Facts) (runner : option nat) : Facts :=
  match runner with Some r => grouping r F | None => F end.

Lemma weaker_grouping r F F' : weaker F' F -> weaker F' (grouping r F).
Proof.
  intros (?&?&Hg&?&?&?). split_and!; try done. eapply Forall_impl; [exact Hg|]. intros q Hq. by right.
Qed.

Lemma publish_yields n F r x :
  coherent x -> g_reaped x = false -> yields n F (eff (PublishGroup r x)) (fun _ => grouping r F).
Proof.
  intros Hx Hr g Hg. split; [done|]. intros ? pgid _. simpl.
  set (g' := set_grouped _ _). assert (keep g g') as K by (constructor; simpl; try done; by right).
  split; [done|]. destruct (at_keep _ _ _ _ K Hg). constructor; try done. constructor; [left|done].
Qed.

Lemma attach_calm n F r :
  (n <= 6)%nat -> r ∈ f_groups F ->
  calm_at n F (attach_observer r).
Proof.
  intros Hn Hr. eapply calm_grouped; [|exact Hn|exact Hr]. apply calm_locked; [done|].
  intros g Hg. eapply wp_read_group; [exact Hg|]. intros x g1 K Hin. destruct (g_observer x); [exact K|].
  eapply wp_write_group; [exact Hin|done|done|]. intros g' K' _. exact (transitivity K K').
Qed.

Lemma after_start_yields n F r pid pty :
  (n <= 6)%nat -> yields n F (after_start r pid pty) (fun x => if_grouped F x.1.1).
Proof.
  intros Hn. unfold after_start.
  apply calm_yields_then; [calm|]. intros _. apply calm_yields_then; [destruct pty; calm|]. intros _.
  apply calm_yields_then; [calm|]. intros now. apply calm_yields_then; [calm|]. intros _.
  eapply yields_bind with (mid := fun _ => grouping r F).
  - unfold afterStartProcessCommand. eapply yields_bind; [by apply publish_yields|]. intros pgid.
    apply calm_yields. calm. apply attach_calm; [done|left].
  - intros [e|]; apply yields_ret, weaker_refl.
Qed.

Lemma keep_set_start x g : keep g (set_start x g).
Proof. by constructor. Qed.

Lemma command_yields n F r pty g :
  (n <= 6)%nat -> at_ n F g -> gh_start g = true ->
  wp (started ← os (StartCommand r);
      match started with
      | inl e => mret (None, processNotStarted, Some e)
      | inr pid => after_start r pid pty
      end) g (fun x g' => keep g g' /\ at_ n (if_grouped F x.1.1) g').
Proof.
  intros Hn Hg Hs. apply wp_eff; [exact Hs|]. intros ? [e|pid] _; cbn [post after_os];
    pose proof (at_keep _ _ _ _ (keep_set_start false g) Hg) as Hg'.
  - split; [apply keep_set_start|exact Hg'].
  - eapply wp_mono; [|exact (after_start_yields n F r pid pty Hn _ Hg')]. intros x g' [K Ha].
    split; [|done]. etrans; [apply keep_set_start|exact K].
Qed.

Lemma startPrepared_yields n F r g :
  (n <= 6)%nat -> at_ n F g -> gh_start g = true ->
  wp (startPreparedLocalRunner r) g (fun x g' => keep g g' /\ at_ n (if_grouped F x.1.1) g').
Proof.
  intros Hn Hg Hs. unfold startPreparedLocalRunner. apply wp_eff; [done|]. intros ? x _. cbn [post].
  destruct (lr_cmd x); simpl negb; cbn iota; [|by split].
  destruct (lr_ptyMode x); [by apply command_yields|].
  apply wp_os; [done|]. intros [e|]; [by split|]. apply wp_eff; [done|]. intros ? [] _.
  by apply command_yields.
Qed.

(** The end of a start that failed. *)
Lemma calm_finish_spawn n F r exit known :
  (forall q, r = Some q -> q ∈ f_groups F) -> calm_at n F (eff (Spawn (JFinishStart r exit known))).
Proof.
  intros Hr. apply calm_eff. intros g Hg. pose proof (at_groups _ _ _ Hg) as HG.
  rewrite Forall_forall in HG. split; [|done]. destruct r; simpl; auto.
Qed.

Lemma calm_end_start n F outcome state reason message r known :
  (n <= 7)%nat -> (LStart, Writing) ∈ f_locks F -> (forall q, r = Some q -> q ∈ f_groups F) ->
  calm_at n F (end_start outcome state reason message r known).
Proof.
  intros Hn Hs Hr. unfold end_start, rememberStartOutcome. simpl terminalStartResult. cbv zeta. cbn iota.
  apply calm_bind; [by apply calm_set_mu|]. intros _.
  apply calm_bind; [by apply calm_finish_spawn|]. intros _. calm.
Qed.

(** The watchers are started: [startedDone] will be closed. *)
Lemma calm_spawn_watchers {A} n F r (k : unit -> Prog A) :
  r ∈ f_groups F -> calm_at n F (k tt) ->
  calm_at n F (eff (Spawn (JFreezeInitial r)) ≫= fun _ => eff (Spawn (JObserveExit r)) ≫= k).
Proof.
  intros Hr Hk g Hg. assert (keep g (set_started true g)) as K by (by constructor).
  apply wp_eff; [done|]. intros ? [] _. apply wp_eff.
  { split; [done|]. pose proof (at_groups _ _ _ Hg) as HG. rewrite Forall_forall in HG. exact (HG _ Hr). }
  intros ? [] _. eapply wp_calm; [exact Hk|exact (at_keep _ _ _ _ K Hg)|]. intros a g' K'.
  exact (transitivity K K').
Qed.

Lemma calm_recordStarted n F r :
  (n <= 7)%nat -> reconciling F -> (LStart, Writing) ∈ f_locks F -> r ∈ f_groups F ->
  calm_at n F (record_started bootstrap r).
Proof.
  intros Hn HF Hs Hr. unfold record_started. apply calm_bind; [calm|]. intros id.
  apply calm_bind; [by apply calm_db_call|]. intros [e|].
  - destruct (isStorageExhaustion e); [calm|]. apply calm_bind; [calm|]. intros _.
    apply calm_end_start; [done|done|]. by intros q [= <-].
  - apply calm_bind; [by apply calm_set_mu|]. intros _. apply calm_spawn_watchers; [done|]. calm.
Qed.

Lemma calm_authorizedStart n F r :
  (n <= 6)%nat -> reconciling F -> (LStart, Writing) ∈ f_locks F ->
  calm_at n F (authorized_start bootstrap r).
Proof.
  intros Hn HF Hs g Hg. unfold authorized_start. apply wp_eff.
  { intros uuid. destruct HF as (m & Hm & Hin). split_and!; [done|done|by eapply at_recon|done]. }
  intros uuid a _. cbn [post]. destruct a as [e|[|[]| | |]]; cbn [after_db].
  1: exact (reflexivity g).
  all: try (eapply wp_calm; [|exact Hg|by intros]; by apply calm_end_start; [lia|..]).
  pose proof (keep_set_start true g) as K. pose proof (at_keep _ _ _ _ K Hg) as Hg'.
  apply wp_bind. eapply wp_mono; [|by apply (startPrepared_yields n F r)].
  intros [[runner outcome] startErr] g1 [K1 Ha]. simpl in Ha.
  eapply wp_calm; [|exact Ha|intros b g2 K2; by do 2 (etrans; [eassumption|])].
  assert (reconciling (if_grouped F runner)) as HF' by (destruct runner; exact HF).
  assert ((LStart, Writing) ∈ f_locks (if_grouped F runner)) as Hs' by (destruct runner; exact Hs).
  destruct startErr as [e|]; [|destruct runner; [|calm]].
  - destruct (isStorageExhaustion e); [calm|]. apply calm_bind; [calm|]. intros _.
    apply calm_end_start; [lia|done|]. intros q ->. left.
  - apply calm_recordStarted; [lia|done|done|left].
Qed.

Lemma calm_startOnce n F : (n <= 2)%nat -> reconciling F -> calm_at n F (startOnce bootstrap).
Proof.
  intros Hn HF. unfold startOnce. calm.
  - apply calm_end_start; [simpl; lia|left|done].
  - apply calm_authorizedStart; [simpl; lia|by apply reconciling_locking|left].
Qed.
End Starting.

#[export] Hint Resolve calm_prepare calm_startOnce : calm.

(** ** Actions *)

(** As [keep], but the permission to touch the process for the action may be gone. *)
Definition spend (g g' : Ghost) : Prop := keep (set_action (gh_action g) (gh_unused g') g) g'.

Lemma spend_keep g g' : keep g g' -> spend g g'.
Proof. intros []. by constructor. Qed.

Lemma spend_trans g1 g2 g3 : spend g1 g2 -> spend g2 g3 -> spend g1 g3.
Proof. intros [] []. simpl in *. constructor; simpl; try congruence; eauto. Qed.

Lemma spend_now b g : spend g (set_action (gh_action g) b g).
Proof. by constructor. Qed.

Lemma at_spend n F g g' : (5 <= n)%nat -> spend g g' -> at_ n F g -> at_ n F g'.
Proof.
  intros Hn K [Ha Hd HL Hi Hc Hg Hr Hw Hs]. eapply at_keep; [exact K|]. constructor; try done.
  - simpl. lia.
  - destruct (f_cause F); [|done]. by destruct Hc as (?&?&_).
Qed.

Section Acting.
Context {RC : ReportCodec} {CC : ClientCodec} {SC : SupervisorCodec} {PC : PayloadCodec}.
Context (bootstrap : supervisorIdentityBootstrap).
Local Abbreviation wp := (wp (processState bootstrap)).
Local Abbreviation calm_at := (calm_at (processState bootstrap)).

(** A program that may touch the process once. *)
Definition touches {A} (n : nat) (F : Facts) (p : Prog A) : Prop :=
  forall g, at_ n F g -> gh_unused g = true -> wp p g (fun _ g' => spend g g').

Lemma touches_calm {A} n F (p : Prog A) : calm_at n F p -> touches n F p.
Proof. intros Hp g Hg _. eapply wp_mono; [|by apply Hp]. intros a g'. apply spend_keep. Qed.

Lemma touches_after {A B} n F (p : Prog A) (k : A -> Prog B) :
  calm_at n F p -> (forall a, touches n F (k a)) -> touches n F (p ≫= k).
Proof.
  intros Hp Hk g Hg Hu. apply wp_bind. eapply wp_calm; [exact Hp|exact Hg|]. intros a g' K.
  eapply wp_mono; [|apply (Hk a g'); [exact (at_keep _ _ _ _ K Hg)|by rewrite (keep_unused _ _ K)]].
  intros b g'' K'. eapply spend_trans; [by apply spend_keep|done].
Qed.

Lemma touches_before {A B} n F (p : Prog A) (k : A -> Prog B) :
  (5 <= n)%nat -> touches n F p -> (forall a, calm_at n F (k a)) -> touches n F (p ≫= k).
Proof.
  intros Hn Hp Hk g Hg Hu. apply wp_bind. eapply wp_mono; [|by apply Hp]. intros a g' K. simpl in K.
  eapply wp_calm; [apply Hk|by eapply at_spend|]. intros b g'' K'.
  eapply spend_trans; [done|by apply spend_keep].
Qed.

(** The one effect. *)
Lemma touches_once {A B} n F (x : SysCall A) (k : A -> Prog B) :
  (5 <= n)%nat -> (forall g, at_ n F g -> gh_unused g = true -> os_pre x g) ->
  (forall a g, after_os x a g = set_action (gh_action g) false g) ->
  (forall a, calm_at n F (k a)) -> touches n F (os x ≫= k).
Proof.
  intros Hn Hpre Hpost Hk g Hg Hu. apply wp_eff; [by apply Hpre|]. intros ? a _. cbn [post]. rewrite Hpost.
  pose proof (spend_now false g) as K. eapply wp_calm; [apply Hk|by eapply at_spend|].
  intros b g'' K'. eapply spend_trans; [done|by apply spend_keep].
Qed.

Lemma spend_give_back l g g' :
  l <> LEffect -> (l, Writing) ∉ gh_held g -> spend (hold l Writing g) g' -> spend g (give_back l Writing g').
Proof.
  intros Hl Hin K. destruct K. simpl in *.
  assert (without (l, Writing) (gh_held g') = gh_held g) as Hh.
  { rewrite keep_held. by apply hold_back. }
  destruct l; try done; constructor; simpl; by auto.
Qed.

Lemma touches_locked {A} n F l (p : Prog A) :
  (n <= rank l)%nat -> l <> LEffect -> touches (S (rank l)) (locking l Writing F) p ->
  touches n F (locked l p).
Proof.
  intros Hn Hl Hp g Hg Hu. apply wp_locked; [by eapply above_le, Hg|].
  eapply wp_mono; [|apply (Hp (hold l Writing g)); [by apply (at_hold n)|done]]. intros a g' K.
  split_and!.
  - unfold writes. rewrite (keep_held _ _ K). left.
  - destruct l; try done. rewrite (keep_dirty _ _ K). simpl. rewrite (at_dirty _ _ _ Hg). apply not_elem_of_nil.
  - apply spend_give_back; [done| |done]. by eapply above_absent, Hg.
Qed.

Lemma at_caused_once n F g id seq :
  at_ n F g -> f_cause F = ByAction id seq -> gh_unused g = true -> caused (ByAction id seq) true g.
Proof.
  intros Hg Hc Hu. pose proof (at_caused _ _ _ Hg) as H. rewrite Hc in H. by destruct H as (?&?&_).
Qed.

Lemma calm_write_timed_out n F w r e pending :
  (n <= 6)%nat -> w = f_cause F -> (LStdin r, Writing) ∈ f_locks F ->
  calm_at n F (write_timed_out w r e pending).
Proof. intros Hn -> Hr. unfold write_timed_out. calm. Qed.

Lemma calm_write_returned n F r data err written werr :
  (LStdin r, Writing) ∈ f_locks F -> calm_at n F (write_returned r data err written werr).
Proof. intros Hr. unfold write_returned. calm. Qed.

Lemma touches_WriteInput n F id seq r data :
  (n <= 5)%nat -> f_cause F = ByAction id seq -> touches n F (WriteInput (ByAction id seq) r data).
Proof.
  intros Hn Hc. apply touches_locked; [done|done|]. apply touches_after; [calm|]. intros ok.
  destruct ok; simpl negb; cbn iota; [|apply touches_calm; calm].
  apply touches_after; [calm|]. intros [e|]; [apply touches_calm; calm|].
  apply touches_after; [calm|]. intros deadlineErr.
  destruct (match deadlineErr with Some e => _ | None => _ end); [apply touches_calm; calm|].
  apply touches_once; [simpl; lia| |done|].
  - intros g Hg Hu. split; [eapply at_lock; [exact Hg|left]|]. by eapply at_caused_once.
  - intros [[written writeErr]|].
    + destruct (isDeadline writeErr); [apply calm_write_timed_out; [simpl; lia|done|left]|].
      apply calm_write_returned. left.
    + apply calm_bind; [calm|]. intros ended. apply calm_write_timed_out; [simpl; lia|done|left].
Qed.

(** Interrupting a group: one signal. *)
Lemma touches_signal n F id seq r :
  (n <= 6)%nat -> f_cause F = ByAction id seq -> r ∈ f_groups F ->
  touches n F (group_signal (ByAction id seq) r SIGINT).
Proof.
  intros Hn Hc Hr. apply touches_locked; [done|done|]. intros g Hg Hu.
  assert (at_ 7 (locking (LGroup r) Writing (grouping r F)) g) as Hg'.
  { destruct Hg. constructor; try done. constructor; [|done]. rewrite Forall_forall in at_groups. auto. }
  eapply wp_read_group; [exact Hg'|]. intros x g1 K Hin. apply spend_keep in K as K'.
  destruct (g_closed x); [exact K'|]. destruct (g_signalSafe x) eqn:Hs; simpl negb; cbn iota; [|exact K'].
  apply wp_eff.
  { destruct Hin as [Hw Hgr Hd Hx Hk Hca]. rewrite Hs in Hk. split_and!; [done|done|].
    rewrite bool_decide_true by done. eapply at_caused_once; [exact (at_keep _ _ _ _ K Hg)|done|].
    by rewrite (keep_unused _ _ K). }
  intros ? err _. cbn [post after_os]. pose proof (spend_now false g1) as K1.
  pose proof (spend_trans _ _ _ K' K1) as K2.
  destruct err as [e|]; [|exact K2]. destruct (errors_Is e ESRCH); [|exact K2].
  eapply wp_write_group with (w := ByItself) (x := x); [|done|done|].
  - destruct Hin. by constructor.
  - intros g3 K3 _. eapply spend_trans; [exact K2|by apply spend_keep].
Qed.

Lemma touches_hasGroup {A} n F r (k : bool -> Prog A) :
  touches n (grouping r F) (k true) -> touches n F (k false) -> touches n F (hasGroup r ≫= k).
Proof.
  intros Ht Hf g Hg Hu. apply (wp_eff _ (LoadContainment r)); [done|]. intros ? [pgid|] _; [|by apply Hf].
  set (g' := post _ _ _ _). assert (keep g g') as K.
  { constructor; simpl; try done. intros q Hq. by right. }
  eapply wp_mono; [|apply (Ht g')]; [| |done].
  - intros a g'' K'. eapply spend_trans; [by apply spend_keep|done].
  - destruct (at_keep _ _ _ _ K Hg). constructor; simpl; try done. constructor; [left|done].
Qed.

Lemma touches_Interrupt n F id seq r :
  (n = 5)%nat -> f_cause F = ByAction id seq -> touches n F (Interrupt (ByAction id seq) r).
Proof.
  intros Hn Hc. apply touches_hasGroup; [apply touches_signal; [lia|done|left]|].
  apply touches_after; [calm|]. intros x. destruct (never_started x); [apply touches_calm; calm|].
  intros g Hg Hu. apply wp_eff with (e := Os (SignalLeader _ r)) (k := Ret).
  - by eapply at_caused_once.
  - intros ? a _. apply spend_now.
Qed.

Lemma touches_apply_write F action r :
  f_cause F = cause_of action -> touches 5 F (apply_write action r).
Proof.
  intros Hc. unfold apply_write. destruct (DecodeWritePayload _) as [msg|payload]; [apply touches_calm; calm|].
  apply touches_before; [lia| |].
  - destruct (_ <>? _); [by apply touches_WriteInput|apply touches_calm; calm].
  - intros [e|]; calm.
Qed.

Lemma touches_applyLive F action :
  f_cause F = cause_of action -> touches 5 F (applyLiveAction action).
Proof.
  intros Hc. unfold applyLiveAction. cbv zeta. apply touches_after; [calm|].
  intros [r|]; [|apply touches_calm; calm]. apply touches_after; [calm|]. intros x.
  destruct (never_started x); [apply touches_calm; calm|]. apply touches_after; [calm|].
  intros []; [apply touches_calm; calm|]. destruct (pa_ActionKind action); try (apply touches_calm; solve [calm]).
  - by apply touches_apply_write.
  - apply touches_before; [lia|by apply touches_Interrupt|]. intros; calm.
  - apply touches_calm. unfold terminateForAction. rewrite <-Hc. calm.
Qed.

Definition acting (id : string) (seq : Z) (F : Facts) : Facts :=
  mkFacts (f_locks F) (ByAction id seq) (f_groups F) (f_reaped F) (f_watch F) (f_started F).

Lemma calm_recordNoEffect n F action report :
  reconciling F -> is_int64 (pa_Seq action) ->
  calm_at n F (RecordWithoutEffect bootstrap action report).
Proof. intros HF Hi. apply calm_bind; [|intros; calm]. by apply calm_ordinary. Qed.

(** The admission of an action: its effect is over when the lock is given back. *)
Lemma calm_admit n F action :
  (n <= 4)%nat -> reconciling F -> is_int64 (pa_Seq action) ->
  calm_at n F (admit_action bootstrap action).
Proof.
  intros Hn HF Hi g Hg. apply wp_locked; [by eapply above_le, Hg|].
  pose proof (at_hold n F LEffect Writing g Hn Hg) as Hg1. set (g1 := hold LEffect Writing g) in *.
  assert (idle g) as Hidle by (apply Hg; simpl; lia).
  assert (forall g', keep g1 (set_action None false g') -> writes LEffect g' /\ True /\ keep g (give_back LEffect Writing g'))
    as Hend.
  { intros g' K. split_and!; [unfold writes; pose proof (keep_held _ _ K) as E; simpl in E; rewrite E; left|done|].
    apply (keep_give_back LEffect Writing g (set_action None false g')); [done| |exact K].
    by eapply above_absent, Hg. }
  assert (forall g', keep g1 g' -> writes LEffect g' /\ True /\ keep g (give_back LEffect Writing g')) as Hkeep.
  { intros g' K. apply Hend. destruct K. destruct Hidle. by constructor. }
  apply wp_bind. eapply wp_calm; [apply (calm_with_mu _ 5); lia|exact Hg1|]. intros [] g2 K2; [by apply Hkeep|].
  pose proof (at_keep _ _ _ _ K2 Hg1) as Hg2. apply wp_eff.
  { intros uuid. destruct HF as (m & Hm & Hin). split_and!; [done|done|eapply at_recon; [exact Hm|exact Hg2|by right]|..].
    - eapply at_lock; [exact Hg2|left].
    - rewrite (keep_unused _ _ K2). apply Hidle. }
  intros uuid [e|[| |[]| |]] _; cbn [post after_db]; try (by apply Hkeep).
  - set (g3 := set_action _ _ _). assert (at_ 5 (acting (pa_ID action) (pa_Seq action) (locking LEffect Writing F)) g3) as Hg3.
    { destruct Hg2. constructor; simpl in *; try done; try lia. by apply Forall_cons in at_locks as [? _]. }
    apply wp_bind.
    eapply wp_mono; [|exact (touches_applyLive (acting _ _ _) action eq_refl g3 Hg3 eq_refl)].
    intros result g4 K4. simpl in K4. apply Hend. destruct K4, K2, Hidle. simpl in *.
    constructor; simpl; try congruence; auto.
  - destruct (actionReport _ _ _) as [e|report]; [by apply Hkeep|]. apply wp_bind.
    eapply wp_calm; [apply calm_recordNoEffect; [by apply reconciling_locking|done]|exact Hg2|].
    intros [e|d] g3 K3; apply Hkeep; by etrans.
Qed.

Lemma calm_freezeActionResult n F action result :
  reconciling F -> calm_at n F (freezeActionResult bootstrap action result).
Proof. intros HF. unfold freezeActionResult. calm. Qed.

Lemma calm_finishNoEffect n F action d :
  reconciling F -> calm_at n F (finishNoEffectDecision bootstrap action d).
Proof. intros HF. unfold finishNoEffectDecision. calm; by apply calm_freezeActionResult. Qed.

Lemma calm_runApply n F action :
  (n <= 4)%nat -> reconciling F -> is_int64 (pa_Seq action) ->
  calm_at n F (runApplyOnce bootstrap action).
Proof.
  intros Hn HF Hi. unfold runApplyOnce, recordActionWithoutEffect. apply calm_bind; [calm|]. intros a.
  destruct (preflightActionResult _ _) as [result|].
  - destruct (actionReport _ _ _) as [e|report]; [calm|]. apply calm_bind; [|intros [e|d]; [calm|by apply calm_finishNoEffect]].
    apply calm_locked; [done|]. apply calm_recordNoEffect; [by apply reconciling_locking|done].
  - apply calm_bind; [by apply calm_admit|].
    intros [e|[result|[]|d]]; try (by apply calm_freezeActionResult); try (by apply calm_finishNoEffect); calm.
Qed.

(** A new call is owed its end. *)
Lemma actionCall_wp n F action g :
  (n <= 3)%nat -> at_ n F g ->
  wp (actionCall action) g (fun r g' =>
    match r with
    | inr (c, true) => keep (set_owes (ChCall c :: gh_owes g) g) g'
    | _ => keep g g'
    end).
Proof.
  intros Hn Hg. unfold actionCall. destruct (_ || _ || _); [done|].
  apply wp_locked; [eapply above_le, Hg; simpl; lia|].
  assert ((LMu, Writing) ∉ gh_held g) as Hnot by (eapply above_absent, Hg; simpl; lia).
  pose proof (at_hold n F LMu Writing g ltac:(simpl; lia) Hg) as Hg1. set (g1 := hold LMu Writing g) in *.
  assert (forall g', keep g1 g' -> writes LMu g' /\ True /\ keep g (give_back LMu Writing g')) as Hend.
  { intros g' K. split_and!; [unfold writes; rewrite (keep_held _ _ K); left|done|]. by apply keep_give_back. }
  apply wp_bind. eapply wp_calm; [eapply (calm_read_mu _ 8 (locking LMu Writing F) Writing); [done|left]|exact Hg1|].
  intros m g2 K2.
  destruct (m_inflight m !! pa_ID action) as [c|].
  - apply wp_bind. eapply wp_calm; [apply calm_quiet; reflexivity|exact (at_keep _ _ _ _ K2 Hg1)|].
    intros call g3 K3. destruct (_ || _ || _); apply Hend; by etrans.
  - apply wp_eff; [done|]. intros ? c _. apply wp_eff.
    { split; [|done]. unfold writes. simpl. rewrite (keep_held _ _ K2). left. }
    intros ? [] _. simpl. destruct K2. simpl in *.
    assert (without (LMu, Writing) (gh_held g2) = gh_held g) as Hh.
    { rewrite keep_held. by apply hold_back. }
    split_and!; [unfold writes; simpl; rewrite keep_held; left|done|]. constructor; simpl; try congruence; auto.
Qed.

Definition owing (c : nat) (g : Ghost) : Ghost := set_owes (ChCall c :: gh_owes g) g.

Lemma at_owing n F c g : (n <= 3)%nat -> at_ n F g -> at_ 4 F (owing c g).
Proof.
  intros Hn [Ha ? ? Hi]. apply (above_le n 3) in Ha as [Hh Ho]; [|done].
  constructor; try done; [split|intros _; apply Hi; simpl; lia].
  - eapply Forall_impl; [exact Hh|]. simpl. lia.
  - constructor; [simpl; lia|]. eapply Forall_impl; [exact Ho|]. simpl. lia.
Qed.

Lemma keep_paid n F c g g' :
  (n <= 3)%nat -> at_ n F g -> keep (owing c g) g' ->
  keep g (set_owes (without (ChCall c) (gh_owes g')) g').
Proof.
  intros Hn [Ha] K. apply (above_le n 3) in Ha as [_ Ho]; [|done]. destruct K. constructor; simpl in *; try done.
  rewrite keep_owes, without_cons. apply without_absent. intros Hin. rewrite Forall_forall in Ho.
  specialize (Ho _ Hin). simpl in Ho. lia.
Qed.

Lemma calm_applyOnce n F payload :
  (n <= 3)%nat -> reconciling F -> calm_at n F (applyOnce bootstrap payload).
Proof.
  intros Hn HF g Hg. unfold applyOnce. destruct (decode_action payload) as [action|] eqn:Ed; [|done].
  assert (is_int64 (pa_Seq action)) as Hi.
  { unfold decode_action in Ed. repeat case_match; simplify_eq. by case_bool_decide. }
  apply wp_bind. eapply wp_mono; [|by apply (actionCall_wp n F)].
  intros [msg|[c []]] g1 K1; [exact K1| |].
  - fold (owing c g) in K1. pose proof (at_keep _ _ _ _ K1 (at_owing _ _ c _ Hn Hg)) as Hg1.
    apply wp_bind. eapply wp_calm; [apply (calm_runApply 4 F); [done|done|exact Hi]|exact Hg1|]. intros err g2 K2.
    pose proof (transitivity K1 K2) as K3.
    apply wp_eff; [done|]. intros ? [] _. apply wp_eff; [change (ChCall c ∈ gh_owes g2); rewrite (keep_owes _ _ K3); left|].
    intros ? [] _. pose proof (keep_paid _ _ _ _ _ Hn Hg K3) as K4.
    eapply wp_calm with (n := n) (F := F); [|exact (at_keep _ _ _ _ K4 Hg)|].
    + apply calm_bind; [apply calm_set_mu; [lia|done]|intros; calm].
    + intros b g5 K5. by etrans.
  - pose proof (at_keep _ _ _ _ K1 Hg) as Hg1. eapply wp_calm; [|exact Hg1|intros a g2 K2; by etrans].
    apply calm_bind; [|intros; calm]. apply calm_eff. intros g' Hg'. split; [|done].
    eapply above_le, Hg'. done.
Qed.

(** ** Requests *)

Lemma calm_closeUngranted n F : (n <= 2)%nat -> calm_at n F closeUngranted.
Proof. intros Hn. unfold closeUngranted. calm. Qed.

Lemma calm_terminateUnstarted n F outcome reason :
  (n <= 7)%nat -> (LStart, Writing) ∈ f_locks F -> calm_at n F (terminate_unstarted outcome reason).
Proof. intros Hn Hs. unfold terminate_unstarted. calm. by apply calm_end_start. Qed.

Lemma calm_terminate n F payload :
  (n <= 2)%nat -> calm_at n F (terminate payload).
Proof.
  intros Hn. unfold terminate. calm; try (apply calm_terminateUnstarted; [simpl; lia|left]).
Qed.

Lemma calm_status n F : (n <= 7)%nat -> calm_at n F status.
Proof. intros Hn. unfold status. calm. Qed.

Lemma calm_handle n F request :
  (n <= 2)%nat -> (runnerMethodMutates (rq_Method request) = true -> reconciling F) ->
  calm_at n F (handle bootstrap request).
Proof.
  intros Hn HF. unfold handle. destruct (rq_Method request); try specialize (HF eq_refl); calm;
    first [apply calm_status|apply calm_prepare|apply calm_startOnce|apply calm_applyOnce|apply calm_closeUngranted
          |apply calm_terminate|apply calm_exhausted]; first [done|lia].
Qed.

Lemma calm_session n F requests : (n <= 2)%nat -> reconciling F -> calm_at n F (serve_session bootstrap requests).
Proof.
  intros Hn HF. induction requests as [|k IH]; cbn [serve_session]; calm; try exact IH; by apply calm_handle.
Qed.

Lemma calm_serveConn n F : (n <= 1)%nat -> calm_at n F (serveRunnerConn bootstrap).
Proof.
  intros Hn. unfold serveRunnerConn. apply calm_bind; [calm|]. intros [e|request]; [calm|].
  destruct (_ <>? _); [calm|]. destruct (_ <>? _); [calm|]. cbv zeta. set (serve := _ ≫= _).
  assert (calm_at n F (if runnerMethodMutates (rq_Method request) then read_locked LRecon serve else serve)) as Hs.
  { destruct (runnerMethodMutates _) eqn:E.
    - apply calm_read_locked; [done|]. apply calm_bind; [|intros; calm].
      apply calm_handle; [simpl; lia|intros _; apply reconciling_reading].
    - apply calm_bind; [|intros; calm]. apply calm_handle; [lia|congruence]. }
  revert Hs. destruct (rq_Method request); intros Hs; try exact Hs.
  unfold serveRunnerReconciliationConn. apply calm_locked; [done|]. calm.
  - apply calm_status. simpl. lia.
  - apply calm_session; [simpl; lia|apply reconciling_writing].
Qed.

(** ** The main thread *)

Lemma calm_stop n F : (n <= 6)%nat -> calm_at n F stopForSupervisorExit.
Proof. intros Hn. unfold stopForSupervisorExit. calm. Qed.

Lemma safeToRemove_wp n F g :
  (n <= 7)%nat -> at_ n F g ->
  wp safeToRemoveLock g (fun b g' => keep g g' /\ (b = true -> gh_removable g' = true)).
Proof.
  intros Hn Hg. apply wp_read_locked; [by eapply above_le, Hg|]. apply wp_eff; [left; left|]. intros ? m _.
  assert (keep (hold LMu Reading g) (post uuid ReadMu m (hold LMu Reading g))) as K.
  { simpl. destruct (m_localClosed m); [by constructor|reflexivity]. }
  split_and!; [|apply keep_give_back; [done| |exact K]|].
  - rewrite (keep_held _ _ K). left.
  - by eapply above_absent, Hg.
  - intros E. simpl. by rewrite E.
Qed.

Lemma calm_main F : calm_at 0 F runCommandSupervisor.
Proof.
  unfold runCommandSupervisor, serveCommandSupervisor.
  apply calm_bind; [calm; apply calm_stop; lia|]. intros resultErr. apply calm_bind; [calm|]. intros _.
  apply calm_bind; [calm|]. intros cleanupErr g Hg. apply wp_bind.
  eapply wp_mono; [|apply (safeToRemove_wp 0 F); [lia|exact Hg]]. intros safe g1 [K Hsafe].
  apply wp_bind. pose proof (at_keep _ _ _ _ K Hg) as Hg1.
  assert (wp (if safe then os RemoveLifetimeLock else os ReleaseLifetimeLock) g1 (fun _ g' => g' = g1)) as Hl.
  { destruct safe; (split; [|by intros ? a _]); [by apply Hsafe|done]. }
  eapply wp_mono; [|exact Hl]. intros lockErr g2 ->.
  eapply wp_calm; [|exact Hg1|intros a g3 K3; exact (transitivity K K3)]. calm.
Qed.

(** ** The goroutines *)

(** A goroutine holds nothing when it ends. *)
Definition over (g : Ghost) : Prop := gh_held g = [] /\ gh_owes g = [].

Definition known (groups : list nat) (watch : option nat) (started : bool) : Facts :=
  mkFacts [] ByItself groups [] watch started.

Lemma at_start n groups watch started owes :
  Forall (fun c => chan_rank c < n)%nat owes ->
  at_ n (known groups watch started)
    (mkGhost [] owes started false None false groups [] [] [] watch false false).
Proof. intros Ho. constructor; try done. by apply Forall_forall. Qed.

Lemma calm_over {A} F (p : Prog A) g :
  calm_at 0 F p -> at_ 0 F g -> over g -> wp p g (fun _ g' => over g').
Proof.
  intros Hp Hg [Hh Ho]. eapply wp_calm; [exact Hp|exact Hg|]. intros a g' K.
  split; [by rewrite (keep_held _ _ K)|by rewrite (keep_owes _ _ K)].
Qed.

Lemma freezeInitial_over r :
  wp (freezeInitialObservation bootstrap r) (ghost_of (JFreezeInitial r)) (fun _ g' => over g').
Proof.
  assert (at_ 1 (known [] None false) (ghost_of (JFreezeInitial r))) as Hg.
  { apply (at_start 1 [] None false [ChStarted]). constructor; [simpl; lia|done]. }
  unfold freezeInitialObservation. apply wp_bind.
  eapply wp_calm; [apply calm_quiet; reflexivity|exact Hg|]. intros assignment g1 K1. apply wp_bind.
  eapply wp_calm; [apply calm_initialObservation|exact (at_keep _ _ _ _ K1 Hg)|]. intros o g2 K2. apply wp_bind.
  eapply wp_calm with (n := 1%nat) (F := known [] None false); [|exact (at_keep _ _ _ _ K2 (at_keep _ _ _ _ K1 Hg))|].
  - destruct o as [[[[result|] observedAt] []]|]; calm.
  - intros [] g3 K3. pose proof (transitivity K1 (transitivity K2 K3)) as K. split.
    + change (ChStarted ∈ gh_owes g3). rewrite (keep_owes _ _ K). left.
    + intros ? [] _. split; simpl; [by rewrite (keep_held _ _ K)|by rewrite (keep_owes _ _ K)].
Qed.

Lemma body_respects j : wp (body bootstrap j) (ghost_of j) (fun _ g' => over g').
Proof.
  destruct j as [| |r|r|[r|] exit b|r timeout]; cbn [body].
  - apply (calm_over (known [] None false)); [|by apply (at_start 0)|done].
    apply calm_bind; [apply calm_main|intros; calm].
  - apply (calm_over (known [] None false)); [|by apply (at_start 0)|done]. apply calm_serveConn. lia.
  - apply freezeInitial_over.
  - apply (calm_over (known [r] (Some r) true)); [|by apply (at_start 0)|done].
    apply calm_observeExit; [|done]. split; [left|done].
  - apply (calm_over (known [r] (Some r) false)); [|by apply (at_start 0)|done].
    apply calm_finishStart. split; [left|done].
  - apply (calm_over (known [] None false)); [|by apply (at_start 0)|done]. by apply calm_finishStart.
  - apply (calm_over (known [] None false)); [|by apply (at_start 0)|done]. apply calm_enforceTimeout.
Qed.
End Acting.
