(* ===== verification/SupervisorInvariant.v ===== *)
(** * The invariant of a running supervisor

    What holds after every sequence of moves: the threads respect the logic, locks
    exclude each other, what a thread knows is true of the memory and of the log,
    open channels will be closed, and every event of the log was lawful when it
    happened. *)
From S2P Require Import Prelude GoStrings DaemonProtocol ProcessCmd DaemonMessages LocalPaths StateSchema StateQueries.
From S2P Require Import StateTx StateReport StateProcess StateAction StateTrace ClientWorld Reconciliation.
From S2P Require Import SupervisorWorld ProcessGroup Supervisor SupervisorLogic SupervisorCalm SupervisorRespects SupervisorJobs.
From stdpp Require Import options.
Local Open Scope Z_scope.

(** ** Reading the log *)

Definition call_of (e : Ev) : option Call :=
  match e with VDb _ c | VOther c => Some c | _ => None end.

Definition reaped_in (log : list Ev) (r : nat) : Prop := exists t, VReap t r ∈ log.

(** The actions the supervisor was told to execute. *)
Definition executes (e : Ev) : option (string * Z) :=
  match e with
  | VDb _ (mkCall (CApplyOnce _ a) _ (inr (OApply ApplyExecute _))) => Some (a_ID a, a_Seq a)
  | _ => None
  end.

(** The effects of actions that happen once: input and interruption. *)
Definition touched (e : Ev) : option (string * Z) :=
  match e with
  | VWrite _ (ByAction id seq) _ => Some (id, seq)
  | VSignal _ (ByAction id seq) _ None => Some (id, seq)
  | VSignal _ (ByAction id seq) _ (Some SIGINT) => Some (id, seq)
  | _ => None
  end.

Definition is_start (e : Ev) : bool := match e with VStart _ _ _ => true | _ => false end.
Definition authorizes (e : Ev) : bool :=
  match e with
  | VDb _ (mkCall (CAuthorizeSpawnOnce _) _ (inr (OSpawn true))) => true
  | _ => false
  end.

Section Invariant.
Context {RC : ReportCodec} {CC : ClientCodec} {SC : SupervisorCodec} {PC : PayloadCodec}.
Context (bootstrap : supervisorIdentityBootstrap).
Local Abbreviation sup := (processState bootstrap).
Local Abbreviation wp := (wp sup).
Local Abbreviation pre := (pre sup).

Definition closed_in (log : list Ev) : Prop :=
  exists t faults o,
    VDb t (mkCall (CMarkLocalClosed (processID bootstrap) (instanceID bootstrap)) faults (inr o)) ∈ log.

Definition for_action (past : list Ev) (why : Cause) : Prop :=
  match why with
  | ByAction id seq => last (omap executes past) = Some (id, seq)
  | ByItself => True
  end.

(** What each event requires of the events before it. *)
Definition lawful (past : list Ev) (e : Ev) : Prop :=
  match e with
  | VDb _ c => wf_cmd (c_cmd c) /\ own_call sup (c_cmd c)
  | VSignal _ why r (Some _) => ~ reaped_in past r /\ for_action past why
  | VSignal _ why r None => for_action past why
  | VWrite _ why _ => for_action past why
  | VReap _ r => ~ reaped_in past r
  | VRemoveLock _ => closed_in past
  | _ => True
  end.

Definition all_lawful (log : list Ev) : Prop :=
  forall past e later, log = past ++ e :: later -> lawful past e.

Lemma all_lawful_app log e : all_lawful log -> lawful log e -> all_lawful (log ++ [e]).
Proof.
  intros Hl He past e' later. destruct later as [|x later _] using rev_ind; intros E.
  - apply app_inj_tail in E as [-> ->]. done.
  - rewrite app_comm_cons, (assoc_L (++)) in E. apply app_inj_tail in E as [-> _]. by eapply Hl.
Qed.

(** ** Threads *)

(** What a thread knows is true. *)
Record fine (G : gmap nat unixProcessGroup) (L : list Ev) (g : Ghost) : Prop := mkFine {
  fi_grouped r : r ∈ gh_grouped g -> is_Some (G !! r);
  fi_safe r : r ∈ gh_safe g -> writes (LGroup r) g /\ r ∉ gh_dirty g
    /\ exists x, G !! r = Some x /\ g_signalSafe x = true;
  fi_dirty r : r ∈ gh_dirty g -> writes (LGroup r) g;
  fi_reaped r : r ∈ gh_reaped g -> reaped_in L r;
  fi_closed : gh_closed g = true -> closed_in L;
  fi_removable : gh_removable g = true -> closed_in L;
  fi_action a : gh_action g = Some a -> writes LEffect g /\ last (omap executes L) = Some a;
  fi_unused : gh_unused g = true -> exists a l,
    gh_action g = Some a /\ omap executes L = l ++ [a] /\ sublist (omap touched L) l
}.

Definition claims (l : LockId) (g : Ghost) : Prop := (l, Announced) ∈ gh_held g \/ writes l g.

(** Two threads' locks: one at most claims a lock, and nobody reads what is held. *)
Definition apart (g1 g2 : Ghost) : Prop :=
  forall l, ~ (claims l g1 /\ claims l g2)
    /\ ~ (writes l g1 /\ (l, Reading) ∈ gh_held g2) /\ ~ ((l, Reading) ∈ gh_held g1 /\ writes l g2).

(** Somebody will close the channel. *)
Definition owed (c : Chan) (ths : list Thread) : Prop :=
  exists t th, ths !! t = Some th /\ c ∈ gh_owes (th_ghost th).

Definition permit (th : Thread) : nat := if gh_start (th_ghost th) then 1 else 0.

Record Inv (db0 : DB) (y : Sys) : Prop := mkInv {
  in_wp t th : y_threads y !! t = Some th -> wp (th_prog th) (th_ghost th) (fun _ g => over g);
  in_fine t th : y_threads y !! t = Some th -> fine (y_groups y) (y_log y) (th_ghost th);
  in_watch t th : y_threads y !! t = Some th -> gh_watch (th_ghost th) = gh_watch (ghost_of (th_job th));
  in_apart t1 t2 th1 th2 :
    t1 <> t2 -> y_threads y !! t1 = Some th1 -> y_threads y !! t2 = Some th2 ->
    apart (th_ghost th1) (th_ghost th2);
  in_groups r x : y_groups y !! r = Some x -> coherent x /\ (g_reaped x = true -> reaped_in (y_log y) r);
  in_reaped r : reaped_in (y_log y) r ->
    exists x, y_groups y !! r = Some x
      /\ (g_signalSafe x = false
          \/ exists t th, y_threads y !! t = Some th /\ r ∈ gh_dirty (th_ghost th));
  in_localClosed : m_localClosed (y_mu y) = true -> closed_in (y_log y);
  in_runs : runs db0 (omap call_of (y_log y)) (y_db y);
  in_pending c : c ∈ y_pending y -> owed (ChCall c) (y_threads y);
  in_started t th : y_threads y !! t = Some th -> gh_started (th_ghost th) = true ->
    y_startedDone y = true \/ owed ChStarted (y_threads y);
  in_starts :
    (length (List.filter is_start (y_log y)) + sum_list_with permit (y_threads y)
     <= length (List.filter authorizes (y_log y)))%nat;
  in_touched : sublist (omap touched (y_log y)) (omap executes (y_log y));
  in_lawful : all_lawful (y_log y);
  in_index t c : VDb t c ∈ y_log y -> (t < length (y_threads y))%nat;
  in_emptied t th r past c later :
    y_threads y !! t = Some th -> gh_watch (th_ghost th) = Some r ->
    y_log y = past ++ VDb t c :: later ->
    (exists pid i, c_cmd c = CMarkContainmentEmpty pid i) -> reaped_in past r
}.

(** ** One effect *)

Local Abbreviation perform := (perform sup (body bootstrap)).

Definition spawned {A} (e : Eff A) : list Thread :=
  match e with Spawn j => [new_thread (body bootstrap) j] | _ => [] end.

(** What an effect leaves in the log. *)
Definition occurs {A} (t : nat) (e : Eff A) (rp : SReply) (db : DB) (a : A) : list Ev :=
  match e in Eff A return A -> list Ev with
  | DbWrite c => fun _ => [VDb t (mkCall (c (sr_uuid rp)) (sr_faults rp) (run_cmd (c (sr_uuid rp)) (sr_faults rp) db).1)]
  | Os x => os_event t x
  | _ => fun _ => []
  end a.

Ltac perform_cases H :=
  match type of H with
  | SupervisorWorld.perform _ _ _ ?e _ _ = Some _ =>
      destruct e; cbn in H; repeat case_match; simplify_eq; try done
  end.

Lemma perform_threads {A} t (e : Eff A) rp y a y' :
  perform t e rp y = Some (a, y') -> y_threads y' = y_threads y ++ spawned e.
Proof. intros H. perform_cases H; simpl; by rewrite (right_id_L [] (++)). Qed.

Lemma perform_log {A} t (e : Eff A) rp y a y' :
  perform t e rp y = Some (a, y') -> y_log y' = y_log y ++ occurs t e rp (y_db y) a.
Proof.
  intros H. perform_cases H; simpl; try (by rewrite (right_id_L [] (++))).
  all: match goal with H : run_cmd _ _ _ = _ |- _ => by rewrite H end.
Qed.

(** A group changes only under its mutex, and does not disappear. *)
Lemma perform_groups {A} t (e : Eff A) rp y a y' g r x :
  pre e g -> perform t e rp y = Some (a, y') -> y_groups y !! r = Some x ->
  exists x', y_groups y' !! r = Some x' /\ (x' = x \/ writes (LGroup r) g).
Proof.
  intros Hpre H Hx. perform_cases H; eauto.
  - simpl. destruct (decide (r0 = r)) as [->|Hne]; [congruence|]. rewrite lookup_insert_ne by done. eauto.
  - simpl. destruct (decide (r0 = r)) as [->|Hne].
    + rewrite lookup_insert_eq. eexists. split; [done|]. right. apply Hpre.
    + rewrite lookup_insert_ne by done. eauto.
Qed.

(** Actions are executed, and have their effect, under the effect lock. *)
Lemma occurs_actions {A} t (e : Eff A) rp db a g :
  pre e g ->
  (omap executes (occurs t e rp db a) = [] /\ omap touched (occurs t e rp db a) = []) \/ writes LEffect g.
Proof.
  intros Hpre. destruct e as [| | | | | | | | | | | | | | | | | | | | | | | |c| |X x| | |]; try (by left).
  - specialize (Hpre (sr_uuid rp)) as (_ & _ & _ & Hc). cbn [occurs].
    destruct (c (sr_uuid rp)); try (by left). right. by destruct Hc.
  - simpl in Hpre. cbn [occurs]. destruct x; try (by left); simpl in Hpre |- *.
    + destruct Hpre as (_ & _ & Hc). destruct why; [right; apply Hc|by left].
    + destruct why; [right; apply Hpre|by left].
    + destruct a as [? []]; by left.
    + destruct Hpre as [_ Hc]. destruct why; [right; apply Hc|by left].
Qed.

(** ** Other threads *)

Lemma reaped_in_app L es r : reaped_in L r -> reaped_in (L ++ es) r.
Proof. intros [t Ht]. exists t. apply elem_of_app. by left. Qed.
Lemma closed_in_app L es : closed_in L -> closed_in (L ++ es).
Proof. intros (t & f & o & Ht). exists t, f, o. apply elem_of_app. by left. Qed.

Lemma fine_other G L g2 G' es :
  fine G L g2 ->
  (forall r x, G !! r = Some x -> exists x', G' !! r = Some x' /\ (x' = x \/ ~ writes (LGroup r) g2)) ->
  (omap executes es = [] /\ omap touched es = []) \/ ~ writes LEffect g2 ->
  fine G' (L ++ es) g2.
Proof.
  intros [Hg Hs Hd Hr Hc Hrm Ha Hu] HG He. constructor.
  - intros r Hin. destruct (Hg r Hin) as [x Hx]. destruct (HG r x Hx) as (x' & -> & _). eauto.
  - intros r Hin. destruct (Hs r Hin) as (Hw & Hn & x & Hx & Hsx). split_and!; [done|done|].
    destruct (HG r x Hx) as (x' & Hx' & [->|?]); [eauto|done].
  - done.
  - intros r Hin. by apply reaped_in_app, Hr.
  - intros E. by apply closed_in_app, Hc.
  - intros E. by apply closed_in_app, Hrm.
  - intros a E. destruct (Ha a E) as [Hw Hl]. split; [done|]. rewrite omap_app.
    destruct He as [[-> _]|?]; [by rewrite (right_id_L [] (++))|done].
  - intros E. destruct (Hu E) as (a & l & Ea & El & Hsub). exists a, l. rewrite !omap_app.
    destruct (Ha a Ea) as [Hw _]. destruct He as [[-> ->]|?]; [by rewrite !(right_id_L [] (++))|done].
Qed.

(** ** The thread itself *)

Lemma elem_of_without {A} `{EqDecision A} (x y : A) l : y ∈ without x l <-> y ∈ l /\ y <> x.
Proof.
  unfold without. rewrite !list_elem_of_In, filter_In. by rewrite bool_decide_eq_true.
Qed.

Lemma fine_log G L g es :
  fine G L g -> omap executes es = [] -> omap touched es = [] -> fine G (L ++ es) g.
Proof. intros Hf H1 H2. eapply fine_other; [exact Hf| |by left]. eauto. Qed.

Lemma fine_held G L g h :
  fine G L g -> (forall l, writes l g -> (l, Writing) ∈ h) -> fine G L (set_held h g).
Proof.
  intros [Hg Hs Hd Hr Hc Hrm Ha Hu] Hh. constructor; simpl; try done.
  - intros r Hin. destruct (Hs r Hin) as (Hw & Hn & Hx). split_and!; [by apply Hh|done|done].
  - intros r Hin. by apply Hh, Hd.
  - intros a E. destruct (Ha a E) as [Hw Hl]. split; [by apply Hh|done].
Qed.

(** Giving back a lock: what was known under it is forgotten. *)
Lemma fine_give_back G L g l m :
  fine G L g -> (m = Writing -> match l with LGroup r => r ∉ gh_dirty g | _ => True end) ->
  fine G L (give_back l m g).
Proof.
  intros [Hg Hs Hd Hr Hc Hrm Ha Hu] Hl.
  assert (forall l', writes l' g -> l' <> l \/ m <> Writing -> (l', Writing) ∈ without (l, m) (gh_held g)) as Hw.
  { intros l' Hw Hne. apply elem_of_without. split; [exact Hw|]. intros [= E1 E2]. destruct Hne; congruence. }
  assert (forall r, r ∈ gh_dirty g -> LGroup r <> l \/ m <> Writing) as Hdirty.
  { intros r Hin. destruct (decide (m = Writing)) as [E|]; [left|by right]. intros <-. by apply Hl. }
  destruct l; (constructor; simpl; try done);
    try (intros r0 Hin; destruct (Hs r0 Hin) as (Hw' & Hn & Hx); split_and!; [apply Hw; [done|by left]|done|done]);
    try (intros r0 Hin; apply Hw; [by apply Hd|by apply Hdirty]);
    try (intros a E; destruct (Ha a E) as [Hw' Hlast]; split; [apply Hw; [done|by left]|done]).
  intros q Hin. apply elem_of_without in Hin as [Hin Hne]. destruct (Hs q Hin) as (Hw' & Hn & Hx).
  split_and!; [apply Hw; [done|left; congruence]|done|done].
Qed.

Lemma fine_grouped G L g r :
  fine G L g -> is_Some (G !! r) -> fine G L (set_grouped (r :: gh_grouped g) g).
Proof.
  intros [Hg Hs Hd Hr Hc Hrm Ha Hu] Hx. constructor; simpl; try done.
  intros q Hin. apply elem_of_cons in Hin as [->|Hin]; [done|by apply Hg].
Qed.

(** Reading or writing a group whose mutex is held. *)
Lemma fine_group G L g r x :
  fine G L g -> writes (LGroup r) g ->
  (g_signalSafe x = true -> r ∉ gh_dirty g) -> (g_reaped x = true -> reaped_in L r) ->
  fine (<[r := x]> G) L (after_group r x g).
Proof.
  intros [Hg Hs Hd Hr Hc Hrm Ha Hu] Hw Hx Hreap.
  assert (forall q, is_Some (G !! q) -> is_Some (<[r := x]> G !! q)) as HG.
  { intros q ?. destruct (decide (r = q)) as [->|]; [rewrite lookup_insert_eq|rewrite lookup_insert_ne by done]; eauto. }
  constructor; simpl; try done.
  - intros q Hin. by apply HG, Hg.
  - intros q Hin. destruct (decide (q = r)) as [->|Hne].
    + destruct (g_signalSafe x) eqn:E; [|apply elem_of_without in Hin; tauto].
      split_and!; [done|by apply Hx|]. exists x. by rewrite lookup_insert_eq.
    + assert (q ∈ gh_safe g) as Hq.
      { destruct (g_signalSafe x); [apply elem_of_cons in Hin as [?|Hin]; [done|]|];
          by apply elem_of_without in Hin as [? _]. }
      destruct (Hs q Hq) as (Hw' & Hn & x' & Hx' & Hs'). split_and!; [done| |].
      * destruct (g_signalSafe x); [done|]. rewrite elem_of_without. tauto.
      * exists x'. by rewrite lookup_insert_ne.
  - intros q Hin. apply Hd. destruct (g_signalSafe x); [done|]. by apply elem_of_without in Hin as [? _].
  - intros q Hin. destruct (g_reaped x) eqn:E; [|by apply Hr].
    apply elem_of_cons in Hin as [->|Hin]; [by apply Hreap|by apply Hr].
Qed.

Lemma fine_ghost G L g g' :
  fine G L g -> gh_held g' = gh_held g -> gh_grouped g' = gh_grouped g -> gh_safe g' = gh_safe g ->
  gh_dirty g' = gh_dirty g -> gh_reaped g' = gh_reaped g ->
  (gh_closed g' = true -> gh_closed g = true \/ closed_in L) ->
  (gh_removable g' = true -> gh_removable g = true \/ closed_in L) ->
  gh_action g' = gh_action g -> (gh_unused g' = true -> gh_unused g = true) -> fine G L g'.
Proof.
  intros [Hg Hs Hd Hr Hc Hrm Ha Hu] E1 E2 E3 E4 E5 E6 E7 E8 E9.
  constructor; unfold writes; rewrite ?E1, ?E2, ?E3, ?E4, ?E5, ?E8; try done.
  - intros H. destruct (E6 H); auto.
  - intros H. destruct (E7 H); auto.
  - intros H. by apply Hu, E9.
Qed.

End Invariant.

(** A change of the other fields. *)
Ltac ghost_only H := eapply fine_ghost; [exact H|simpl; first [reflexivity|intros; by left|by intros]..].

Section Effects.
Context {RC : ReportCodec} {CC : ClientCodec} {SC : SupervisorCodec} {PC : PayloadCodec}.
Context (bootstrap : supervisorIdentityBootstrap).
Local Abbreviation sup := (processState bootstrap).
Local Abbreviation fine := (fine bootstrap).

Lemma fine_insert_same G L g r x : fine (<[r := x]> G) L g -> G !! r = Some x -> fine G L g.
Proof. intros H E. by rewrite (insert_id G r x) in H. Qed.

Lemma fine_os {A} G L t (x : SysCall A) (a : A) g :
  os_pre x g -> fine G L g -> fine G (L ++ os_event t x a) (after_os x a g).
Proof.
  intros Hpre Hf.
  assert (fine G L (set_action (gh_action g) false g)) as Hspent by ghost_only Hf.
  assert (forall id seq es, gh_action g = Some (id, seq) -> gh_unused g = true ->
    omap executes es = [] -> fine G (L ++ es) (set_action (gh_action g) false g)) as Hdone.
  { intros id seq es Ea Eu Hes. destruct Hspent as [Hg Hs Hd Hr Hc Hrm Ha _].
    constructor; try done.
    - intros r Hin. by apply reaped_in_app, Hr.
    - intros E. by apply closed_in_app, Hc.
    - intros E. by apply closed_in_app, Hrm.
    - intros b Eb. destruct (Ha b Eb) as [Hw Hl]. split; [done|]. by rewrite omap_app, Hes, (right_id_L [] (++)). }
  destruct x; simpl in *; rewrite ?(right_id_L [] (++)); try exact Hf.
  - apply fine_log; [|done|done]. ghost_only Hf.
  - destruct Hpre as (Hw & Hs & Hc). destruct why as [id seq|]; simpl in Hc.
    + destruct signal; simpl in *; [|by apply fine_log..]. destruct Hc as (_ & Ea & Eu).
      eapply Hdone; [exact Ea|by apply Eu|done].
    + by apply fine_log.
  - destruct why as [id seq|]; simpl in Hpre; [|done]. destruct Hpre as (_ & Ea & Eu).
    eapply Hdone; [exact Ea|by apply Eu|done].
  - destruct a as [waitErr []]; simpl; [|by rewrite (right_id_L [] (++))]. destruct Hpre as [Hw Hs].
    apply (fine_log _ G L _ [VReap t r]) in Hf as [Fg Fs Fd Fr Fc Frm Fa Fu]; [|done|done].
    constructor; simpl; try done.
    + intros q Hin. apply elem_of_without in Hin as [Hin Hne]. destruct (Fs q Hin) as (Hw' & Hn & Hx).
      split_and!; [done| |done]. rewrite elem_of_cons. tauto.
    + intros q Hin. apply elem_of_cons in Hin as [->|Hin]; [done|by apply Fd].
    + intros q Hin. apply elem_of_cons in Hin as [->|Hin]; [|by apply Fr].
      exists t. apply elem_of_app. right. left.
  - destruct Hpre as [_ Hc]. destruct why as [id seq|]; simpl in Hc; [|done]. destruct Hc as (_ & Ea & Eu).
    eapply Hdone; [exact Ea|by apply Eu|done].
  - by apply fine_log.
Qed.

Lemma fine_db G L t c faults r g :
  db_pre sup c g -> fine G L g -> sublist (omap touched L) (omap executes L) ->
  fine G (L ++ [VDb t (mkCall c faults r)])
    (after_db c (match r with inl e => inl [SState e] | inr o => inr o end) g).
Proof.
  intros Hpre Hf Hsub. destruct Hpre as (_ & Hown & _ & Hc).
  assert (executes (VDb t (mkCall c faults r)) = None -> fine G (L ++ [VDb t (mkCall c faults r)]) g) as Hplain.
  { intros E. apply fine_log; [done| |done]. simpl. unfold executes in E. by rewrite E. }
  destruct c; try (by apply Hplain); destruct r as [e|o]; try (by apply Hplain).
  - destruct o as [|[]| | |]; try (by apply Hplain). simpl.
    assert (fine G (L ++ [VDb t (mkCall (CAuthorizeSpawnOnce s) faults (inr (OSpawn true)))]) g) as Hf' by (by apply Hplain).
    ghost_only Hf'.
  - simpl. destruct Hown as [-> ->]. eapply fine_ghost; [by apply Hplain|done|done|done|done|done| |intros; by left|done|done].
    intros _. right.
    exists t, faults, o. apply elem_of_app. right. left.
  - destruct o as [| |[]| |]; try (by apply Hplain). simpl. destruct Hc as [Hw _].
    destruct Hf as [Hg Hs Hd Hr Hcl Hrm Ha Hu]. constructor; simpl; try done.
    + intros q Hin. by apply reaped_in_app, Hr.
    + intros E. by apply closed_in_app, Hcl.
    + intros E. by apply closed_in_app, Hrm.
    + intros b [= <-]. split; [done|]. by rewrite omap_app, last_app.
    + intros _. exists (a_ID action, a_Seq action), (omap executes L). rewrite !omap_app. simpl.
      rewrite (right_id_L [] (++)). done.
Qed.
End Effects.
