(* ===== verification/SupervisorSteps.v ===== *)
(** * Every move keeps the invariant

    One effect of one thread, clause by clause of [Inv]; then the moves and the
    sequences of moves. *)
From S2P Require Import Prelude GoStrings DaemonProtocol ProcessCmd DaemonMessages LocalPaths StateSchema StateQueries.
From S2P Require Import StateTx StateReport StateProcess StateAction StateTrace ClientWorld Reconciliation.
From S2P Require Import SupervisorWorld ProcessGroup Supervisor SupervisorLogic SupervisorCalm SupervisorRespects SupervisorJobs.
From S2P Require Import SupervisorInvariant.
From stdpp Require Import options.
Local Open Scope Z_scope.

Section Steps.
Context {RC : ReportCodec} {CC : ClientCodec} {SC : SupervisorCodec} {PC : PayloadCodec}.
Context (bootstrap : supervisorIdentityBootstrap) (db0 : DB).
Local Abbreviation sup := (processState bootstrap).
Local Abbreviation fine := (fine bootstrap).
Local Abbreviation Inv := (Inv bootstrap db0).
Local Abbreviation pre := (pre sup).

Section Step.
Context (y : Sys) (t : nat) (j : Job) {A : Type} (e : Eff A) (k : A -> Prog unit) (g : Ghost).
Context (rp : SReply) (a : A) (y' : Sys).
Context (Hinv : Inv y) (Hth : y_threads y !! t = Some (mkThread j (Vis e k) g)).
Context (Hp : perform sup (body bootstrap) t e rp y = Some (a, y')).

Definition ghost' : Ghost := post (sr_uuid rp) e a g.
Definition thread' : Thread := mkThread j (k a) ghost'.
Definition y'' : Sys := put_threads (<[t := thread']> (y_threads y')) y'.

Lemma step_pre : pre e g.
Proof using Hinv Hth. by apply (in_wp _ _ _ Hinv) in Hth as [? _]. Qed.

Lemma step_fine_before : fine (y_groups y) (y_log y) g.
Proof using Hinv Hth. exact (in_fine _ _ _ Hinv _ _ Hth). Qed.

Lemma step_possible : possible e g a.
Proof using Hinv Hth Hp.
  pose proof step_pre as Hpre. pose proof step_fine_before as Hf. revert Hp Hpre. destruct e; cbn; try done.
  - intros [= <- <-] _ Hr. destruct (fi_grouped _ _ _ _ Hf _ Hr) as [x ->]. eauto.
  - intros [= <- <-] (_ & Hr & _). destruct (fi_grouped _ _ _ _ Hf _ Hr) as [x Hx]. rewrite Hx.
    exact (proj1 (in_groups _ _ _ Hinv _ _ Hx)).
Qed.

Lemma step_wp : wp sup (k a) ghost' (fun _ g => over g).
Proof using Hinv Hth Hp.
  pose proof step_possible as Hpos. apply (in_wp _ _ _ Hinv) in Hth as [_ H]. by apply H.
Qed.

Lemma step_fine : fine (y_groups y') (y_log y') ghost'.
Proof using Hinv Hth Hp.
  pose proof step_pre as Hpre. pose proof step_fine_before as Hf. unfold ghost'.
  pose proof Hp as Hp'. destruct e; cbn in Hp'; repeat case_match; try discriminate Hp';
    injection Hp' as <- <-; try exact Hf; cbn [post] in *.
  all: try (ghost_only Hf).
  - apply fine_held; [done|]. intros l' Hl. by right.
  - apply fine_held; [done|]. intros l' Hl. right. by apply elem_of_without.
  - apply fine_give_back; [done|]. intros _. destruct Hpre as [_ Hd]. by destruct l.
  - apply fine_held; [done|]. intros l' Hl. by right.
  - by apply fine_give_back.
  - destruct (m_localClosed (y_mu y)) eqn:E; [|done].
    eapply fine_ghost; [exact Hf|done|done|done|done|done|intros; by left| |done|done].
    intros _. right. by apply (in_localClosed _ _ _ Hinv).
  - destruct (y_groups y !! r) eqn:E; [|done]. apply fine_grouped; [done|]. by rewrite E.
  - apply fine_grouped; [done|]. eauto.
  - apply fine_grouped; [|simpl; rewrite lookup_insert_eq; eauto]. simpl.
    rewrite <-(right_id_L [] (++) (y_log y)). eapply fine_other; [exact Hf| |by left]. intros q x Hx.
    rewrite lookup_insert_ne by congruence. eauto.
  - destruct Hpre as (Hw & Hr & Hd). destruct (fi_grouped _ _ _ _ Hf _ Hr) as [x Hx]. rewrite Hx.
    apply (fine_insert_same _ _ _ _ r x); [|done]. apply fine_group; [done|done|done|].
    exact (proj2 (in_groups _ _ _ Hinv _ _ Hx)).
  - destruct Hpre as (Hw & Hr & Hc & Hs). simpl. apply fine_group; [done|done| |].
    + intros E. rewrite E in Hs. by apply (fi_safe _ _ _ _ Hf) in Hs as (_ & ? & _).
    + intros E. unfold coherent in Hc. rewrite E in Hc. simpl in Hc. rewrite Hc in Hs.
      by apply (fi_reaped _ _ _ _ Hf).
  - destruct j0; try exact Hf. ghost_only Hf.
  - by apply (fine_db _ _ _ _ _ _ (inl e0)); [apply Hpre|exact Hf|apply (in_touched _ _ _ Hinv)].
  - by apply (fine_db _ _ _ _ _ _ (inr o)); [apply Hpre|exact Hf|apply (in_touched _ _ _ Hinv)].
  - apply fine_os; [exact Hpre|exact Hf].
Qed.

(** The threads afterwards: the one that moved, the others, a new one. *)
Lemma step_threads : y_threads y'' = <[t := thread']> (y_threads y) ++ spawned bootstrap e.
Proof using Hth Hp.
  unfold y''. simpl. rewrite (perform_threads _ _ _ _ _ _ _ Hp). apply insert_app_l.
  by eapply lookup_lt_Some.
Qed.

Lemma step_lookup t2 th2 :
  y_threads y'' !! t2 = Some th2 ->
  (t2 = t /\ th2 = thread') \/ (t2 <> t /\ y_threads y !! t2 = Some th2)
  \/ (t2 <> t /\ (length (y_threads y) <= t2)%nat /\ th2 ∈ spawned bootstrap e).
Proof using Hth Hp.
  rewrite step_threads. pose proof (lookup_lt_Some _ _ _ Hth) as Hlt. intros H.
  apply lookup_app_Some in H as [H|[Hle H]].
  - destruct (decide (t2 = t)) as [->|Hne].
    + rewrite list_lookup_insert_eq in H by done. left. by simplify_eq.
    + rewrite list_lookup_insert_ne in H by done. by right; left.
  - rewrite length_insert in Hle. right; right. split_and!; [lia|done|]. by eapply list_elem_of_lookup_2.
Qed.

Lemma step_self : y_threads y'' !! t = Some thread'.
Proof using Hth Hp.
  rewrite step_threads. pose proof (lookup_lt_Some _ _ _ Hth) as Hlt.
  rewrite lookup_app_l by (by rewrite length_insert). by rewrite list_lookup_insert_eq.
Qed.

Lemma step_other t2 th2 : t2 <> t -> y_threads y !! t2 = Some th2 -> y_threads y'' !! t2 = Some th2.
Proof using Hth Hp.
  intros Hne H. rewrite step_threads. apply lookup_app_l_Some. by rewrite list_lookup_insert_ne.
Qed.

Lemma step_log : y_log y'' = y_log y ++ occurs t e rp (y_db y) a.
Proof using Hp. exact (perform_log _ _ _ _ _ _ _ Hp). Qed.

(** A thread that has just started. *)
Lemma fine_new G L : forall r, (forall q, q ∈ r -> is_Some (G !! q)) ->
  forall g0, gh_grouped g0 = r -> gh_safe g0 = [] -> gh_dirty g0 = [] -> gh_reaped g0 = [] ->
  gh_closed g0 = false -> gh_removable g0 = false -> gh_action g0 = None -> gh_unused g0 = false ->
  fine G L g0.
Proof using.
  intros r Hr g0 <- E2 E3 E4 E5 E6 E7 E8.
  constructor; rewrite ?E2, ?E3, ?E4, ?E5, ?E6, ?E7, ?E8; try done; intros q Hq; by apply elem_of_nil in Hq.
Qed.

Lemma spawned_ghost th :
  th ∈ spawned bootstrap e ->
  exists j', th = new_thread (body bootstrap) j'
    /\ (forall r, r ∈ gh_grouped (ghost_of j') -> r ∈ gh_grouped g)
    /\ (gh_started (ghost_of j') = true -> gh_started ghost' = true).
Proof using Hinv Hth Hp.
  pose proof step_pre as Hpre. unfold ghost'. intros Hin.
  destruct e as [| | | | | | | | | | | | | | | | | | | | | | |j'| | | | | |]; simpl in Hin; try (by apply elem_of_nil in Hin).
  apply list_elem_of_singleton in Hin as ->. exists j'. split_and!; [done|..].
  - intros r. destruct j' as [| | | |[q|]|]; simpl; intros Hr; try (by apply elem_of_nil in Hr);
      apply list_elem_of_singleton in Hr as ->; by apply Hpre.
  - destruct j' as [| | | |[q|]|]; try done. intros _. by destruct Hpre.
Qed.

Lemma ghost_new G L j' :
  (forall r, r ∈ gh_grouped (ghost_of j') -> is_Some (G !! r)) -> fine G L (ghost_of j').
Proof using.
  intros H. eapply fine_new; [exact H|reflexivity|by destruct j' as [| | | |[]|]..].
Qed.

Lemma step_groups r x :
  y_groups y !! r = Some x -> exists x', y_groups y' !! r = Some x' /\ (x' = x \/ writes (LGroup r) g).
Proof using Hinv Hth Hp. exact (perform_groups _ _ _ _ _ _ _ _ _ _ step_pre Hp). Qed.

Lemma apart_writes g1 g2 l : apart g1 g2 -> writes l g1 -> ~ writes l g2.
Proof using. intros H H1 H2. destruct (H l) as [Hc _]. apply Hc. split; by right. Qed.

Lemma keep_in_wp t2 th2 : y_threads y'' !! t2 = Some th2 -> wp sup (th_prog th2) (th_ghost th2) (fun _ g => over g).
Proof using Hinv Hth Hp.
  intros H. apply step_lookup in H as [[-> ->]|[[Hne H]|(Hne & _ & H)]].
  - exact step_wp.
  - by eapply in_wp.
  - apply spawned_ghost in H as (j' & -> & _). apply body_respects.
Qed.

Lemma keep_in_fine t2 th2 : y_threads y'' !! t2 = Some th2 -> fine (y_groups y'') (y_log y'') (th_ghost th2).
Proof using Hinv Hth Hp.
  intros H. apply step_lookup in H as [[-> ->]|[[Hne H]|(Hne & _ & H)]].
  - exact step_fine.
  - pose proof (in_apart _ _ _ Hinv t t2 _ _ (not_eq_sym Hne) Hth H) as Hap. rewrite step_log.
    eapply fine_other; [exact (in_fine _ _ _ Hinv _ _ H)| |].
    + intros r x Hx. destruct (step_groups r x Hx) as (x' & Hx' & Hor). exists x'. split; [done|].
      destruct Hor as [->|Hw]; [by left|right]. by eapply apart_writes.
    + destruct (occurs_actions bootstrap t e rp (y_db y) a g step_pre) as [?|Hw]; [by left|right].
      by eapply apart_writes.
  - apply spawned_ghost in H as (j' & -> & Hg & _). apply ghost_new. intros r Hr.
    destruct (fi_grouped _ _ _ _ step_fine_before r (Hg r Hr)) as [x Hx].
    destruct (step_groups r x Hx) as (x' & Hx' & _). exact (mk_is_Some _ _ Hx').
Qed.

Lemma post_watch : gh_watch ghost' = gh_watch g.
Proof using.
  clear Hinv Hth Hp k. unfold ghost'.
  destruct e as [|l|l|l|l| | | |r0| | |r0| | | | | | | | | | | |j0|c| |X x| | |]; try done; cbn.
  - by destruct l.
  - by destruct l.
  - by destruct (m_localClosed a).
  - by destruct a.
  - by destruct j0.
  - unfold after_db. repeat case_match; done.
  - destruct x; try done; cbn; repeat case_match; done.
Qed.

Lemma keep_in_watch t2 th2 :
  y_threads y'' !! t2 = Some th2 -> gh_watch (th_ghost th2) = gh_watch (ghost_of (th_job th2)).
Proof using Hinv Hth Hp.
  intros H. apply step_lookup in H as [[-> ->]|[[Hne H]|(Hne & _ & H)]].
  - cbn [thread' th_ghost th_job]. rewrite post_watch. exact (in_watch _ _ _ Hinv _ _ Hth).
  - by eapply in_watch.
  - by apply spawned_ghost in H as (j' & -> & _).
Qed.

(** ** Locks *)

Lemma claimed_false l t2 th2 :
  claimed l y = false -> y_threads y !! t2 = Some th2 -> ~ claims l (th_ghost th2).
Proof using.
  intros H Ht. apply list_elem_of_lookup_2, list_elem_of_In in Ht.
  assert (has l Announced th2 || has l Writing th2 = false) as E.
  { destruct (_ || _) eqn:E; [|done]. rewrite <-H. symmetry. apply existsb_exists. eauto. }
  apply orb_false_iff in E as [E1 E2]. apply bool_decide_eq_false in E1, E2. intros [?|?]; [by apply E1|by apply E2].
Qed.

Lemma being_read_false l t2 th2 :
  being_read l y = false -> y_threads y !! t2 = Some th2 -> (l, Reading) ∉ gh_held (th_ghost th2).
Proof using.
  intros H Ht Hin. apply list_elem_of_lookup_2, list_elem_of_In in Ht.
  enough (being_read l y = true) by congruence. apply existsb_exists. exists th2. split; [done|].
  by apply bool_decide_eq_true.
Qed.

Lemma apart_less g1 g1' g2 :
  apart g1 g2 -> (forall lm, lm ∈ gh_held g1' -> lm ∈ gh_held g1) -> apart g1' g2.
Proof using.
  intros H Hsub l. destruct (H l) as (H1 & H2 & H3). unfold claims, writes in *.
  split_and!; intros [Ha Hb]; [apply H1|apply H2|apply H3]; split; auto. destruct Ha; auto.
Qed.

Lemma post_held :
  match e with
  | Announce l => gh_held ghost' = (l, Announced) :: gh_held g
  | Enter l => gh_held ghost' = (l, Writing) :: without (l, Announced) (gh_held g)
  | RLock l => gh_held ghost' = (l, Reading) :: gh_held g
  | _ => forall lm, lm ∈ gh_held ghost' -> lm ∈ gh_held g
  end.
Proof using.
  clear Hinv Hth Hp k. unfold ghost'.
  destruct e as [|l|l|l|l| | | |r0| | |r0| | | | | | | | | | | |j0|c| |X x| | |]; try done; cbn.
  - intros lm. destruct l; simpl; by intros [? _]%elem_of_without.
  - intros lm. destruct l; simpl; by intros [? _]%elem_of_without.
  - by destruct (m_localClosed a).
  - by destruct a.
  - by destruct j0.
  - unfold after_db. repeat case_match; done.
  - destruct x; try done; cbn; repeat case_match; done.
Qed.

Lemma step_apart t2 th2 : t2 <> t -> y_threads y !! t2 = Some th2 -> apart ghost' (th_ghost th2).
Proof using Hinv Hth Hp.
  intros Hne H. pose proof (in_apart _ _ _ Hinv t t2 _ _ (not_eq_sym Hne) Hth H) as Hap. simpl in Hap.
  pose proof post_held as Hh. pose proof step_pre as Hpre. pose proof Hp as Hp'. unfold ghost' in *.
  destruct e; try (by eapply apart_less); cbn in Hp'.
  - destruct (claimed l y) eqn:E; [done|]. pose proof (claimed_false _ _ _ E H) as Hno.
    intros l'. destruct (Hap l') as (H1 & H2 & H3). unfold claims, writes in *. rewrite Hh.
    split_and!; rewrite ?elem_of_cons; intros [Ha Hb].
    + destruct Ha as [[[= ->]|Ha]|[[=]|Ha]]; tauto.
    + destruct Ha as [[=]|Ha]; tauto.
    + destruct Ha as [[=]|Ha]; tauto.
  - destruct (being_read l y) eqn:E; [done|]. pose proof (being_read_false _ _ _ E H) as Hno.
    destruct Hpre as (held & Ehd & _).
    assert (claims l g) as Hcl by (left; rewrite Ehd; left).
    intros l'. destruct (Hap l') as (H1 & H2 & H3). unfold claims, writes in *. rewrite Hh.
    split_and!; rewrite ?elem_of_cons, ?elem_of_without; intros [Ha Hb].
    + destruct Ha as [[[=]|[Ha _]]|[[= ->]|[Ha _]]]; tauto.
    + destruct Ha as [[= ->]|[Ha _]]; tauto.
    + destruct Ha as [[=]|[Ha _]]; tauto.
  - destruct (claimed l y) eqn:E; [done|]. pose proof (claimed_false _ _ _ E H) as Hno.
    intros l'. destruct (Hap l') as (H1 & H2 & H3). unfold claims, writes in *. rewrite Hh.
    split_and!; rewrite ?elem_of_cons; intros [Ha Hb].
    + destruct Ha as [[[=]|Ha]|[[=]|Ha]]; tauto.
    + destruct Ha as [[=]|Ha]; tauto.
    + destruct Ha as [[= ->]|Ha]; tauto.
Qed.

Lemma apart_sym g1 g2 : apart g1 g2 -> apart g2 g1.
Proof using. intros H l. destruct (H l) as (H1 & H2 & H3). split_and!; tauto. Qed.

Lemma apart_new g1 g2 : gh_held g1 = [] -> apart g1 g2.
Proof using.
  intros E l. unfold claims, writes. rewrite E.
  split_and!; [intros [[Ha|Ha] _]|intros [Ha _]|intros [Ha _]]; by apply elem_of_nil in Ha.
Qed.

Lemma keep_in_apart t1 t2 th1 th2 :
  t1 <> t2 -> y_threads y'' !! t1 = Some th1 -> y_threads y'' !! t2 = Some th2 ->
  apart (th_ghost th1) (th_ghost th2).
Proof using Hinv Hth Hp.
  assert (forall th, th ∈ spawned bootstrap e -> gh_held (th_ghost th) = []) as Hnew.
  { intros th (j' & -> & _)%spawned_ghost. by destruct j' as [| | | |[]|]. }
  intros Hne H1 H2. apply step_lookup in H1, H2.
  destruct H1 as [[-> ->]|[[Hn1 H1]|(_ & _ & H1)]]; [| |by apply apart_new, Hnew];
    destruct H2 as [[-> ->]|[[Hn2 H2]|(_ & _ & H2)]]; try (by apply apart_sym, apart_new, Hnew).
  - by eapply step_apart.
  - apply apart_sym. by eapply step_apart.
  - exact (in_apart _ _ _ Hinv _ _ _ _ Hne H1 H2).
Qed.

(** ** Groups *)

Lemma keep_in_groups r x :
  y_groups y'' !! r = Some x -> coherent x /\ (g_reaped x = true -> reaped_in (y_log y'') r).
Proof using Hinv Hth Hp.
  assert (forall x, y_groups y !! r = Some x -> coherent x /\ (g_reaped x = true -> reaped_in (y_log y'') r)) as Hold.
  { intros x' [Hc Hr]%(in_groups _ _ _ Hinv). split; [done|]. intros E. rewrite step_log. by apply reaped_in_app, Hr. }
  assert (y_groups y'' = y_groups y' /\ y_log y'' = y_log y') as [-> El] by done. rewrite El in Hold |- *. clear El.
  pose proof step_pre as Hpre. pose proof step_fine_before as Hf. pose proof Hp as Hp'.
  destruct e; cbn in Hp'; repeat case_match; try discriminate Hp'; injection Hp' as <- <-; try (apply Hold).
  - simpl. destruct (decide (r0 = r)) as [->|Hne].
    + rewrite lookup_insert_eq. intros [= <-]. destruct Hpre as [Hc Hr]. by rewrite Hr.
    + rewrite lookup_insert_ne by done. apply Hold.
  - simpl. destruct (decide (r0 = r)) as [->|Hne].
    + rewrite lookup_insert_eq. intros [= <-]. destruct Hpre as (_ & _ & Hc & Hs). split; [done|].
      intros E. unfold coherent in Hc. rewrite E in Hc. simpl in Hc. rewrite Hc in Hs.
      by apply (fi_reaped _ _ _ _ Hf).
    + rewrite lookup_insert_ne by done. apply Hold.
Qed.

(** A dirty group stays so until it is written back as reaped. *)
Lemma post_dirty r :
  match e with ReadGroup q | WriteGroup q _ => q <> r | _ => True end ->
  r ∈ gh_dirty g -> r ∈ gh_dirty ghost'.
Proof using.
  clear Hinv Hth Hp k. unfold ghost'. intros Hne Hr.
  destruct e as [|l|l|l|l| | | |r0| |q|q x0| | | | | | | | | | | |j0|c| |X x| | |]; try exact Hr; cbn in *.
  - by destruct l.
  - by destruct l.
  - by destruct (m_localClosed a).
  - by destruct a.
  - destruct (g_signalSafe a); [done|]. apply elem_of_without. split; [done|congruence].
  - destruct (g_signalSafe x0); [done|]. apply elem_of_without. split; [done|congruence].
  - by destruct j0.
  - unfold after_db. repeat case_match; done.
  - destruct x; try done; cbn; repeat case_match; try done. by right.
Qed.

Lemma step_group_fate r x :
  y_groups y !! r = Some x ->
  exists x', y_groups y' !! r = Some x'
    /\ ((x' = x /\ (r ∈ gh_dirty g -> r ∈ gh_dirty ghost')) \/ (g_signalSafe x' = true -> r ∈ gh_safe g)).
Proof using Hinv Hth Hp.
  intros Hx. pose proof step_pre as Hpre. pose proof (post_dirty r) as Hd. unfold ghost' in *. pose proof Hp as Hp'.
  destruct e as [| | | | | | | | |r0 x0|r0|r0 x0| | | | | | | | | | | | | | | | | |]; cbn in Hp';
    repeat case_match; try discriminate Hp'; injection Hp' as <- <-; try (exists x; split; [done|left; split; [done|by apply Hd]]).
  - exists x. simpl. destruct (decide (r0 = r)) as [->|Hne]; [congruence|]. rewrite lookup_insert_ne by done.
    split; [done|]. left. split; [done|by apply Hd].
  - exists x. split; [done|]. left. split; [done|]. intros Hr. apply Hd; [|done]. intros ->. by destruct Hpre as (_ & _ & ?).
  - simpl. destruct (decide (r0 = r)) as [->|Hne].
    + exists x0. rewrite lookup_insert_eq. split; [done|]. right. intros E. destruct Hpre as (_ & _ & _ & Hs).
      by rewrite E in Hs.
    + exists x. rewrite lookup_insert_ne by done. split; [done|]. left. split; [done|by apply Hd].
Qed.

Lemma occurs_reap r :
  reaped_in (occurs t e rp (y_db y) a) r -> r ∈ gh_safe g /\ r ∈ gh_dirty ghost'.
Proof using Hinv Hth Hp.
  intros [t' Hin]. pose proof step_pre as Hpre. unfold ghost'.
  destruct e as [| | | | | | | | | | | | | | | | | | | | | | | | | |X x| | |]; try (by apply elem_of_nil in Hin).
  - apply list_elem_of_singleton in Hin. done.
  - destruct x; cbn in *; try (by apply elem_of_nil in Hin); try (by apply list_elem_of_singleton in Hin).
    destruct a as [w []]; cbn in *; [|by apply elem_of_nil in Hin].
    apply list_elem_of_singleton in Hin as [= -> ->]. split; [apply Hpre|left].
Qed.

Lemma keep_in_reaped r :
  reaped_in (y_log y'') r ->
  exists x, y_groups y'' !! r = Some x
    /\ (g_signalSafe x = false
        \/ exists t2 th2, y_threads y'' !! t2 = Some th2 /\ r ∈ gh_dirty (th_ghost th2)).
Proof using Hinv Hth Hp.
  intros [t' Hin]. rewrite step_log, elem_of_app in Hin. destruct Hin as [Hin|Hin].
  - destruct (in_reaped _ _ _ Hinv r (ex_intro _ t' Hin)) as (x & Hx & Hor).
    destruct (step_group_fate r x Hx) as (x' & Hx' & Hfate). exists x'. split; [exact Hx'|].
    destruct (g_signalSafe x') eqn:E; [|by left]. right.
    assert (~ r ∈ gh_safe g \/ exists t2 th2, t2 <> t /\ y_threads y !! t2 = Some th2 /\ r ∈ gh_dirty (th_ghost th2)) as Hns.
    { destruct Hor as [Hs|(t2 & th2 & Ht2 & Hd2)].
      - left. intros Hs'. apply (fi_safe _ _ _ _ step_fine_before) in Hs' as (_ & _ & x0 & Hx0 & Hs0). congruence.
      - destruct (decide (t2 = t)) as [->|Hne]; [left|right; eauto 6]. rewrite Hth in Ht2. injection Ht2 as <-.
        intros Hs'. by apply (fi_safe _ _ _ _ step_fine_before) in Hs' as (_ & ? & _). }
    destruct Hns as [Hns|(t2 & th2 & Hne & Ht2 & Hd2)]; [|exists t2, th2; split; [by apply step_other|done]].
    destruct Hfate as [[-> Hkeep]|Hs]; [|by destruct Hns; apply Hs].
    destruct Hor as [Hs|(t2 & th2 & Ht2 & Hd2)]; [congruence|].
    destruct (decide (t2 = t)) as [->|Hne]; [|exists t2, th2; split; [by apply step_other|done]].
    rewrite Hth in Ht2. injection Ht2 as <-. exists t, thread'. split; [apply step_self|by apply Hkeep].
  - destruct (occurs_reap r (ex_intro _ t' Hin)) as [Hs Hd].
    destruct (fi_safe _ _ _ _ step_fine_before _ Hs) as (_ & _ & x & Hx & _).
    destruct (step_groups r x Hx) as (x' & Hx' & _). exists x'. split; [exact Hx'|]. right.
    exists t, thread'. split; [apply step_self|exact Hd].
Qed.

(** ** Memory, database, channels *)

Lemma keep_in_localClosed : m_localClosed (y_mu y'') = true -> closed_in bootstrap (y_log y'').
Proof using Hinv Hth Hp.
  assert (m_localClosed (y_mu y) = true -> closed_in bootstrap (y_log y'')) as Hold.
  { intros E. rewrite step_log. by apply closed_in_app, (in_localClosed _ _ _ Hinv). }
  assert (gh_closed g = true -> closed_in bootstrap (y_log y'')) as Hcl.
  { intros E. rewrite step_log. by apply closed_in_app, (fi_closed _ _ _ _ step_fine_before). }
  assert (y_mu y'' = y_mu y') as -> by done. pose proof step_pre as Hpre. pose proof Hp as Hp'.
  revert Hold Hcl. generalize (y_log y''). intros L Hold Hcl.
  destruct e as [| | | | | |u| | | | | | | | | | | | | | | | | | | | | | |]; cbn in Hp';
    repeat case_match; try discriminate Hp'; injection Hp' as <- <-; try exact Hold.
  simpl. destruct Hpre as [_ Hu]. destruct (y_mu y). destruct u; simpl; try exact Hold.
  intros _. by apply Hcl.
Qed.

Lemma runs_snoc db h db1 c faults r db2 :
  runs db h db1 -> wf_cmd c -> run_cmd c faults db1 = (r, db2) -> runs db (h ++ [mkCall c faults r]) db2.
Proof using.
  induction 1 as [|db c' faults' r' db1' h db1 Hwf' Hrun' Hruns IH]; intros Hwf Hrun; simpl.
  - econstructor; [done|done|constructor].
  - econstructor; [done|done|by apply IH].
Qed.

Lemma keep_in_runs : runs db0 (omap call_of (y_log y'')) (y_db y'').
Proof using Hinv Hth Hp.
  pose proof (in_runs _ _ _ Hinv) as Hruns. pose proof step_pre as Hpre.
  rewrite step_log, omap_app. assert (y_db y'' = y_db y') as -> by done. pose proof Hp as Hp'.
  destruct e as [| | | | | | | | | | | | | | | | | | | | | | | |c| |X x| | |]; cbn in Hp';
    repeat case_match; try discriminate Hp'; injection Hp' as <- <-; cbn [occurs];
    try (simpl; rewrite (right_id_L [] (++)); exact Hruns).
  - match goal with H : run_cmd _ _ _ = _ |- _ => rewrite H; cbn; eapply runs_snoc; [exact Hruns|apply Hpre|exact H] end.
  - match goal with H : run_cmd _ _ _ = _ |- _ => rewrite H; cbn; eapply runs_snoc; [exact Hruns|apply Hpre|exact H] end.
  - assert (omap call_of (os_event t x (answer x rp)) = []) as ->.
    { destruct x; try done. cbn. by destruct (sr_flag rp). }
    rewrite (right_id_L [] (++)). exact Hruns.
Qed.

Lemma post_owes c :
  c ∈ gh_owes g -> match e with CloseChan c' => c' <> c | _ => True end -> c ∈ gh_owes ghost'.
Proof using.
  clear Hinv Hth Hp k. unfold ghost'. intros Hc Hne.
  destruct e as [|l|l|l|l| | | |r0| |q|q x0| | | | | | | | | |c0| |j0|c'| |X x| | |]; try exact Hc; cbn in *.
  - by destruct l.
  - by destruct l.
  - by destruct (m_localClosed a).
  - by destruct a.
  - by right.
  - apply elem_of_without. split; [done|congruence].
  - by destruct j0.
  - unfold after_db. repeat case_match; done.
  - destruct x; try done; cbn; repeat case_match; done.
Qed.

Lemma step_owed c :
  owed c (y_threads y) -> match e with CloseChan c' => c' <> c | _ => True end -> owed c (y_threads y'').
Proof using Hth Hp.
  intros (t2 & th2 & Ht2 & Hc) Hne. destruct (decide (t2 = t)) as [->|Hn].
  - rewrite Hth in Ht2. injection Ht2 as <-. exists t, thread'. split; [apply step_self|by apply post_owes].
  - exists t2, th2. split; [by apply step_other|done].
Qed.

Lemma keep_in_pending c : c ∈ y_pending y'' -> owed (ChCall c) (y_threads y'').
Proof using Hinv Hth Hp.
  pose proof (in_pending _ _ _ Hinv c) as Hold. pose proof (step_owed (ChCall c)) as Ho.
  assert (ChCall c ∈ gh_owes ghost' -> owed (ChCall c) (y_threads y'')) as Hself.
  { intros H. exists t, thread'. split; [apply step_self|done]. }
  revert Ho Hself. generalize (y_threads y''). assert (y_pending y'' = y_pending y') as -> by done.
  unfold ghost'. intros ths Ho Hself Hc. pose proof Hp as Hp'.
  destruct e as [| | | | | | | | | | | | | | | | | |act| | |c0| | | | | | | |]; cbn in Hp';
    repeat case_match; try discriminate Hp'; injection Hp' as <- <-; try (by apply Ho; [apply Hold|]).
  - simpl in Hc. apply elem_of_union in Hc as [Hc%elem_of_singleton|Hc]; [subst c; apply Hself; left|by apply Ho; [apply Hold|]].
  - simpl in Hc. apply elem_of_difference in Hc as [Hc Hne]. apply Ho; [by apply Hold|].
    intros [= ->]. by apply Hne, elem_of_singleton.
Qed.

Lemma step_started_kept :
  y_startedDone y = true \/ owed ChStarted (y_threads y) ->
  y_startedDone y'' = true \/ owed ChStarted (y_threads y'').
Proof using Hth Hp.
  pose proof (step_owed ChStarted) as Ho. revert Ho. generalize (y_threads y'').
  assert (y_startedDone y'' = y_startedDone y') as -> by done. intros ths Ho. pose proof Hp as Hp'.
  destruct e as [| | | | | | | | | | | | | | | | | | | | |c0| | | | | | | |]; cbn in Hp';
    repeat case_match; try discriminate Hp'; injection Hp' as <- <-; intros [Hd|Hw]; try (by left); right; by apply Ho.
Qed.

Lemma post_started : gh_started ghost' = true -> gh_started g = true \/ owed ChStarted (y_threads y'').
Proof using Hth Hp.
  rewrite step_threads. generalize (<[t:=thread']> (y_threads y)). clear Hp Hth Hinv k y y'. unfold ghost'. intros ths.
  destruct e as [|l|l|l|l| | | |r0| |q|q x0| | | | | | | | | | | |j0|c'| |X x| | |]; try (by left); cbn.
  - destruct l; by left.
  - destruct l; by left.
  - destruct (m_localClosed a); by left.
  - destruct a; by left.
  - destruct j0 as [| |r| |[]|]; try (by left). intros _. right.
    exists (length ths), (new_thread (body bootstrap) (JFreezeInitial r)). split; [|left].
    by rewrite lookup_app_r, Nat.sub_diag.
  - unfold after_db. repeat case_match; by left.
  - destruct x; try (by left); cbn; repeat case_match; by left.
Qed.

Lemma keep_in_started t2 th2 :
  y_threads y'' !! t2 = Some th2 -> gh_started (th_ghost th2) = true ->
  y_startedDone y'' = true \/ owed ChStarted (y_threads y'').
Proof using Hinv Hth Hp.
  assert (gh_started ghost' = true -> y_startedDone y'' = true \/ owed ChStarted (y_threads y'')) as Hself.
  { intros [Hs|Ho]%post_started; [|by right]. apply step_started_kept. exact (in_started _ _ _ Hinv _ _ Hth Hs). }
  intros H Hs. apply step_lookup in H as [[-> ->]|[[Hne H]|(Hne & _ & H)]].
  - by apply Hself.
  - apply step_started_kept. by eapply in_started.
  - apply spawned_ghost in H as (j' & -> & _ & Hst). by apply Hself, Hst.
Qed.

(** ** Starts *)

Lemma sum_insert {X} (f : X -> nat) (l : list X) i x x' :
  l !! i = Some x -> (sum_list_with f (<[i := x']> l) + f x = sum_list_with f l + f x')%nat.
Proof using.
  revert i. induction l as [|z l IH]; intros [|i]; simpl; try done.
  - intros [= ->]. lia.
  - intros H. specialize (IH i H). lia.
Qed.

Definition granted (g : Ghost) : nat := if gh_start g then 1 else 0.

Lemma step_start_change :
  (length (List.filter is_start (occurs t e rp (y_db y) a)) + granted ghost'
   <= length (List.filter authorizes (occurs t e rp (y_db y) a)) + granted g)%nat.
Proof using Hinv Hth Hp.
  pose proof step_pre as Hpre. unfold ghost', granted. pose proof Hp as Hp'.
  destruct e as [|l|l|l|l| | | |r0| |q|q x0| | | | | | | | | | | |j0|c'| |X x| | |]; cbn in *; try lia.
  - by destruct l.
  - by destruct l.
  - by destruct (m_localClosed a).
  - by destruct a.
  - by destruct j0.
  - destruct (run_cmd _ _ _) as [r db]; injection Hp' as <- <-. cbn.
    destruct (c' (sr_uuid rp)); cbn; try lia; destruct r as [e0|o]; cbn; try lia; repeat case_match; simpl in *; congruence || lia.
  - destruct x; cbn in *; try lia; try (rewrite Hpre; simpl; lia); repeat case_match; simpl in *; congruence || lia.
Qed.

Lemma spawned_permit : sum_list_with permit (spawned bootstrap e) = 0%nat.
Proof using.
  clear Hinv Hth Hp a k.
  destruct e as [| | | | | | | | | | | | | | | | | | | | | | |j0| | | | | |]; try done.
  by destruct j0 as [| | | |[]|].
Qed.

Lemma keep_in_starts :
  (length (List.filter is_start (y_log y'')) + sum_list_with permit (y_threads y'')
   <= length (List.filter authorizes (y_log y'')))%nat.
Proof using Hinv Hth Hp.
  pose proof (in_starts _ _ _ Hinv) as Hold. pose proof step_start_change as Hch.
  rewrite step_log, step_threads, !List.filter_app, !List.length_app, sum_list_with_app.
  rewrite spawned_permit.
  pose proof (sum_insert permit _ _ _ thread' Hth) as Hs. unfold permit at 2 4 in Hs. simpl in Hs.
  fold (granted g) (granted ghost') in Hs. lia.
Qed.

(** ** The log *)

Lemma occurs_touched :
  omap touched (occurs t e rp (y_db y) a) = []
  \/ exists b, omap touched (occurs t e rp (y_db y) a) = [b] /\ omap executes (occurs t e rp (y_db y) a) = []
       /\ gh_action g = Some b /\ gh_unused g = true.
Proof using Hinv Hth.
  pose proof step_pre as Hpre. clear Hth Hp k.
  destruct e as [| | | | | | | | | | | | | | | | | | | | | | | | | |X x| | |]; try (by left).
  destruct x; try (by left); cbn in *.
  - destruct Hpre as (_ & _ & Hc). destruct why as [id seq|]; [|by left].
    destruct signal; try (by left). right. exists (id, seq). destruct Hc as (_ & Ha & Hu). split_and!; auto.
  - destruct why as [id seq|]; [|by left]. right. exists (id, seq). destruct Hpre as (_ & Ha & Hu). split_and!; auto.
  - destruct a as [? []]; by left.
  - destruct Hpre as [_ Hc]. destruct why as [id seq|]; [|by left]. right. exists (id, seq).
    destruct Hc as (_ & Ha & Hu). split_and!; auto.
Qed.

Lemma keep_in_touched : sublist (omap touched (y_log y'')) (omap executes (y_log y'')).
Proof using Hinv Hth Hp.
  pose proof (in_touched _ _ _ Hinv) as Hold. rewrite step_log, !omap_app.
  destruct occurs_touched as [->|(b & -> & -> & Ha & Hu)].
  - rewrite (right_id_L [] (++)). by apply sublist_inserts_r.
  - destruct (fi_unused _ _ _ _ step_fine_before Hu) as (b' & l & Hb' & -> & Hsub).
    assert (b' = b) as -> by congruence. rewrite (right_id_L [] (++)). by apply sublist_app.
Qed.

(** A group that may be signalled has not been reaped. *)
Lemma safe_not_reaped r : r ∈ gh_safe g -> ~ reaped_in (y_log y) r.
Proof using Hinv Hth.
  intros Hs Hr. destruct (fi_safe _ _ _ _ step_fine_before _ Hs) as (Hw & Hd & x & Hx & Hsx).
  destruct (in_reaped _ _ _ Hinv r Hr) as (x' & Hx' & [Hs'|(t2 & th2 & Ht2 & Hd2)]); [congruence|].
  destruct (decide (t2 = t)) as [->|Hne].
  - rewrite Hth in Ht2. by injection Ht2 as <-.
  - pose proof (fi_dirty _ _ _ _ (in_fine _ _ _ Hinv _ _ Ht2) _ Hd2) as Hw2.
    exact (apart_writes _ _ _ (in_apart _ _ _ Hinv _ _ _ _ (not_eq_sym Hne) Hth Ht2) Hw Hw2).
Qed.

Lemma caused_for_action why once : caused why once g -> for_action (y_log y) why.
Proof using Hinv Hth.
  destruct why as [id seq|]; [|done]. intros (_ & Ha & _).
  by apply (fi_action _ _ _ _ step_fine_before) in Ha as [_ ?].
Qed.

Lemma occurs_lawful :
  occurs t e rp (y_db y) a = [] \/ exists ev, occurs t e rp (y_db y) a = [ev] /\ lawful bootstrap (y_log y) ev.
Proof using Hinv Hth.
  pose proof step_pre as Hpre. pose proof safe_not_reaped as Hsafe. pose proof caused_for_action as Hca.
  pose proof step_fine_before as Hf. clear Hth Hp k.
  destruct e as [| | | | | | | | | | | | | | | | | | | | | | | |c| |X x| | |]; try (by left).
  - right. eexists. split; [done|]. destruct (Hpre (sr_uuid rp)) as (? & ? & _). done.
  - destruct x; try (by left); cbn in *.
    + right. by eexists.
    + right. eexists. split; [done|]. destruct Hpre as (_ & Hs & Hc). split; [by apply Hsafe|by eapply Hca].
    + right. eexists. split; [done|]. by eapply Hca.
    + destruct a as [? []]; [right|by left]. eexists. split; [done|]. by apply Hsafe, Hpre.
    + right. eexists. split; [done|]. destruct Hpre as [_ Hc]. by eapply Hca.
    + right. eexists. split; [done|]. by apply (fi_removable _ _ _ _ Hf).
Qed.

Lemma keep_in_lawful : all_lawful bootstrap (y_log y'').
Proof using Hinv Hth Hp.
  pose proof (in_lawful _ _ _ Hinv) as Hold. rewrite step_log.
  destruct occurs_lawful as [->|(ev & -> & Hl)]; [by rewrite (right_id_L [] (++))|]. by apply all_lawful_app.
Qed.

Lemma occurs_call t' c :
  VDb t' c ∈ occurs t e rp (y_db y) a ->
  t' = t /\ (forall pid i r, c_cmd c = CMarkContainmentEmpty pid i -> gh_watch g = Some r -> reaped_in (y_log y) r).
Proof using Hinv Hth.
  pose proof step_pre as Hpre. pose proof step_fine_before as Hf. clear Hth Hp k. intros Hin.
  destruct e as [| | | | | | | | | | | | | | | | | | | | | | | |c0| |X x| | |]; try (by apply elem_of_nil in Hin).
  - apply list_elem_of_singleton in Hin as [= -> ->]. split; [done|]. cbn. intros pid i r E Hw.
    destruct (Hpre (sr_uuid rp)) as (_ & _ & _ & Hc). rewrite E, Hw in Hc. by apply (fi_reaped _ _ _ _ Hf).
  - destruct x; cbn in Hin; try (by apply elem_of_nil in Hin); try (by apply list_elem_of_singleton in Hin).
    destruct (a.2); [by apply list_elem_of_singleton in Hin|by apply elem_of_nil in Hin].
Qed.

Lemma keep_in_index t' c : VDb t' c ∈ y_log y'' -> (t' < length (y_threads y''))%nat.
Proof using Hinv Hth Hp.
  rewrite step_log, step_threads, elem_of_app, List.length_app, length_insert. intros [H|H].
  - apply (in_index _ _ _ Hinv) in H. lia.
  - apply occurs_call in H as [-> _]. apply lookup_lt_Some in Hth. lia.
Qed.

Lemma split_last {X} (L es past later : list X) x :
  L ++ es = past ++ x :: later -> (length es <= 1)%nat ->
  (exists later', L = past ++ x :: later') \/ (L = past /\ es = [x]).
Proof using.
  destruct es as [|z [|]]; simpl; [|intros H _|lia].
  - rewrite (right_id_L [] (++)). intros -> _. left. eauto.
  - destruct later as [|w later _] using rev_ind.
    + apply app_inj_tail in H as [-> ->]. by right.
    + rewrite app_comm_cons, (assoc_L (++)) in H. apply app_inj_tail in H as [-> _]. left. eauto.
Qed.

Lemma keep_in_emptied t2 th2 r past c later :
  y_threads y'' !! t2 = Some th2 -> gh_watch (th_ghost th2) = Some r ->
  y_log y'' = past ++ VDb t2 c :: later ->
  (exists pid i, c_cmd c = CMarkContainmentEmpty pid i) -> reaped_in past r.
Proof using Hinv Hth Hp.
  intros H Hw Hlog (pid & i & Hc). rewrite step_log in Hlog.
  apply split_last in Hlog as [[later' HL]|[HL He]].
  - apply step_lookup in H as [[-> ->]|[[Hne H]|(Hne & Hle & H)]].
    + cbn in Hw. rewrite post_watch in Hw. eapply (in_emptied _ _ _ Hinv); [exact Hth|exact Hw|exact HL|eauto].
    + eapply (in_emptied _ _ _ Hinv); [exact H|exact Hw|exact HL|eauto].
    + assert (t2 < length (y_threads y))%nat; [|lia]. apply (in_index _ _ _ Hinv t2 c).
      rewrite HL. apply elem_of_app. right. left.
  - destruct (occurs_call t2 c) as [-> Hr]; [rewrite He; left|]. subst past.
    rewrite step_self in H. injection H as <-. cbn in Hw. rewrite post_watch in Hw. by eapply Hr.
  - destruct occurs_lawful as [->|(ev & -> & _)]; simpl; lia.
Qed.

Lemma step_keeps : Inv y''.
Proof using Hinv Hth Hp.
  constructor.
  - exact keep_in_wp.
  - exact keep_in_fine.
  - exact keep_in_watch.
  - exact keep_in_apart.
  - exact keep_in_groups.
  - exact keep_in_reaped.
  - exact keep_in_localClosed.
  - exact keep_in_runs.
  - exact keep_in_pending.
  - exact keep_in_started.
  - exact keep_in_starts.
  - exact keep_in_touched.
  - exact keep_in_lawful.
  - exact keep_in_index.
  - exact keep_in_emptied.
Qed.
End Step.

(** ** The other moves *)

Lemma reaped_in_other L c r : reaped_in (L ++ [VOther c]) r -> reaped_in L r.
Proof.
  intros [t Hin]. exists t. apply elem_of_app in Hin as [Hin|Hin]; [done|].
  by apply list_elem_of_singleton in Hin.
Qed.

Lemma other_keeps y c faults :
  Inv y -> wf_cmd c ->
  Inv (put_db (run_cmd c faults (y_db y)).2 [VOther (mkCall c faults (run_cmd c faults (y_db y)).1)] y).
Proof.
  intros Hinv Hwf. set (ev := VOther _). constructor; simpl.
  - exact (in_wp _ _ _ Hinv).
  - intros t th H. apply fine_log; [exact (in_fine _ _ _ Hinv _ _ H)|done|done].
  - exact (in_watch _ _ _ Hinv).
  - exact (in_apart _ _ _ Hinv).
  - intros r x H. destruct (in_groups _ _ _ Hinv _ _ H) as [Hc Hr]. split; [done|]. intros E. by apply reaped_in_app, Hr.
  - intros r H. by eapply (in_reaped _ _ _ Hinv), reaped_in_other.
  - intros H. by apply closed_in_app, (in_localClosed _ _ _ Hinv).
  - rewrite omap_app. simpl. eapply runs_snoc; [exact (in_runs _ _ _ Hinv)|done|]. by destruct (run_cmd _ _ _).
  - exact (in_pending _ _ _ Hinv).
  - exact (in_started _ _ _ Hinv).
  - rewrite !List.filter_app. simpl. rewrite !(right_id_L [] (++)). exact (in_starts _ _ _ Hinv).
  - rewrite !omap_app. simpl. rewrite !(right_id_L [] (++)). exact (in_touched _ _ _ Hinv).
  - apply all_lawful_app; [exact (in_lawful _ _ _ Hinv)|done].
  - intros t c' H. apply elem_of_app in H as [H|H]; [by eapply in_index|by apply list_elem_of_singleton in H].
  - intros t th r past c' later H Hw HL Hc. apply split_last in HL as [[later' HL]|[_ HL]]; [|done|simpl; lia].
    by eapply (in_emptied _ _ _ Hinv).
Qed.

Lemma owed_app c ths th : owed c ths -> owed c (ths ++ [th]).
Proof. intros (t & th' & H & Hc). exists t, th'. split; [by apply lookup_app_l_Some|done]. Qed.

Lemma accept_keeps y : Inv y -> Inv (put_threads (y_threads y ++ [new_thread (body bootstrap) JConn]) y).
Proof.
  intros Hinv. set (new := new_thread _ JConn).
  assert (forall t th, (y_threads y ++ [new]) !! t = Some th ->
    y_threads y !! t = Some th \/ (t = length (y_threads y) /\ th = new)) as Hl.
  { intros t th [H|[Hle H]]%lookup_app_Some; [by left|right]. apply list_lookup_singleton_Some in H as [? <-].
    split; [lia|done]. }
  constructor; simpl.
  - intros t th [H|[_ ->]]%Hl; [by eapply in_wp|apply body_respects].
  - intros t th [H|[_ ->]]%Hl; [by eapply in_fine|]. apply ghost_new. intros r Hr. by apply elem_of_nil in Hr.
  - intros t th [H|[_ ->]]%Hl; [by eapply in_watch|done].
  - intros t1 t2 th1 th2 Hne [H1|[-> ->]]%Hl [H2|[-> ->]]%Hl; [by eapply in_apart| | |done].
    + apply apart_sym. by apply apart_new.
    + by apply apart_new.
  - exact (in_groups _ _ _ Hinv).
  - intros r H. destruct (in_reaped _ _ _ Hinv r H) as (x & Hx & [Hs|(t & th & Ht & Hd)]); exists x; (split; [done|]);
      [by left|right]. exists t, th. split; [by apply lookup_app_l_Some|done].
  - exact (in_localClosed _ _ _ Hinv).
  - exact (in_runs _ _ _ Hinv).
  - intros c H. by apply owed_app, (in_pending _ _ _ Hinv).
  - intros t th [H|[_ ->]]%Hl Hs; [|done].
    destruct (in_started _ _ _ Hinv _ _ H Hs); [by left|right]. by apply owed_app.
  - rewrite sum_list_with_app. simpl. pose proof (in_starts _ _ _ Hinv) as H. unfold permit in *; simpl in *; lia.
  - exact (in_touched _ _ _ Hinv).
  - exact (in_lawful _ _ _ Hinv).
  - intros t c H. rewrite List.length_app. apply (in_index _ _ _ Hinv) in H. lia.
  - intros t th r past c later [H|[-> ->]]%Hl Hw HL Hc; [by eapply (in_emptied _ _ _ Hinv)|done].
Qed.

Lemma move_keeps m y y2 : Inv y -> move sup (body bootstrap) m y = Some y2 -> Inv y2.
Proof.
  intros Hinv. unfold move. destruct (alive y); simpl; [|done]. destruct m as [t rp|c faults|].
  - unfold step_thread. destruct (y_threads y !! t) as [[j [|X e k] g]|] eqn:Hth; try done.
    destruct (perform _ _ _ _ _ _) as [[a y']|] eqn:Hp; [|done]. intros [= <-]. by eapply step_keeps.
  - destruct (decide (wf_cmd c)) as [Hwf|]; [|done]. pose proof (other_keeps y c faults Hinv Hwf) as H.
    destruct (run_cmd c faults (y_db y)) as [r db]. by intros [= <-].
  - destruct (y_shutdown y); [done|]. intros [= <-]. by apply accept_keeps.
Qed.

Lemma boot_inv : Inv (boot (body bootstrap) db0).
Proof.
  assert (forall t th, [new_thread (body bootstrap) JMain] !! t = Some th -> t = 0%nat /\ th = new_thread (body bootstrap) JMain) as Hl.
  { intros t th H. apply list_lookup_singleton_Some in H as [? <-]. done. }
  constructor; simpl.
  - intros t th [_ ->]%Hl. apply body_respects.
  - intros t th [_ ->]%Hl. apply ghost_new. intros r Hr. by apply elem_of_nil in Hr.
  - by intros t th [_ ->]%Hl.
  - intros t1 t2 th1 th2 Hne [-> ->]%Hl [-> ->]%Hl. done.
  - intros r x. by rewrite lookup_empty.
  - intros r [t Hr]. by apply elem_of_nil in Hr.
  - done.
  - constructor.
  - intros c H. by apply elem_of_empty in H.
  - by intros t th [_ ->]%Hl.
  - unfold permit. simpl. lia.
  - constructor.
  - intros past ev later H. by destruct past.
  - intros t c H. by apply elem_of_nil in H.
  - intros t th r past c later _ _ H. by destruct past.
Qed.

Lemma execute_keeps l y : Inv y -> Inv (execute sup (body bootstrap) l y).
Proof.
  revert y. induction l as [|m l IH]; intros y Hinv; simpl; [done|]. apply IH.
  destruct (move _ _ m y) as [y2|] eqn:E; simpl; [by eapply move_keeps|done].
Qed.

(** The invariant holds after any sequence of moves. *)
Theorem supervise_inv l : Inv (supervise bootstrap l db0).
Proof. apply execute_keeps, boot_inv. Qed.
End Steps.
