(* ===== verification/SupervisorProgress.v ===== *)
(** * Locks and channels of a running supervisor

    From the invariant: nobody writes the database behind a reconciliation session,
    guarded memory is not accessed by two threads at once unless both read, and as
    long as somebody waits for a lock or a channel some thread can move. *)
From S2P Require Import Prelude GoStrings DaemonProtocol ProcessCmd DaemonMessages LocalPaths StateSchema StateQueries.
From S2P Require Import StateTx StateReport StateProcess StateAction StateTrace ClientWorld Reconciliation.
From S2P Require Import SupervisorWorld ProcessGroup Supervisor SupervisorLogic SupervisorCalm SupervisorRespects SupervisorJobs.
From S2P Require Import SupervisorInvariant SupervisorSteps.
From stdpp Require Import options.
Local Open Scope Z_scope.

(** ** Accesses to guarded memory *)

Inductive Location : Type := AtMu | AtGroup (r : nat) | AtStdin (r : nat).

(** What the next effect of a program accesses, and whether it writes there. *)
Definition accesses (p : Prog unit) : option (Location * bool) :=
  match p with
  | Vis ReadMu _ => Some (AtMu, false)
  | Vis (WriteMu _) _ => Some (AtMu, true)
  | Vis (ReadGroup r) _ => Some (AtGroup r, false)
  | Vis (WriteGroup r _) _ => Some (AtGroup r, true)
  | Vis (ReadStdinOK r) _ => Some (AtStdin r, false)
  | Vis (WriteStdinOK r _) _ => Some (AtStdin r, true)
  | _ => None
  end.

(** ** Waiting *)

(** The program waits for a lock or for a channel. *)
Definition awaits (p : Prog unit) : bool :=
  match p with
  | Vis (Announce _) _ | Vis (Enter _) _ | Vis (RLock _) _ | Vis (Wait _) _ => true
  | _ => false
  end.

Definition level (p : Prog unit) : nat :=
  match p with
  | Vis (Announce l) _ | Vis (RLock l) _ => 2 * rank l
  | Vis (Enter l) _ => 2 * rank l + 1
  | Vis (Wait c) _ => 2 * chan_rank c
  | _ => 0
  end.

(** The second thread has, or has announced, what the first one waits for. *)
Definition held_up (y : Sys) (t t2 : nat) : Prop :=
  exists th th2, y_threads y !! t = Some th /\ y_threads y !! t2 = Some th2
    /\ match th_prog th with
       | Vis (Announce l) _ | Vis (RLock l) _ =>
           (l, Announced) ∈ gh_held (th_ghost th2) \/ (l, Writing) ∈ gh_held (th_ghost th2)
       | Vis (Enter l) _ => (l, Reading) ∈ gh_held (th_ghost th2)
       | Vis (Wait c) _ => c ∈ gh_owes (th_ghost th2)
       | _ => False
       end.

Lemma level_bound p : (level p <= 15)%nat.
Proof.
  destruct p as [|X e k]; simpl; [lia|]. destruct e; simpl; try lia;
    try match goal with l : LockId |- _ => destruct l end;
    try match goal with c : Chan |- _ => destruct c end; simpl; lia.
Qed.

Section Progress.
Context {RC : ReportCodec} {CC : ClientCodec} {SC : SupervisorCodec} {PC : PayloadCodec}.
Context (bootstrap : supervisorIdentityBootstrap) (db0 : DB).
Local Abbreviation sup := (processState bootstrap).
Local Abbreviation Inv := (Inv bootstrap db0).

(** ** Exclusion *)

Lemma locked_out y t1 t2 th1 th2 l :
  Inv y -> t1 <> t2 -> y_threads y !! t1 = Some th1 -> y_threads y !! t2 = Some th2 ->
  writes l (th_ghost th1) -> ~ reads l (th_ghost th2).
Proof.
  intros Hinv Hne H1 H2 Hw Hr. destruct (in_apart _ _ _ Hinv _ _ _ _ Hne H1 H2 l) as (Hc & Hrd & _).
  destruct Hr as [Hr|Hr]; [by apply Hrd|]. apply Hc. split; by right.
Qed.

Definition guard (x : Location) : LockId :=
  match x with AtMu => LMu | AtGroup r => LGroup r | AtStdin r => LStdin r end.

Lemma accesses_guarded y t th x w :
  Inv y -> y_threads y !! t = Some th -> accesses (th_prog th) = Some (x, w) ->
  reads (guard x) (th_ghost th) /\ (w = true -> writes (guard x) (th_ghost th)).
Proof.
  intros Hinv Ht Hx. pose proof (in_wp _ _ _ Hinv _ _ Ht) as Hwp.
  destruct (th_prog th) as [|X e k]; [done|]. destruct Hwp as [Hpre _].
  destruct e; simpl in Hx; simplify_eq; simpl in Hpre; (split; [|done || (intros _; apply Hpre)]);
    try exact Hpre; right; apply Hpre.
Qed.

Lemma race_free y t1 t2 th1 th2 x w1 w2 :
  Inv y -> t1 <> t2 -> y_threads y !! t1 = Some th1 -> y_threads y !! t2 = Some th2 ->
  accesses (th_prog th1) = Some (x, w1) -> accesses (th_prog th2) = Some (x, w2) ->
  w1 = false /\ w2 = false.
Proof.
  intros Hinv Hne H1 H2 A1 A2.
  destruct (accesses_guarded _ _ _ _ _ Hinv H1 A1) as [R1 W1].
  destruct (accesses_guarded _ _ _ _ _ Hinv H2 A2) as [R2 W2].
  split.
  - destruct w1; [|done]. by destruct (locked_out _ _ _ _ _ _ Hinv Hne H1 H2 (W1 eq_refl)).
  - destruct w2; [|done]. by destruct (locked_out _ _ _ _ _ _ Hinv (not_eq_sym Hne) H2 H1 (W2 eq_refl)).
Qed.

(** ** Progress *)

(** The lock or channel the thread holds is below what it waits for. *)
Lemma held_below y t th l m :
  Inv y -> y_threads y !! t = Some th -> (l, m) ∈ gh_held (th_ghost th) -> awaits (th_prog th) = true ->
  (2 * rank l < level (th_prog th) /\ (m <> Announced -> 2 * rank l + 1 < level (th_prog th)))%nat.
Proof.
  intros Hinv Ht Hin Hw. pose proof (in_wp _ _ _ Hinv _ _ Ht) as Hwp.
  destruct (th_prog th) as [|X e k]; [done|]. destruct Hwp as [Hpre _].
  assert (forall n g, above n g -> (l, m) ∈ gh_held g -> (rank l < n)%nat) as Hab.
  { intros n g [Ha _] H. rewrite Forall_forall in Ha. exact (Ha _ H). }
  destruct e as [l0|l0| |l0| | | | | | | | | | | | | | | | | | |c| | | | | | |]; try discriminate Hw; simpl in *.
  - pose proof (Hab _ _ Hpre Hin). lia.
  - destruct Hpre as (held & E & Ha). rewrite E in Hin. apply elem_of_cons in Hin as [[= -> ->]|Hin].
    + split; [lia|done].
    + pose proof (Hab _ _ Ha Hin). lia.
  - pose proof (Hab _ _ Hpre Hin). lia.
  - assert (above (chan_rank c) (th_ghost th)) as Ha by (destruct c; apply Hpre).
    pose proof (Hab _ _ Ha Hin). lia.
Qed.

Lemma owed_below y t th c :
  Inv y -> y_threads y !! t = Some th -> c ∈ gh_owes (th_ghost th) -> awaits (th_prog th) = true ->
  (2 * chan_rank c < level (th_prog th))%nat.
Proof.
  intros Hinv Ht Hin Hw. pose proof (in_wp _ _ _ Hinv _ _ Ht) as Hwp.
  destruct (th_prog th) as [|X e k]; [done|]. destruct Hwp as [Hpre _].
  assert (forall n g, above n g -> c ∈ gh_owes g -> (chan_rank c < n)%nat) as Hab.
  { intros n g [_ Ha] H. rewrite Forall_forall in Ha. exact (Ha _ H). }
  destruct e as [l0|l0| |l0| | | | | | | | | | | | | | | | | | |c0| | | | | | |]; try discriminate Hw; simpl in *.
  - pose proof (Hab _ _ Hpre Hin). lia.
  - destruct Hpre as (held & E & Ha). pose proof (Hab _ _ Ha Hin). lia.
  - pose proof (Hab _ _ Hpre Hin). lia.
  - assert (above (chan_rank c0) (th_ghost th)) as Ha by (destruct c0; apply Hpre).
    pose proof (Hab _ _ Ha Hin). lia.
Qed.

(** A thread that holds something and does not wait can move. *)
Lemma holder_steps y t th :
  Inv y -> y_threads y !! t = Some th ->
  gh_held (th_ghost th) <> [] \/ gh_owes (th_ghost th) <> [] -> awaits (th_prog th) = false ->
  is_Some (step_thread sup (body bootstrap) t sreply y).
Proof.
  intros Hinv Ht Hh Hw. pose proof (in_wp _ _ _ Hinv _ _ Ht) as Hwp. unfold step_thread. rewrite Ht.
  destruct th as [j p g]. simpl in *. destruct p as [|X e k]; [destruct Hwp; tauto|]. destruct Hwp as [Hpre _].
  assert (~ above 0 g) as Hn.
  { intros [H1 H2]. destruct Hh as [Hh|Hh]; apply Hh; [destruct (gh_held g)|destruct (gh_owes g)]; try done;
      [apply Forall_cons in H1 as [? _]|apply Forall_cons in H2 as [? _]]; simpl in *; lia. }
  destruct e; try discriminate Hw; cbn; repeat case_match; simplify_eq; eauto; by destruct Hn.
Qed.

(** What a thread waits for is free, or there is a thread above it that has it. *)
Lemma blocked_by y t th :
  Inv y -> y_threads y !! t = Some th -> awaits (th_prog th) = true ->
  is_Some (step_thread sup (body bootstrap) t sreply y)
  \/ exists t2 th2, y_threads y !! t2 = Some th2 /\ held_up y t t2
       /\ (gh_held (th_ghost th2) <> [] \/ gh_owes (th_ghost th2) <> [])
       /\ (awaits (th_prog th2) = true -> level (th_prog th) < level (th_prog th2))%nat.
Proof.
  intros Hinv Ht Hw. pose proof (in_wp _ _ _ Hinv _ _ Ht) as Hwp. unfold step_thread. rewrite Ht.
  destruct th as [j p g]. simpl in *. destruct p as [|X e k]; [done|]. destruct Hwp as [Hpre _].
  assert (forall l, claimed l y = true -> exists t2 th2, y_threads y !! t2 = Some th2
    /\ ((l, Announced) ∈ gh_held (th_ghost th2) \/ (l, Writing) ∈ gh_held (th_ghost th2))
    /\ (gh_held (th_ghost th2) <> [] \/ gh_owes (th_ghost th2) <> [])
    /\ (awaits (th_prog th2) = true -> 2 * rank l < level (th_prog th2))%nat) as Hcl.
  { intros l H. apply existsb_exists in H as (th2 & Hin & Hh). apply list_elem_of_In, list_elem_of_lookup_1 in Hin as [t2 Ht2].
    apply orb_true_iff in Hh. unfold has in Hh. rewrite !bool_decide_eq_true in Hh.
    assert (exists m, (l, m) ∈ gh_held (th_ghost th2)) as [m Hm] by (destruct Hh; eauto).
    exists t2, th2. split_and!; [done|done|left; intros E; rewrite E in Hm; by apply elem_of_nil in Hm|].
    intros Hw2. by destruct (held_below _ _ _ _ _ Hinv Ht2 Hm Hw2). }
  assert (forall c, owed c (y_threads y) -> exists t2 th2, y_threads y !! t2 = Some th2
    /\ c ∈ gh_owes (th_ghost th2)
    /\ (gh_held (th_ghost th2) <> [] \/ gh_owes (th_ghost th2) <> [])
    /\ (awaits (th_prog th2) = true -> 2 * chan_rank c < level (th_prog th2))%nat) as How.
  { intros c (t2 & th2 & Ht2 & Hc). exists t2, th2. split_and!; [done|done|right; intros E; rewrite E in Hc; by apply elem_of_nil in Hc|].
    intros Hw2. by eapply owed_below. }
  destruct e as [l|l| |l| | | | | | | | | | | | | | | | | | |c| | | | | | |]; try discriminate Hw; cbn.
  - destruct (claimed l y) eqn:E; [right|left; eauto]. destruct (Hcl l E) as (t2 & th2 & Ht2 & Hh & Hr).
    exists t2, th2. split_and!; [done|by eexists _, th2|apply Hr..].
  - destruct (being_read l y) eqn:E; [right|left; eauto].
    apply existsb_exists in E as (th2 & Hin & Hh). apply list_elem_of_In, list_elem_of_lookup_1 in Hin as [t2 Ht2].
    apply bool_decide_eq_true in Hh. exists t2, th2.
    split_and!; [done|by eexists _, th2|left; intros E; rewrite E in Hh; by apply elem_of_nil in Hh|]. intros Hw2.
    destruct (held_below _ _ _ _ _ Hinv Ht2 Hh Hw2) as [_ H]. apply H. done.
  - destruct (claimed l y) eqn:E; [right|left; eauto]. destruct (Hcl l E) as (t2 & th2 & Ht2 & Hh & Hr).
    exists t2, th2. split_and!; [done|by eexists _, th2|apply Hr..].
  - destruct c as [|c].
    + destruct (y_startedDone y) eqn:E; [left; eauto|right]. destruct (How ChStarted) as (t2 & th2 & Ht2 & Hc & Hr).
      * destruct (in_started _ _ _ Hinv _ _ Ht) as [?|Ho]; [apply Hpre|congruence|exact Ho].
      * exists t2, th2. split_and!; [done|by eexists _, th2|apply Hr..].
    + case_bool_decide as E; [left; eauto|right]. destruct (How (ChCall c)) as (t2 & th2 & Ht2 & Hc & Hr).
      * apply (in_pending _ _ _ Hinv). destruct (decide (c ∈ y_pending y)); [done|tauto].
      * exists t2, th2. split_and!; [done|by eexists _, th2|apply Hr..].
Qed.

Lemma waiting_moves y t th :
  Inv y -> y_threads y !! t = Some th -> awaits (th_prog th) = true ->
  exists t2, rtc (held_up y) t t2 /\ is_Some (step_thread sup (body bootstrap) t2 sreply y).
Proof.
  intros Hinv. remember (15 - level (th_prog th))%nat as n eqn:En. revert t th En.
  induction n as [n IH] using lt_wf_ind. intros t th -> Ht Hw.
  destruct (blocked_by _ _ _ Hinv Ht Hw) as [?|(t2 & th2 & Ht2 & Hup & Hh & Hl)]; [by exists t|].
  destruct (awaits (th_prog th2)) eqn:E; [|exists t2; split; [by apply rtc_once|by eapply holder_steps]].
  edestruct (IH (15 - level (th_prog th2))%nat) as (t3 & Hr & Hs); [|reflexivity|exact Ht2|exact E|].
  - specialize (Hl eq_refl). pose proof (level_bound (th_prog th2)). lia.
  - exists t3. split; [by eapply rtc_l|done].
Qed.
End Progress.
