(* ===== verification/SupervisorScenario.v ===== *)
(** * A concrete run of a supervisor

    One process: prepared and started over two connections, one write action, one
    interruption, the exit of the process and the end of the supervisor.  The
    theorems about runs are instantiated on it and on its prefixes. *)
From S2P Require Import Prelude GoStrings DaemonProtocol ProcessCmd DaemonMessages LocalPaths StateSchema StateQueries.
From S2P Require Import StateTx StateReport StateProcess StateAction StateInvariant StateTrace StateScenario.
From S2P Require Import ClientWorld Reconciliation SupervisorWorld ProcessGroup Supervisor SupervisorInvariant.
From stdpp Require Import options.
Local Open Scope Z_scope.

Definition demo_marshal (ev : ReportedEvent) : option string :=
  match e_Type ev with
  | EventProcessStarted => Some "started"
  | EventProcessActionApplied => Some (if e_ProcessActionID ev ==? "a2" then "failed a2" else "applied a1")
  | EventProcessFinished => Some "exited"
  | _ => None
  end.

Definition run_client_codec : ClientCodec := {|
  marshal_event := demo_marshal;
  marshal_result := fun _ => Some "{}"
|}.

Definition run_assignment : ProcessAssignment :=
  mkAssignment "p1" "sleep 1" ShellBash "/tmp" "" [] "" 0 0.

Definition run_codec : SupervisorCodec := {|
  unmarshal_assignment := fun s => if s ==? "package" then Some run_assignment else None;
  marshal_assignment := fun _ => Some "package";
  unmarshal_action := fun s =>
    if s ==? "write" then Some (mkProcessAction KindWrite 1 "x" "a1")
    else if s ==? "interrupt" then Some (mkProcessAction KindInterrupt 2 "" "a2")
    else None;
  unmarshal_reason := fun s => Some s;
  marshal_observed := fun _ => Some "{}";
  error_text := fun _ => "error";
  GOOS := "linux"
|}.

Definition run_payloads : PayloadCodec := {|
  unmarshal_fields := fun s => Some (Some []);
  decode_write := fun s => Some (mkWritePayload false s, "");
  decode_read := fun s => None;
  decode_empty := fun s => Some (tt, "");
  only_space := fun s => s ==? ""
|}.
#[export] Existing Instances run_client_codec run_codec run_payloads.

Definition run_identity : supervisorIdentityBootstrap :=
  mkIdentity "/home/me/.omnarad" "i1" "m1" "p1" "s1" "t1".

(** The process is accepted and not started. *)
Definition run_db : DB :=
  (run_all [ (CBindIdentity "i1" "m1", []); (CReserveProcess demo_process, []);
             (CMarkPrepared "p1" "s1", []); (CMarkAccepted "p1" "s1", []) ] empty_db).2.

(** A request, and a thread left to run. *)
Definition ask (method : runnerMethod) (payload : string) : SReply :=
  mkSReply None true 0 1 1 "" (mkRequest "t1" "s1" method payload) [] "u-1".
Definition drawing (uuid : string) : SReply :=
  mkSReply None true 2 1 1 "" (mkRequest "" "" runnerMethodStatus "") [] uuid.
Definition serve (t : nat) (method : runnerMethod) (payload uuid : string) (n : nat) : list Move :=
  MAccept :: MStep t (ask method payload) :: repeat (MStep t (drawing uuid)) n.
Definition let_run (t : nat) (uuid : string) (n : nat) : list Move := repeat (MStep t (drawing uuid)) n.

Definition run_starts : list Move :=
  serve 1 runnerMethodPrepare "package" "u-1" 40 ++ serve 2 runnerMethodStartOnce "" "u-2" 80.
Definition run_acts : list Move :=
  run_starts ++ serve 5 runnerMethodApplyOnce "write" "u-3" 60.
Definition run_interrupts : list Move :=
  run_acts ++ MOther (CAcknowledgeReport "rpt_u3") [] :: serve 6 runnerMethodApplyOnce "interrupt" "u-4" 60.
Definition run_life : list Move :=
  run_interrupts ++ let_run 3 "u-5" 60 ++ let_run 4 "u-6" 200 ++ let_run 0 "" 40.

(** A reconciliation session that is about to be authorised to start the process. *)
Definition run_session : list Move :=
  serve 1 runnerMethodPrepare "package" "u-1" 40
  ++ MAccept :: MStep 2 (ask runnerMethodBeginReconciliation "")
  :: repeat (MStep 2 (mkSReply None true 2 1 1 "" (mkRequest "t1" "s1" runnerMethodStartOnce "") [] "u-2")) 16.

Definition summary (e : Ev) : string :=
  match e with
  | VDb _ (mkCall c _ (inr _)) =>
      match c with
      | CAuthorizeSpawnOnce _ => "authorized"
      | CRecordSpawned _ _ _ => "recorded"
      | CApplyOnce _ _ => "applied"
      | CFreezeActionReport _ _ _ _ _ => "action report"
      | CFreezeStartedReport _ _ _ => "started report"
      | CCloseActionAdmission _ _ => "admission closed"
      | CFreezeTerminalReport _ _ _ _ => "terminal report"
      | CMarkContainmentEmpty _ _ => "empty"
      | CMarkLocalClosed _ _ => "closed"
      | _ => "call"
      end
  | VDb _ _ => "failed call"
  | VOther _ => "other"
  | VStart _ _ _ => "start"
  | VSignal _ _ _ _ => "signal"
  | VWrite _ _ _ => "write"
  | VReap _ _ => "reap"
  | VRemoveLock _ => "lock removed"
  end.

(** The whole life of the process, as the log has it, and no thread is left. *)
Example run_life_log :
  summary <$> y_log (supervise run_identity run_life run_db)
  = ["authorized"; "start"; "recorded"; "applied"; "write"; "action report"; "other"; "applied"; "signal";
     "action report"; "started report"; "admission closed"; "reap"; "terminal report"; "empty"; "closed";
     "lock removed"]
  /\ Forall (fun th => finished th = true) (y_threads (supervise run_identity run_life run_db)).
Proof. split; [vm_compute; reflexivity|]. apply (bool_decide_unpack _). vm_compute. exact I. Qed.

Lemma run_db_ok : db_ok run_db.
Proof.
  eapply runs_ok; [apply empty_db_ok|]. apply run_all_runs. apply (bool_decide_unpack _). vm_compute. exact I.
Qed.
