(* ===== verification/SupervisorProperties.v ===== *)
(** * Properties of the process supervisor

    What every run of a supervisor guarantees, whatever the order in which its
    goroutines move, whatever the environment answers, and whatever other processes
    write to the database in between; each with an instance on the runs of
    [SupervisorScenario] where it has hypotheses. *)
From S2P Require Import Prelude GoStrings DaemonProtocol ProcessCmd DaemonMessages LocalPaths StateSchema StateQueries.
From S2P Require Import StateTx StateReport StateProcess StateAction StateInvariant StateTrace StateHistory ClientWorld Reconciliation.
From S2P Require Import SupervisorWorld ProcessGroup Supervisor SupervisorLogic SupervisorInvariant SupervisorSteps.
From S2P Require Import SupervisorProgress SupervisorScenario.
From stdpp Require Import options.
Local Open Scope Z_scope.

(** ** Reading a state *)

(** Thread [t] holds lock [l] in mode [m]. *)
Definition holds (y : Sys) (t : nat) (l : LockId) (m : Mode) : bool :=
  match y_threads y !! t with Some th => has l m th | None => false end.
Definition waiting (y : Sys) (t : nat) : bool :=
  match y_threads y !! t with Some th => awaits (th_prog th) | None => false end.
Definition accessing (y : Sys) (t : nat) : option (Location * bool) :=
  match y_threads y !! t with Some th => accesses (th_prog th) | None => None end.
(** The process a goroutine watches. *)
Definition watches (y : Sys) (t : nat) : option nat :=
  match y_threads y !! t with Some th => gh_watch (ghost_of (th_job th)) | None => None end.

(** ** Lists *)

Lemma sorted_sublist {A} (R : A -> A -> Prop) l1 l2 :
  sublist l1 l2 -> StronglySorted R l2 -> StronglySorted R l1.
Proof.
  induction 1 as [|x l1 l2 Hs IH|x l1 l2 Hs IH]; intros H; [done| |].
  - apply StronglySorted_inv in H as [H Hall]. constructor; [by apply IH|].
    apply Forall_forall. intros z Hz. rewrite Forall_forall in Hall. apply Hall. by eapply sublist_subseteq.
  - apply StronglySorted_inv in H as [H _]. by apply IH.
Qed.

Lemma sublist_fmap' {A B} (f : A -> B) l1 l2 : sublist l1 l2 -> sublist (f <$> l1) (f <$> l2).
Proof. induction 1; simpl; by constructor. Qed.

Section Properties.
Context {RC : ReportCodec} {CC : ClientCodec} {SC : SupervisorCodec} {PC : PayloadCodec}.
Context (bootstrap : supervisorIdentityBootstrap).
Local Abbreviation sup := (processState bootstrap).
Local Abbreviation supervise := (supervise bootstrap).

Lemma supervise_snoc l m db :
  supervise (l ++ [m]) db = default (supervise l db) (move sup (body bootstrap) m (supervise l db)).
Proof. unfold supervise, execute. by rewrite fold_left_app. Qed.

Lemma own_calls l db t c : VDb t c ∈ y_log (supervise l db) -> wf_cmd (c_cmd c) /\ own_call sup (c_cmd c).
Proof.
  intros H. apply list_elem_of_split in H as (past & later & H).
  exact (in_lawful _ _ _ (supervise_inv bootstrap db l) _ _ _ H).
Qed.

(** What the supervisor was told it may start or execute is in the history of the
    database. *)
Lemma authorized_calls L :
  (forall t c, VDb t c ∈ L -> own_call sup (c_cmd c)) ->
  (length (List.filter authorizes L) <= length (List.filter (spawns (processID bootstrap)) (omap call_of L)))%nat.
Proof.
  induction L as [|e L IH]; intros Hown; simpl; [lia|].
  assert (forall t c, VDb t c ∈ L -> own_call sup (c_cmd c)) as Hown' by (intros t c H; eapply Hown; by right).
  specialize (IH Hown'). change (omap call_of L) with (list_omap Ev Call call_of L) in IH.
  destruct e as [t c| | | | | |]; simpl; try lia; [|destruct (spawns _ _); simpl; lia].
  fold (authorizes (VDb t c)). destruct (authorizes (VDb t c)) eqn:E; simpl; [|destruct (spawns _ _); simpl; lia].
  destruct c as [cmd faults r]. destruct cmd; try discriminate E. destruct r as [|[|[]| | |]]; try discriminate E.
  pose proof (Hown t _ (list_elem_of_here _ _)) as Ho. simpl in Ho. subst s.
  assert (spawns (processID bootstrap) (mkCall (CAuthorizeSpawnOnce sup) faults (inr (OSpawn true))) = true) as ->.
  { unfold spawns. simpl. by apply bool_decide_eq_true. }
  simpl. lia.
Qed.

Lemma executed_calls L :
  (forall t c, VDb t c ∈ L -> own_call sup (c_cmd c)) ->
  sublist (snd <$> omap executes L) (omap (admitted (processID bootstrap)) (omap call_of L)).
Proof.
  induction L as [|e L IH]; intros Hown; [constructor|].
  assert (forall t c, VDb t c ∈ L -> own_call sup (c_cmd c)) as Hown' by (intros t c H; eapply Hown; by right).
  specialize (IH Hown'). destruct e as [t c|c| | | | |]; simpl; try exact IH;
    [|destruct (admitted _ c); [by constructor|done]].
  destruct (executes (VDb t c)) as [a|] eqn:E; unfold executes in E.
  - destruct c as [cmd faults r]. destruct cmd; try discriminate E.
    destruct r as [|[| |[]| |]]; try discriminate E. simplify_eq.
    pose proof (Hown t _ (list_elem_of_here _ _)) as Ho. simpl in Ho. subst s. simpl.
    assert (admitted (processID bootstrap) (mkCall (CApplyOnce sup action) faults (inr (OApply ApplyExecute r)))
            = Some (a_Seq action)) as ->.
    { unfold admitted. simpl. by rewrite bool_decide_true. }
    by constructor.
  - rewrite E. destruct (admitted _ c); [by constructor|done].
Qed.

(** C11: while a reconciliation session is open, no other goroutine of the
    supervisor writes the database: the next move logs a call of the session's own
    thread or of none. *)
Theorem reconciliation_fence l m db s t c :
  holds (supervise l db) s LRecon Writing = true ->
  VDb t c ∈ drop (length (y_log (supervise l db))) (y_log (supervise (l ++ [m]) db)) -> t = s.
Proof.
  intros Hs Hin. rewrite supervise_snoc in Hin. pose proof (supervise_inv bootstrap db l) as Hinv.
  set (y := supervise l db) in *. unfold holds in Hs. destruct (y_threads y !! s) as [th|] eqn:Ht; [|done].
  apply bool_decide_eq_true in Hs. unfold move in Hin. destruct (alive y); simpl in Hin;
    [|by rewrite drop_all in Hin; apply elem_of_nil in Hin].
  destruct m as [t0 rp|c0 faults|].
  - unfold step_thread in Hin. destruct (y_threads y !! t0) as [[j [|X e k] g]|] eqn:Ht0;
      [by rewrite drop_all in Hin; apply elem_of_nil in Hin| |by rewrite drop_all in Hin; apply elem_of_nil in Hin].
    destruct (perform _ _ _ _ _ _) as [[a y']|] eqn:Hp; [|by rewrite drop_all in Hin; apply elem_of_nil in Hin].
    simpl in Hin. rewrite (perform_log _ _ _ _ _ _ _ Hp), drop_app_length in Hin.
    destruct (occurs_call _ _ _ _ _ _ _ _ _ _ Hinv Ht0 _ _ Hin) as [-> _].
    destruct (decide (t0 = s)) as [|Hne]; [done|].
    destruct (locked_out _ _ _ _ _ _ _ LRecon Hinv (not_eq_sym Hne) Ht Ht0 Hs).
    pose proof (step_pre _ _ _ _ _ _ _ _ Hinv Ht0) as Hpre.
    destruct e; try (by apply elem_of_nil in Hin); [by destruct (Hpre "") as (_ & _ & ? & _)|].
    destruct x; simpl in Hin; try (by apply elem_of_nil in Hin); try (by apply list_elem_of_singleton in Hin).
    destruct (a.2); [by apply list_elem_of_singleton in Hin|by apply elem_of_nil in Hin].
  - destruct (decide (wf_cmd c0)); [|by rewrite drop_all in Hin; apply elem_of_nil in Hin].
    destruct (run_cmd _ _ _). simpl in Hin. rewrite drop_app_length in Hin. by apply list_elem_of_singleton in Hin.
  - destruct (y_shutdown y); simpl in Hin; rewrite drop_all in Hin; by apply elem_of_nil in Hin.
Qed.

(** C12: over a run in which nobody deletes the process's row, the command is
    started at most once, and at no time more often than the database has
    authorised it. *)
Theorem command_starts_once l db :
  db_ok db -> keeps (processID bootstrap) (omap call_of (y_log (supervise l db))) ->
  (length (List.filter is_start (y_log (supervise l db)))
   <= length (List.filter authorizes (y_log (supervise l db))) <= 1)%nat.
Proof.
  intros Hok Hk. pose proof (supervise_inv bootstrap db l) as Hinv.
  pose proof (in_starts _ _ _ Hinv). pose proof (spawns_once _ _ _ _ Hok (in_runs _ _ _ Hinv) Hk).
  pose proof (authorized_calls (y_log (supervise l db)) (fun t c H => proj2 (own_calls l db t c H))).
  lia.
Qed.

(** C13: input and interruptions reach the process in the order of the actions'
    sequence numbers and each at most once: over a run in which nobody deletes the
    process's row, the numbers of the effects strictly increase. *)
Theorem actions_take_effect_in_order l db :
  db_ok db -> keeps (processID bootstrap) (omap call_of (y_log (supervise l db))) ->
  StronglySorted Z.lt (snd <$> omap touched (y_log (supervise l db))).
Proof.
  intros Hok Hk. pose proof (supervise_inv bootstrap db l) as Hinv.
  eapply sorted_sublist; [by apply sublist_fmap', (in_touched _ _ _ Hinv)|].
  eapply sorted_sublist; [apply executed_calls; intros t c H; by apply (own_calls l db) in H as [_ ?]|].
  exact (admissions_sorted _ _ _ _ Hok (in_runs _ _ _ Hinv) Hk).
Qed.

Definition touches_for (e : Ev) : option (string * Z) :=
  match e with
  | VWrite _ (ByAction id seq) _ | VSignal _ (ByAction id seq) _ _ => Some (id, seq)
  | _ => None
  end.

(** Whenever a signal or input reaches the process for an action, that action is
    the last one the database had told the supervisor to execute. *)
Lemma effects_follow_admission l db past e later a :
  y_log (supervise l db) = past ++ e :: later -> touches_for e = Some a ->
  last (omap executes past) = Some a.
Proof.
  intros Hlog Ha. pose proof (in_lawful _ _ _ (supervise_inv bootstrap db l) _ _ _ Hlog) as H.
  destruct e as [| | |t [id seq|] r [|]|t [id seq|] r| |]; simpl in Ha; simplify_eq; simpl in H; tauto.
Qed.

(** C14: no deadlock: a goroutine that waits for a lock or for a channel, in any
    reachable state, is one that can move, or follows through those that have what
    it waits for to one that can move, without an error and without a context
    ending. *)
Theorem supervisor_cannot_deadlock l db t :
  waiting (supervise l db) t = true ->
  exists t', rtc (held_up (supervise l db)) t t'
    /\ is_Some (step_thread sup (body bootstrap) t' sreply (supervise l db)).
Proof.
  intros Hw. unfold waiting in Hw. destruct (y_threads _ !! t) as [th|] eqn:Ht; [|done].
  eapply waiting_moves; [apply supervise_inv|exact Ht|exact Hw].
Qed.


(** C15: a process group is never signalled after its leader was reaped, when its
    number may belong to somebody else, and a leader is reaped at most once. *)
Theorem reaped_group_is_not_signalled l db past e later r :
  y_log (supervise l db) = past ++ e :: later ->
  (exists t why signal, e = VSignal t why r (Some signal)) \/ (exists t, e = VReap t r) ->
  forall t, VReap t r ∉ past.
Proof.
  intros Hlog He t Hin. pose proof (in_lawful _ _ _ (supervise_inv bootstrap db l) _ _ _ Hlog) as H.
  destruct He as [(t' & why & signal & ->)|(t' & ->)]; simpl in H; [destruct H as [H _]|]; apply H; by exists t.
Qed.

(** The lifetime lock is removed only after the database has recorded that
    nothing of the process is left locally. *)
Lemma lock_removed_after_closure l db past t later :
  y_log (supervise l db) = past ++ VRemoveLock t :: later ->
  exists t' faults o,
    VDb t' (mkCall (CMarkLocalClosed (processID bootstrap) (instanceID bootstrap)) faults (inr o)) ∈ past.
Proof. intros Hlog. exact (in_lawful _ _ _ (supervise_inv bootstrap db l) _ _ _ Hlog). Qed.

(** The goroutine that watches a process records its containment as empty
    only after the leader of its group was reaped. *)
Lemma empty_only_after_reaping l db past t c later r :
  watches (supervise l db) t = Some r ->
  y_log (supervise l db) = past ++ VDb t c :: later ->
  c_cmd c = CMarkContainmentEmpty (processID bootstrap) (instanceID bootstrap) ->
  exists t', VReap t' r ∈ past.
Proof.
  intros Hw Hlog Hc. pose proof (supervise_inv bootstrap db l) as Hinv. unfold watches in Hw.
  destruct (y_threads _ !! t) as [th|] eqn:Ht; [|done].
  eapply (in_emptied _ _ _ Hinv); [exact Ht| |exact Hlog|eauto].
  by rewrite (in_watch _ _ _ Hinv _ _ Ht).
Qed.

(** C16: the steps of a supervisor happen in the order that makes them safe: a signal or
    input that reaches the process for an action belongs to the last action the
    database had told the supervisor to execute; the goroutine that watches a process
    records its containment as empty only after the leader of its group was reaped;
    and the lifetime lock is removed only after the database has recorded that nothing
    of the process is left locally. *)
Theorem supervisor_steps_are_ordered l db past e later :
  y_log (supervise l db) = past ++ e :: later ->
  (forall a, touches_for e = Some a -> last (omap executes past) = Some a)
  /\ (forall t c r, e = VDb t c -> watches (supervise l db) t = Some r ->
       c_cmd c = CMarkContainmentEmpty (processID bootstrap) (instanceID bootstrap) ->
       exists t', VReap t' r ∈ past)
  /\ (forall t, e = VRemoveLock t ->
       exists t' faults o,
         VDb t' (mkCall (CMarkLocalClosed (processID bootstrap) (instanceID bootstrap)) faults (inr o)) ∈ past).
Proof.
  intros Hlog. split_and!.
  - intros a Ha. by eapply effects_follow_admission.
  - intros t c r -> Hw Hc. by eapply empty_only_after_reaping.
  - intros t ->. by eapply lock_removed_after_closure.
Qed.

(** C18: however its goroutines interleave, with each other and with other writers, a
    supervisor's run is a history of calls of the database, the calls it makes are
    about its own process and instance, and the database's invariant is kept. *)
Theorem supervisor_runs_are_histories l db :
  db_ok db ->
  runs db (omap call_of (y_log (supervise l db))) (y_db (supervise l db))
  /\ db_ok (y_db (supervise l db))
  /\ forall t c, VDb t c ∈ y_log (supervise l db) -> own_call sup (c_cmd c).
Proof.
  intros Hok. pose proof (in_runs _ _ _ (supervise_inv bootstrap db l)) as Hr. split_and!; [done| |].
  - by eapply runs_ok.
  - intros t c H. by apply own_calls in H as [_ ?].
Qed.

(** The error a client reads from a response is classified by the supervisor's own
    rule as the error the supervisor had: blocked actions, storage exhaustion and
    its end keep their meaning over the control connection. *)
Theorem error_class_round_trip e :
  error_text e <> "" ->
  exists e', runnerResponseError (runnerErrorResponse e) = Some e'
    /\ rs_ErrorCode (runnerErrorResponse e') = rs_ErrorCode (runnerErrorResponse e).
Proof.
  intros Ht. unfold runnerResponseError. cbn [rs_OK rs_Error runnerErrorResponse].
  rewrite bool_decide_false by done. eexists. split; [done|]. cbn [rs_ErrorCode runnerErrorResponse].
  destruct (errors_Is e (SState ErrActionBlocked)); [reflexivity|].
  destruct (errors_Is e SStorageExhaustionTerminalReady); [reflexivity|].
  destruct (isStorageExhaustion e); reflexivity.
Qed.
End Properties.

(** ** Instances *)

Local Abbreviation life := (y_log (supervise run_identity run_life run_db)).
Local Abbreviation run_sup := (processState run_identity).

Lemma reconciliation_fence_witness :
  exists t, VDb t (mkCall (CAuthorizeSpawnOnce run_sup) [] (inr (OSpawn true)))
    ∈ drop (length (y_log (supervise run_identity run_session run_db)))
        (y_log (supervise run_identity (run_session ++ [MStep 2 (drawing "u-2")]) run_db))
    /\ t = 2%nat.
Proof.
  exists 2%nat. assert (VDb 2 (mkCall (CAuthorizeSpawnOnce run_sup) [] (inr (OSpawn true)))
    ∈ drop (length (y_log (supervise run_identity run_session run_db)))
        (y_log (supervise run_identity (run_session ++ [MStep 2 (drawing "u-2")]) run_db))) as H.
  { vm_compute. left. }
  split; [exact H|].
  apply (reconciliation_fence run_identity run_session (MStep 2 (drawing "u-2")) run_db 2 2
           (mkCall (CAuthorizeSpawnOnce run_sup) [] (inr (OSpawn true)))); [vm_compute; reflexivity|exact H].
Defined.

Lemma command_starts_once_witness :
  length (List.filter is_start life) = 1%nat
  /\ (length (List.filter is_start life) <= length (List.filter authorizes life) <= 1)%nat.
Proof.
  split; [vm_compute; reflexivity|].
  apply (command_starts_once run_identity run_life run_db); [apply run_db_ok|].
  apply (bool_decide_unpack _). vm_compute. exact I.
Defined.

Lemma actions_take_effect_in_order_witness :
  snd <$> omap touched life = [1; 2] /\ StronglySorted Z.lt (snd <$> omap touched life).
Proof.
  split; [vm_compute; reflexivity|].
  apply (actions_take_effect_in_order run_identity run_life run_db); [apply run_db_ok|].
  apply (bool_decide_unpack _). vm_compute. exact I.
Defined.

(** A step of the log, at its position. *)
Lemma life_at n e : life !! n = Some e -> life = firstn n life ++ e :: drop (S n) life.
Proof. intros H. symmetry. by apply take_drop_middle. Qed.

(** A connection that has to wait for the session. *)
Definition run_waits : list Move := run_session ++ serve 3 runnerMethodPrepare "package" "u-3" 1.

Lemma supervisor_cannot_deadlock_witness :
  exists t', rtc (held_up (supervise run_identity run_waits run_db)) 3%nat t'
    /\ is_Some (step_thread run_sup (body run_identity) t' sreply (supervise run_identity run_waits run_db)).
Proof. apply (supervisor_cannot_deadlock run_identity run_waits run_db 3). vm_compute. reflexivity. Defined.

(** Two connections that ask for the status at once. *)
Definition run_reads : list Move :=
  serve 1 runnerMethodStatus "" "u-1" 1 ++ serve 2 runnerMethodStatus "" "u-2" 1.


Lemma reaped_group_is_not_signalled_witness :
  life !! 12%nat = Some (VReap 4 0) /\ forall t, VReap t 0 ∉ firstn 12 life.
Proof.
  split; [vm_compute; reflexivity|].
  apply (reaped_group_is_not_signalled run_identity run_life run_db (firstn 12 life) (VReap 4 0) (drop 13 life));
    [|right; by exists 4%nat].
  apply life_at. vm_compute. reflexivity.
Defined.

Lemma supervisor_steps_are_ordered_witness :
  last (omap executes (firstn 8 life)) = Some ("a2", 2)
  /\ (exists t, VReap t 0 ∈ firstn 14 life)
  /\ exists t faults o, VDb t (mkCall (CMarkLocalClosed "p1" "s1") faults (inr o)) ∈ firstn 16 life.
Proof.
  split_and!.
  - refine (proj1 (supervisor_steps_are_ordered run_identity run_life run_db (firstn 8 life)
      (VSignal 6 (ByAction "a2" 2) 0 (Some SIGINT)) (drop 9 life) _) _ eq_refl).
    apply life_at. vm_compute. reflexivity.
  - refine (proj1 (proj2 (supervisor_steps_are_ordered run_identity run_life run_db (firstn 14 life)
      (VDb 4 (mkCall (CMarkContainmentEmpty "p1" "s1") [] (inr ODone))) (drop 15 life) _)) 4%nat _ _ eq_refl _ eq_refl);
      [apply life_at|]; vm_compute; reflexivity.
  - refine (proj2 (proj2 (supervisor_steps_are_ordered run_identity run_life run_db (firstn 16 life)
      (VRemoveLock 0) (drop 17 life) _)) 0%nat eq_refl).
    apply life_at. vm_compute. reflexivity.
Defined.

Lemma supervisor_runs_are_histories_witness : db_ok (y_db (supervise run_identity run_life run_db)).
Proof. apply (supervisor_runs_are_histories run_identity run_life run_db run_db_ok). Defined.

Lemma error_class_round_trip_witness :
  exists e', runnerResponseError (runnerErrorResponse [SText "disk"; SNoSpace]) = Some e'
    /\ rs_ErrorCode (runnerErrorResponse e') = runnerErrorStorageExhaustion.
Proof. apply (error_class_round_trip [SText "disk"; SNoSpace]). discriminate. Defined.
